(** * HIP scene-file ingestion: archive reader, scene parser, cache, store

    A shallow embedding of the HIP pipeline of houdini-claw
    (hip-parser/cpio-reader.ts, hip-parser/hip-content-parser.ts,
    hip-parser/index.ts, hip-downloader.ts, hip-extractor.ts and the HIP
    part of db.ts) and the properties proved about it.

    Conventions.
    - A JavaScript string is the list of its UTF-16 code units, a Buffer
      the list of its bytes; both are [list Z].
    - A JavaScript number that the code reads with [parseInt] or uses
      as an offset is a [num]: NaN, or the integer it denotes. Where the
      code holds a double, that is this integer up to 2^53 and the
      double nearest to it above; the rounding is not modelled.
    - A [while] loop whose termination is not evident takes fuel and
      returns [None] when the fuel runs out; a parser that may not
      return gives an [outcome].
    - Of the file system, the failures that the code catches are
      modelled, an oracle saying which call throws; a call that stands
      outside any [try] is taken to go through. *)

From Stdlib Require Import ZArith List Lia Bool Ascii QArith Permutation.
From Stdlib Require String.
Import String.StringSyntax.
Delimit Scope string_scope with string.
Import ListNotations.
Open Scope Z_scope.

(* ================================================================== *)
(** ** JavaScript strings *)

Module JS.

Definition jsstring := list Z.

(** The code units of an ASCII literal. *)
Definition lit (s : String.string) : jsstring :=
  map (fun a => Z.of_N (N_of_ascii a)) (String.list_ascii_of_string s).
Arguments lit s%_string_scope.

Fixpoint str_eqb (a b : jsstring) : bool :=
  match a, b with
  | [], [] => true
  | x :: a', y :: b' => (x =? y) && str_eqb a' b'
  | _, _ => false
  end.

Definition slen (s : jsstring) : Z := Z.of_nat (List.length s).

(** WhiteSpace and LineTerminator of ECMAScript: what [trim], [\s] and
    the number parsers skip. *)
Definition isLineTerminator (c : Z) : bool :=
  (c =? 10) || (c =? 13) || (c =? 8232) || (c =? 8233).

Definition isWhiteSpace (c : Z) : bool :=
  (c =? 9) || (c =? 11) || (c =? 12) || (c =? 32) || (c =? 160)
  || (c =? 5760) || ((8192 <=? c) && (c <=? 8202)) || (c =? 8239)
  || (c =? 8287) || (c =? 12288) || (c =? 65279).

Definition isSpace (c : Z) : bool := isWhiteSpace c || isLineTerminator c.

Definition isDigit (c : Z) : bool := (48 <=? c) && (c <=? 57).

Definition isWord (c : Z) : bool :=
  isDigit c || ((65 <=? c) && (c <=? 90)) || ((97 <=? c) && (c <=? 122))
  || (c =? 95).

Fixpoint dropWhile (p : Z -> bool) (s : jsstring) : jsstring :=
  match s with
  | c :: s' => if p c then dropWhile p s' else s
  | [] => []
  end.

Fixpoint takeWhile (p : Z -> bool) (s : jsstring) : jsstring :=
  match s with
  | c :: s' => if p c then c :: takeWhile p s' else []
  | [] => []
  end.

Definition trimStart (s : jsstring) : jsstring := dropWhile isSpace s.
Definition trimEnd (s : jsstring) : jsstring :=
  rev (dropWhile isSpace (rev s)).
(** [String.prototype.trim]. *)
Definition trim (s : jsstring) : jsstring := trimEnd (trimStart s).

Fixpoint startsWith (s p : jsstring) {struct p} : bool :=
  match p, s with
  | [], _ => true
  | x :: p', y :: s' => (x =? y) && startsWith s' p'
  | _ :: _, [] => false
  end.

(** [String.prototype.includes]. *)
Fixpoint includes (s p : jsstring) : bool :=
  startsWith s p ||
  match s with
  | [] => false
  | _ :: s' => includes s' p
  end.

Definition endsWith (s p : jsstring) : bool := startsWith (rev s) (rev p).

(** [s.split(sep)] for a one-unit separator: never an empty array. *)
Fixpoint split1 (sep : Z) (s : jsstring) : list jsstring :=
  match s with
  | [] => [[]]
  | c :: s' =>
      if c =? sep then [] :: split1 sep s'
      else match split1 sep s' with
           | l :: ls => (c :: l) :: ls
           | [] => [[c]]
           end
  end.

(** [s.slice(a, b)] for constants [0 <= a <= b]. *)
Definition slice (s : jsstring) (a b : nat) : jsstring :=
  firstn (b - a) (skipn a s).

(** *** Numbers used as integers *)

Inductive num : Type :=
| NaN
| Int (z : Z).

Definition num_add (a b : num) : num :=
  match a, b with
  | Int x, Int y => Int (x + y)
  | _, _ => NaN
  end.

Definition num_sub (a b : num) : num :=
  match a, b with
  | Int x, Int y => Int (x - y)
  | _, _ => NaN
  end.

(** [a > b]: false as soon as one side is NaN. *)
Definition num_gt (a b : num) : bool :=
  match a, b with
  | Int x, Int y => x >? y
  | _, _ => false
  end.

(** ToInt32, on the integers. *)
Definition toInt32 (z : Z) : Z := (z + 2 ^ 31) mod 2 ^ 32 - 2 ^ 31.

Definition num_toInt32 (n : num) : Z :=
  match n with
  | NaN => 0
  | Int z => toInt32 z
  end.

(** The value of a digit in radix up to 36. *)
Definition digitVal (c : Z) : option Z :=
  if (48 <=? c) && (c <=? 57) then Some (c - 48)
  else if (97 <=? c) && (c <=? 122) then Some (c - 87)
  else if (65 <=? c) && (c <=? 90) then Some (c - 55)
  else None.

Definition radixDigit (R c : Z) : option Z :=
  match digitVal c with
  | Some d => if d <? R then Some d else None
  | None => None
  end.

(** The values of the longest prefix of radix-[R] digits. *)
Fixpoint digitsPrefix (R : Z) (s : jsstring) : list Z :=
  match s with
  | c :: s' =>
      match radixDigit R c with
      | Some d => d :: digitsPrefix R s'
      | None => []
      end
  | [] => []
  end.

Definition digitsValue (R : Z) (ds : list Z) : Z :=
  fold_left (fun acc d => acc * R + d) ds 0.

(** A leading sign and what follows it. *)
Definition splitSign (s : jsstring) : Z * jsstring :=
  match s with
  | 45 :: t => (-1, t)
  | 43 :: t => (1, t)
  | _ => (1, s)
  end.

(** A leading [0x] or [0X] removed. *)
Definition stripHexPrefix (s : jsstring) : jsstring :=
  match s with
  | 48 :: x :: t => if (x =? 120) || (x =? 88) then t else s
  | _ => s
  end.

(** [parseInt(s, R)] for [R] 10 or 16: leading white space, a sign, for
    radix 16 an optional [0x], then the longest digit prefix; NaN when
    that prefix is empty. [Int z] keeps the value that the digits denote.
    The code holds the double nearest to it: the same integer up to
    2^53, which covers the eight hexadecimal digits of a header field; a
    rounded value above, and Infinity for a decimal run of 309 digits or
    more. The rounding is not modelled, and of a value above 2^53 only
    what the rounding keeps is stated: that it is a number, and its
    sign. *)
Definition parseInt (s : jsstring) (R : Z) : num :=
  let '(sign, s2) := splitSign (trimStart s) in
  let s3 := if R =? 16 then stripHexPrefix s2 else s2 in
  match digitsPrefix R s3 with
  | [] => NaN
  | ds => Int (sign * digitsValue R ds)
  end.

(** *** Buffers *)

Definition buffer := list Z.

Definition blen (b : buffer) : Z := Z.of_nat (List.length b).

(** [adjustOffset] of Node's [Buffer.prototype.subarray]. *)
Definition adjustOffset (offset : num) (len : Z) : Z :=
  match offset with
  | NaN => 0
  | Int o =>
      if o =? 0 then 0
      else if o <? 0 then (if o + len >? 0 then o + len else 0)
      else if o <? len then o
      else len
  end.

(** [buf.subarray(start, end)]. *)
Definition subarray (b : buffer) (start end_ : num) : buffer :=
  let s := adjustOffset start (blen b) in
  let e := adjustOffset end_ (blen b) in
  let newLength := if e >? s then e - s else 0 in
  firstn (Z.to_nat newLength) (skipn (Z.to_nat s) b).

(** [buf.subarray(start)]. *)
Definition subarray_from (b : buffer) (start : num) : buffer :=
  let s := adjustOffset start (blen b) in
  skipn (Z.to_nat s) b.

(** [buf.toString("ascii")]: the high bit of each byte is cleared. *)
Definition toString_ascii (b : buffer) : jsstring :=
  map (fun x => Z.land x 127) b.

(** First index at or after [pos] where [needle] starts, or -1. *)
Fixpoint find_sub (needle s : list Z) (pos : Z) : Z :=
  match s with
  | [] => if startsWith [] needle then pos else -1
  | _ :: s' => if startsWith s needle then pos else find_sub needle s' (pos + 1)
  end.

(** [buf.indexOf(needle, byteOffset, "ascii")] for a non-empty ASCII
    needle: the offset is clamped to 32 bits, a negative one counts from
    the end, one too close to the end finds nothing. *)
Definition indexOf (b : buffer) (needle : list Z) (byteOffset : Z) : Z :=
  let off :=
    if byteOffset >? 2147483647 then 2147483647
    else if byteOffset <? -2147483648 then -2147483648
    else byteOffset in
  let len := blen b in
  let start :=
    if off <? 0 then (if off + len >=? 0 then len + off else 0)
    else if off + Z.of_nat (List.length needle) <=? len then off
    else -1 in
  if start =? -1 then -1
  else find_sub needle (skipn (Z.to_nat start) b) start.

(** *** UTF-8 decoding

    [buf.toString("utf-8")]: the decoder of the Encoding Standard, an
    ill-formed sequence giving U+FFFD per maximal subpart, no byte-order
    mark removed, code points above U+FFFF as surrogate pairs. *)

Record u8state : Type := mkU8 {
  u8_cp : Z; u8_seen : Z; u8_needed : Z; u8_lower : Z; u8_upper : Z }.

Definition u8_init : u8state := mkU8 0 0 0 128 191.

Definition units_of_cp (cp : Z) : list Z :=
  if cp <? 65536 then [cp]
  else [55296 + Z.shiftr (cp - 65536) 10; 56320 + Z.land (cp - 65536) 1023].

(** A byte met when no sequence is open. *)
Definition u8_lead (b : Z) : list Z * u8state :=
  if b <=? 127 then ([b], u8_init)
  else if (194 <=? b) && (b <=? 223) then
    ([], mkU8 (Z.land b 31) 0 1 128 191)
  else if (224 <=? b) && (b <=? 239) then
    ([], mkU8 (Z.land b 15) 0 2
           (if b =? 224 then 160 else 128) (if b =? 237 then 159 else 191))
  else if (240 <=? b) && (b <=? 244) then
    ([], mkU8 (Z.land b 7) 0 3
           (if b =? 240 then 144 else 128) (if b =? 244 then 143 else 191))
  else ([65533], u8_init).

Fixpoint u8_go (bytes : list Z) (st : u8state) : list Z :=
  match bytes with
  | [] => if u8_needed st =? 0 then [] else [65533]
  | b :: rest =>
      if u8_needed st =? 0 then
        let '(out, st') := u8_lead b in out ++ u8_go rest st'
      else if (u8_lower st <=? b) && (b <=? u8_upper st) then
        let cp := Z.lor (Z.shiftl (u8_cp st) 6) (Z.land b 63) in
        if u8_seen st + 1 =? u8_needed st then
          units_of_cp cp ++ u8_go rest u8_init
        else
          u8_go rest (mkU8 cp (u8_seen st + 1) (u8_needed st) 128 191)
      else
        let '(out, st') := u8_lead b in 65533 :: out ++ u8_go rest st'
  end.

Definition toString_utf8 (b : buffer) : jsstring := u8_go b u8_init.

(** [o ?? d]. *)
Definition orElse {V : Type} (o : option V) (d : V) : V :=
  match o with
  | Some v => v
  | None => d
  end.

(** *** Objects used as maps *)

(** A JavaScript object used as a map from strings: its own properties
    in the order they were first written. Writing [__proto__] with a
    value that is no object creates no property. *)
Definition jsobject (V : Type) := list (jsstring * V).

Fixpoint assocSet {V : Type} (k : jsstring) (v : V) (o : list (jsstring * V))
  : list (jsstring * V) :=
  match o with
  | [] => [(k, v)]
  | (k', v') :: o' =>
      if str_eqb k' k then (k', v) :: o' else (k', v') :: assocSet k v o'
  end.

Fixpoint assocGet {V : Type} (k : jsstring) (o : list (jsstring * V))
  : option V :=
  match o with
  | [] => None
  | (k', v') :: o' => if str_eqb k' k then Some v' else assocGet k o'
  end.

Fixpoint assocDelete {V : Type} (k : jsstring) (o : list (jsstring * V))
  : list (jsstring * V) :=
  match o with
  | [] => []
  | (k', v') :: o' =>
      if str_eqb k' k then o' else (k', v') :: assocDelete k o'
  end.

Definition objSet {V : Type} (k : jsstring) (v : V) (o : jsobject V)
  : jsobject V :=
  if str_eqb k (lit "__proto__") then o else assocSet k v o.

End JS.
Import JS.

(* ================================================================== *)
(** ** Archive Reader (hip-parser/cpio-reader.ts) *)

Module Cpio.

Record CpioEntry : Type := mkEntry {
  filename : jsstring;
  data : buffer;
  filesize : num;
  mode : num }.

Definition CPIO_MAGIC : jsstring := Eval cbv in lit "070701".
Definition CPIO_HEADER_SIZE : Z := 110.
Definition CPIO_TRAILER : jsstring := Eval cbv in lit "TRAILER!!!".

(** [(value + 3) & ~3], the bitwise operators working on 32-bit integers. *)
Definition align4 (value : num) : Z :=
  Z.land (num_toInt32 (num_add value (Int 3))) (Z.lnot 3).

(** One turn of the [while] loop of [parseCpioArchive], entered with
    [offset < buffer.length]. *)
Inductive turn : Type :=
| Break
| Continue (offset : Z)
| Push (entry : CpioEntry) (offset : Z).

Definition parseCpioTurn (buf : buffer) (offset : Z) : turn :=
  if offset + CPIO_HEADER_SIZE >? blen buf then Break
  else
    let headerStr :=
      toString_ascii
        (subarray buf (Int offset) (Int (offset + CPIO_HEADER_SIZE))) in
    let magic := slice headerStr 0 6 in
    if negb (str_eqb magic CPIO_MAGIC) then
      let nextMagic := indexOf buf CPIO_MAGIC (offset + 1) in
      if nextMagic =? -1 then Break else Continue nextMagic
    else
      let mode := parseInt (slice headerStr 14 22) 16 in
      let filesize := parseInt (slice headerStr 54 62) 16 in
      let namesize := parseInt (slice headerStr 94 102) 16 in
      let nameOffset := offset + CPIO_HEADER_SIZE in
      let nameEnd := num_sub (num_add (Int nameOffset) namesize) (Int 1) in
      let namePaddedEnd := align4 (num_add (Int nameOffset) namesize) in
      if namePaddedEnd >? blen buf then Break
      else
        let filename := toString_utf8 (subarray buf (Int nameOffset) nameEnd) in
        if str_eqb filename CPIO_TRAILER then Break
        else
          let dataOffset := namePaddedEnd in
          let dataEnd := num_add (Int dataOffset) filesize in
          let dataPaddedEnd := align4 dataEnd in
          if num_gt dataEnd (Int (blen buf)) then Break
          else
            let data := subarray buf (Int dataOffset) dataEnd in
            Push (mkEntry filename data filesize mode) dataPaddedEnd.

Fixpoint parseCpioLoop (fuel : nat) (buf : buffer) (offset : Z)
    (entries : list CpioEntry) : option (list CpioEntry) :=
  match fuel with
  | O => None
  | S fuel' =>
      if offset <? blen buf then
        match parseCpioTurn buf offset with
        | Break => Some entries
        | Continue offset' => parseCpioLoop fuel' buf offset' entries
        | Push e offset' => parseCpioLoop fuel' buf offset' (entries ++ [e])
        end
      else Some entries
  end.

Definition parseCpioArchive (fuel : nat) (buf : buffer)
  : option (list CpioEntry) :=
  parseCpioLoop fuel buf 0 [].

(** What a call gives: a value, an exception with its message, or no
    answer within the fuel. *)
Inductive outcome (A : Type) : Type :=
| Returned (a : A)
| Thrown (message : jsstring)
| OutOfFuel.
Arguments Returned {A} a.
Arguments Thrown {A} message.
Arguments OutOfFuel {A}.

Definition noMagicMessage (asStr : jsstring) : jsstring :=
  lit "Not a valid CPIO archive: magic not found (got " ++ asStr ++ lit ")".

Section Reader.

(** [gunzipSync] of node:zlib: the inflated bytes, or the message of the
    error it throws. *)
Variable gunzipSync : buffer -> jsstring + buffer.

Definition byteAt (b : buffer) (i : nat) : option Z := nth_error b i.

Definition isGzip (raw : buffer) : bool :=
  match byteAt raw 0, byteAt raw 1 with
  | Some b0, Some b1 => (b0 =? 31) && (b1 =? 139)
  | _, _ => false
  end.

(** After the gzip step of [readCpioFromBuffer]. *)
Definition locateCpio (raw : buffer) : jsstring + buffer :=
  let asStr := toString_ascii (subarray raw (Int 0) (Int 6)) in
  if negb (str_eqb asStr CPIO_MAGIC) then
    let after4 := toString_ascii (subarray raw (Int 4) (Int 10)) in
    if str_eqb after4 CPIO_MAGIC then inr (subarray_from raw (Int 4))
    else
      let magicIdx := indexOf raw CPIO_MAGIC 0 in
      if negb (magicIdx =? -1) && (magicIdx <? 256) then
        inr (subarray_from raw (Int magicIdx))
      else inl (noMagicMessage asStr)
  else inr raw.

Definition readCpioFromBuffer (fuel : nat) (buf : buffer)
  : outcome (list CpioEntry) :=
  let unzipped := if isGzip buf then gunzipSync buf else inr buf in
  match unzipped with
  | inl e => Thrown e
  | inr raw =>
      match locateCpio raw with
      | inl e => Thrown e
      | inr raw' =>
          match parseCpioArchive fuel raw' with
          | Some es => Returned es
          | None => OutOfFuel
          end
      end
  end.

End Reader.

Definition isTextByte (byte : Z) : bool :=
  (byte =? 9) || (byte =? 10) || (byte =? 13)
  || ((byte >=? 32) && (byte <=? 126)).

Definition isTextEntry (entry : CpioEntry) : bool :=
  match filesize entry with
  | Int 0 => false
  | _ =>
      let sample :=
        subarray (data entry) (Int 0) (Int (Z.min 512 (blen (data entry)))) in
      forallb isTextByte sample
  end.

Definition filterTextEntries (entries : list CpioEntry) : list CpioEntry :=
  filter isTextEntry entries.

(** *** Assembling an archive

    The writer's side of the "newc" format, as the header comment of
    [parseCpioArchive] lays it out: the magic, thirteen fields of eight
    hex digits, the name with its NUL, zero padding to a multiple of 4,
    the data, zero padding to a multiple of 4. *)

Definition hexDigit (d : Z) : Z := if d <? 10 then 48 + d else 55 + d.

Fixpoint hexN (n : nat) (v : Z) : list Z :=
  match n with
  | O => []
  | S n' => hexN n' (v / 16) ++ [hexDigit (v mod 16)]
  end.

Definition hex8 (v : Z) : list Z := hexN 8 v.

Definition pad4 (n : nat) : list Z := repeat 0 ((4 - n mod 4) mod 4)%nat.

Record Member : Type := mkMember {
  m_name : buffer;          (* the name's bytes, without the NUL *)
  m_mode : Z;
  m_data : buffer;
  m_ino : Z; m_uid : Z; m_gid : Z; m_nlink : Z; m_mtime : Z;
  m_devmajor : Z; m_devminor : Z; m_rdevmajor : Z; m_rdevminor : Z;
  m_check : Z }.

Definition encodeHeader (m : Member) : buffer :=
  CPIO_MAGIC ++ hex8 (m_ino m) ++ hex8 (m_mode m) ++ hex8 (m_uid m)
  ++ hex8 (m_gid m) ++ hex8 (m_nlink m) ++ hex8 (m_mtime m)
  ++ hex8 (blen (m_data m))
  ++ hex8 (m_devmajor m) ++ hex8 (m_devminor m) ++ hex8 (m_rdevmajor m)
  ++ hex8 (m_rdevminor m)
  ++ hex8 (blen (m_name m) + 1)
  ++ hex8 (m_check m).

Definition encodeMember (m : Member) : buffer :=
  encodeHeader m
  ++ (m_name m ++ [0]) ++ pad4 (110 + List.length (m_name m) + 1)
  ++ m_data m ++ pad4 (List.length (m_data m)).

Definition trailer : Member :=
  mkMember CPIO_TRAILER 0 [] 0 0 0 1 0 0 0 0 0 0.

Definition assemble (ms : list Member) : buffer :=
  concat (map encodeMember ms) ++ encodeMember trailer.

(** The Archive Entry a member is read back as. *)
Definition entryOf (m : Member) : CpioEntry :=
  mkEntry (toString_utf8 (m_name m)) (m_data m)
          (Int (blen (m_data m))) (Int (m_mode m)).

End Cpio.


(* ================================================================== *)
(** ** Regular expressions

    The fragment of JavaScript regular expressions the parser uses, as
    syntax, with a backtracking matcher: quantifiers are greedy, an
    alternative is tried left to right, a search starts at the leftmost
    position that matches. Only a character class is ever starred. *)

Module Regex.

Inductive regex : Type :=
| Eps
| Chr (c : Z)
| Cls (p : Z -> bool)
| Str (s : jsstring)
| Bol (multiline : bool)          (* ^ *)
| Eol                             (* $ without the m flag *)
| Seq (r1 r2 : regex)
| Alt (r1 r2 : regex)
| Opt (r : regex)                 (* r? *)
| Star (p : Z -> bool)            (* [class]* *)
| Plus (p : Z -> bool)            (* [class]+ *)
| Grp (n : nat) (r : regex).      (* the n-th capturing group *)

Fixpoint seq (rs : list regex) : regex :=
  match rs with
  | [] => Eps
  | [r] => r
  | r :: rs' => Seq r (seq rs')
  end.

Definition captures := list (nat * jsstring).

Fixpoint capture (cs : captures) (n : nat) : jsstring :=
  match cs with
  | [] => []
  | (m, s) :: cs' => if Nat.eqb m n then s else capture cs' n
  end.

Fixpoint stripPrefix (p s : jsstring) {struct p} : option jsstring :=
  match p, s with
  | [], _ => Some s
  | x :: p', y :: s' => if x =? y then stripPrefix p' s' else None
  | _ :: _, [] => None
  end.

Definition atLineStart (multiline : bool) (prev : option Z) : bool :=
  match prev with
  | None => true
  | Some c => multiline && isLineTerminator c
  end.

Section Matcher.
Context {A : Type}.

(** Greedy [class*]: the longest run first, then shorter ones. *)
Fixpoint star (p : Z -> bool) (prev : option Z) (s : jsstring)
    (k : option Z -> jsstring -> option A) : option A :=
  match s with
  | c :: s' =>
      if p c then
        match star p (Some c) s' k with
        | Some a => Some a
        | None => k prev s
        end
      else k prev s
  | [] => k prev s
  end.

(** [prev] is the code unit before the position, [s] what is left. *)
Fixpoint rmatch (r : regex) (prev : option Z) (s : jsstring) (cs : captures)
    (k : option Z -> jsstring -> captures -> option A) : option A :=
  match r with
  | Eps => k prev s cs
  | Chr c =>
      match s with
      | x :: s' => if x =? c then k (Some x) s' cs else None
      | [] => None
      end
  | Cls p =>
      match s with
      | x :: s' => if p x then k (Some x) s' cs else None
      | [] => None
      end
  | Str l =>
      match stripPrefix l s with
      | Some s' => k (match rev l with x :: _ => Some x | [] => prev end) s' cs
      | None => None
      end
  | Bol m => if atLineStart m prev then k prev s cs else None
  | Eol => match s with [] => k prev s cs | _ :: _ => None end
  | Seq r1 r2 =>
      rmatch r1 prev s cs (fun prev' s' cs' => rmatch r2 prev' s' cs' k)
  | Alt r1 r2 =>
      match rmatch r1 prev s cs k with
      | Some a => Some a
      | None => rmatch r2 prev s cs k
      end
  | Opt r1 =>
      match rmatch r1 prev s cs k with
      | Some a => Some a
      | None => k prev s cs
      end
  | Star p => star p prev s (fun prev' s' => k prev' s' cs)
  | Plus p =>
      match s with
      | x :: s' =>
          if p x then star p (Some x) s' (fun prev' s' => k prev' s' cs)
          else None
      | [] => None
      end
  | Grp n r1 =>
      rmatch r1 prev s cs
        (fun prev' s' cs' =>
           k prev' s' ((n, firstn (List.length s - List.length s') s) :: cs'))
  end.

End Matcher.

(** A match: where it starts, what it matched, what follows, the code
    unit before what follows, and the groups. *)
Record rmatch_result : Type := mkMatch {
  m_index : nat;
  m_text : jsstring;
  m_rest : jsstring;
  m_prev : option Z;
  m_caps : captures }.

Definition group (m : rmatch_result) (n : nat) : jsstring :=
  capture (m_caps m) n.

Fixpoint searchFrom (r : regex) (prev : option Z) (s : jsstring) (idx : nat)
  : option rmatch_result :=
  match rmatch r prev s [] (fun prev' s' cs => Some (prev', s', cs)) with
  | Some (prev', s', cs) =>
      Some (mkMatch idx (firstn (List.length s - List.length s') s) s' prev' cs)
  | None =>
      match s with
      | c :: s' => searchFrom r (Some c) s' (S idx)
      | [] => None
      end
  end.

(** [s.match(r)] and [r.exec(s)] for a regex without the g flag. *)
Definition rexec (r : regex) (s : jsstring) : option rmatch_result :=
  searchFrom r None s 0.

(** [s.replace(r, repl)] for a regex without the g flag. *)
Definition replaceFirst (r : regex) (repl s : jsstring) : jsstring :=
  match rexec r s with
  | Some m => firstn (m_index m) s ++ repl ++ m_rest m
  | None => s
  end.

(** [s.replace(/c/g, repl)] for a one-unit pattern. *)
Definition replaceAllChr (c : Z) (repl s : jsstring) : jsstring :=
  flat_map (fun x => if x =? c then repl else [x]) s.

(** The successive [exec] results of a regex with the g flag whose
    matches are never empty; each match shortens what is left, so the
    length of the input is fuel enough. *)
Fixpoint execAllFrom (fuel : nat) (r : regex) (prev : option Z) (s : jsstring)
  : list rmatch_result :=
  match fuel with
  | O => []
  | S fuel' =>
      match searchFrom r prev s 0 with
      | Some m => m :: execAllFrom fuel' r (m_prev m) (m_rest m)
      | None => []
      end
  end.

Definition execAll (r : regex) (s : jsstring) : list rmatch_result :=
  execAllFrom (S (List.length s)) r None s.

Definition notSpace (c : Z) : bool := negb (isSpace c).
(** [.] without the s flag. *)
Definition dot (c : Z) : bool := negb (isLineTerminator c).

End Regex.
Import Regex.

(* ================================================================== *)
(** ** Scene Parser (hip-parser/hip-content-parser.ts) *)

Module Hip.
Import Cpio.

(** *** Numbers read from text

    [Number(s)] yields a double; what the parser does with it depends
    only on whether it is NaN. A number is kept here as the exact value
    its literal denotes, [(-1)^neg * m * 10^e]; the double is that value
    rounded, and rounding is not modelled. *)
Inductive jsnumber : Type :=
| NumNaN
| NumInfinity (neg : bool)
| NumDec (neg : bool) (m : Z) (e : Z).

Definition isNaN (n : jsnumber) : bool :=
  match n with
  | NumNaN => true
  | _ => false
  end.

(** All of [s] is radix-[R] digits, and there is one at least. *)
Definition allDigits (R : Z) (s : jsstring) : option Z :=
  let ds := digitsPrefix R s in
  if Nat.eqb (List.length ds) (List.length s) && negb (Nat.eqb (List.length s) 0)
  then Some (digitsValue R ds)
  else None.

(** ExponentPart, or nothing, up to the end of the string. *)
Definition exponentPart (s : jsstring) : option Z :=
  match s with
  | [] => Some 0
  | c :: t =>
      if (c =? 101) || (c =? 69) then
        let '(neg, t') :=
          match t with
          | 45 :: u => (true, u)
          | 43 :: u => (false, u)
          | _ => (false, t)
          end in
        match allDigits 10 t' with
        | Some v => Some (if neg then - v else v)
        | None => None
        end
      else None
  end.

(** StrUnsignedDecimalLiteral other than [Infinity]. *)
Definition unsignedDecimal (s : jsstring) : option (Z * Z) :=
  let ip := takeWhile isDigit s in
  let r1 := dropWhile isDigit s in
  let '(fp, r2) :=
    match r1 with
    | 46 :: t => (takeWhile isDigit t, dropWhile isDigit t)
    | _ => ([], r1)
    end in
  match ip ++ fp with
  | [] => None
  | ds =>
      match exponentPart r2 with
      | Some e => Some (digitsValue 10 (digitsPrefix 10 ds), e - slen fp)
      | None => None
      end
  end.

Definition strDecimalLiteral (s : jsstring) : jsnumber :=
  let '(neg, u) :=
    match s with
    | 45 :: t => (true, t)
    | 43 :: t => (false, t)
    | _ => (false, s)
    end in
  if str_eqb u (lit "Infinity") then NumInfinity neg
  else match unsignedDecimal u with
       | Some (m, e) => NumDec neg m e
       | None => NumNaN
       end.

(** [Number(s)], StringToNumber of ECMAScript: white space trimmed, the
    empty string 0, a hex, octal or binary integer, or a signed decimal
    literal; NaN when the whole of the string is none of these. *)
Definition Number (s : jsstring) : jsnumber :=
  let t := trim s in
  match t with
  | [] => NumDec false 0 0
  | 48 :: x :: ds =>
      let nonDecimal (R : Z) :=
        match allDigits R ds with
        | Some v => NumDec false v 0
        | None => NumNaN
        end in
      if (x =? 120) || (x =? 88) then nonDecimal 16
      else if (x =? 111) || (x =? 79) then nonDecimal 8
      else if (x =? 98) || (x =? 66) then nonDecimal 2
      else strDecimalLiteral t
  | _ => strDecimalLiteral t
  end.

(** *** Types *)

Inductive ParamValue : Type :=
| PNumber (n : jsnumber)
| PNumbers (ns : list jsnumber)
| PString (s : jsstring).

Record HipParameter : Type := mkParam {
  p_name : jsstring;
  p_value : ParamValue;
  p_isDefault : bool;
  p_expression : option jsstring }.

Record HipNode : Type := mkNode {
  n_path : jsstring;
  n_type : jsstring;
  n_category : jsstring;
  n_name : jsstring;
  n_parameters : list HipParameter;
  n_flags : jsobject bool }.

(** [Partial<HipNode>]. *)
Record PartialNode : Type := mkPartial {
  pn_path : option jsstring;
  pn_type : option jsstring;
  pn_category : option jsstring;
  pn_name : option jsstring;
  pn_parameters : option (list HipParameter);
  pn_flags : option (jsobject bool) }.

Record HipConnection : Type := mkConn {
  c_from : jsstring;
  c_fromOutput : num;
  c_to : jsstring;
  c_toInput : num }.

Record HipParseResult : Type := mkResult {
  hipVersion : jsstring;
  saveTime : jsstring;
  nodes : list HipNode;
  connections : list HipConnection;
  metadata : jsobject jsstring }.

(** *** Patterns *)

Definition quote (c : Z) : bool := (c =? 34) || (c =? 39).
Definition notQuoteNl (c : Z) : bool := negb (quote c || (c =? 10)).

(** [/(?:houdini_version|_HIP_SAVEVERSION)\s*=?\s*[Q']?(\d+\.\d+(?:\.\d+)?)/],
    [Q] standing for the double quote. *)
Definition RE_VERSION : regex :=
  seq [Alt (Str (lit "houdini_version")) (Str (lit "_HIP_SAVEVERSION"));
       Star isSpace; Opt (Chr 61); Star isSpace; Opt (Cls quote);
       Grp 1 (seq [Plus isDigit; Chr 46; Plus isDigit;
                   Opt (Seq (Chr 46) (Plus isDigit))])].

(** [/(?:_HIP_SAVETIME|hip_savetime)\s*=?\s*[Q']?([^Q'\n]+)/] *)
Definition RE_SAVE_TIME : regex :=
  seq [Alt (Str (lit "_HIP_SAVETIME")) (Str (lit "hip_savetime"));
       Star isSpace; Opt (Chr 61); Star isSpace; Opt (Cls quote);
       Grp 1 (Plus notQuoteNl)].

(** [/(\w+)\s*=\s*[Q']?([^Q'\n]+)[Q']?/g] *)
Definition RE_VAR : regex :=
  seq [Grp 1 (Plus isWord); Star isSpace; Chr 61; Star isSpace;
       Opt (Cls quote); Grp 2 (Plus notQuoteNl); Opt (Cls quote)].

(** [/^\s*flags\s*=\s*(.+)/m] *)
Definition RE_FLAGS : regex :=
  seq [Bol true; Star isSpace; Str (lit "flags"); Star isSpace; Chr 61;
       Star isSpace; Grp 1 (Plus dot)].

(** [/^type\s*=\s*(\S+)/] *)
Definition RE_TYPE : regex :=
  seq [Bol false; Str (lit "type"); Star isSpace; Chr 61; Star isSpace;
       Grp 1 (Plus notSpace)].

(** [/^name\s*=?\s*(\S+)/] *)
Definition RE_NAME : regex :=
  seq [Bol false; Str (lit "name"); Star isSpace; Opt (Chr 61); Star isSpace;
       Grp 1 (Plus notSpace)].

(** [/^name\s+(\S+)/] *)
Definition RE_PARM_NAME : regex :=
  seq [Bol false; Str (lit "name"); Plus isSpace; Grp 1 (Plus notSpace)].

(** [/^(?:default)?\s*value\s+(.+)/] *)
Definition RE_PARM_VALUE : regex :=
  seq [Bol false; Opt (Str (lit "default")); Star isSpace; Str (lit "value");
       Plus isSpace; Grp 1 (Plus dot)].

(** [/^expression\s+(.+)/] *)
Definition RE_EXPRESSION : regex :=
  seq [Bol false; Str (lit "expression"); Plus isSpace; Grp 1 (Plus dot)].

(** [/^wire\s+(\S+)\s+(\d+)\s+(\S+)\s+(\d+)/] *)
Definition RE_WIRE : regex :=
  seq [Bol false; Str (lit "wire"); Plus isSpace; Grp 1 (Plus notSpace);
       Plus isSpace; Grp 2 (Plus isDigit); Plus isSpace;
       Grp 3 (Plus notSpace); Plus isSpace; Grp 4 (Plus isDigit)].

(** [/^input\s+(\d+)\s+(\S+)\s+(\d+)/] *)
Definition RE_INPUT : regex :=
  seq [Bol false; Str (lit "input"); Plus isSpace; Grp 1 (Plus isDigit);
       Plus isSpace; Grp 2 (Plus notSpace); Plus isSpace;
       Grp 3 (Plus isDigit)].

Definition isSlash (c : Z) : bool := c =? 47.

(** *** Helpers *)

(** [filename.replace(/\\/g, "/").replace(/^\.\/*/, "").replace(/\/+$/, "")] *)
Definition normalizeFilename (filename : jsstring) : jsstring :=
  replaceFirst (Seq (Plus isSlash) Eol) []
    (replaceFirst (seq [Bol false; Chr 46; Star isSlash]) []
       (replaceAllChr 92 (lit "/") filename)).

(** ["/" + filename.replace(/\\/g, "/").replace(/^\/*/, "")] *)
Definition basePathOf (filename : jsstring) : jsstring :=
  lit "/" ++ replaceFirst (Seq (Bol false) (Star isSlash)) []
               (replaceAllChr 92 (lit "/") filename).

(** [basePath.split("/").pop()]. *)
Definition lastSegment (basePath : jsstring) : jsstring :=
  last (split1 47 basePath) [].

Definition finalizeNode (partial : PartialNode) (basePath : jsstring)
  : HipNode :=
  mkNode (orElse (pn_path partial) basePath)
         (orElse (pn_type partial) (lit "unknown"))
         (orElse (pn_category partial) (lit "SOP"))
         (orElse (pn_name partial) (lastSegment basePath))
         (orElse (pn_parameters partial) [])
         (orElse (pn_flags partial) []).

(** [toLowerCase], on the ASCII letters. *)
Definition toLowerCase (s : jsstring) : jsstring :=
  map (fun c => if (65 <=? c) && (c <=? 90) then c + 32 else c) s.

Definition inferCategory (nodeType filePath : jsstring) : jsstring :=
  let typeLower := toLowerCase nodeType in
  let pathLower := toLowerCase filePath in
  if includes typeLower (lit "pyro") || includes typeLower (lit "flip")
     || includes typeLower (lit "rbd") || includes typeLower (lit "vellum")
     || includes typeLower (lit "solver") || includes typeLower (lit "gas")
     || includes typeLower (lit "bullet")
  then lit "DOP"
  else if includes pathLower (lit "/dop/") || includes pathLower (lit "dopnet")
  then lit "DOP"
  else if includes pathLower (lit "/sop/") || includes pathLower (lit "sopnet")
  then lit "SOP"
  else if includes pathLower (lit "/vop/") || includes pathLower (lit "vopnet")
  then lit "VOP"
  else if includes pathLower (lit "/chop/") || includes pathLower (lit "chopnet")
  then lit "CHOP"
  else if includes pathLower (lit "/cop/") || includes pathLower (lit "copnet")
  then lit "COP"
  else if includes pathLower (lit "/rop/") || includes pathLower (lit "ropnet")
  then lit "ROP"
  else if includes pathLower (lit "/lop/") || includes pathLower (lit "lopnet")
  then lit "LOP"
  else if includes pathLower (lit "/top/") || includes pathLower (lit "topnet")
  then lit "TOP"
  else if includes pathLower (lit "/obj/") then lit "OBJ"
  else lit "SOP".

(** [s.split(/\s+/)]. *)
Fixpoint splitSpaces (inSep : bool) (s : jsstring) : list jsstring :=
  match s with
  | [] => [[]]
  | c :: s' =>
      if isSpace c then
        if inSep then splitSpaces true s' else [] :: splitSpaces true s'
      else match splitSpaces false s' with
           | l :: ls => (c :: l) :: ls
           | [] => [[c]]
           end
  end.

Definition parseFlags (flagStr : jsstring) (node : PartialNode) : PartialNode :=
  let flags0 := orElse (pn_flags node) [] in
  let parts := splitSpaces false (trim flagStr) in
  let flags :=
    fold_left
      (fun flags part =>
         match split1 61 part with
         | [k; v] =>
             objSet k (str_eqb v (lit "1") || str_eqb v (lit "on")
                       || str_eqb v (lit "true")) flags
         | _ => objSet part true flags
         end)
      parts flags0 in
  mkPartial (pn_path node) (pn_type node) (pn_category node) (pn_name node)
            (pn_parameters node) (Some flags).

Definition parseParamValue (raw : jsstring) : ParamValue :=
  let trimmed := trim raw in
  let num := Number trimmed in
  if negb (isNaN num) && negb (str_eqb trimmed []) then PNumber num
  else if includes trimmed (lit " ") then
    let parts := splitSpaces false trimmed in
    let nums := map Number parts in
    if forallb (fun n => negb (isNaN n)) nums then PNumbers nums
    else PString trimmed
  else PString trimmed.

Definition resolvePath (basePath relative : jsstring) : jsstring :=
  if startsWith relative (lit "/") then relative
  else basePath ++ lit "/" ++ relative.

(** *** Node extraction *)

(** The local variables of [extractNodesFromContent]. *)
Record ExtractState : Type := mkState {
  st_nodes : list HipNode;
  currentNode : option PartialNode;
  inParm : bool;
  parmDepth : Z;
  currentParmName : jsstring;
  currentParmValue : jsstring;
  currentParmExpr : jsstring;
  currentParmIsDefault : bool }.

(** [currentNode?.type] as a condition. *)
Definition hasType (node : option PartialNode) : bool :=
  match node with
  | Some p =>
      match pn_type p with
      | Some (_ :: _) => true
      | _ => false
      end
  | None => false
  end.

Definition flushNode (nodes : list HipNode) (node : option PartialNode)
    (basePath : jsstring) : list HipNode :=
  match node with
  | Some p => if hasType node then nodes ++ [finalizeNode p basePath] else nodes
  | None => nodes
  end.

(** The braces of a line moved [parmDepth]; iterating by code point or
    by code unit counts the same braces. *)
Definition braceDepth (depth : Z) (trimmed : jsstring) : Z :=
  fold_left
    (fun d ch => if ch =? 123 then d + 1 else if ch =? 125 then d - 1 else d)
    trimmed depth.

Definition pushParameter (node : PartialNode) (param : HipParameter)
  : PartialNode :=
  mkPartial (pn_path node) (pn_type node) (pn_category node) (pn_name node)
            (Some (orElse (pn_parameters node) [] ++ [param]))
            (pn_flags node).

Definition nonEmpty (s : jsstring) : bool :=
  match s with
  | [] => false
  | _ :: _ => true
  end.

(** The body of the [for] loop over the lines. *)
Definition extractLine (filename basePath : jsstring) (st : ExtractState)
    (line : jsstring) : ExtractState :=
  let trimmed := trim line in
  let typeMatch := rexec RE_TYPE trimmed in
  let toNewNode :=
    match typeMatch with
    | Some m => if inParm st then None else Some m
    | None => None
    end in
  match toNewNode with
  | Some m =>
      mkState (flushNode (st_nodes st) (currentNode st) basePath)
              (Some (mkPartial (Some basePath) (Some (group m 1))
                               (Some (inferCategory (group m 1) filename))
                               (Some []) (Some []) (Some [])))
              (inParm st) (parmDepth st) (currentParmName st)
              (currentParmValue st) (currentParmExpr st)
              (currentParmIsDefault st)
  | None =>
  let toName :=
    match rexec RE_NAME trimmed, currentNode st with
    | Some m, Some node => if inParm st then None else Some (m, node)
    | _, _ => None
    end in
  match toName with
  | Some (m, node) =>
      mkState (st_nodes st)
              (Some (mkPartial (Some (basePath ++ lit "/" ++ group m 1))
                               (pn_type node) (pn_category node)
                               (Some (group m 1)) (pn_parameters node)
                               (pn_flags node)))
              (inParm st) (parmDepth st) (currentParmName st)
              (currentParmValue st) (currentParmExpr st)
              (currentParmIsDefault st)
  | None =>
  let toFlags :=
    match rexec RE_FLAGS trimmed, currentNode st with
    | Some m, Some node => Some (m, node)
    | _, _ => None
    end in
  match toFlags with
  | Some (m, node) =>
      mkState (st_nodes st) (Some (parseFlags (group m 1) node))
              (inParm st) (parmDepth st) (currentParmName st)
              (currentParmValue st) (currentParmExpr st)
              (currentParmIsDefault st)
  | None =>
  if str_eqb trimmed (lit "parm {") || startsWith trimmed [112; 97; 114; 109; 9; 123]
  then mkState (st_nodes st) (currentNode st) true 1 [] [] [] true
  else if inParm st then
    let depth := braceDepth (parmDepth st) trimmed in
    if depth <=? 0 then
      let node' :=
        match currentNode st with
        | Some node =>
            if nonEmpty (currentParmName st) then
              Some (pushParameter node
                      (mkParam (currentParmName st)
                               (parseParamValue (currentParmValue st))
                               (currentParmIsDefault st)
                               (if nonEmpty (currentParmExpr st)
                                then Some (currentParmExpr st) else None)))
            else Some node
        | None => None
        end in
      mkState (st_nodes st) node' false depth (currentParmName st)
              (currentParmValue st) (currentParmExpr st)
              (currentParmIsDefault st)
    else
      match rexec RE_PARM_NAME trimmed with
      | Some m =>
          mkState (st_nodes st) (currentNode st) true depth (group m 1)
                  (currentParmValue st) (currentParmExpr st)
                  (currentParmIsDefault st)
      | None =>
      match rexec RE_PARM_VALUE trimmed with
      | Some m =>
          mkState (st_nodes st) (currentNode st) true depth
                  (currentParmName st) (trim (group m 1))
                  (currentParmExpr st) (currentParmIsDefault st)
      | None =>
          let isDefault1 :=
            if includes trimmed (lit "parmdef")
               || includes trimmed (lit "default {")
            then false else currentParmIsDefault st in
          match rexec RE_EXPRESSION trimmed with
          | Some m =>
              mkState (st_nodes st) (currentNode st) true depth
                      (currentParmName st) (currentParmValue st)
                      (trim (group m 1)) false
          | None =>
              mkState (st_nodes st) (currentNode st) true depth
                      (currentParmName st) (currentParmValue st)
                      (currentParmExpr st) isDefault1
          end
      end
      end
  else st
  end
  end
  end.

Definition initialState : ExtractState :=
  mkState [] None false 0 [] [] [] true.

Definition extractNodesFromContent (filename content : jsstring)
  : list HipNode :=
  let lines := split1 10 content in
  let basePath := basePathOf filename in
  let st := fold_left (extractLine filename basePath) lines initialState in
  flushNode (st_nodes st) (currentNode st) basePath.

(** *** Connections *)

Definition lineConnections (basePath line : jsstring) : list HipConnection :=
  let trimmed := trim line in
  match rexec RE_WIRE trimmed with
  | Some m =>
      [mkConn (resolvePath basePath (group m 1)) (parseInt (group m 2) 10)
              (resolvePath basePath (group m 3)) (parseInt (group m 4) 10)]
  | None =>
      match rexec RE_INPUT trimmed with
      | Some m =>
          [mkConn (resolvePath basePath (group m 2)) (parseInt (group m 3) 10)
                  basePath (parseInt (group m 1) 10)]
      | None => []
      end
  end.

Definition extractConnections (filename content : jsstring)
  : list HipConnection :=
  let basePath := basePathOf filename in
  flat_map (lineConnections basePath) (split1 10 content).

(** *** The scene *)

(** One turn of the loop of [parseNodes], on [result.nodes] and
    [result.connections]. *)
Definition parseNodeEntry
    (acc : list HipNode * list HipConnection) (entry : jsstring * jsstring)
  : list HipNode * list HipConnection :=
  let '(filename, content) := entry in
  if negb (includes content (lit "type")) then acc
  else (fst acc ++ extractNodesFromContent filename content,
        snd acc ++ extractConnections filename content).

Definition parseNodes (entries : list (jsstring * jsstring))
    (acc : list HipNode * list HipConnection)
  : list HipNode * list HipConnection :=
  fold_left parseNodeEntry entries acc.

Definition isHeaderName (filename : jsstring) : bool :=
  str_eqb filename (lit ".hip") || str_eqb filename (lit "Houdini")
  || str_eqb filename (lit ".OPfallbacks") || endsWith filename (lit ".def")
  || str_eqb filename (lit "houdini.hip").

(** The first loop of [parseHipContent]: the [nodeEntries] map, in the
    order its keys were first set, and [headerContent]. *)
Definition separateEntry
    (acc : list (jsstring * jsstring) * jsstring) (entry : CpioEntry)
  : list (jsstring * jsstring) * jsstring :=
  let content := toString_utf8 (data entry) in
  let filename := normalizeFilename (filename entry) in
  if isHeaderName filename then (fst acc, snd acc ++ [10] ++ content)
  else (assocSet filename content (fst acc), snd acc).

Definition separateEntries (entries : list CpioEntry)
  : list (jsstring * jsstring) * jsstring :=
  fold_left separateEntry entries ([], []).

Definition firstMatch (r : regex) (contents : list jsstring)
  : option rmatch_result :=
  fold_left
    (fun found content =>
       match found with
       | Some m => Some m
       | None => rexec r content
       end)
    contents None.

(** [parseHeader]: the version, the save time and the assignments of
    the header. *)
Definition parseHeader (content : jsstring)
  : jsstring * jsstring * jsobject jsstring :=
  match content with
  | [] => ([], [], [])
  | _ :: _ =>
      let version :=
        match rexec RE_VERSION content with
        | Some m => group m 1
        | None => []
        end in
      let time :=
        match rexec RE_SAVE_TIME content with
        | Some m => trim (group m 1)
        | None => []
        end in
      let meta :=
        fold_left (fun o m => objSet (group m 1) (trim (group m 2)) o)
                  (execAll RE_VAR content) [] in
      (version, time, meta)
  end.

Definition parseHipContent (entries : list CpioEntry) : HipParseResult :=
  let '(nodeEntries, headerContent) := separateEntries entries in
  let '(version0, time, meta) := parseHeader headerContent in
  let version :=
    if nonEmpty version0 then version0
    else match firstMatch RE_VERSION
                 (map (fun e => toString_utf8 (data e)) entries) with
         | Some m => group m 1
         | None => []
         end in
  let '(ns, cs) := parseNodes nodeEntries ([], []) in
  mkResult version time ns cs meta.

(** [parseHipBuffer] of hip-parser/index.ts. *)
Definition parseHipBuffer (gunzipSync : buffer -> jsstring + buffer)
    (fuel : nat) (buf : buffer) : outcome HipParseResult :=
  match readCpioFromBuffer gunzipSync fuel buf with
  | Returned entries => Returned (parseHipContent (filterTextEntries entries))
  | Thrown e => Thrown e
  | OutOfFuel => OutOfFuel
  end.

(** *** Statistics helpers *)

(** An element of the array [getNonDefaultParameters] returns. *)
Record ModifiedParam : Type := mkModified {
  nodePath : jsstring;
  nodeType : jsstring;
  param : HipParameter }.

Definition getNonDefaultParameters (result : HipParseResult)
  : list ModifiedParam :=
  fold_left
    (fun modified node =>
       fold_left
         (fun modified param =>
            if negb (p_isDefault param)
            then modified ++ [mkModified (n_path node) (n_type node) param]
            else modified)
         (n_parameters node) modified)
    (nodes result) [].

(** [groupNodesByType]: the Map, its keys in the order they were first
    set. *)
Definition groupNodesByType (result : HipParseResult)
  : list (jsstring * list HipNode) :=
  fold_left
    (fun groups node =>
       let existing := orElse (assocGet (n_type node) groups) [] in
       assocSet (n_type node) (existing ++ [node]) groups)
    (nodes result) [].

End Hip.

(* ================================================================== *)
(** ** Cache Manager (hip-downloader.ts) *)

Module Cache.

Record HipFileEntry : Type := mkFileEntry {
  source : jsstring;
  sourceType : jsstring;
  localPath : jsstring;
  fileName : jsstring;
  hash : jsstring;
  size : Z;
  downloadedAt : Z;         (* the instant of the ISO timestamp, in ms *)
  systems : list jsstring;
  description : option jsstring }.

(** [manifest.entries]: keys in insertion order. A key is a URL that
    was fetched, so it is neither an array index nor [__proto__].
    [version] is always 1 and [lastUpdated] is written and never read;
    both are left out. *)
Definition CacheManifest := list (jsstring * HipFileEntry).

(** The files of the cache directory: the blobs that exist, and what
    the manifest file holds when there is one. *)
Record World : Type := mkWorld {
  blobs : list jsstring;
  manifestFile : option CacheManifest }.

Definition existsSync (w : World) (path : jsstring) : bool :=
  existsb (str_eqb path) (blobs w).

Definition loadManifest (w : World) : CacheManifest :=
  orElse (manifestFile w) [].

Definition saveManifest (w : World) (manifest : CacheManifest) : World :=
  mkWorld (blobs w) (Some manifest).

Definition unlinkSync (w : World) (path : jsstring) : World :=
  mkWorld (filter (fun p => negb (str_eqb path p)) (blobs w)) (manifestFile w).

Definition writeFileSync (w : World) (path : jsstring) : World :=
  if existsSync w path then w else mkWorld (blobs w ++ [path]) (manifestFile w).

(** [Array.prototype.sort] by ascending [downloadedAt]; it is stable. *)
Fixpoint insertByTime (x : jsstring * HipFileEntry)
    (l : list (jsstring * HipFileEntry)) : list (jsstring * HipFileEntry) :=
  match l with
  | [] => [x]
  | y :: l' =>
      if downloadedAt (snd y) <=? downloadedAt (snd x)
      then y :: insertByTime x l'
      else x :: l
  end.

Definition sortByTime (l : list (jsstring * HipFileEntry))
  : list (jsstring * HipFileEntry) :=
  fold_left (fun acc x => insertByTime x acc) l [].

Definition totalSize (l : list (jsstring * HipFileEntry)) : Z :=
  fold_left (fun acc kv => acc + size (snd kv)) l 0.

(** The [while] loop of [enforceCacheLimit]. [unlinkThrows] says for
    which paths [fs.unlinkSync] throws, leaving the file; the [catch]
    then deletes the entry from the manifest and [totalSize] keeps the
    size of the entry. *)
Fixpoint evictOldest (unlinkThrows : jsstring -> bool)
    (sortedEntries : list (jsstring * HipFileEntry))
    (total maxSize : Z) (w : World) (manifest : CacheManifest)
  : World * CacheManifest :=
  match sortedEntries with
  | [] => (w, manifest)
  | (key, entry) :: rest =>
      if total >? maxSize then
        if existsSync w (localPath entry) && unlinkThrows (localPath entry)
        then
          evictOldest unlinkThrows rest total maxSize w
                      (assocDelete key manifest)
        else
          let w' :=
            if existsSync w (localPath entry)
            then unlinkSync w (localPath entry)
            else w in
          evictOldest unlinkThrows rest (total - size entry) maxSize w'
                      (assocDelete key manifest)
      else (w, manifest)
  end.

Definition enforceCacheLimit (unlinkThrows : jsstring -> bool) (w : World)
    (manifest : CacheManifest) (maxSize : Z) : World * CacheManifest :=
  let sortedEntries := sortByTime manifest in
  evictOldest unlinkThrows sortedEntries (totalSize sortedEntries) maxSize w
              manifest.

Definition isSafeChar (c : Z) : bool :=
  ((97 <=? c) && (c <=? 122)) || ((65 <=? c) && (c <=? 90))
  || ((48 <=? c) && (c <=? 57)) || (c =? 46) || (c =? 95) || (c =? 45).

(** [name.replace(/[^a-zA-Z0-9._-]/g, "_").slice(0, 100)] *)
Definition sanitizeFilename (name : jsstring) : jsstring :=
  firstn 100 (map (fun c => if isSafeChar c then c else 95) name).

Record Request : Type := mkRequest {
  url : jsstring;
  req_sourceType : option jsstring;
  req_systems : option (list jsstring);
  req_description : option jsstring }.

(** What the outside answers to one download: the body of an ok
    response ([None] for another status or a failed fetch), the clock
    when the entry is made, and whether [fs.writeFileSync] of the file
    and then [saveManifest] go through ([false] when the call throws,
    which leaves what it was to write as it was). *)
Record Reply : Type := mkReply {
  body : option buffer;
  now : Z;
  written : bool;
  saved : bool }.

Record DownloadResult : Type := mkDownloadResult {
  downloaded : Z;
  skipped : Z;
  errors : Z;
  entries : list HipFileEntry }.

Section Downloader.

Variable cacheDir : jsstring.
(** [crypto.createHash("sha256").update(b).digest("hex")] *)
Variable sha256hex : buffer -> jsstring.
(** [decodeURIComponent], [None] when it throws. *)
Variable decodeURIComponent : jsstring -> option jsstring.
(** [path.join] of two parts. *)
Variable pathJoin : jsstring -> jsstring -> jsstring.
(** The paths for which [fs.unlinkSync] throws. *)
Variable unlinkThrows : jsstring -> bool.

(** The [catch] of [downloadHipFile] returns [null] for whatever the
    [try] throws: a failed fetch, a name that does not decode, and also
    a write that fails, after which the manifest is not saved, or a
    [saveManifest] that fails, after which the file that was written
    stays. *)
Definition downloadHipFile (w : World) (req : Request) (reply : Reply)
  : World * option HipFileEntry :=
  let manifest := loadManifest w in
  let cached :=
    match assocGet (url req) manifest with
    | Some c => if existsSync w (localPath c) then Some c else None
    | None => None
    end in
  match cached with
  | Some c => (w, Some c)
  | None =>
      let manifest1 := assocDelete (url req) manifest in
      match body reply with
      | None => (w, None)
      | Some buf =>
          let hash := sha256hex buf in
          match decodeURIComponent (last (split1 47 (url req)) []) with
          | None => (w, None)
          | Some fileName =>
              let localPath :=
                pathJoin cacheDir
                  (slice hash 0 12 ++ lit "-" ++ sanitizeFilename fileName) in
              if negb (written reply) then (w, None)
              else
                let w1 := writeFileSync w localPath in
                let entry :=
                  mkFileEntry (url req)
                    (orElse (req_sourceType req) (lit "content_library"))
                    localPath fileName hash (blen buf) (now reply)
                    (orElse (req_systems req) []) (req_description req) in
                if negb (saved reply) then (w1, None)
                else
                  (saveManifest w1 (assocSet (url req) entry manifest1),
                   Some entry)
          end
      end
  end.

(** One turn of the loop of [downloadHipFiles]. The [saveManifest] after
    [enforceCacheLimit] stands outside any [try]: were it to throw,
    [downloadHipFiles] would end with that exception and give no result;
    it is taken to go through. *)
Definition downloadTurn (maxCacheSize : Z)
    (acc : World * DownloadResult) (item : Request * Reply)
  : World * DownloadResult :=
  let '(w, result) := acc in
  let '(req, reply) := item in
  let manifest := loadManifest w in
  let cached :=
    match assocGet (url req) manifest with
    | Some c => if existsSync w (localPath c) then Some c else None
    | None => None
    end in
  match cached with
  | Some c =>
      (w, mkDownloadResult (downloaded result) (skipped result + 1)
            (errors result) (entries result ++ [c]))
  | None =>
      let '(w1, manifest1) :=
        enforceCacheLimit unlinkThrows w manifest maxCacheSize in
      let w2 := saveManifest w1 manifest1 in
      match downloadHipFile w2 req reply with
      | (w3, Some entry) =>
          (w3, mkDownloadResult (downloaded result + 1) (skipped result)
                 (errors result) (entries result ++ [entry]))
      | (w3, None) =>
          (w3, mkDownloadResult (downloaded result) (skipped result)
                 (errors result + 1) (entries result))
      end
  end.

Definition downloadHipFiles (maxCacheSize : Z) (w : World)
    (urls : list (Request * Reply)) : World * DownloadResult :=
  fold_left (downloadTurn maxCacheSize) urls (w, mkDownloadResult 0 0 0 []).

End Downloader.

(** [listCachedHipFiles]: [Object.values] gives the entries in the order
    of the keys. *)
Definition listCachedHipFiles (w : World) : list HipFileEntry :=
  filter (fun e => existsSync w (localPath e)) (map snd (loadManifest w)).

End Cache.

(* ================================================================== *)
(** ** Store and Extractor (db.ts, hip-extractor.ts) *)

Module Kb.
Import Hip.

(** A row of [hip_files]; [systems] is the array whose JSON text the
    column holds. *)
Record HipFileRow : Type := mkHipFileRow {
  hf_id : Z;
  file_name : jsstring;
  file_hash : jsstring;
  hf_source : jsstring;
  source_url : option jsstring;
  houdini_version : option jsstring;
  hf_description : option jsstring;
  hf_systems : option (list jsstring);
  node_count : Z;
  parsed_at : option jsstring;
  parse_status : jsstring;
  parse_error : option jsstring }.

(** A row of [hip_parameter_snapshots]. *)
Record SnapshotRow : Type := mkSnapshotRow {
  ps_id : Z;
  hip_file_id : Z;
  node_type : jsstring;
  node_path : jsstring;
  param_name : jsstring;
  param_value : jsstring;
  is_default : bool;
  expression : option jsstring }.

(** The two tables, and the connection's [sqlite3_last_insert_rowid]:
    the rowid of the most recent successful INSERT on the connection,
    0 before any. *)
Record Store : Type := mkStore {
  hip_files : list HipFileRow;
  hip_parameter_snapshots : list SnapshotRow;
  last_insert_rowid : Z }.

(** [initDatabase] opens a new connection on the stored tables. *)
Definition openConnection (db : Store) : Store :=
  mkStore (hip_files db) (hip_parameter_snapshots db) 0.

(** The rowid of a new row: one more than the largest in the table. *)
Definition nextRowid {R : Type} (id : R -> Z) (rows : list R) : Z :=
  fold_left (fun m r => Z.max m (id r)) rows 0 + 1.

(** The argument of [upsertHipFile]. *)
Record HipFileData : Type := mkHipFileData {
  d_file_name : jsstring;
  d_file_hash : jsstring;
  d_source : jsstring;
  d_source_url : option jsstring;
  d_houdini_version : option jsstring;
  d_description : option jsstring;
  d_systems : option (list jsstring);
  d_node_count : option Z;
  d_parsed_at : option jsstring;
  d_parse_status : option jsstring;
  d_parse_error : option jsstring }.

Definition rowOfData (id : Z) (d : HipFileData) : HipFileRow :=
  mkHipFileRow id (d_file_name d) (d_file_hash d) (d_source d)
    (d_source_url d) (d_houdini_version d) (d_description d) (d_systems d)
    (orElse (d_node_count d) 0) (d_parsed_at d)
    (orElse (d_parse_status d) (lit "pending")) (d_parse_error d).

Definition getHipFile (fileHash : jsstring) (db : Store) : option HipFileRow :=
  find (fun r => str_eqb (file_hash r) fileHash) (hip_files db).

(** [INSERT ... ON CONFLICT(file_hash) DO UPDATE ...], and
    [Number(result.lastInsertRowid)]. A row with the hash is updated in
    place and keeps its id; that is no INSERT, so the connection's last
    insert rowid stays what it was, and that is the number returned. *)
Definition upsertHipFile (data : HipFileData) (db : Store) : Store * Z :=
  match getHipFile (d_file_hash data) db with
  | Some _ =>
      (mkStore
         (map (fun r =>
                 if str_eqb (file_hash r) (d_file_hash data)
                 then rowOfData (hf_id r) data else r)
              (hip_files db))
         (hip_parameter_snapshots db) (last_insert_rowid db),
       last_insert_rowid db)
  | None =>
      let id := nextRowid hf_id (hip_files db) in
      (mkStore (hip_files db ++ [rowOfData id data])
               (hip_parameter_snapshots db) id,
       id)
  end.

Definition clearSnapshotsForHipFile (hipFileId : Z) (db : Store) : Store :=
  mkStore (hip_files db)
          (filter (fun s => negb (hip_file_id s =? hipFileId))
                  (hip_parameter_snapshots db))
          (last_insert_rowid db).

(** An element of the array given to [insertParameterSnapshots]. *)
Record Snapshot : Type := mkSnapshot {
  s_node_type : jsstring;
  s_node_path : jsstring;
  s_param_name : jsstring;
  s_param_value : jsstring;
  s_is_default : option bool;
  s_expression : option jsstring }.

Definition truthy (b : option bool) : bool := orElse b false.

(** [generateHipDataSummary] and the usage range work on doubles and
    are not part of this development. *)

Inductive globItem : Type :=
| GChar (c : Z)
| GRange (lo hi : Z)
| GStar.

(** SQLite's GLOB, for patterns of literal characters, ranges and [*]. *)
Fixpoint glob (pat : list globItem) (s : jsstring) : bool :=
  match pat with
  | [] => match s with [] => true | _ :: _ => false end
  | GChar c :: pat' =>
      match s with
      | x :: s' => (x =? c) && glob pat' s'
      | [] => false
      end
  | GRange lo hi :: pat' =>
      match s with
      | x :: s' => (lo <=? x) && (x <=? hi) && glob pat' s'
      | [] => false
      end
  | GStar :: pat' =>
      (fix any (s : jsstring) : bool :=
         glob pat' s ||
         match s with
         | [] => false
         | _ :: s' => any s'
         end) s
  end.

(** ['[0-9]*'], ['-[0-9]*'] and ['[0-9]*.[0-9]*']. *)
Definition GLOB_DIGIT : list globItem := [GRange 48 57; GStar].
Definition GLOB_MINUS_DIGIT : list globItem := [GChar 45; GRange 48 57; GStar].
Definition GLOB_DECIMAL : list globItem :=
  [GRange 48 57; GStar; GChar 46; GRange 48 57; GStar].

(** Modelled from the spec: the table definition (schema.ts) is not among
    the sources; the spec has [param_value] hold text and [hip_file_id]
    be a foreign key. So [typeof(param_value)] is ['text'] for every row. *)
Definition typeofParamValue (s : SnapshotRow) : jsstring := lit "text".

(** A row of the result of [getParameterStatistics]. *)
Record StatRow : Type := mkStatRow {
  r_param_name : jsstring;
  sample_count : Z;
  min_value : Q;
  max_value : Q;
  avg_value : Q;
  modified_count : Z }.

Definition Qminimum (l : list Q) : Q :=
  match l with
  | [] => 0%Q
  | x :: l' => fold_left (fun m y => if Qle_bool y m then y else m) l' x
  end.

Definition Qmaximum (l : list Q) : Q :=
  match l with
  | [] => 0%Q
  | x :: l' => fold_left (fun m y => if Qle_bool m y then y else m) l' x
  end.

Definition Qsum (l : list Q) : Q := fold_left Qplus l 0%Q.

Fixpoint insertByCount (x : StatRow) (l : list StatRow) : list StatRow :=
  match l with
  | [] => [x]
  | y :: l' =>
      if sample_count y >=? sample_count x then y :: insertByCount x l'
      else x :: l
  end.

Section Statistics.

(** [CAST(param_value AS REAL)], the real as a rational. *)
Variable castReal : jsstring -> Q.

(** The WHERE clause as SQL reads it: AND binds tighter than OR, so it
    is [(node_type = ? AND typeof(param_value) != 'text') OR (GLOB ...)],
    and with a parameter name
    [(node_type = ? AND typeof(...) != 'text') OR
     ((GLOB ...) AND param_name = ?)]. *)
Definition whereClause (nodeType : jsstring) (paramName : option jsstring)
    (s : SnapshotRow) : bool :=
  let globs :=
    glob GLOB_DIGIT (param_value s) || glob GLOB_MINUS_DIGIT (param_value s)
    || glob GLOB_DECIMAL (param_value s) in
  (str_eqb (node_type s) nodeType
   && negb (str_eqb (typeofParamValue s) (lit "text")))
  || match paramName with
     | Some (c :: p) => globs && str_eqb (param_name s) (c :: p)
     | _ => globs
     end.

Definition statOfGroup (g : jsstring * list SnapshotRow) : StatRow :=
  let values := map (fun s => castReal (param_value s)) (snd g) in
  mkStatRow (fst g) (Z.of_nat (List.length (snd g)))
    (Qminimum values) (Qmaximum values)
    (Qsum values / inject_Z (Z.of_nat (List.length (snd g))))%Q
    (Z.of_nat (List.length (filter (fun s => negb (is_default s)) (snd g)))).

(** GROUP BY param_name, then ORDER BY sample_count DESC; SQL leaves the
    order of groups of equal count open, here it is the order in which
    the names first occur. *)
Definition getParameterStatistics (nodeType : jsstring)
    (paramName : option jsstring) (db : Store) : list StatRow :=
  let rows := filter (whereClause nodeType paramName)
                     (hip_parameter_snapshots db) in
  let groups :=
    fold_left
      (fun g s =>
         assocSet (param_name s)
                  (orElse (assocGet (param_name s) g) [] ++ [s]) g)
      rows [] in
  fold_left (fun acc r => insertByCount r acc) (map statOfGroup groups) [].

End Statistics.

Record ExtractionResult : Type := mkExtractionResult {
  hipFileId : Z;
  nodesExtracted : Z;
  parametersExtracted : Z;
  nonDefaultParams : Z;
  expressionsFound : Z;
  x_errors : list jsstring }.

(** The [fileEntry] argument of the extractor. *)
Record FileEntry : Type := mkFileEntryArg {
  fileName : jsstring;
  fileHash : jsstring;
  fe_source : jsstring;
  sourceUrl : option jsstring;
  fe_systems : option (list jsstring);
  fe_description : option jsstring }.

Definition addOnce (x : jsstring) (set : list jsstring) : list jsstring :=
  if existsb (str_eqb x) set then set else set ++ [x].

Definition inferSystemsFromNodes (ns : list HipNode) : list jsstring :=
  fold_left
    (fun systems node =>
       let typeLower := toLowerCase (n_type node) in
       let has w := includes typeLower w in
       let s1 := if has (lit "pyro") || has (lit "smoke") || has (lit "fire")
                 then addOnce (lit "pyro") systems else systems in
       let s2 := if has (lit "rbd") || has (lit "bullet") || has (lit "voronoi")
                 then addOnce (lit "rbd") s1 else s1 in
       let s3 := if has (lit "flip") || has (lit "ocean") || has (lit "fluid")
                 then addOnce (lit "flip") s2 else s2 in
       if has (lit "vellum") || has (lit "cloth") then addOnce (lit "vellum") s3 else s3)
    ns [].

Section Extractor.

(** Whether SQLite enforces the foreign key of [hip_file_id]. *)
Variable foreignKeys : bool.
(** [String(n)] of a number and [JSON.stringify] of an array of numbers. *)
Variable numberToString : jsnumber -> jsstring.
Variable stringifyNumbers : list jsnumber -> jsstring.

(** The loop of [insertParameterSnapshots]: a statement that fails
    throws, and the rows before it stay. *)
Fixpoint insertParameterSnapshots (hipFileId : Z) (snapshots : list Snapshot)
    (db : Store) : Store * option jsstring :=
  match snapshots with
  | [] => (db, None)
  | snap :: rest =>
      if foreignKeys
         && negb (existsb (fun r => hf_id r =? hipFileId) (hip_files db))
      then (db, Some (lit "FOREIGN KEY constraint failed"))
      else
        let rowid := nextRowid ps_id (hip_parameter_snapshots db) in
        insertParameterSnapshots hipFileId rest
          (mkStore (hip_files db)
             (hip_parameter_snapshots db
              ++ [mkSnapshotRow rowid hipFileId (s_node_type snap)
                    (s_node_path snap) (s_param_name snap)
                    (s_param_value snap) (truthy (s_is_default snap))
                    (s_expression snap)])
             rowid)
  end.

Definition valueStr (v : ParamValue) : jsstring :=
  match v with
  | PNumbers ns => stringifyNumbers ns
  | PNumber n => numberToString n
  | PString s => s
  end.

Definition snapshotsOf (parsed : HipParseResult) : list Snapshot :=
  flat_map
    (fun node =>
       map (fun param =>
              mkSnapshot (n_type node) (n_path node) (p_name param)
                         (valueStr (p_value param))
                         (Some (p_isDefault param)) (p_expression param))
           (n_parameters node))
    (nodes parsed).

Definition allParameters (parsed : HipParseResult) : list HipParameter :=
  flat_map n_parameters (nodes parsed).

Definition countIf {T : Type} (p : T -> bool) (l : list T) : Z :=
  Z.of_nat (List.length (filter p l)).

(** [extractHipToKnowledgeBase]; [parsedAt] is [new Date().toISOString()]. *)
Definition extractHipToKnowledgeBase (parsed : HipParseResult)
    (fileEntry : FileEntry) (parsedAt : jsstring) (db : Store)
  : Store * ExtractionResult :=
  let '(db1, hipFileId) :=
    upsertHipFile
      (mkHipFileData (fileName fileEntry) (fileHash fileEntry)
         (fe_source fileEntry) (sourceUrl fileEntry)
         (if nonEmpty (hipVersion parsed) then Some (hipVersion parsed)
          else None)
         (fe_description fileEntry)
         (Some (orElse (fe_systems fileEntry)
                       (inferSystemsFromNodes (nodes parsed))))
         (Some (Z.of_nat (List.length (nodes parsed))))
         (Some parsedAt) (Some (lit "success")) None)
      db in
  let db2 := clearSnapshotsForHipFile hipFileId db1 in
  let '(db3, failure) :=
    insertParameterSnapshots hipFileId (snapshotsOf parsed) db2 in
  (db3,
   mkExtractionResult hipFileId
     (Z.of_nat (List.length (nodes parsed)))
     (Z.of_nat (List.length (allParameters parsed)))
     (countIf (fun p => negb (p_isDefault p)) (allParameters parsed))
     (countIf (fun p => match p_expression p with
                        | Some (_ :: _) => true
                        | _ => false
                        end) (allParameters parsed))
     match failure with
     | Some message => [lit "Failed to insert snapshots: " ++ message]
     | None => []
     end).

(** [fs.existsSync] and [parseHipFile] on the paths of the cache: the
    scene, the message of the error thrown, or no answer, for a file on
    which the reader never returns. *)
Variable existsSync : jsstring -> bool.
Variable parseHipFile : jsstring -> Cpio.outcome HipParseResult.

(** The upsert of a [catch] branch. *)
Definition recordFailure (fileEntry : FileEntry) (parsedAt message : jsstring)
    (db : Store) : Store :=
  fst (upsertHipFile
         (mkHipFileData (fileName fileEntry) (fileHash fileEntry)
            (fe_source fileEntry) (sourceUrl fileEntry) None None
            (fe_systems fileEntry) None (Some parsedAt) (Some (lit "error"))
            (Some message))
         db).

(** [extractHipFileToKnowledgeBase], on the stored tables; [None] when
    the parse never returns. *)
Definition extractHipFileToKnowledgeBase (filePath : jsstring)
    (fileEntry : FileEntry) (parsedAt : jsstring) (stored : Store)
  : option (Store * ExtractionResult) :=
  let kb := openConnection stored in
  match parseHipFile filePath with
  | Cpio.Returned parsed =>
      Some (extractHipToKnowledgeBase parsed fileEntry parsedAt kb)
  | Cpio.Thrown message =>
      Some (recordFailure fileEntry parsedAt message kb,
            mkExtractionResult 0 0 0 0 0 [message])
  | Cpio.OutOfFuel => None
  end.

Record BatchResult : Type := mkBatchResult {
  extracted : Z;
  b_errors : Z;
  totalParams : Z;
  totalNonDefault : Z }.

Definition fileEntryOf (entry : Cache.HipFileEntry) : FileEntry :=
  mkFileEntryArg (Cache.fileName entry) (Cache.hash entry)
    (Cache.sourceType entry) (Some (Cache.source entry))
    (Some (Cache.systems entry)) (Cache.description entry).

(** One turn of the loop of [extractAllHipFiles], for an entry and the
    clock when it is recorded; [None] when the parse of the entry never
    returns, and the turn with it. *)
Definition extractTurn (acc : Store * BatchResult)
    (item : Cache.HipFileEntry * jsstring) : option (Store * BatchResult) :=
  let '(kb, res) := acc in
  let '(entry, parsedAt) := item in
  let alreadyParsed :=
    match getHipFile (Cache.hash entry) kb with
    | Some existing => str_eqb (parse_status existing) (lit "success")
    | None => false
    end in
  if alreadyParsed then
    Some (kb, mkBatchResult (extracted res + 1) (b_errors res)
                (totalParams res) (totalNonDefault res))
  else
    let attempt :=
      if negb (existsSync (Cache.localPath entry)) then
        Cpio.Thrown (lit "File not found: " ++ Cache.localPath entry)
      else parseHipFile (Cache.localPath entry) in
    match attempt with
    | Cpio.Returned parsed =>
        let '(kb', result) :=
          extractHipToKnowledgeBase parsed (fileEntryOf entry) parsedAt kb in
        match x_errors result with
        | [] =>
            Some (kb', mkBatchResult (extracted res + 1) (b_errors res)
                         (totalParams res + parametersExtracted result)
                         (totalNonDefault res + nonDefaultParams result))
        | _ :: _ =>
            Some (kb', mkBatchResult (extracted res) (b_errors res + 1)
                         (totalParams res) (totalNonDefault res))
        end
    | Cpio.Thrown message =>
        Some (recordFailure (fileEntryOf entry) parsedAt message kb,
              mkBatchResult (extracted res) (b_errors res + 1)
                            (totalParams res) (totalNonDefault res))
    | Cpio.OutOfFuel => None
    end.

(** The loop over the entries: a turn that does not return ends it
    without a result. *)
Fixpoint extractLoop (items : list (Cache.HipFileEntry * jsstring))
    (acc : Store * BatchResult) : option (Store * BatchResult) :=
  match items with
  | [] => Some acc
  | item :: rest =>
      match extractTurn acc item with
      | Some acc' => extractLoop rest acc'
      | None => None
      end
  end.

Definition extractAllHipFiles (items : list (Cache.HipFileEntry * jsstring))
    (stored : Store) : option (Store * BatchResult) :=
  extractLoop items (openConnection stored, mkBatchResult 0 0 0 0).

End Extractor.

End Kb.

(* ================================================================== *)
(** ** Pipeline (skills/houdini-annotator/scripts/run-pipeline.ts) *)

Module Pipeline.

Import Cache.

(** The loop of [runHipStages] that adds the files already in the cache
    to the entries of this run: [allEntries] after it, for the entries
    gathered before it and what [listCachedHipFiles] returned. *)
Definition addCachedEntries (allEntries cached : list HipFileEntry)
  : list HipFileEntry :=
  fold_left
    (fun allEntries entry =>
       if negb (existsb (fun e => str_eqb (hash e) (hash entry)) allEntries)
       then allEntries ++ [entry]
       else allEntries)
    cached allEntries.

End Pipeline.

(* ================================================================== *)
(** ** Vocabulary of the properties *)

Import Cpio Hip.

(** *** Archives *)

(** A member a writer can put in an archive: its mode fits the eight hex
    digits of the field, and its name is not the trailer's. *)
Definition wellFormed (m : Member) : Prop :=
  0 <= m_mode m < 2 ^ 32 /\ toString_utf8 (m_name m) <> CPIO_TRAILER.

Definition nibble (d : Z) : Prop := 0 <= d < 16.

(** The [n] low hex digits of [v], as values, most significant first. *)
Fixpoint nibbles (n : nat) (v : Z) : list Z :=
  match n with
  | O => []
  | S n' => nibbles n' (v / 16) ++ [v mod 16]
  end.

Definition sample_members : list Member :=
  [mkMember (lit "obj/geo1") 33188 (lit "type = geo") 1 0 0 1 0 0 0 0 0 0;
   mkMember (lit "a") 33188 [0; 255; 7] 2 0 0 1 0 0 0 0 0 0].

(** An archive of 2^31 + 128 bytes: a member of 2^31 - 224 zero bytes,
    which ends 112 bytes before 2^31, a member of four bytes, whose name
    ends at 2^31, and the trailer. *)
Definition zeros_member (n : nat) : Member :=
  mkMember (lit "a") 33188 (repeat 0 n) 1 0 0 1 0 0 0 0 0 0.
Definition four_bytes : Member :=
  mkMember (lit "b") 33188 [1; 2; 3; 4] 2 0 0 1 0 0 0 0 0 0.
Definition large_of (n : nat) : list Member := [zeros_member n; four_bytes].
Definition large_members : list Member := large_of (Z.to_nat (2 ^ 31 - 224)).

(** What the second member of [large_members] is read as. *)
Definition misread_entry : CpioEntry :=
  mkEntry (lit "b") [0; 0; 0; 0] (Int 4) (Int 33188).

(** A gzip stream (deflate, no name, no time) of [assemble []], the 124
    bytes of an archive that holds the trailer alone. *)
Definition gz_trailer_only : buffer :=
  [31; 139; 8; 0; 0; 0; 0; 0; 2; 3; 51; 48; 55; 48; 55; 48; 52; 32; 14; 16;
   171; 14; 29; 56; 193; 24; 33; 65; 142; 158; 62; 174; 65; 138; 138; 138;
   12; 64; 0; 0; 78; 229; 9; 55; 124; 0; 0; 0].

Definition emptyScene : HipParseResult := mkResult [] [] [] [] [].

(** A gunzip whose streams all inflate to [sample_members] assembled
    behind four bytes. *)
Definition inflate_sample (gz : buffer) : jsstring + buffer :=
  if isGzip gz then inr ([1; 2; 3; 4] ++ assemble sample_members) else inl [].

(** An archive whose first header has the magic and fields that are no
    hex numbers: mode [zzzzzzzz], filesize [4zzzzzzz], namesize
    [5zzzzzzz]; then the name [abcd], the data [DATA] and the trailer. *)
Definition bad_header_archive : buffer :=
  CPIO_MAGIC ++ hex8 0 ++ lit "zzzzzzzz" ++ hex8 0 ++ hex8 0 ++ hex8 1
  ++ hex8 0 ++ lit "4zzzzzzz" ++ hex8 0 ++ hex8 0 ++ hex8 0 ++ hex8 0
  ++ lit "5zzzzzzz" ++ hex8 0
  ++ lit "abcd" ++ [0] ++ [0] ++ lit "DATA" ++ encodeMember trailer.

(** *** Matching *)

Definition succeeds {A : Type} (o : option A) (P : A -> Prop) : Prop :=
  exists a, o = Some a /\ P a.

(** What is left does not start with a member of the class. *)
Definition headNot (p : Z -> bool) (rest : jsstring) : Prop :=
  match rest with
  | [] => True
  | c :: _ => p c = false
  end.

(** A non-empty run of members of the class. *)
Definition run (p : Z -> bool) (xs : jsstring) : Prop :=
  xs <> [] /\ forallb p xs = true.

(** A line [wire <from> <fromOut> <to> <toIn>]: once trimmed, the word,
    then the four tokens, white space between them. *)
Definition wireLine (line from fromOut to toIn : jsstring) : Prop :=
  exists ws1 ws2 ws3 ws4,
    run isSpace ws1 /\ run isSpace ws2 /\ run isSpace ws3 /\ run isSpace ws4 /\
    run notSpace from /\ run isDigit fromOut /\
    run notSpace to /\ run isDigit toIn /\
    trim line =
    lit "wire" ++ ws1 ++ from ++ ws2 ++ fromOut ++ ws3 ++ to ++ ws4 ++ toIn.

(** *** Scenes *)

Definition categories : list jsstring :=
  [lit "OBJ"; lit "SOP"; lit "DOP"; lit "VOP"; lit "CHOP"; lit "COP";
   lit "ROP"; lit "LOP"; lit "TOP"].

Definition paramOk (p : HipParameter) : Prop :=
  p_name p <> [] /\ (p_expression p <> None -> p_isDefault p = false).

Definition nodeOk (n : HipNode) : Prop :=
  startsWith (n_path n) (lit "/") = true
  /\ In (n_category n) categories
  /\ Forall paramOk (n_parameters n).

(** The invariant of the loop of [extractNodesFromContent]. *)
Record stateOk (basePath : jsstring) (st : ExtractState) : Prop := mkStateOk {
  ok_nodes : Forall nodeOk (st_nodes st);
  ok_current :
    forall p, currentNode st = Some p -> nodeOk (finalizeNode p basePath);
  ok_expr : currentParmExpr st <> [] -> currentParmIsDefault st = false }.

(** The key and the content [parseHipContent] gives an entry. *)
Definition nameOf (e : CpioEntry) : jsstring := normalizeFilename (filename e).
Definition contentOf (e : CpioEntry) : jsstring := toString_utf8 (data e).

Definition wire_sample : CpioEntry :=
  mkEntry (lit "obj/geo1/merge")
          (lit "type = merge
name = merge1
wire /obj/geo1/a 0 /obj/geo1/merge1 1
") (Int 57) (Int 33188).

(** An entry of a pyro solver with two parameters, the second with a
    parmdef line. *)
Definition pyro_sample : CpioEntry :=
  mkEntry (lit "obj/geo1/pyro_solver1")
          (lit "type = pyrosolver::2.0
name = pyro_solver1
parm {
  name dissipation
  value 0.05
}
parm {
  name cooling_rate
  value 0.3
  parmdef
}
") (Int 135) (Int 33188).

(** An entry with a wire line and without the word type. *)
Definition wire_only : CpioEntry :=
  mkEntry (lit "obj/geo1/merge")
          (lit "wire /obj/geo1/a 0 /obj/geo1/merge1 1") (Int 37) (Int 33188).

(** *** Numbers *)

Fixpoint decimalOf (fuel : nat) (z : Z) (acc : jsstring) : jsstring :=
  match fuel with
  | O => acc
  | S fuel' =>
      let acc' := (48 + z mod 10) :: acc in
      if z <? 10 then acc' else decimalOf fuel' (z / 10) acc'
  end.

(** Number::toString of an integer below 2^53 in magnitude: its decimal
    digits. The canonical form of other numbers is not modelled. *)
Definition canonicalString (n : jsnumber) : option jsstring :=
  match n with
  | NumDec neg m e =>
      if (0 <=? m) && (0 <=? e) && (m * 10 ^ e <? 2 ^ 53) then
        Some ((if neg && (0 <? m) then [45] else [])
              ++ decimalOf 16 (m * 10 ^ e) [])
      else None
  | _ => None
  end.

Definition isFinite (n : jsnumber) : bool :=
  match n with
  | NumDec _ _ _ => true
  | _ => false
  end.

(** *** The cache *)

Import Cache.

Definition emptyCache : World := mkWorld [] None.

Definition keys (m : CacheManifest) : list jsstring := map fst m.

Definition times (m : CacheManifest) : list Z :=
  map (fun kv => downloadedAt (snd kv)) m.

(** [decodeURIComponent] where there is no escape to decode, and
    [path.join] of a directory and a file name. *)
Definition decodePlain (s : jsstring) : option jsstring :=
  if includes s (lit "%") then None else Some s.
Definition joinPlain (dir name : jsstring) : jsstring := dir ++ lit "/" ++ name.

Definition request_a : Request :=
  mkRequest (lit "https://x.test/a.hip") None None None.
Definition request_b : Request :=
  mkRequest (lit "https://x.test/b.hip") None None None.
Definition request_c : Request :=
  mkRequest (lit "https://x.test/c.hip") None None None.

(** Three bodies of 400 bytes, at the instants 1000 < 2000 < 3000. *)
Definition three_downloads : list (Request * Reply) :=
  [(request_a, mkReply (Some (repeat 0 400)) 1000 true true);
   (request_b, mkReply (Some (repeat 0 400)) 2000 true true);
   (request_c, mkReply (Some (repeat 0 400)) 3000 true true)].

(** No [fs.unlinkSync] throws. *)
Definition unlinkWorks (path : jsstring) : bool := false.

Definition afterThree (sha256hex : buffer -> jsstring) : World :=
  fst (downloadHipFiles (lit "/cache") sha256hex decodePlain joinPlain
         unlinkWorks 1000 emptyCache three_downloads).

(** A fourth request, and the answer to it: a body of 100 bytes at the
    instant 4000. *)
Definition request_d : Request :=
  mkRequest (lit "https://x.test/d.hip") None None None.
Definition fourth_reply : Reply := mkReply (Some (repeat 0 100)) 4000 true true.

(** The entries of a manifest other than the one of [key]. *)
Definition others (key : jsstring) (m : CacheManifest) : CacheManifest :=
  filter (fun kv => negb (str_eqb (fst kv) key)) m.

(** *** The store *)

Import Kb.

Definition boxScale : SnapshotRow :=
  mkSnapshotRow 1 1 (lit "box") (lit "/obj/geo1/box1") (lit "scale") (lit "5")
                false None.

(** A store whose one snapshot belongs to a node of type [box]. *)
Definition otherTypeStore : Store :=
  mkStore
    [mkHipFileRow 1 (lit "a.hip") (lit "h1") (lit "local_install") None None
       None None 1 None (lit "success") None]
    [boxScale] 0.

Definition snapshotFields (s : SnapshotRow)
  : jsstring * jsstring * jsstring * bool * option jsstring :=
  (node_path s, param_name s, param_value s, is_default s, expression s).

(** The snapshots of the HIP File Record of a hash, as the five fields
    the idempotence property compares. *)
Definition snapshotsOfFile (hash : jsstring) (db : Store)
  : list (jsstring * jsstring * jsstring * bool * option jsstring) :=
  match getHipFile hash db with
  | Some row =>
      map snapshotFields
          (filter (fun s => hip_file_id s =? hf_id row)
                  (hip_parameter_snapshots db))
  | None => []
  end.

Definition emptyStore : Store := mkStore [] [] 0.

Definition fileR : FileEntry :=
  mkFileEntryArg (lit "r.hip") (lit "hash-r") (lit "local_install") None
                 (Some []) None.
Definition fileA : FileEntry :=
  mkFileEntryArg (lit "a.hip") (lit "hash-a") (lit "local_install") None
                 (Some []) None.

Definition sceneR : HipParseResult :=
  mkResult [] []
    [mkNode (lit "/obj/geo1/box1") (lit "box") (lit "SOP") (lit "box1")
       [mkParam (lit "label") (PString (lit "crate")) true None] []]
    [] [].

(** One connection on an empty store: r.hip is recorded as failed, a.hip
    (a scene without nodes) is extracted, then the scene of r.hip is
    extracted, and extracted again. *)
Definition beforeR (foreignKeys : bool) (numberToString : jsnumber -> jsstring)
    (stringifyNumbers : list jsnumber -> jsstring) : Store :=
  fst (extractHipToKnowledgeBase foreignKeys numberToString stringifyNumbers
         emptyScene fileA (lit "t2")
         (recordFailure fileR (lit "t1") (lit "File not found: r.hip")
            emptyStore)).

Definition afterFirst (foreignKeys : bool)
    (numberToString : jsnumber -> jsstring)
    (stringifyNumbers : list jsnumber -> jsstring) : Store :=
  fst (extractHipToKnowledgeBase foreignKeys numberToString stringifyNumbers
         sceneR fileR (lit "t3")
         (beforeR foreignKeys numberToString stringifyNumbers)).

Definition afterSecond (foreignKeys : bool)
    (numberToString : jsnumber -> jsstring)
    (stringifyNumbers : list jsnumber -> jsstring) : Store :=
  fst (extractHipToKnowledgeBase foreignKeys numberToString stringifyNumbers
         sceneR fileR (lit "t4")
         (afterFirst foreignKeys numberToString stringifyNumbers)).

(** The status recorded for a hash is not [success]. *)
Definition notParsed (hash : jsstring) (kb : Store) : Prop :=
  forall row, getHipFile hash kb = Some row ->
              str_eqb (parse_status row) (lit "success") = false.

Definition failingEntry : Cache.HipFileEntry :=
  Cache.mkFileEntry (lit "https://x.test/r.hip") (lit "content_library")
    (lit "/cache/r.hip") (lit "r.hip") (lit "hash-r") 3 1000 [] None.

(** An entry whose file parses, and a parser that throws on the file of
    [failingEntry] and gives the empty scene for every other file. *)
Definition sceneEntry : Cache.HipFileEntry :=
  Cache.mkFileEntry (lit "https://x.test/s.hip") (lit "content_library")
    (lit "/cache/s.hip") (lit "s.hip") (lit "hash-s") 3 2000 [] None.

Definition failingParser (path : jsstring) : outcome HipParseResult :=
  if str_eqb path (Cache.localPath failingEntry)
  then Thrown (noMagicMessage [1; 2; 3])
  else Returned emptyScene.

(** The hashes of the entries of a batch. *)
Definition hashesOf (items : list (Cache.HipFileEntry * jsstring))
  : list jsstring :=
  map (fun item => Cache.hash (fst item)) items.

(** The parse of the file of every entry returns or throws. *)
Definition parsesAnswer (parseHipFile : jsstring -> outcome HipParseResult)
    (items : list (Cache.HipFileEntry * jsstring)) : Prop :=
  Forall (fun item => parseHipFile (Cache.localPath (fst item)) <> OutOfFuel)
         items.

(** The record of a hash says error, with the message. *)
Definition failureRecorded (hash message : jsstring) (kb : Store) : Prop :=
  exists row, getHipFile hash kb = Some row
              /\ parse_status row = lit "error"
              /\ parse_error row = Some message.

(** Every snapshot belongs to a row of [hip_files]. *)
Definition referencesHold (db : Store) : Prop :=
  forall s, In s (hip_parameter_snapshots db) ->
            exists r, In r (hip_files db) /\ hf_id r = hip_file_id s.

Definition fieldsOfSnapshot (s : Snapshot)
  : jsstring * jsstring * jsstring * bool * option jsstring :=
  (s_node_path s, s_param_name s, s_param_value s, truthy (s_is_default s),
   s_expression s).

(** *** Archives, further *)

(** The bytes of a member up to the end of its data: what is left is the
    padding of the data. *)
Definition payloadLength (m : Member) : nat :=
  (110 + (List.length (m_name m) + 1)
   + List.length (pad4 (110 + List.length (m_name m) + 1))
   + List.length (m_data m))%nat.

(** A header whose filesize field is no hex number, the name [abcd] and
    its padding. *)
Definition endless_archive : buffer :=
  CPIO_MAGIC ++ hex8 0 ++ hex8 0 ++ hex8 0 ++ hex8 0 ++ hex8 1
  ++ hex8 0 ++ lit "zzzzzzzz" ++ hex8 0 ++ hex8 0 ++ hex8 0 ++ hex8 0
  ++ hex8 5 ++ hex8 0
  ++ lit "abcd" ++ [0] ++ [0].

Definition text_member : Member :=
  mkMember (lit "obj/geo1") 33188 (lit "type = geo") 1 0 0 1 0 0 0 0 0 0.
Definition blob_member : Member :=
  mkMember (lit "a") 33188 [0; 255; 7] 2 0 0 1 0 0 0 0 0 0.

(** The six bytes at index [i], read as ASCII, are the magic. *)
Definition magicAt (b : buffer) (i : nat) : bool :=
  str_eqb (toString_ascii (firstn 6 (skipn i b))) CPIO_MAGIC.

(** The test of [filterTextEntries], on the first 512 bytes. *)
Definition looksLikeText (e : CpioEntry) : bool :=
  negb (match filesize e with Int 0 => true | _ => false end)
  && forallb isTextByte (firstn 512 (data e)).

(** *** Scenes, further *)

(** A non-empty word without white space. *)
Definition token (s : jsstring) : Prop := run notSpace s.

(** A number that is not NaN and not below zero. Of [Int z] this reads
    the sign only, which the rounding to a double keeps: the value the
    code holds for a run of digits too long to be exact is a double that
    is not below zero either, Infinity from 309 digits. *)
Definition notNegative (n : num) : Prop :=
  match n with
  | Int z => 0 <= z
  | NaN => False
  end.

Definition connOk (c : HipConnection) : Prop :=
  startsWith (c_from c) (lit "/") = true
  /\ startsWith (c_to c) (lit "/") = true
  /\ notNegative (c_fromOutput c) /\ notNegative (c_toInput c).

(** How a Node is named, for the entry of name [entryName] it was read
    from. *)
Definition nodeNamed (entryName : jsstring) (n : HipNode) : Prop :=
  token (n_type n)
  /\ n_category n = inferCategory (n_type n) entryName
  /\ ((n_name n = [] /\ n_path n = basePathOf entryName)
      \/ (token (n_name n)
          /\ n_path n = basePathOf entryName ++ lit "/" ++ n_name n)).

(** What the loop of [extractNodesFromContent] keeps about names. *)
Definition stateNamed (filename : jsstring) (st : ExtractState) : Prop :=
  Forall (nodeNamed filename) (st_nodes st)
  /\ forall p, currentNode st = Some p ->
               nodeNamed filename (finalizeNode p (basePathOf filename)).

(** An entry that is not one of the scene-level header files. *)
Definition notHeader (e : CpioEntry) : bool := negb (isHeaderName (nameOf e)).

(** The element of [getNonDefaultParameters] for a parameter of a node. *)
Definition modifiedOf (n : HipNode) (p : HipParameter) : ModifiedParam :=
  mkModified (n_path n) (n_type n) p.

Definition hasType_ (t : jsstring) (n : HipNode) : bool := str_eqb (n_type n) t.

(** An entry with a parameter driven by an expression. *)
Definition expression_sample : CpioEntry :=
  mkEntry (lit "obj/geo1")
          (lit "type = geo
name = g
parm {
  name tx
  value 0
  expression $F
}
") (Int 65) (Int 33188).

(** *** The cache, further *)

(** Ascending [downloadedAt]. *)
Fixpoint sortedByTime (l : list (jsstring * HipFileEntry)) : Prop :=
  match l with
  | [] => True
  | x :: l' =>
      Forall (fun y => downloadedAt (snd x) <= downloadedAt (snd y)) l'
      /\ sortedByTime l'
  end.

(** The first download of [request_a] into an empty cache, of three
    bytes, and the entry it makes. *)
Definition first_reply : Reply := mkReply (Some [1; 2; 3]) 1000 true true.
Definition first_entry : HipFileEntry :=
  mkFileEntry (lit "https://x.test/a.hip") (lit "content_library")
    (lit "/cache/00-a.hip") (lit "a.hip") (lit "00") 3 1000 [] None.
Definition after_first : World :=
  mkWorld [lit "/cache/00-a.hip"]
          (Some [(lit "https://x.test/a.hip", first_entry)]).

(** A reply whose file is written and whose manifest is then not saved. *)
Definition unsaved_reply : Reply := mkReply (Some [4; 5; 6]) 5000 true false.

(** A manifest of three entries of 400 bytes, of the instants 1000,
    2000 and 3000. *)
Definition entry_at (name : jsstring) (t : Z) : jsstring * HipFileEntry :=
  (name, mkFileEntry name (lit "content_library") (lit "/cache/" ++ name)
           name (lit "00") 400 t [] None).
Definition three_entries : CacheManifest :=
  [entry_at (lit "b") 2000; entry_at (lit "a") 1000; entry_at (lit "c") 3000].

(** The key of [kv] is not one of the keys of [evicted]. *)
Definition notEvicted (evicted : list (jsstring * HipFileEntry))
    (kv : jsstring * HipFileEntry) : bool :=
  negb (existsb (fun e => str_eqb (fst kv) (fst e)) evicted).

(** *** The store, further *)

(** A value the statistics take for a number: it begins with a digit,
    or with a minus sign and a digit. *)
Definition looksNumeric (v : jsstring) : bool :=
  match v with
  | d :: rest =>
      isDigit d
      || ((d =? 45) && match rest with
                       | d2 :: _ => isDigit d2
                       | [] => false
                       end)
  | [] => false
  end.

(** The record of a hash says the file was parsed. *)
Definition parsedAlready (kb : Store) (entry : Cache.HipFileEntry) : Prop :=
  exists row, getHipFile (Cache.hash entry) kb = Some row
              /\ parse_status row = lit "success".

(** *** Node stanzas as text

    The stanza form the comment of [parseNodes] shows: a type line, a
    name line, then a block per parameter, its lines indented. *)

Record ParmText : Type := mkParmText {
  pt_name : jsstring;
  pt_value : jsstring;
  pt_parmdef : bool;                    (* a [parmdef] line is written *)
  pt_expression : option jsstring }.

Record NodeText : Type := mkNodeText {
  nt_type : jsstring;
  nt_name : jsstring;
  nt_parms : list ParmText }.

Definition indent (line : jsstring) : jsstring := lit "  " ++ line.

Definition parmLines (p : ParmText) : list jsstring :=
  [lit "parm {"; indent (lit "name " ++ pt_name p);
   indent (lit "value " ++ pt_value p)]
  ++ (if pt_parmdef p then [indent (lit "parmdef")] else [])
  ++ match pt_expression p with
     | Some e => [indent (lit "expression " ++ e)]
     | None => []
     end
  ++ [lit "}"].

Definition nodeLines (n : NodeText) : list jsstring :=
  [lit "type = " ++ nt_type n; lit "name = " ++ nt_name n]
  ++ flat_map parmLines (nt_parms n).

(** The lines with a line feed after each. *)
Definition linesText (lines : list jsstring) : jsstring :=
  flat_map (fun l => l ++ [10]) lines.

Definition isBrace (c : Z) : bool := (c =? 123) || (c =? 125).

(** A text that can stand on a line after a keyword: not empty, without
    line terminators and braces, no white space at either end. *)
Definition lineText (s : jsstring) : Prop :=
  forallb (fun c => dot c && negb (isBrace c)) s = true
  /\ match s with c :: _ => isSpace c = false | [] => False end
  /\ match rev s with c :: _ => isSpace c = false | [] => False end.

Definition parmWritten (p : ParmText) : Prop :=
  token (pt_name p)
  /\ forallb (fun c => negb (isBrace c)) (pt_name p) = true
  /\ lineText (pt_value p)
  /\ match pt_expression p with
     | Some e => lineText e
     | None => True
     end.

Definition nodeWritten (n : NodeText) : Prop :=
  token (nt_type n) /\ token (nt_name n) /\ Forall parmWritten (nt_parms n).

(** The Parameter and the Node a stanza stands for. *)
Definition paramOfText (p : ParmText) : HipParameter :=
  mkParam (pt_name p) (parseParamValue (pt_value p))
          (negb (pt_parmdef p)
           && match pt_expression p with Some _ => false | None => true end)
          (pt_expression p).

Definition nodeOfText (entryName : jsstring) (n : NodeText) : HipNode :=
  mkNode (basePathOf entryName ++ lit "/" ++ nt_name n) (nt_type n)
         (inferCategory (nt_type n) entryName) (nt_name n)
         (map paramOfText (nt_parms n)) [].

(** Two stanzas: a pyro solver with a changed parameter and one driven
    by an expression, and a null without parameters. *)
Definition stanza_sample : list NodeText :=
  [mkNodeText (lit "pyrosolver") (lit "pyro1")
     [mkParmText (lit "dissipation") (lit "0.1") true None;
      mkParmText (lit "tx") (lit "0") false (Some (lit "$F * 2"));
      mkParmText (lit "label") (lit "smoke sim") false None];
   mkNodeText (lit "null") (lit "OUT") []].

(** A cached file whose hash is the one of the record of
    [otherTypeStore]. *)
Definition recorded_entry : Cache.HipFileEntry :=
  Cache.mkFileEntry (lit "https://x.test/a.hip") (lit "content_library")
    (lit "/cache/h1-a.hip") (lit "a.hip") (lit "h1") 3 1000 [] None.

(** A member of an archive that holds [stanza_sample] as its data. *)
Definition stanza_member : Member :=
  mkMember (lit "obj/geo1") 33188
    (linesText (flat_map nodeLines stanza_sample)) 1 0 0 1 0 0 0 0 0 0.

(** *** The header, further *)

(** A version as the pattern takes it: two or three runs of digits with
    dots between them. *)
Definition versionText (v : jsstring) : Prop :=
  exists a b, run isDigit a /\ run isDigit b
    /\ (v = a ++ [46] ++ b
        \/ exists c, run isDigit c /\ v = a ++ [46] ++ b ++ [46] ++ c).

(** One of the scene-level header files. *)
Definition isHeader (e : CpioEntry) : bool := isHeaderName (nameOf e).

(** A header file that gives the version, the save time and a variable. *)
Definition header_sample : CpioEntry :=
  mkEntry (lit ".hip")
    (lit "_HIP_SAVEVERSION = '19.5.303'" ++ [10]
     ++ lit "_HIP_SAVETIME = 'Mon Jan 1 2024'" ++ [10]
     ++ lit "FPS = 24") (Int 70) (Int 33188).

(* ================================================================== *)
(** ** Proofs *)

Section Basics.

Lemma str_eqb_eq : forall a b, str_eqb a b = true <-> a = b.
Proof.
  induction a as [|x a IH]; destruct b as [|y b]; simpl; split; intro H;
    try reflexivity; try discriminate.
  - apply andb_true_iff in H. destruct H as [H1 H2].
    apply Z.eqb_eq in H1. apply IH in H2. congruence.
  - inversion H; subst. rewrite Z.eqb_refl. simpl. apply IH. reflexivity.
Qed.

Lemma str_eqb_refl : forall a, str_eqb a a = true.
Proof. intro a. apply str_eqb_eq. reflexivity. Qed.

Lemma str_eqb_neq : forall a b, a <> b -> str_eqb a b = false.
Proof.
  intros a b H. destruct (str_eqb a b) eqn:E; [|reflexivity].
  apply str_eqb_eq in E. contradiction.
Qed.

Lemma blen_app : forall a b : buffer, blen (a ++ b) = blen a + blen b.
Proof. intros. unfold blen. rewrite length_app. lia. Qed.

Lemma blen_nonneg : forall a : buffer, 0 <= blen a.
Proof. intros. unfold blen. lia. Qed.

Lemma adjustOffset_in : forall o len, 0 <= o <= len -> adjustOffset (Int o) len = o.
Proof.
  intros o len H. unfold adjustOffset.
  destruct (Z.eqb_spec o 0); [lia|].
  destruct (Z.ltb_spec o 0); [lia|].
  destruct (Z.ltb_spec o len); lia.
Qed.

Lemma subarray_mid : forall (pre mid post : buffer),
  subarray (pre ++ mid ++ post) (Int (blen pre)) (Int (blen pre + blen mid)) = mid.
Proof.
  intros. unfold subarray.
  pose proof (blen_nonneg pre). pose proof (blen_nonneg mid). pose proof (blen_nonneg post).
  rewrite !adjustOffset_in by (rewrite !blen_app; lia).
  destruct (Z.gtb_spec (blen pre + blen mid) (blen pre)).
  - replace (blen pre + blen mid - blen pre) with (blen mid) by lia.
    unfold blen. rewrite !Nat2Z.id.
    rewrite skipn_app, skipn_all, Nat.sub_diag. simpl.
    rewrite firstn_app, firstn_all, Nat.sub_diag. simpl. apply app_nil_r.
  - assert (blen mid = 0) by lia. unfold blen in H3.
    destruct mid; [reflexivity| simpl in H3; lia].
Qed.

Lemma subarray_at : forall (buf pre mid post : buffer) s e,
  buf = pre ++ mid ++ post -> s = blen pre -> e = blen pre + blen mid ->
  subarray buf (Int s) (Int e) = mid.
Proof. intros; subst. apply subarray_mid. Qed.

End Basics.

Section Hex.

Lemma nibble_cases : forall d, nibble d ->
  d = 0 \/ d = 1 \/ d = 2 \/ d = 3 \/ d = 4 \/ d = 5 \/ d = 6 \/ d = 7 \/
  d = 8 \/ d = 9 \/ d = 10 \/ d = 11 \/ d = 12 \/ d = 13 \/ d = 14 \/ d = 15.
Proof. unfold nibble; intros; lia. Qed.

Ltac nibble_split d H :=
  apply nibble_cases in H;
  repeat (destruct H as [H|H]); subst d.

Lemma radixDigit_hexDigit : forall d, nibble d -> radixDigit 16 (hexDigit d) = Some d.
Proof. intros d H. nibble_split d H; reflexivity. Qed.

Lemma hexDigit_ascii : forall d, nibble d -> Z.land (hexDigit d) 127 = hexDigit d.
Proof. intros d H. nibble_split d H; reflexivity. Qed.

Lemma hexN_nibbles : forall n v, hexN n v = map hexDigit (nibbles n v).
Proof.
  induction n; intros; simpl; [reflexivity|].
  rewrite map_app, IHn. reflexivity.
Qed.

Lemma nibbles_Forall : forall n v, Forall nibble (nibbles n v).
Proof.
  induction n; intros; simpl; [constructor|].
  apply Forall_app; split; [apply IHn|].
  constructor; [|constructor]. unfold nibble. apply Z.mod_pos_bound. lia.
Qed.

Lemma length_nibbles : forall n v, List.length (nibbles n v) = n.
Proof. induction n; intros; simpl; [reflexivity|]. rewrite length_app, IHn. simpl. lia. Qed.

Lemma length_hexN : forall n v, List.length (hexN n v) = n.
Proof. intros. rewrite hexN_nibbles, length_map. apply length_nibbles. Qed.

Lemma digitsValue_snoc : forall R ds d, digitsValue R (ds ++ [d]) = digitsValue R ds * R + d.
Proof. intros. unfold digitsValue. rewrite fold_left_app. reflexivity. Qed.

Lemma digitsValue_nibbles : forall n v, 0 <= v ->
  digitsValue 16 (nibbles n v) = v mod 16 ^ Z.of_nat n.
Proof.
  induction n; intros v Hv.
  - simpl. rewrite Z.mod_1_r. reflexivity.
  - cbn [nibbles]. rewrite digitsValue_snoc, IHn by (apply Z.div_pos; lia).
    rewrite Nat2Z.inj_succ, Z.pow_succ_r by lia.
    rewrite Z.rem_mul_r by lia. lia.
Qed.

Lemma digitsPrefix_hex : forall ds, Forall nibble ds ->
  digitsPrefix 16 (map hexDigit ds) = ds.
Proof.
  induction 1; simpl; [reflexivity|].
  rewrite radixDigit_hexDigit by assumption. congruence.
Qed.

Lemma trimStart_hexDigit : forall d t, nibble d ->
  trimStart (hexDigit d :: t) = hexDigit d :: t.
Proof. intros d t H. nibble_split d H; reflexivity. Qed.

Lemma splitSign_hexDigit : forall d t, nibble d ->
  splitSign (hexDigit d :: t) = (1, hexDigit d :: t).
Proof. intros d t H. nibble_split d H; reflexivity. Qed.

Lemma stripHexPrefix_hexDigits : forall ds, Forall nibble ds ->
  stripHexPrefix (map hexDigit ds) = map hexDigit ds.
Proof.
  intros ds H. destruct H as [|d ds Hd Hds]; [reflexivity|].
  destruct Hds as [|d1 ds Hd1 Hds].
  - nibble_split d Hd; reflexivity.
  - cbn [map]. nibble_split d Hd; try reflexivity.
    nibble_split d1 Hd1; reflexivity.
Qed.

Lemma parseInt_hexDigits : forall ds, ds <> [] -> Forall nibble ds ->
  parseInt (map hexDigit ds) 16 = Int (digitsValue 16 ds).
Proof.
  intros ds Hne Hall. unfold parseInt.
  destruct ds as [|d ds]; [congruence|].
  pose proof Hall as Hall'. inversion Hall' as [|? ? Hd Hds]; subst.
  cbn [map]. rewrite trimStart_hexDigit, splitSign_hexDigit by assumption.
  change (16 =? 16) with true. cbv iota.
  change (hexDigit d :: map hexDigit ds) with (map hexDigit (d :: ds)).
  rewrite stripHexPrefix_hexDigits, digitsPrefix_hex by assumption.
  f_equal. lia.
Qed.

Lemma parseInt_hex8 : forall v, 0 <= v < 2 ^ 32 -> parseInt (hex8 v) 16 = Int v.
Proof.
  intros v Hv. unfold hex8. rewrite hexN_nibbles.
  rewrite parseInt_hexDigits.
  - rewrite digitsValue_nibbles by lia. f_equal.
    change (16 ^ Z.of_nat 8) with (2 ^ 32). apply Z.mod_small. lia.
  - intro H. apply (f_equal (@List.length Z)) in H. rewrite length_nibbles in H. discriminate.
  - apply nibbles_Forall.
Qed.

Lemma toString_ascii_hexN : forall n v, toString_ascii (hexN n v) = hexN n v.
Proof.
  intros. rewrite hexN_nibbles. unfold toString_ascii. rewrite map_map.
  apply map_ext_in. intros d Hd. apply hexDigit_ascii.
  pose proof (nibbles_Forall n v) as F. rewrite Forall_forall in F. auto.
Qed.

End Hex.

Section Layout.

Lemma toInt32_small : forall z, - 2 ^ 31 <= z < 2 ^ 31 -> toInt32 z = z.
Proof.
  intros z H. unfold toInt32. rewrite Z.mod_small by lia. lia.
Qed.

Lemma land_not3 : forall x, Z.land x (Z.lnot 3) = 4 * (x / 4).
Proof.
  intro x. rewrite <- Z.ldiff_land. change 3 with (Z.ones 2).
  rewrite Z.ldiff_ones_r by lia.
  rewrite Z.shiftr_div_pow2, Z.shiftl_mul_pow2 by lia.
  change (2 ^ 2) with 4. lia.
Qed.

Lemma align4_value : forall v, 0 <= v < 2 ^ 31 - 3 ->
  align4 (Int v) = 4 * ((v + 3) / 4).
Proof.
  intros v H. unfold align4. cbn [num_add num_toInt32].
  rewrite toInt32_small by lia. apply land_not3.
Qed.

Lemma length_pad4 : forall n, Z.of_nat (List.length (pad4 n)) = (4 - Z.of_nat n mod 4) mod 4.
Proof.
  intro n. unfold pad4. rewrite repeat_length.
  rewrite Nat2Z.inj_mod.
  assert (n mod 4 < 4)%nat by (apply Nat.mod_upper_bound; lia).
  rewrite Nat2Z.inj_sub by lia. rewrite Nat2Z.inj_mod. reflexivity.
Qed.

Lemma align4_pad : forall o n, 0 <= o -> o mod 4 = 0 ->
  o + Z.of_nat n < 2 ^ 31 - 3 ->
  align4 (Int (o + Z.of_nat n)) = o + Z.of_nat n + Z.of_nat (List.length (pad4 n)).
Proof.
  intros o n Ho Hm Hb. rewrite align4_value by lia. rewrite length_pad4.
  Z.div_mod_to_equations. lia.
Qed.

Lemma padded_mod4 : forall n, (Z.of_nat n + Z.of_nat (List.length (pad4 n))) mod 4 = 0.
Proof. intro n. rewrite length_pad4. Z.div_mod_to_equations. lia. Qed.

Lemma slice_skip : forall (a b : jsstring) i j n,
  List.length a = n -> (n <= i)%nat -> slice (a ++ b) i j = slice b (i - n) (j - n).
Proof.
  intros a b i j n Hn Hi. unfold slice. subst n.
  rewrite skipn_app, skipn_all2 by lia. simpl. f_equal. lia.
Qed.

Lemma slice_take : forall (a b : jsstring) n,
  List.length a = n -> slice (a ++ b) 0 n = a.
Proof.
  intros a b n Hn. unfold slice. subst n. simpl. rewrite Nat.sub_0_r.
  rewrite firstn_app, firstn_all, Nat.sub_diag. simpl. apply app_nil_r.
Qed.

Lemma toString_ascii_app : forall a b,
  toString_ascii (a ++ b) = toString_ascii a ++ toString_ascii b.
Proof. intros. unfold toString_ascii. apply map_app. Qed.

Lemma length_hex8 : forall v, List.length (hex8 v) = 8%nat.
Proof. intro. apply length_hexN. Qed.

Lemma toString_ascii_header : forall m,
  toString_ascii (encodeHeader m) = encodeHeader m.
Proof.
  intro m. unfold encodeHeader, hex8.
  rewrite !toString_ascii_app, !toString_ascii_hexN. reflexivity.
Qed.

Lemma length_header : forall m, List.length (encodeHeader m) = 110%nat.
Proof.
  intro m. unfold encodeHeader. rewrite !length_app, !length_hex8. reflexivity.
Qed.

Ltac slice_field :=
  unfold encodeHeader;
  repeat (rewrite slice_skip with (n := 6%nat) by (reflexivity || (simpl; lia));
          cbn [Nat.sub]);
  repeat (rewrite slice_skip with (n := 8%nat) by (apply length_hex8 || (simpl; lia));
          cbn [Nat.sub]);
  apply slice_take; apply length_hex8.

Lemma header_magic : forall m, slice (encodeHeader m) 0 6 = CPIO_MAGIC.
Proof. intro m. unfold encodeHeader. apply slice_take. reflexivity. Qed.

Lemma header_mode : forall m, slice (encodeHeader m) 14 22 = hex8 (m_mode m).
Proof. intro m. slice_field. Qed.

Lemma header_filesize : forall m,
  slice (encodeHeader m) 54 62 = hex8 (blen (m_data m)).
Proof. intro m. slice_field. Qed.

Lemma header_namesize : forall m,
  slice (encodeHeader m) 94 102 = hex8 (blen (m_name m) + 1).
Proof. intro m. slice_field. Qed.

Lemma length_member : forall m,
  blen (encodeMember m) =
  110 + (blen (m_name m) + 1)
  + Z.of_nat (List.length (pad4 (110 + List.length (m_name m) + 1)))
  + blen (m_data m) + Z.of_nat (List.length (pad4 (List.length (m_data m)))).
Proof.
  intro m. unfold encodeMember, blen.
  rewrite !length_app, length_header. simpl List.length. lia.
Qed.

Lemma member_mod4 : forall m, blen (encodeMember m) mod 4 = 0.
Proof.
  intro m. rewrite length_member.
  pose proof (padded_mod4 (110 + List.length (m_name m) + 1)) as H1.
  pose proof (padded_mod4 (List.length (m_data m))) as H2.
  unfold blen.
  replace (Z.of_nat (110 + List.length (m_name m) + 1))
    with (110 + (Z.of_nat (List.length (m_name m)) + 1)) in H1 by lia.
  Z.div_mod_to_equations. lia.
Qed.

(** A member that ends before 2^31 is read as it was written, whatever
    follows it. *)
Lemma parseCpioTurn_member_within : forall pre m post,
  blen pre mod 4 = 0 ->
  blen pre + blen (encodeMember m) <= 2 ^ 31 - 4 ->
  0 <= m_mode m < 2 ^ 32 ->
  parseCpioTurn (pre ++ encodeMember m ++ post) (blen pre) =
  if str_eqb (toString_utf8 (m_name m)) CPIO_TRAILER then Break
  else Push (entryOf m) (blen pre + blen (encodeMember m)).
Proof.
  intros pre m post Hpre Hlen Hmode.
  pose proof (blen_nonneg pre) as Hp0.
  pose proof (blen_nonneg post) as Hq0.
  pose proof (blen_nonneg (m_name m)) as Hn0.
  pose proof (blen_nonneg (m_data m)) as Hd0.
  pose proof (length_member m) as Hm.
  set (p1 := pad4 (110 + List.length (m_name m) + 1)) in *.
  set (p2 := pad4 (List.length (m_data m))) in *.
  assert (Hbuf : blen (pre ++ encodeMember m ++ post)
                 = blen pre + blen (encodeMember m) + blen post)
    by (rewrite !blen_app; lia).
  assert (Hh : blen (encodeHeader m) = 110)
    by (unfold blen; rewrite length_header; reflexivity).
  remember (pre ++ encodeMember m ++ post) as buf eqn:Ebuf.
  unfold parseCpioTurn, CPIO_HEADER_SIZE.
  destruct (Z.gtb_spec (blen pre + 110) (blen buf)) as [Hgt|_]; [lia|].
  (* the header *)
  rewrite (subarray_at buf pre (encodeHeader m)
             ((m_name m ++ [0]) ++ p1 ++ m_data m ++ p2 ++ post))
    by (try lia; subst buf; unfold encodeMember; fold p1 p2;
        rewrite <- !app_assoc; reflexivity).
  rewrite toString_ascii_header, header_magic, str_eqb_refl.
  cbn [negb].
  rewrite header_mode, header_filesize, header_namesize.
  rewrite !parseInt_hex8 by lia.
  cbn [num_add num_sub num_gt].
  (* the name *)
  assert (Hal1 : align4 (Int (blen pre + 110 + (blen (m_name m) + 1)))
                 = blen pre + 110 + (blen (m_name m) + 1) + Z.of_nat (List.length p1)).
  { replace (blen pre + 110 + (blen (m_name m) + 1))
      with (blen pre + Z.of_nat (110 + List.length (m_name m) + 1))
      by (unfold blen; lia).
    rewrite align4_pad by (unfold blen in *; lia).
    unfold blen, p1. lia. }
  rewrite Hal1.
  destruct (Z.gtb_spec (blen pre + 110 + (blen (m_name m) + 1)
                        + Z.of_nat (List.length p1)) (blen buf)) as [Hgt|_];
    [lia|].
  rewrite (subarray_at buf (pre ++ encodeHeader m) (m_name m)
             ([0] ++ p1 ++ m_data m ++ p2 ++ post))
    by (try (rewrite blen_app; lia); subst buf; unfold encodeMember;
        fold p1 p2; rewrite <- !app_assoc; reflexivity).
  destruct (str_eqb (toString_utf8 (m_name m)) CPIO_TRAILER); [reflexivity|].
  (* the data *)
  assert (Hal2 : align4 (Int (blen pre + 110 + (blen (m_name m) + 1)
                              + Z.of_nat (List.length p1) + blen (m_data m)))
                 = blen pre + blen (encodeMember m)).
  { pose proof (padded_mod4 (110 + List.length (m_name m) + 1)) as Hq.
    fold p1 in Hq.
    replace (blen pre + 110 + (blen (m_name m) + 1)
             + Z.of_nat (List.length p1) + blen (m_data m))
      with ((blen pre + 110 + (blen (m_name m) + 1) + Z.of_nat (List.length p1))
            + Z.of_nat (List.length (m_data m))) by (unfold blen; lia).
    rewrite align4_pad.
    - fold p2. rewrite Hm. unfold blen. lia.
    - lia.
    - replace (Z.of_nat (110 + List.length (m_name m) + 1))
        with (110 + (blen (m_name m) + 1)) in Hq by (unfold blen; lia).
      Z.div_mod_to_equations. lia.
    - unfold blen in *. lia. }
  rewrite Hal2.
  destruct (Z.gtb_spec (blen pre + 110 + (blen (m_name m) + 1)
                        + Z.of_nat (List.length p1) + blen (m_data m))
                       (blen buf)) as [Hgt|_]; [lia|].
  rewrite (subarray_at buf (pre ++ encodeHeader m ++ (m_name m ++ [0]) ++ p1)
             (m_data m) (p2 ++ post)).
  - reflexivity.
  - subst buf. unfold encodeMember. fold p1 p2.
    rewrite <- !app_assoc. reflexivity.
  - rewrite !blen_app, Hh. change (blen [0]) with 1. unfold blen. lia.
  - rewrite !blen_app, Hh. change (blen [0]) with 1. unfold blen. lia.
Qed.

Lemma parseCpioTurn_member : forall pre m post,
  blen pre mod 4 = 0 ->
  blen (pre ++ encodeMember m ++ post) <= 2 ^ 31 - 4 ->
  0 <= m_mode m < 2 ^ 32 ->
  parseCpioTurn (pre ++ encodeMember m ++ post) (blen pre) =
  if str_eqb (toString_utf8 (m_name m)) CPIO_TRAILER then Break
  else Push (entryOf m) (blen pre + blen (encodeMember m)).
Proof.
  intros pre m post Hpre Hlen Hmode.
  apply parseCpioTurn_member_within; try assumption.
  rewrite !blen_app in Hlen. pose proof (blen_nonneg post). lia.
Qed.

End Layout.

Section ArchiveRoundTrip.

Lemma assemble_cons : forall m ms, assemble (m :: ms) = encodeMember m ++ assemble ms.
Proof. intros. unfold assemble. simpl. rewrite <- app_assoc. reflexivity. Qed.

Lemma assemble_mod4 : forall ms, blen (assemble ms) mod 4 = 0.
Proof.
  induction ms as [|m ms IH].
  - reflexivity.
  - rewrite assemble_cons, blen_app.
    pose proof (member_mod4 m). Z.div_mod_to_equations. lia.
Qed.

Lemma parseCpioLoop_members : forall ms pre acc fuel,
  blen pre mod 4 = 0 ->
  blen (pre ++ assemble ms) <= 2 ^ 31 - 4 ->
  Forall wellFormed ms ->
  (List.length ms < fuel)%nat ->
  parseCpioLoop fuel (pre ++ assemble ms) (blen pre) acc
  = Some (acc ++ map entryOf ms).
Proof.
  induction ms as [|m ms IH]; intros pre acc fuel Hpre Hlen Hwf Hfuel;
    (destruct fuel as [|fuel]; [simpl in Hfuel; lia|]).
  - change (assemble []) with (encodeMember trailer) in *.
    cbn [parseCpioLoop].
    assert (Hlt : (blen pre <? blen (pre ++ encodeMember trailer)) = true).
    { apply Z.ltb_lt. rewrite blen_app. change (blen (encodeMember trailer)) with 124. lia. }
    rewrite Hlt.
    rewrite <- (app_nil_r (encodeMember trailer)) at 1.
    rewrite parseCpioTurn_member.
    + change (str_eqb (toString_utf8 (m_name trailer)) CPIO_TRAILER) with true.
      cbn [map]. rewrite app_nil_r. reflexivity.
    + assumption.
    + rewrite app_nil_r. assumption.
    + cbn. lia.
  - inversion Hwf as [|? ? [Hmode Hname] Hwf']; subst.
    rewrite assemble_cons in *.
    cbn [parseCpioLoop].
    pose proof (length_member m) as Hm.
    pose proof (blen_nonneg (m_name m)). pose proof (blen_nonneg (m_data m)).
    assert (Hlt : (blen pre <? blen (pre ++ encodeMember m ++ assemble ms)) = true).
    { apply Z.ltb_lt. rewrite !blen_app. pose proof (blen_nonneg (assemble ms)). lia. }
    rewrite Hlt, parseCpioTurn_member by assumption.
    rewrite (str_eqb_neq _ _ Hname).
    replace (pre ++ encodeMember m ++ assemble ms)
      with ((pre ++ encodeMember m) ++ assemble ms) in * by (rewrite <- app_assoc; reflexivity).
    rewrite <- blen_app.
    rewrite IH.
    + cbn [map]. rewrite <- app_assoc. reflexivity.
    + rewrite blen_app. pose proof (member_mod4 m). Z.div_mod_to_equations. lia.
    + assumption.
    + assumption.
    + simpl in Hfuel. lia.
Qed.

(** X29: an archive assembled from N well-formed members and the
    trailer, shorter than 2^31 bytes, is read back, given fuel for N + 1
    turns, as exactly N Archive Entries, in file order, with the names
    (decoded from UTF-8), the payload bytes, the sizes and the modes of
    the members. *)
Theorem parseCpioArchive_assembled : forall (ms : list Member) (fuel : nat),
  Forall wellFormed ms ->
  blen (assemble ms) < 2 ^ 31 ->
  (List.length ms < fuel)%nat ->
  parseCpioArchive fuel (assemble ms) = Some (map entryOf ms).
Proof.
  intros ms fuel Hwf Hlen Hfuel. unfold parseCpioArchive.
  change (parseCpioLoop fuel (assemble ms) 0 [])
    with (parseCpioLoop fuel ([] ++ assemble ms) (blen []) []).
  rewrite parseCpioLoop_members; try assumption; try reflexivity.
  cbn [app]. pose proof (assemble_mod4 ms). Z.div_mod_to_equations. lia.
Qed.

Lemma parseCpioArchive_assembled_witness :
  parseCpioArchive 3 (assemble sample_members)
  = Some (map entryOf sample_members).
Proof.
  apply parseCpioArchive_assembled.
  - repeat constructor; try (vm_compute; discriminate).
  - vm_compute. reflexivity.
  - vm_compute. lia.
Defined.

End ArchiveRoundTrip.

Section LargeArchive.

Lemma parseCpioLoop_extends : forall fuel buf offset acc result,
  parseCpioLoop fuel buf offset acc = Some result ->
  exists rest, result = acc ++ rest.
Proof.
  induction fuel as [|fuel IH]; intros buf offset acc result H;
    cbn [parseCpioLoop] in H; [discriminate|].
  destruct (offset <? blen buf).
  - destruct (parseCpioTurn buf offset) as [|offset'|e offset'].
    + injection H as <-. exists []. symmetry. apply app_nil_r.
    + apply (IH _ _ _ _ H).
    + destruct (IH _ _ _ _ H) as [rest ->]. exists (e :: rest).
      rewrite <- app_assoc. reflexivity.
  - injection H as <-. exists []. symmetry. apply app_nil_r.
Qed.

(** Bytes taken inside a run of zeros. *)
Lemma firstn_skipn_zeros : forall (a rest : buffer) n i c,
  (List.length a <= i)%nat -> (i + c <= List.length a + n)%nat ->
  firstn c (skipn i (a ++ repeat 0 n ++ rest)) = repeat 0 c.
Proof.
  intros a rest n i c Ha Hi.
  rewrite skipn_app, skipn_all2 by exact Ha. cbn [app].
  replace n with ((i - List.length a) + (c + (n - (i - List.length a) - c)))%nat
    by lia.
  rewrite repeat_app, <- app_assoc.
  rewrite skipn_app, skipn_all2 by (rewrite repeat_length; lia).
  rewrite repeat_length, Nat.sub_diag. cbn [app skipn].
  rewrite repeat_app, <- app_assoc.
  rewrite firstn_app, firstn_all2 by (rewrite repeat_length; lia).
  rewrite repeat_length, Nat.sub_diag. cbn [firstn]. apply app_nil_r.
Qed.

(** The search for the magic passes over zeros. *)
Lemma find_sub_zeros : forall k rest pos,
  find_sub CPIO_MAGIC (repeat 0 k ++ rest) pos
  = find_sub CPIO_MAGIC rest (pos + Z.of_nat k).
Proof.
  induction k as [|k IH]; intros rest pos.
  - cbn [repeat app]. f_equal. lia.
  - cbn [repeat app find_sub].
    change (startsWith (0 :: repeat 0 k ++ rest) CPIO_MAGIC) with false.
    cbv iota. rewrite IH. f_equal. lia.
Qed.

Variable n : nat.
Hypothesis Hn : Z.of_nat n = 2 ^ 31 - 224.

Lemma pad4_zeros : pad4 (List.length (repeat 0 n)) = [].
Proof.
  apply length_zero_iff_nil. apply Nat2Z.inj.
  rewrite length_pad4, repeat_length, Hn. reflexivity.
Qed.

Lemma zeros_member_length : blen (encodeMember (zeros_member n)) = 2 ^ 31 - 112.
Proof.
  rewrite length_member. cbn [zeros_member m_name m_data].
  rewrite pad4_zeros. unfold blen. rewrite repeat_length, Hn. reflexivity.
Qed.

Lemma large_assembled :
  assemble (large_of n)
  = encodeMember (zeros_member n)
    ++ encodeMember four_bytes ++ encodeMember trailer.
Proof.
  unfold assemble, large_of. cbn [map concat].
  rewrite app_nil_r, <- app_assoc. reflexivity.
Qed.

Lemma large_length : blen (assemble (large_of n)) = 2 ^ 31 + 128.
Proof.
  rewrite large_assembled, !blen_app, zeros_member_length. reflexivity.
Qed.

Lemma large_first_turn :
  parseCpioTurn (assemble (large_of n)) 0
  = Push (entryOf (zeros_member n)) (2 ^ 31 - 112).
Proof.
  rewrite large_assembled.
  change (encodeMember (zeros_member n) ++ encodeMember four_bytes
          ++ encodeMember trailer)
    with ([] ++ encodeMember (zeros_member n)
          ++ (encodeMember four_bytes ++ encodeMember trailer)).
  change 0 with (blen []) at 1.
  rewrite parseCpioTurn_member_within.
  - rewrite zeros_member_length. reflexivity.
  - reflexivity.
  - rewrite zeros_member_length. change (blen []) with 0. lia.
  - cbn [zeros_member m_mode]. lia.
Qed.

Lemma large_second_turn :
  parseCpioTurn (assemble (large_of n)) (2 ^ 31 - 112)
  = Push misread_entry (- 2 ^ 31 + 4).
Proof.
  pose proof large_length as Hlen. pose proof zeros_member_length as Hz.
  pose proof large_assembled as Ebuf.
  set (buf := assemble (large_of n)) in *.
  set (pre := encodeMember (zeros_member n)) in *.
  unfold parseCpioTurn, CPIO_HEADER_SIZE. rewrite Hlen.
  change (2 ^ 31 - 112 + 110 >? 2 ^ 31 + 128) with false. cbv iota.
  rewrite (subarray_at buf pre (encodeHeader four_bytes)
             ((m_name four_bytes ++ [0])
              ++ pad4 (110 + List.length (m_name four_bytes) + 1)
              ++ m_data four_bytes ++ pad4 (List.length (m_data four_bytes))
              ++ encodeMember trailer)).
  2:{ rewrite Ebuf. unfold encodeMember at 1. rewrite <- !app_assoc.
      reflexivity. }
  2:{ symmetry. exact Hz. }
  2:{ rewrite Hz. reflexivity. }
  rewrite toString_ascii_header, header_magic, str_eqb_refl.
  cbn [negb].
  rewrite header_mode, header_filesize, header_namesize.
  rewrite !parseInt_hex8 by (vm_compute; split; [discriminate|reflexivity]).
  cbn [num_add num_sub num_gt].
  change (align4 (Int (2 ^ 31 - 112 + 110 + (blen (m_name four_bytes) + 1))))
    with (- 2 ^ 31).
  change (blen (m_data four_bytes)) with 4.
  change (m_mode four_bytes) with 33188.
  change (- 2 ^ 31 >? 2 ^ 31 + 128) with false.
  change (- 2 ^ 31 + 4 >? 2 ^ 31 + 128) with false.
  change (align4 (Int (- 2 ^ 31 + 4))) with (- 2 ^ 31 + 4).
  cbv iota.
  (* the name lies before 2^31 *)
  rewrite (subarray_at buf (pre ++ encodeHeader four_bytes) (m_name four_bytes)
             ([0] ++ pad4 (110 + List.length (m_name four_bytes) + 1)
              ++ m_data four_bytes ++ pad4 (List.length (m_data four_bytes))
              ++ encodeMember trailer)).
  2:{ rewrite Ebuf. unfold encodeMember at 1. rewrite <- !app_assoc.
      reflexivity. }
  2:{ rewrite blen_app, Hz. reflexivity. }
  2:{ rewrite blen_app, Hz. reflexivity. }
  change (str_eqb (toString_utf8 (m_name four_bytes)) CPIO_TRAILER) with false.
  cbv iota.
  (* the data is looked for 2^31 bytes from the end *)
  assert (Hdata : subarray buf (Int (- 2 ^ 31)) (Int (- 2 ^ 31 + 4))
                  = [0; 0; 0; 0]).
  { unfold subarray. rewrite Hlen.
    change (adjustOffset (Int (- 2 ^ 31)) (2 ^ 31 + 128)) with 128.
    change (adjustOffset (Int (- 2 ^ 31 + 4)) (2 ^ 31 + 128)) with 132.
    change (Z.to_nat (if 132 >? 128 then 132 - 128 else 0)) with 4%nat.
    change (Z.to_nat 128) with 128%nat.
    rewrite Ebuf. unfold pre, encodeMember at 1.
    cbn [zeros_member m_name m_data].
    set (a := encodeHeader (zeros_member n)).
    replace ((a ++ (lit "a" ++ [0]) ++ pad4 (110 + List.length (lit "a") + 1)
               ++ repeat 0 n ++ pad4 (List.length (repeat 0 n)))
             ++ encodeMember four_bytes ++ encodeMember trailer)
      with ((a ++ lit "a" ++ [0]) ++ repeat 0 n
            ++ (pad4 (List.length (repeat 0 n))
                ++ encodeMember four_bytes ++ encodeMember trailer)).
    2:{ change (pad4 (110 + List.length (lit "a") + 1)) with (@nil Z).
        rewrite <- !app_assoc. reflexivity. }
    apply (firstn_skipn_zeros _ _ n 128 4).
    - rewrite length_app. unfold a. rewrite length_header. cbn. lia.
    - rewrite length_app. unfold a. rewrite length_header. cbn. lia. }
  rewrite Hdata. reflexivity.
Qed.

Lemma large_third_turn :
  parseCpioTurn (assemble (large_of n)) (- 2 ^ 31 + 4)
  = Continue (2 ^ 31 - 112).
Proof.
  pose proof large_length as Hlen. pose proof large_assembled as Ebuf.
  set (buf := assemble (large_of n)) in *.
  assert (Eshape : buf
                   = (encodeHeader (zeros_member n) ++ lit "a" ++ [0])
                     ++ repeat 0 n
                     ++ encodeMember four_bytes ++ encodeMember trailer).
  { rewrite Ebuf. unfold encodeMember at 1.
    cbn [zeros_member m_name m_data]. rewrite pad4_zeros.
    change (pad4 (110 + List.length (lit "a") + 1)) with (@nil Z).
    cbn [app]. rewrite app_nil_r, <- !app_assoc. reflexivity. }
  assert (Ha : List.length (encodeHeader (zeros_member n) ++ lit "a" ++ [0])
               = 112%nat).
  { rewrite length_app, length_header. reflexivity. }
  unfold parseCpioTurn, CPIO_HEADER_SIZE. rewrite Hlen.
  change (- 2 ^ 31 + 4 + 110 >? 2 ^ 31 + 128) with false. cbv iota.
  (* the header is looked for 2^31 bytes from the end, among the zeros *)
  assert (Hheader : subarray buf (Int (- 2 ^ 31 + 4)) (Int (- 2 ^ 31 + 4 + 110))
                    = repeat 0 110).
  { unfold subarray. rewrite Hlen.
    change (adjustOffset (Int (- 2 ^ 31 + 4)) (2 ^ 31 + 128)) with 132.
    change (adjustOffset (Int (- 2 ^ 31 + 4 + 110)) (2 ^ 31 + 128)) with 242.
    change (Z.to_nat (if 242 >? 132 then 242 - 132 else 0)) with 110%nat.
    change (Z.to_nat 132) with 132%nat.
    rewrite Eshape. apply firstn_skipn_zeros; rewrite Ha; lia. }
  rewrite Hheader.
  change (negb (str_eqb (slice (toString_ascii (repeat 0 110)) 0 6) CPIO_MAGIC))
    with true.
  cbv iota.
  (* the search goes on from there to the header of the second member *)
  assert (Hnext : indexOf buf CPIO_MAGIC (- 2 ^ 31 + 4 + 1) = 2 ^ 31 - 112).
  { unfold indexOf. rewrite Hlen. cbv zeta.
    change (- 2 ^ 31 + 4 + 1 >? 2147483647) with false. cbv iota.
    change (- 2 ^ 31 + 4 + 1 <? -2147483648) with false. cbv iota.
    change (- 2 ^ 31 + 4 + 1 <? 0) with true. cbv iota.
    change (- 2 ^ 31 + 4 + 1 + (2 ^ 31 + 128) >=? 0) with true. cbv iota.
    change (2 ^ 31 + 128 + (- 2 ^ 31 + 4 + 1)) with 133.
    change (133 =? -1) with false. cbv iota.
    change (Z.to_nat 133) with 133%nat.
    rewrite Eshape.
    rewrite skipn_app, skipn_all2 by (rewrite Ha; lia). rewrite Ha.
    cbn [app].
    replace n with (21 + (n - 21))%nat at 1 by lia.
    rewrite repeat_app, <- app_assoc.
    rewrite skipn_app, skipn_all2 by (rewrite repeat_length; lia).
    rewrite repeat_length. change (133 - 112 - 21)%nat with 0%nat.
    cbn [app skipn].
    rewrite find_sub_zeros.
    unfold encodeMember at 1, encodeHeader at 1.
    change CPIO_MAGIC with [48; 55; 48; 55; 48; 49] at 2.
    cbn [app find_sub].
    match goal with
    | |- (if startsWith ?s CPIO_MAGIC then _ else _) = _ =>
        change (startsWith s CPIO_MAGIC) with true
    end.
    cbv iota. lia. }
  rewrite Hnext.
  change (2 ^ 31 - 112 =? -1) with false. reflexivity.
Qed.

Lemma large_loops : forall fuel acc,
  parseCpioLoop fuel (assemble (large_of n)) (2 ^ 31 - 112) acc = None
  /\ parseCpioLoop fuel (assemble (large_of n)) (- 2 ^ 31 + 4) acc = None.
Proof.
  induction fuel as [|fuel IH]; intro acc; cbn [parseCpioLoop];
    [split; reflexivity|].
  rewrite large_length, large_second_turn, large_third_turn.
  change (2 ^ 31 - 112 <? 2 ^ 31 + 128) with true.
  change (- 2 ^ 31 + 4 <? 2 ^ 31 + 128) with true.
  cbv iota. split; apply IH.
Qed.

Lemma large_never_read :
  Forall wellFormed (large_of n)
  /\ blen (assemble (large_of n)) = 2 ^ 31 + 128
  /\ parseCpioTurn (assemble (large_of n)) 0
     = Push (entryOf (zeros_member n)) (2 ^ 31 - 112)
  /\ parseCpioTurn (assemble (large_of n)) (2 ^ 31 - 112)
     = Push misread_entry (- 2 ^ 31 + 4)
  /\ parseCpioTurn (assemble (large_of n)) (- 2 ^ 31 + 4)
     = Continue (2 ^ 31 - 112)
  /\ forall fuel, parseCpioArchive fuel (assemble (large_of n)) = None.
Proof.
  split; [|split; [|split; [|split; [|split]]]].
  - repeat constructor; try (cbn; lia); intro H; vm_compute in H;
      discriminate.
  - apply large_length.
  - apply large_first_turn.
  - apply large_second_turn.
  - apply large_third_turn.
  - intros [|fuel]; unfold parseCpioArchive; cbn [parseCpioLoop];
      [reflexivity|].
    rewrite large_length, large_first_turn.
    change (0 <? 2 ^ 31 + 128) with true. cbv iota. apply large_loops.
Qed.

End LargeArchive.

(** C1, on an archive that passes 2^31 bytes. [large_members] assembled
    is a well-formed archive of two members and the trailer, 2^31 + 128
    bytes long. The first member is read as it is. The header of the
    second lies before 2^31 and its name ends at 2^31: [align4] of that
    offset is -2^31, no multiple of 4 above it, so the data of the second
    member is taken 2^31 bytes from the end of the buffer and read as
    four zero bytes, and the next header is looked for at -2^31 + 4.
    There the magic is not found, the search for it leads back to the
    header of the second member, and [parseCpioArchive] never returns. *)
Theorem large_archive_never_read :
  Forall wellFormed large_members
  /\ blen (assemble large_members) = 2 ^ 31 + 128
  /\ parseCpioTurn (assemble large_members) 0
     = Push (entryOf (zeros_member (Z.to_nat (2 ^ 31 - 224)))) (2 ^ 31 - 112)
  /\ parseCpioTurn (assemble large_members) (2 ^ 31 - 112)
     = Push misread_entry (- 2 ^ 31 + 4)
  /\ parseCpioTurn (assemble large_members) (- 2 ^ 31 + 4)
     = Continue (2 ^ 31 - 112)
  /\ forall fuel, parseCpioArchive fuel (assemble large_members) = None.
Proof.
  assert (H : 0 <= 2 ^ 31 - 224) by lia.
  exact (large_never_read (Z.to_nat (2 ^ 31 - 224)) (Z2Nat.id _ H)).
Qed.

Section RegexLemmas.

Context {A : Type}.
Variable P : A -> Prop.

Lemma star_ok : forall p xs rest prev (k : option Z -> jsstring -> option A),
  forallb p xs = true -> headNot p rest ->
  (forall prev', succeeds (k prev' rest) P) ->
  succeeds (star p prev (xs ++ rest) k) P.
Proof.
  induction xs as [|x xs IH]; intros rest prev k Hall Hrest Hk.
  - simpl. destruct rest as [|c rest]; simpl; [apply Hk|].
    simpl in Hrest. rewrite Hrest. apply Hk.
  - simpl in Hall. apply andb_true_iff in Hall. destruct Hall as [Hx Hxs].
    cbn [app star]. rewrite Hx.
    destruct (IH rest (Some x) k Hxs Hrest Hk) as [a [Ha HP]].
    rewrite Ha. exists a. auto.
Qed.

Lemma plus_ok : forall p xs rest prev cs
    (k : option Z -> jsstring -> captures -> option A),
  run p xs -> headNot p rest ->
  (forall prev', succeeds (k prev' rest cs) P) ->
  succeeds (rmatch (Plus p) prev (xs ++ rest) cs k) P.
Proof.
  intros p xs rest prev cs k [Hne Hall] Hrest Hk.
  destruct xs as [|x xs]; [congruence|].
  simpl in Hall. apply andb_true_iff in Hall. destruct Hall as [Hx Hxs].
  cbn [app rmatch]. rewrite Hx.
  apply star_ok; auto.
Qed.

Lemma firstn_matched : forall (xs rest : jsstring),
  firstn (List.length (xs ++ rest) - List.length rest) (xs ++ rest) = xs.
Proof.
  intros. rewrite length_app.
  replace (List.length xs + List.length rest - List.length rest)%nat
    with (List.length xs) by lia.
  rewrite firstn_app, firstn_all, Nat.sub_diag. simpl. apply app_nil_r.
Qed.

Lemma group_plus_ok : forall n p xs rest prev cs
    (k : option Z -> jsstring -> captures -> option A),
  run p xs -> headNot p rest ->
  (forall prev', succeeds (k prev' rest ((n, xs) :: cs)) P) ->
  succeeds (rmatch (Grp n (Plus p)) prev (xs ++ rest) cs k) P.
Proof.
  intros n p xs rest prev cs k Hrun Hrest Hk.
  change (succeeds
            (rmatch (Plus p) prev (xs ++ rest) cs
               (fun prev' s' cs' =>
                  k prev' s'
                    ((n, firstn (List.length (xs ++ rest) - List.length s')
                           (xs ++ rest)) :: cs'))) P).
  apply plus_ok; auto.
  intro prev'. rewrite firstn_matched. apply Hk.
Qed.

Lemma stripPrefix_app : forall l rest, stripPrefix l (l ++ rest) = Some rest.
Proof.
  induction l as [|x l IH]; intro rest; simpl; [reflexivity|].
  rewrite Z.eqb_refl. apply IH.
Qed.

Lemma str_ok : forall l rest prev cs
    (k : option Z -> jsstring -> captures -> option A),
  (forall prev', succeeds (k prev' rest cs) P) ->
  succeeds (rmatch (Str l) prev (l ++ rest) cs k) P.
Proof.
  intros l rest prev cs k Hk. cbn [rmatch]. rewrite stripPrefix_app. apply Hk.
Qed.

End RegexLemmas.

Section Classes.

Lemma digit_not_space : forall c, isDigit c = true -> isSpace c = false.
Proof.
  intros c H. unfold isDigit in H. apply andb_true_iff in H.
  destruct H as [H1 H2]. apply Z.leb_le in H1. apply Z.leb_le in H2.
  unfold isSpace, isWhiteSpace, isLineTerminator.
  repeat match goal with
         | |- context [?a =? ?b] => destruct (Z.eqb_spec a b); [lia|]
         | |- context [?a <=? ?b] => destruct (Z.leb_spec a b); [try lia|try lia]
         end; reflexivity.
Qed.

Lemma space_not_digit : forall c, isSpace c = true -> isDigit c = false.
Proof.
  intros c H. destruct (isDigit c) eqn:E; [|reflexivity].
  apply digit_not_space in E. congruence.
Qed.

Lemma headNot_run : forall (p q : Z -> bool) xs rest,
  run q xs -> (forall c, q c = true -> p c = false) -> headNot p (xs ++ rest).
Proof.
  intros p q xs rest [Hne Hall] Hpq. destruct xs as [|x xs]; [congruence|].
  simpl in *. apply andb_true_iff in Hall. apply Hpq. tauto.
Qed.

Lemma space_not_notSpace : forall c, isSpace c = true -> notSpace c = false.
Proof. intros c H. unfold notSpace. rewrite H. reflexivity. Qed.

Lemma notSpace_not_space : forall c, notSpace c = true -> isSpace c = false.
Proof. intros c H. unfold notSpace in H. destruct (isSpace c); [discriminate|reflexivity]. Qed.

End Classes.

Section Wire.

Lemma rmatch_seq : forall (A : Type) r1 r2 prev s cs
    (k : option Z -> jsstring -> captures -> option A),
  rmatch (Seq r1 r2) prev s cs k
  = rmatch r1 prev s cs (fun prev' s' cs' => rmatch r2 prev' s' cs' k).
Proof. reflexivity. Qed.

Lemma rmatch_bol : forall (A : Type) m s cs
    (k : option Z -> jsstring -> captures -> option A),
  rmatch (Bol m) None s cs k = k None s cs.
Proof. reflexivity. Qed.

Lemma searchFrom_hit : forall r prev s idx prev' s' cs,
  rmatch r prev s [] (fun p t c => Some (p, t, c)) = Some (prev', s', cs) ->
  searchFrom r prev s idx
  = Some (mkMatch idx (firstn (List.length s - List.length s') s) s' prev' cs).
Proof. intros. destruct s; simpl; rewrite H; reflexivity. Qed.

Lemma rexec_wire : forall t ws1 from ws2 d1 ws3 to ws4 d2,
  run isSpace ws1 -> run isSpace ws2 -> run isSpace ws3 -> run isSpace ws4 ->
  run notSpace from -> run isDigit d1 -> run notSpace to -> run isDigit d2 ->
  t = lit "wire" ++ ws1 ++ from ++ ws2 ++ d1 ++ ws3 ++ to ++ ws4 ++ d2 ->
  exists m, rexec RE_WIRE t = Some m /\ group m 1 = from /\ group m 2 = d1
            /\ group m 3 = to /\ group m 4 = d2.
Proof.
  intros t ws1 from ws2 d1 ws3 to ws4 d2 H1 H2 H3 H4 Hf Hd1 Ht Hd2 ->.
  assert (S : succeeds
     (rmatch RE_WIRE None
        (lit "wire" ++ ws1 ++ from ++ ws2 ++ d1 ++ ws3 ++ to ++ ws4 ++ d2) []
        (fun p t c => Some (p, t, c)))
     (fun r => capture (snd r) 1 = from /\ capture (snd r) 2 = d1
               /\ capture (snd r) 3 = to /\ capture (snd r) 4 = d2)).
  { unfold RE_WIRE, seq.
    replace (ws4 ++ d2) with (ws4 ++ d2 ++ [])
      by (rewrite app_nil_r; reflexivity).
    rewrite rmatch_seq, rmatch_bol.
    rewrite rmatch_seq. apply str_ok. intro.
    rewrite rmatch_seq. apply plus_ok; auto.
    { eapply headNot_run; [exact Hf|apply notSpace_not_space]. }
    intro.
    rewrite rmatch_seq. apply group_plus_ok; auto.
    { eapply headNot_run; [exact H2|apply space_not_notSpace]. }
    intro.
    rewrite rmatch_seq. apply plus_ok; auto.
    { eapply headNot_run; [exact Hd1|apply digit_not_space]. }
    intro.
    rewrite rmatch_seq. apply group_plus_ok; auto.
    { eapply headNot_run; [exact H3|apply space_not_digit]. }
    intro.
    rewrite rmatch_seq. apply plus_ok; auto.
    { eapply headNot_run; [exact Ht|apply notSpace_not_space]. }
    intro.
    rewrite rmatch_seq. apply group_plus_ok; auto.
    { eapply headNot_run; [exact H4|apply space_not_notSpace]. }
    intro.
    rewrite rmatch_seq. apply plus_ok; auto.
    { eapply headNot_run; [exact Hd2|apply digit_not_space]. }
    intro.
    apply group_plus_ok; auto.
    { exact I. }
    intro. eexists. split; [reflexivity|]. cbn. auto. }
  destruct S as [[[prev' s'] cs] [Hm Hc]].
  unfold rexec. erewrite searchFrom_hit by exact Hm.
  eexists. split; [reflexivity|]. exact Hc.
Qed.

Lemma lineConnections_wire : forall basePath line from fromOut to toIn,
  wireLine line from fromOut to toIn ->
  lineConnections basePath line =
  [mkConn (resolvePath basePath from) (parseInt fromOut 10)
          (resolvePath basePath to) (parseInt toIn 10)].
Proof.
  intros basePath line from fromOut to toIn
         (ws1 & ws2 & ws3 & ws4 & H1 & H2 & H3 & H4 & Hf & Hd1 & Ht & Hd2 & E).
  destruct (rexec_wire _ _ _ _ _ _ _ _ _ H1 H2 H3 H4 Hf Hd1 Ht Hd2 E)
    as (m & Hm & G1 & G2 & G3 & G4).
  unfold lineConnections. rewrite Hm, G1, G2, G3, G4. reflexivity.
Qed.

End Wire.

Section SceneInvariants.

Lemma inferCategory_closed : forall nodeType filePath,
  In (inferCategory nodeType filePath) categories.
Proof.
  intros. unfold inferCategory.
  repeat match goal with
         | |- context [if ?b then _ else _] => destruct b
         end;
    vm_compute; repeat (try (left; reflexivity); right).
Qed.

Lemma basePath_slash : forall filename,
  startsWith (basePathOf filename) (lit "/") = true.
Proof. intro. reflexivity. Qed.

Lemma startsWith_app : forall a b p,
  p <> [] -> startsWith a p = true -> startsWith (a ++ b) p = true.
Proof.
  induction a as [|x a IH]; intros b p Hp H.
  - destruct p; [congruence|discriminate].
  - destruct p as [|y p]; [reflexivity|]. simpl in *.
    apply andb_true_iff in H. destruct H as [H1 H2]. rewrite H1. simpl.
    destruct p; [reflexivity|]. apply IH; [discriminate|assumption].
Qed.

Lemma flushNode_ok : forall basePath nodes current,
  Forall nodeOk nodes ->
  (forall p, current = Some p -> nodeOk (finalizeNode p basePath)) ->
  Forall nodeOk (flushNode nodes current basePath).
Proof.
  intros basePath nodes current Hn Hc. unfold flushNode.
  destruct current as [p|]; [|assumption].
  destruct (hasType (Some p)); [|assumption].
  apply Forall_app. split; [assumption|]. constructor; [|constructor]. auto.
Qed.

Lemma nonEmpty_neq : forall s, nonEmpty s = true -> s <> [].
Proof. intros [|c s] H; [discriminate|congruence]. Qed.

Lemma pushParameter_ok : forall basePath node name value isDefault expr,
  nodeOk (finalizeNode node basePath) ->
  nonEmpty name = true ->
  (expr <> [] -> isDefault = false) ->
  nodeOk (finalizeNode
            (pushParameter node
               (mkParam name value isDefault
                  (if nonEmpty expr then Some expr else None))) basePath).
Proof.
  intros basePath node name value isDefault expr (Hp & Hcat & Hpar) Hname Hexpr.
  repeat split; cbn; [exact Hp | exact Hcat |].
  apply Forall_app. split; [exact Hpar|].
  constructor; [|constructor]. split; cbn.
  - apply nonEmpty_neq. assumption.
  - destruct (nonEmpty expr) eqn:Ex; [|congruence].
    intros _. apply Hexpr. apply nonEmpty_neq. assumption.
Qed.

Lemma rename_ok : forall basePath node (name : jsstring),
  startsWith basePath (lit "/") = true ->
  nodeOk (finalizeNode node basePath) ->
  nodeOk (finalizeNode
            (mkPartial (Some (basePath ++ lit "/" ++ name)) (pn_type node)
               (pn_category node) (Some name) (pn_parameters node)
               (pn_flags node)) basePath).
Proof.
  intros basePath node name Hbase (Hp & Hcat & Hpar).
  split; [|split]; [|exact Hcat|exact Hpar].
  change (startsWith (basePath ++ lit "/" ++ name) (lit "/") = true).
  apply startsWith_app; [discriminate|assumption].
Qed.

Lemma parseFlags_ok : forall basePath node flagStr,
  nodeOk (finalizeNode node basePath) ->
  nodeOk (finalizeNode (parseFlags flagStr node) basePath).
Proof. intros basePath node flagStr H. exact H. Qed.

Ltac stateOk_leaf :=
  constructor; cbn;
  first [ assumption | congruence | reflexivity
        | intros ? [= <-]; auto
        | intro; auto ].

Ltac fields :=
  cbn [st_nodes currentNode inParm parmDepth currentParmName currentParmValue
       currentParmExpr currentParmIsDefault].

Lemma extractLine_ok : forall filename basePath st line,
  startsWith basePath (lit "/") = true ->
  stateOk basePath st -> stateOk basePath (extractLine filename basePath st line).
Proof.
  intros filename basePath st line Hbase Hst.
  destruct st as [ns cur inP depth pname pval pexpr pdef].
  destruct Hst as [Hn Hc He]. cbn in Hn, Hc, He.
  unfold extractLine.
  cbn [st_nodes currentNode inParm parmDepth currentParmName currentParmValue
       currentParmExpr currentParmIsDefault].
  assert (Hnew : forall nodeType,
    stateOk basePath
      (mkState (flushNode ns cur basePath)
         (Some (mkPartial (Some basePath) (Some nodeType)
                  (Some (inferCategory nodeType filename)) (Some []) (Some [])
                  (Some [])))
         inP depth pname pval pexpr pdef)).
  { intro nodeType. constructor; fields.
    - apply flushNode_ok; assumption.
    - intros p [= <-]. split; [|split];
        [exact Hbase | apply inferCategory_closed | constructor].
    - assumption. }
  assert (Hcur : forall node, cur = Some node -> nodeOk (finalizeNode node basePath))
    by exact Hc.
  destruct (rexec RE_TYPE (trim line)) as [mt|];
    [destruct inP; [|apply Hnew]|].
  all: destruct (rexec RE_NAME (trim line)) as [mn|];
    destruct cur as [node|]; try specialize (Hcur node eq_refl).
  all: try match goal with
           | |- context [mkPartial (Some (_ ++ _))] =>
               destruct inP;
               [| constructor; fields;
                  [ assumption
                  | intros p [= <-]; apply rename_ok; assumption
                  | assumption ] ]
           end.
  all: destruct (rexec RE_FLAGS (trim line)) as [mf|];
    try (constructor; fields;
         [ assumption
         | intros p [= <-]; apply parseFlags_ok; assumption
         | assumption ]; fail).
  all: destruct (str_eqb (trim line) (lit "parm {")
                 || startsWith (trim line) [112; 97; 114; 109; 9; 123]);
    try (constructor; fields; [assumption | assumption | congruence]; fail).
  all: try (destruct inP; [|constructor; fields; assumption]).
  all: try (constructor; fields; assumption).
  all: destruct (braceDepth depth (trim line) <=? 0).
  all: try (destruct (nonEmpty pname) eqn:Ename;
            (constructor; fields;
             [ assumption
             | intros p [= <-];
               first [apply pushParameter_ok; assumption | assumption]
             | assumption ]); fail).
  all: try (constructor; fields; [assumption | congruence | assumption]; fail).
  all: destruct (rexec RE_PARM_NAME (trim line));
    [constructor; fields; assumption|].
  all: destruct (rexec RE_PARM_VALUE (trim line));
    [constructor; fields; assumption|].
  all: destruct (rexec RE_EXPRESSION (trim line));
    [constructor; fields; [assumption | assumption | reflexivity]|].
  all: constructor; fields; [assumption | assumption |];
    intro Hx; rewrite (He Hx);
    destruct (includes (trim line) (lit "parmdef")
              || includes (trim line) (lit "default {")); reflexivity.
Qed.

Lemma extractNodesFromContent_ok : forall filename content,
  Forall nodeOk (extractNodesFromContent filename content).
Proof.
  intros filename content. unfold extractNodesFromContent.
  assert (H : stateOk (basePathOf filename)
                (fold_left (extractLine filename (basePathOf filename))
                           (split1 10 content) initialState)).
  { assert (H0 : stateOk (basePathOf filename) initialState)
      by (constructor; cbn; [constructor | discriminate | congruence]).
    revert H0. generalize initialState.
    induction (split1 10 content) as [|l ls IH]; intros st Hst; cbn [fold_left].
    - assumption.
    - apply IH. apply extractLine_ok; [apply basePath_slash|assumption]. }
  destruct H as [Hn Hc _]. apply flushNode_ok; assumption.
Qed.

Lemma parseNodes_nodes_ok : forall es acc,
  Forall nodeOk (fst acc) -> Forall nodeOk (fst (parseNodes es acc)).
Proof.
  induction es as [|[k v] es IH]; intros acc Hacc; cbn [parseNodes fold_left].
  - assumption.
  - apply IH. unfold parseNodeEntry.
    destruct (negb (includes v (lit "type"))); [assumption|].
    cbn [fst]. apply Forall_app. split; [assumption|].
    apply extractNodesFromContent_ok.
Qed.

Lemma parseHipContent_nodes : forall items,
  nodes (parseHipContent items)
  = fst (parseNodes (fst (separateEntries items)) ([], [])).
Proof.
  intro items. unfold parseHipContent.
  destruct (separateEntries items) as [ne hc].
  destruct (parseHeader hc) as [[v t] m].
  cbn [fst]. destruct (parseNodes ne ([], [])) as [ns cs]. reflexivity.
Qed.

Lemma parseHipContent_connections : forall items,
  connections (parseHipContent items)
  = snd (parseNodes (fst (separateEntries items)) ([], [])).
Proof.
  intro items. unfold parseHipContent.
  destruct (separateEntries items) as [ne hc].
  destruct (parseHeader hc) as [[v t] m].
  cbn [fst]. destruct (parseNodes ne ([], [])) as [ns cs]. reflexivity.
Qed.

(** C2: in the Scene parsed from any list of entries, every Node has a
    path that starts with a slash and a category of the closed set, and
    every Parameter of a Node has a non-empty name and, when it has an
    expression, is not a default. *)
Theorem parseHipContent_invariants : forall items : list CpioEntry,
  Forall nodeOk (nodes (parseHipContent items)).
Proof.
  intro items. rewrite parseHipContent_nodes.
  apply parseNodes_nodes_ok. constructor.
Qed.

End SceneInvariants.

Section SceneConnections.

Lemma extractConnections_line : forall filename content line c,
  In line (split1 10 content) ->
  lineConnections (basePathOf filename) line = [c] ->
  In c (extractConnections filename content).
Proof.
  intros filename content line c Hin Hc. unfold extractConnections.
  apply in_flat_map. exists line. split; [assumption|].
  rewrite Hc. left. reflexivity.
Qed.

Lemma parseNodes_keeps : forall es acc c,
  In c (snd acc) -> In c (snd (parseNodes es acc)).
Proof.
  induction es as [|[k v] es IH]; intros acc c H; cbn [parseNodes fold_left].
  - assumption.
  - apply IH. unfold parseNodeEntry.
    destruct (negb (includes v (lit "type"))); [assumption|].
    cbn [snd]. apply in_or_app. left. assumption.
Qed.

Lemma parseNodes_connections : forall es acc k v c,
  In (k, v) es -> includes v (lit "type") = true ->
  In c (extractConnections k v) ->
  In c (snd (parseNodes es acc)).
Proof.
  induction es as [|[k' v'] es IH]; intros acc k v c Hin Hty Hc;
    cbn [parseNodes fold_left]; [destruct Hin|].
  destruct Hin as [[= -> ->]|Hin].
  - apply parseNodes_keeps. unfold parseNodeEntry. rewrite Hty. cbn [negb snd].
    apply in_or_app. right. assumption.
  - eapply IH; eassumption.
Qed.

Lemma assocSet_here : forall (V : Type) k (v : V) o, In (k, v) (assocSet k v o).
Proof.
  induction o as [|[k' v'] o IH]; cbn [assocSet].
  - left. reflexivity.
  - destruct (str_eqb k' k) eqn:E.
    + apply str_eqb_eq in E. subst. left. reflexivity.
    + right. assumption.
Qed.

Lemma assocSet_other : forall (V : Type) k (v : V) k2 (v2 : V) o,
  k2 <> k -> In (k, v) o -> In (k, v) (assocSet k2 v2 o).
Proof.
  induction o as [|[k' v'] o IH]; intros Hne Hin; cbn [assocSet].
  - destruct Hin.
  - destruct (str_eqb k' k2) eqn:E.
    + apply str_eqb_eq in E. subst k'.
      destruct Hin as [[= -> ->]|Hin]; [congruence|]. right. assumption.
    + destruct Hin as [Heq|Hin]; [left; assumption|right; auto].
Qed.

Lemma separateEntries_holds : forall items e acc,
  isHeaderName (nameOf e) = false ->
  (forall e', In e' items -> nameOf e' = nameOf e -> e' = e) ->
  In e items \/ In (nameOf e, contentOf e) (fst acc) ->
  In (nameOf e, contentOf e) (fst (fold_left separateEntry items acc)).
Proof.
  induction items as [|e' items IH]; intros e acc Hh Huniq Hin;
    cbn [fold_left].
  - destruct Hin as [[]|Hin]. assumption.
  - apply IH; [assumption | intros; apply Huniq; [right|]; assumption |].
    destruct (str_eqb (nameOf e') (nameOf e)) eqn:E.
    + apply str_eqb_eq in E.
      assert (e' = e) by (apply Huniq; [left; reflexivity|assumption]). subst e'.
      right. unfold separateEntry. fold (nameOf e) (contentOf e).
      rewrite Hh. cbn [fst]. apply assocSet_here.
    + assert (Hne : nameOf e' <> nameOf e)
        by (intro Heq; apply str_eqb_eq in Heq; congruence).
      destruct Hin as [[Heq|Hin]|Hin].
      * subst e'. congruence.
      * left. assumption.
      * right. unfold separateEntry. fold (nameOf e') (contentOf e').
        destruct (isHeaderName (nameOf e')); cbn [fst]; [assumption|].
        apply assocSet_other; assumption.
Qed.

(** C10, amended: for an entry that is no header, whose content holds
    the word [type] and whose normalized file name no other entry has,
    every line of the wire form emits one Connection, its two ends
    resolved against the base path of the entry, and the Scene holds
    it. *)
Theorem wire_line_connection :
  forall (items : list CpioEntry) (e : CpioEntry)
         (line from fromOut to toIn : jsstring),
  In e items ->
  isHeaderName (nameOf e) = false ->
  (forall e', In e' items -> nameOf e' = nameOf e -> e' = e) ->
  includes (contentOf e) (lit "type") = true ->
  In line (split1 10 (contentOf e)) ->
  wireLine line from fromOut to toIn ->
  let basePath := basePathOf (nameOf e) in
  let c := mkConn (resolvePath basePath from) (parseInt fromOut 10)
                  (resolvePath basePath to) (parseInt toIn 10) in
  lineConnections basePath line = [c]
  /\ In c (connections (parseHipContent items)).
Proof.
  intros items e line from fromOut to toIn Hin Hh Huniq Hty Hline Hwire
         basePath c.
  assert (Hc : lineConnections basePath line = [c])
    by (apply lineConnections_wire; assumption).
  split; [assumption|].
  rewrite parseHipContent_connections.
  apply parseNodes_connections with (k := nameOf e) (v := contentOf e).
  - unfold separateEntries. apply separateEntries_holds; auto.
  - assumption.
  - eapply extractConnections_line; eassumption.
Qed.

Lemma wire_sample_line :
  wireLine (lit "wire /obj/geo1/a 0 /obj/geo1/merge1 1")
           (lit "/obj/geo1/a") (lit "0") (lit "/obj/geo1/merge1") (lit "1").
Proof.
  exists (lit " "), (lit " "), (lit " "), (lit " ").
  repeat split; try discriminate; reflexivity.
Defined.

Lemma wire_line_connection_witness :
  lineConnections (lit "/obj/geo1/merge")
    (lit "wire /obj/geo1/a 0 /obj/geo1/merge1 1")
  = [mkConn (lit "/obj/geo1/a") (Int 0) (lit "/obj/geo1/merge1") (Int 1)]
  /\ In (mkConn (lit "/obj/geo1/a") (Int 0) (lit "/obj/geo1/merge1") (Int 1))
        (connections (parseHipContent [wire_sample])).
Proof.
  apply (wire_line_connection [wire_sample] wire_sample
           (lit "wire /obj/geo1/a 0 /obj/geo1/merge1 1")
           (lit "/obj/geo1/a") (lit "0") (lit "/obj/geo1/merge1") (lit "1")).
  - left. reflexivity.
  - reflexivity.
  - intros e' [<-|[]] _. reflexivity.
  - reflexivity.
  - vm_compute. right. right. left. reflexivity.
  - exact wire_sample_line.
Defined.

(** C10 as stated fails: the wire line of a text entry without the word
    [type] gives no Connection. *)
Lemma wire_line_dropped :
  isTextEntry wire_only = true
  /\ isHeaderName (nameOf wire_only) = false
  /\ split1 10 (contentOf wire_only)
     = [lit "wire /obj/geo1/a 0 /obj/geo1/merge1 1"]
  /\ wireLine (lit "wire /obj/geo1/a 0 /obj/geo1/merge1 1")
              (lit "/obj/geo1/a") (lit "0") (lit "/obj/geo1/merge1") (lit "1")
  /\ connections (parseHipContent [wire_only]) = [].
Proof.
  repeat split; try reflexivity.
  exists (lit " "), (lit " "), (lit " "), (lit " ").
  repeat split; try discriminate; reflexivity.
Qed.

End SceneConnections.

Section Coercion.

(** C4, amended: value coercion gives a single number exactly when the
    trimmed string is not empty and [Number] of it is not NaN; no
    canonical form or finiteness is asked for. *)
Theorem parseParamValue_number : forall (raw : jsstring) (n : jsnumber),
  parseParamValue raw = PNumber n
  <-> (trim raw <> [] /\ Number (trim raw) = n /\ n <> NumNaN).
Proof.
  intros raw n. unfold parseParamValue. split.
  - destruct (isNaN (Number (trim raw))) eqn:En;
      destruct (str_eqb (trim raw) []) eqn:Ee; cbn [negb andb].
    all: try (destruct (includes (trim raw) (lit " "));
              [destruct (forallb _ _)|]; discriminate).
    intros [= <-]. repeat split.
    + intro H. rewrite H in Ee. discriminate.
    + intro H. rewrite H in En. discriminate.
  - intros (Hne & <- & Hnan).
    rewrite (str_eqb_neq _ _ Hne).
    destruct (Number (trim raw)); [congruence| |]; reflexivity.
Qed.

(** C4 as stated fails: [1e3] is coerced to the number 1000, whose
    canonical form is not [1e3]; the hex literal [0x10] is coerced to 16;
    [Infinity] is coerced to a number that is not finite. *)
Lemma noncanonical_numbers_coerced :
  (parseParamValue (lit "1e3") = PNumber (NumDec false 1 3)
   /\ canonicalString (NumDec false 1 3) = Some (lit "1000")
   /\ trim (lit "1e3") = lit "1e3")
  /\ (parseParamValue (lit "0x10") = PNumber (NumDec false 16 0)
      /\ canonicalString (NumDec false 16 0) = Some (lit "16"))
  /\ (parseParamValue (lit "Infinity") = PNumber (NumInfinity false)
      /\ isFinite (NumInfinity false) = false).
Proof. repeat split. Qed.

End Coercion.

Section ReaderFacts.

(** C3 as stated fails: four junk bytes before the gzip bytes of a
    trailer-only archive are not skipped. Whatever gunzip does, the
    buffer is not taken for gzip and no magic is found, so reading it
    throws; a gunzip that inflates the stream reads the stream alone as
    no entries and an empty Scene. *)
Lemma junk_before_gzip_rejected :
  (forall gunzipSync,
      gunzipSync gz_trailer_only = inr (assemble []) ->
      readCpioFromBuffer gunzipSync 1 gz_trailer_only = Returned []
      /\ parseHipBuffer gunzipSync 1 gz_trailer_only = Returned emptyScene)
  /\ (forall gunzipSync fuel,
         readCpioFromBuffer gunzipSync fuel ([1; 2; 3; 4] ++ gz_trailer_only)
         = Thrown (noMagicMessage [1; 2; 3; 4; 31; 11])
         /\ parseHipBuffer gunzipSync fuel ([1; 2; 3; 4] ++ gz_trailer_only)
            = Thrown (noMagicMessage [1; 2; 3; 4; 31; 11])).
Proof.
  split.
  - intros g Hg. unfold parseHipBuffer, readCpioFromBuffer.
    change (isGzip gz_trailer_only) with true. cbv iota. rewrite Hg.
    split; reflexivity.
  - intros g fuel. unfold parseHipBuffer. split; reflexivity.
Qed.

Lemma isGzip_app4 : forall junk raw,
  List.length junk = 4%nat -> isGzip (junk ++ raw) = isGzip junk.
Proof.
  intros junk raw H.
  destruct junk as [|a [|b junk]]; try discriminate. reflexivity.
Qed.

Lemma magic_shape : forall raw,
  toString_ascii (firstn 6 raw) = CPIO_MAGIC ->
  exists a b c d e f rest,
    raw = a :: b :: c :: d :: e :: f :: rest
    /\ Z.land a 127 = 48 /\ Z.land b 127 = 55.
Proof.
  intros raw H.
  destruct raw as [|a [|b [|c [|d [|e [|f rest]]]]]]; try discriminate.
  cbn in H. injection H as Ha Hb _ _ _ _.
  exists a, b, c, d, e, f, rest. auto.
Qed.

Lemma subarray_head : forall (mid post : buffer) n,
  n = blen mid -> subarray (mid ++ post) (Int 0) (Int n) = mid.
Proof.
  intros mid post n ->.
  apply (subarray_at (mid ++ post) [] mid post); reflexivity.
Qed.

Lemma subarray_from_at : forall (pre post : buffer),
  subarray_from (pre ++ post) (Int (blen pre)) = post.
Proof.
  intros. unfold subarray_from.
  rewrite adjustOffset_in
    by (rewrite blen_app; pose proof (blen_nonneg pre);
        pose proof (blen_nonneg post); lia).
  unfold blen. rewrite Nat2Z.id.
  rewrite skipn_app, skipn_all, Nat.sub_diag. reflexivity.
Qed.

Lemma locateCpio_magic : forall raw,
  toString_ascii (firstn 6 raw) = CPIO_MAGIC -> locateCpio raw = inr raw.
Proof.
  intros raw H. unfold locateCpio.
  destruct (magic_shape raw H) as (a & b & c & d & e & f & rest & -> & _).
  change (a :: b :: c :: d :: e :: f :: rest)
    with ([a; b; c; d; e; f] ++ rest) at 1.
  rewrite (subarray_head [a; b; c; d; e; f] rest 6 eq_refl).
  cbn [firstn] in H. rewrite H. reflexivity.
Qed.

Lemma locateCpio_prefix : forall junk raw,
  List.length junk = 4%nat ->
  toString_ascii (firstn 6 raw) = CPIO_MAGIC ->
  locateCpio (junk ++ raw) = inr raw.
Proof.
  intros junk raw Hj H. unfold locateCpio.
  destruct (magic_shape raw H) as (a & b & c & d & e & f & rest & -> & Ha & Hb).
  destruct junk as [|j0 [|j1 [|j2 [|j3 [|]]]]]; try discriminate.
  change ([j0; j1; j2; j3] ++ a :: b :: c :: d :: e :: f :: rest)
    with ([j0; j1; j2; j3; a; b] ++ c :: d :: e :: f :: rest) at 1.
  rewrite (subarray_head [j0; j1; j2; j3; a; b] (c :: d :: e :: f :: rest) 6 eq_refl).
  assert (Hne : str_eqb (toString_ascii [j0; j1; j2; j3; a; b]) CPIO_MAGIC = false).
  { cbn [toString_ascii map]. rewrite Hb. cbn [str_eqb CPIO_MAGIC].
    rewrite !andb_false_r. reflexivity. }
  rewrite Hne. cbn [negb].
  rewrite (subarray_at ([j0; j1; j2; j3] ++ a :: b :: c :: d :: e :: f :: rest)
             [j0; j1; j2; j3] [a; b; c; d; e; f] rest 4 10)
    by reflexivity.
  change ([j0; j1; j2; j3] ++ a :: b :: c :: d :: e :: f :: rest)
    with ([j0; j1; j2; j3] ++ (a :: b :: c :: d :: e :: f :: rest)).
  cbn [firstn] in H. rewrite H, str_eqb_refl.
  f_equal. apply (subarray_from_at [j0; j1; j2; j3]).
Qed.

Lemma isGzip_magic : forall raw,
  toString_ascii (firstn 6 raw) = CPIO_MAGIC -> isGzip raw = false.
Proof.
  intros raw H.
  destruct (magic_shape raw H) as (a & b & c & d & e & f & rest & -> & Ha & _).
  unfold isGzip. cbn [byteAt nth_error].
  destruct (Z.eqb_spec a 31) as [->|]; [discriminate|reflexivity].
Qed.

(** C3, amended: four bytes before the magic of the archive itself are
    skipped. For an archive that begins with the magic, the reader gives
    the same result with four junk bytes in front of it, when these do
    not begin like gzip; and the same result when such a prefixed
    archive is what a gzip stream inflates to. *)
Theorem prefix_before_magic_skipped :
  forall (gunzipSync : buffer -> jsstring + buffer) (fuel : nat)
         (junk raw : buffer),
  List.length junk = 4%nat ->
  toString_ascii (firstn 6 raw) = CPIO_MAGIC ->
  (isGzip junk = false ->
   readCpioFromBuffer gunzipSync fuel (junk ++ raw)
   = readCpioFromBuffer gunzipSync fuel raw)
  /\ (forall gz, isGzip gz = true -> gunzipSync gz = inr (junk ++ raw) ->
      readCpioFromBuffer gunzipSync fuel gz
      = readCpioFromBuffer gunzipSync fuel raw).
Proof.
  intros g fuel junk raw Hj Hm.
  assert (Hraw : readCpioFromBuffer g fuel raw
                 = match parseCpioArchive fuel raw with
                   | Some es => Returned es
                   | None => OutOfFuel
                   end).
  { unfold readCpioFromBuffer.
    rewrite (isGzip_magic raw Hm), (locateCpio_magic raw Hm). reflexivity. }
  split.
  - intro Hg. rewrite Hraw. unfold readCpioFromBuffer.
    rewrite isGzip_app4, Hg, locateCpio_prefix by assumption. reflexivity.
  - intros gz Hz Hgz. rewrite Hraw. unfold readCpioFromBuffer.
    rewrite Hz, Hgz, locateCpio_prefix by assumption. reflexivity.
Qed.

Lemma prefix_before_magic_skipped_witness :
  readCpioFromBuffer inflate_sample 3 ([1; 2; 3; 4] ++ assemble sample_members)
  = Returned (map entryOf sample_members)
  /\ readCpioFromBuffer inflate_sample 3 [31; 139]
     = Returned (map entryOf sample_members).
Proof.
  destruct (prefix_before_magic_skipped inflate_sample 3 [1; 2; 3; 4]
              (assemble sample_members) eq_refl eq_refl) as [Hplain Hgz].
  split.
  - rewrite (Hplain eq_refl). reflexivity.
  - rewrite (Hgz [31; 139] eq_refl eq_refl). reflexivity.
Defined.

(** C5 as stated fails: a header with the magic and fields that are no
    hex numbers raises nothing, and the entry decoded from it is
    returned. *)
Lemma bad_header_read :
  parseCpioArchive 3 bad_header_archive
  = Some [mkEntry (lit "abcd") (lit "DATA") (Int 4) NaN]
  /\ forall gunzipSync fuel,
       readCpioFromBuffer gunzipSync (S (S fuel)) bad_header_archive
       = Returned [mkEntry (lit "abcd") (lit "DATA") (Int 4) NaN].
Proof.
  split; [reflexivity|]. intros g fuel. reflexivity.
Qed.

(** C5, amended: the reader has no bad-header error. It throws exactly
    in two cases: the error is gunzip's own, or it is no-magic, when
    there is no magic at bytes 0..6 nor at bytes 4..10 nor starting
    within the first 256 bytes. Both are decided before any header is
    read, so no header field makes the reader throw. *)
Theorem reader_errors :
  forall (gunzipSync : buffer -> jsstring + buffer) (fuel : nat)
         (buf : buffer) (message : jsstring),
  readCpioFromBuffer gunzipSync fuel buf = Thrown message
  <-> ((isGzip buf = true /\ gunzipSync buf = inl message)
       \/ exists raw,
            (isGzip buf = false /\ raw = buf
             \/ isGzip buf = true /\ gunzipSync buf = inr raw)
            /\ message
               = noMagicMessage (toString_ascii (subarray raw (Int 0) (Int 6)))
            /\ toString_ascii (subarray raw (Int 0) (Int 6)) <> CPIO_MAGIC
            /\ toString_ascii (subarray raw (Int 4) (Int 10)) <> CPIO_MAGIC
            /\ (indexOf raw CPIO_MAGIC 0 = -1
                \/ 256 <= indexOf raw CPIO_MAGIC 0)).
Proof.
  intros g fuel buf message. unfold readCpioFromBuffer.
  assert (Hloc : forall raw,
    match locateCpio raw with
    | inl e => Thrown e
    | inr raw' =>
        match parseCpioArchive fuel raw' with
        | Some es => Returned es
        | None => OutOfFuel
        end
    end = Thrown message
    <-> (message = noMagicMessage (toString_ascii (subarray raw (Int 0) (Int 6)))
         /\ toString_ascii (subarray raw (Int 0) (Int 6)) <> CPIO_MAGIC
         /\ toString_ascii (subarray raw (Int 4) (Int 10)) <> CPIO_MAGIC
         /\ (indexOf raw CPIO_MAGIC 0 = -1
             \/ 256 <= indexOf raw CPIO_MAGIC 0))).
  { intro raw. unfold locateCpio. split.
    - intro Hr.
      destruct (str_eqb (toString_ascii (subarray raw (Int 0) (Int 6))) CPIO_MAGIC) eqn:E0;
        cbn [negb] in Hr.
      { destruct (parseCpioArchive fuel raw); discriminate. }
      destruct (str_eqb (toString_ascii (subarray raw (Int 4) (Int 10))) CPIO_MAGIC) eqn:E4.
      { destruct (parseCpioArchive fuel _); discriminate. }
      destruct (Z.eqb_spec (indexOf raw CPIO_MAGIC 0) (-1)) as [Ei|Ei];
        destruct (Z.ltb_spec (indexOf raw CPIO_MAGIC 0) 256) as [El|El];
        cbn [negb andb] in Hr;
        try (destruct (parseCpioArchive fuel _); discriminate).
      all: injection Hr as <-; repeat split;
        try (intro Heq; apply str_eqb_eq in Heq; congruence); auto.
    - intros (-> & H0 & H4 & Hi).
      rewrite (str_eqb_neq _ _ H0), (str_eqb_neq _ _ H4). cbn [negb].
      destruct (Z.eqb_spec (indexOf raw CPIO_MAGIC 0) (-1)) as [Ei|Ei];
        [reflexivity|].
      destruct (Z.ltb_spec (indexOf raw CPIO_MAGIC 0) 256) as [El|El];
        [lia|reflexivity]. }
  split.
  - intro H. destruct (isGzip buf) eqn:Eg.
    + destruct (g buf) as [e|raw] eqn:Egz.
      * left. injection H as <-. auto.
      * right. exists raw. split; [right; auto|]. apply Hloc. assumption.
    + right. exists buf. split; [left; auto|]. apply Hloc. assumption.
  - intros [[Hg Hm]|(raw & [[Hg ->]|[Hg Hm]] & Hrest)].
    + rewrite Hg, Hm. reflexivity.
    + rewrite Hg. apply Hloc. assumption.
    + rewrite Hg, Hm. apply Hloc. assumption.
Qed.

End ReaderFacts.

Section Eviction.

Variable cacheDir : jsstring.
Variable sha256hex : buffer -> jsstring.
Variable decodeURIComponent : jsstring -> option jsstring.
Variable pathJoin : jsstring -> jsstring -> jsstring.
Variable unlinkThrows : jsstring -> bool.

Lemma assocGet_none_set : forall (V : Type) k (v : V) m,
  assocGet k m = None -> assocSet k v (assocDelete k m) = m ++ [(k, v)].
Proof.
  induction m as [|[k' v'] m IH]; intro H; cbn in *; [reflexivity|].
  destruct (str_eqb k' k) eqn:E; [discriminate|]. cbn. rewrite E.
  rewrite IH by assumption. reflexivity.
Qed.

Lemma evictOldest_within : forall sorted total maxSize w m,
  total <= maxSize ->
  evictOldest unlinkThrows sorted total maxSize w m = (w, m).
Proof.
  intros sorted total maxSize w m H. destruct sorted as [|[k e] rest]; cbn.
  - reflexivity.
  - destruct (Z.gtb_spec total maxSize); [lia|reflexivity].
Qed.

(** A download of a new URL while the cache is within its budget, the
    writes going through. *)
Lemma downloadTurn_new : forall maxSize w result req buf t name m,
  loadManifest w = m ->
  assocGet (url req) m = None ->
  totalSize (sortByTime m) <= maxSize ->
  decodeURIComponent (last (split1 47 (url req)) []) = Some name ->
  exists blobs' entry,
    downloadTurn cacheDir sha256hex decodeURIComponent pathJoin unlinkThrows
      maxSize (w, result) (req, mkReply (Some buf) t true true)
    = (mkWorld blobs' (Some (m ++ [(url req, entry)])),
       mkDownloadResult (downloaded result + 1) (skipped result)
         (errors result) (entries result ++ [entry]))
    /\ size entry = blen buf /\ downloadedAt entry = t
    /\ localPath entry
       = pathJoin cacheDir
           (slice (sha256hex buf) 0 12 ++ lit "-" ++ sanitizeFilename name).
Proof.
  intros maxSize w result req buf t name m Hm Hget Htot Hdec.
  unfold downloadTurn. rewrite Hm, Hget.
  unfold enforceCacheLimit. rewrite evictOldest_within by assumption.
  unfold downloadHipFile.
  change (loadManifest (saveManifest w m)) with m.
  rewrite Hget. cbn [body now written saved negb]. rewrite Hdec.
  rewrite assocGet_none_set by assumption.
  eexists. eexists. split; [reflexivity|]. repeat split; reflexivity.
Qed.

(** What a download leaves of a manifest that does not hold its URL:
    the manifest, and after it the new entry when there is one. *)
Lemma downloadHipFile_others : forall w req reply m,
  loadManifest w = m ->
  assocGet (url req) m = None ->
  others (url req)
    (loadManifest
       (fst (downloadHipFile cacheDir sha256hex decodeURIComponent pathJoin
               w req reply)))
  = m.
Proof.
  intros w req reply m Hm Hget.
  assert (Hself : others (url req) m = m).
  { clear Hm. unfold others. induction m as [|[k v] m IH]; [reflexivity|].
    cbn [assocGet] in Hget. cbn [filter fst].
    destruct (str_eqb k (url req)) eqn:E; [discriminate|].
    cbn [negb]. rewrite IH by exact Hget. reflexivity. }
  unfold downloadHipFile. rewrite Hm, Hget.
  destruct (body reply) as [buf|]; cbn [fst]; [|rewrite Hm; exact Hself].
  destruct (decodeURIComponent _) as [name|]; cbn [fst];
    [|rewrite Hm; exact Hself].
  destruct (written reply); cbn [negb fst]; [|rewrite Hm; exact Hself].
  destruct (saved reply); cbn [negb fst].
  - unfold loadManifest, saveManifest. cbn [manifestFile orElse].
    rewrite assocGet_none_set by exact Hget.
    unfold others. rewrite filter_app. fold (others (url req) m).
    rewrite Hself. cbn [filter fst]. rewrite str_eqb_refl. cbn [negb].
    apply app_nil_r.
  - unfold loadManifest, writeFileSync in *.
    destruct (existsSync w _); cbn [manifestFile]; rewrite Hm; exact Hself.
Qed.

Lemma assocGet_others : forall k key (m : CacheManifest),
  k <> key -> assocGet k (others key m) = assocGet k m.
Proof.
  intros k key m Hk. unfold others.
  induction m as [|[k' v] m IH]; [reflexivity|].
  cbn [filter fst assocGet].
  destruct (str_eqb k' key) eqn:E; cbn [negb assocGet].
  - apply str_eqb_eq in E. subst k'.
    rewrite (str_eqb_neq key k) by congruence. exact IH.
  - rewrite IH. reflexivity.
Qed.

(** C6, amended: with a budget of 1000 and three bodies of 400 bytes
    downloaded in the order t1 < t2 < t3 into an empty cache, once the
    third entry is added the manifest holds all three and the sizes sum
    to 1200: nothing was evicted. The download of a fourth URL, whatever
    is answered to it, starts with the eviction of the entry of t1, when
    removing its file does not fail: after that download the manifest
    holds, apart from the entry of the fourth, exactly the entries of t2
    and t3, summing to 800. *)
Theorem eviction_waits_for_next_download :
  forall (r1 r2 r3 r4 : Request) (b1 b2 b3 : buffer) (t1 t2 t3 : Z)
         (n1 n2 n3 : jsstring) (reply4 : Reply),
  url r1 <> url r2 -> url r1 <> url r3 -> url r2 <> url r3 ->
  url r1 <> url r4 -> url r2 <> url r4 -> url r3 <> url r4 ->
  blen b1 = 400 -> blen b2 = 400 -> blen b3 = 400 ->
  t1 < t2 -> t2 < t3 ->
  decodeURIComponent (last (split1 47 (url r1)) []) = Some n1 ->
  decodeURIComponent (last (split1 47 (url r2)) []) = Some n2 ->
  decodeURIComponent (last (split1 47 (url r3)) []) = Some n3 ->
  unlinkThrows
    (pathJoin cacheDir
       (slice (sha256hex b1) 0 12 ++ lit "-" ++ sanitizeFilename n1))
  = false ->
  let three :=
    [(r1, mkReply (Some b1) t1 true true);
     (r2, mkReply (Some b2) t2 true true);
     (r3, mkReply (Some b3) t3 true true)] in
  let '(w, result) :=
    downloadHipFiles cacheDir sha256hex decodeURIComponent pathJoin
      unlinkThrows 1000 emptyCache three in
  (keys (loadManifest w) = [url r1; url r2; url r3]
   /\ map (fun kv => downloadedAt (snd kv)) (loadManifest w) = [t1; t2; t3]
   /\ totalSize (loadManifest w) = 1200
   /\ downloaded result = 3)
  /\ let '(w4, result4) :=
       downloadHipFiles cacheDir sha256hex decodeURIComponent pathJoin
         unlinkThrows 1000 emptyCache (three ++ [(r4, reply4)]) in
     let kept := others (url r4) (loadManifest w4) in
     keys kept = [url r2; url r3]
     /\ map (fun kv => downloadedAt (snd kv)) kept = [t2; t3]
     /\ totalSize kept = 800
     /\ assocGet (url r1) (loadManifest w4) = None.
Proof.
  intros r1 r2 r3 r4 b1 b2 b3 t1 t2 t3 n1 n2 n3 reply4
         H12 H13 H23 H14 H24 H34 Hb1 Hb2 Hb3 Ht12 Ht23 Hd1 Hd2 Hd3 Hun three.
  unfold three, downloadHipFiles. cbn [app fold_left].
  destruct (downloadTurn_new 1000 emptyCache (mkDownloadResult 0 0 0 []) r1 b1 t1 n1 []
              eq_refl eq_refl ltac:(cbn; lia) Hd1)
    as (bl1 & e1 & -> & Hs1 & Ha1 & Hp1).
  match goal with
  | |- context [downloadTurn _ _ _ _ _ 1000 (?w, ?res) (r2, _)] =>
      destruct (downloadTurn_new 1000 w res r2 b2 t2 n2 [(url r1, e1)] eq_refl)
        as (bl2 & e2 & -> & Hs2 & Ha2 & _)
  end.
  { cbn. rewrite (str_eqb_neq _ _ H12). reflexivity. }
  { cbn. lia. }
  { assumption. }
  match goal with
  | |- context [downloadTurn _ _ _ _ _ 1000 (?w, ?res) (r3, _)] =>
      destruct (downloadTurn_new 1000 w res r3 b3 t3 n3
                  [(url r1, e1); (url r2, e2)] eq_refl)
        as (bl3 & e3 & -> & Hs3 & Ha3 & _)
  end.
  { cbn. rewrite (str_eqb_neq _ _ H13), (str_eqb_neq _ _ H23). reflexivity. }
  { cbn. rewrite Ha1, Ha2. destruct (Z.leb_spec t1 t2); [|lia]. cbn. lia. }
  { assumption. }
  cbn [loadManifest manifestFile orElse app].
  split.
  - repeat split; cbn; rewrite ?Ha1, ?Ha2, ?Ha3; try reflexivity. lia.
  - unfold downloadTurn at 1.
    cbn [loadManifest manifestFile orElse assocGet app].
    rewrite (str_eqb_neq _ _ H14), (str_eqb_neq _ _ H24),
            (str_eqb_neq _ _ H34).
    unfold enforceCacheLimit, sortByTime.
    cbn [fold_left insertByTime snd].
    rewrite ?Ha1, ?Ha2, ?Ha3.
    destruct (Z.leb_spec t1 t2); [|lia].
    cbn [insertByTime snd]. rewrite ?Ha1, ?Ha2, ?Ha3.
    destruct (Z.leb_spec t1 t3); [|lia].
    cbn [insertByTime snd]. rewrite ?Ha1, ?Ha2, ?Ha3.
    destruct (Z.leb_spec t2 t3); [|lia].
    cbn [insertByTime evictOldest totalSize fold_left snd].
    rewrite Hs1, Hs2, Hs3, Hb1, Hb2, Hb3.
    change (0 + 400 + 400 + 400 >? 1000) with true. cbv iota.
    rewrite Hp1, Hun, andb_false_r.
    change (0 + 400 + 400 + 400 - 400 >? 1000) with false. cbv iota.
    cbn [assocDelete]. rewrite str_eqb_refl.
    match goal with
    | |- context [downloadHipFile _ _ _ _ ?w2 r4 reply4] =>
        pose proof (downloadHipFile_others w2 r4 reply4
                      [(url r2, e2); (url r3, e3)] eq_refl) as Hk;
        destruct (downloadHipFile cacheDir sha256hex decodeURIComponent
                    pathJoin w2 r4 reply4) as [w3 [e4|]] eqn:E4
    end.
    all: cbn [fst] in Hk.
    all: specialize (Hk ltac:(cbn; rewrite (str_eqb_neq _ _ H24),
                                (str_eqb_neq _ _ H34); reflexivity)).
    all: cbv zeta; rewrite <- (assocGet_others (url r1) (url r4)) by exact H14.
    all: rewrite Hk; cbn [keys map fst snd totalSize fold_left assocGet].
    all: rewrite Ha2, Ha3, Hs2, Hs3, Hb2, Hb3.
    all: rewrite (str_eqb_neq (url r2) (url r1)) by congruence.
    all: rewrite (str_eqb_neq (url r3) (url r1)) by congruence.
    all: repeat split; reflexivity.
Qed.

End Eviction.

Section EvictionScenario.

(** C6 as stated fails: after the third of three downloads of 400 bytes
    under a budget of 1000, the manifest holds the three entries and
    their sizes sum to 1200. *)
Lemma third_entry_evicts_nothing :
  map (fun item => (option_map blen (body (snd item)), now (snd item))) three_downloads
  = [(Some 400, 1000); (Some 400, 2000); (Some 400, 3000)]
  /\ forall sha256hex,
       keys (loadManifest (afterThree sha256hex))
       = [lit "https://x.test/a.hip"; lit "https://x.test/b.hip";
          lit "https://x.test/c.hip"]
       /\ totalSize (loadManifest (afterThree sha256hex)) = 1200.
Proof. split; [reflexivity|]. intro sha. split; reflexivity. Qed.

Lemma eviction_waits_for_next_download_witness :
  (let '(w, result) :=
     downloadHipFiles (lit "/cache") (fun _ => lit "00") decodePlain joinPlain
       unlinkWorks 1000 emptyCache three_downloads in
   keys (loadManifest w) = [url request_a; url request_b; url request_c]
   /\ totalSize (loadManifest w) = 1200)
  /\ (let '(w4, result4) :=
        downloadHipFiles (lit "/cache") (fun _ => lit "00") decodePlain
          joinPlain unlinkWorks 1000 emptyCache
          (three_downloads ++ [(request_d, fourth_reply)]) in
      keys (loadManifest w4)
      = [url request_b; url request_c; url request_d]
      /\ keys (others (url request_d) (loadManifest w4))
         = [url request_b; url request_c]
      /\ totalSize (others (url request_d) (loadManifest w4)) = 800
      /\ assocGet (url request_a) (loadManifest w4) = None).
Proof.
  pose proof (eviction_waits_for_next_download (lit "/cache")
                (fun _ => lit "00") decodePlain joinPlain unlinkWorks
                request_a request_b request_c request_d
                (repeat 0 400) (repeat 0 400) (repeat 0 400) 1000 2000 3000
                (lit "a.hip") (lit "b.hip") (lit "c.hip") fourth_reply) as H.
  cbv zeta in H.
  change [(request_a, mkReply (Some (repeat 0 400)) 1000 true true);
          (request_b, mkReply (Some (repeat 0 400)) 2000 true true);
          (request_c, mkReply (Some (repeat 0 400)) 3000 true true)]
    with three_downloads in H.
  destruct (downloadHipFiles (lit "/cache") (fun _ => lit "00") decodePlain
              joinPlain unlinkWorks 1000 emptyCache three_downloads)
    as [w result] eqn:E3.
  destruct (downloadHipFiles (lit "/cache") (fun _ => lit "00") decodePlain
              joinPlain unlinkWorks 1000 emptyCache
              (three_downloads ++ [(request_d, fourth_reply)]))
    as [w4 result4] eqn:E4.
  destruct H as ((K1 & _ & K3 & _) & (K4 & _ & K6 & K7));
    try discriminate; try reflexivity; try lia.
  split; [split; assumption|].
  split; [|split; [assumption|split; assumption]].
  apply (f_equal fst) in E4. cbn [fst] in E4. rewrite <- E4. reflexivity.
Defined.

End EvictionScenario.

Section StoreFacts.

(** *** C7 *)

(** C7 fails on the code: on a store whose only snapshot is of a [box]
    node, the statistics asked for [pyrosolver] hold that snapshot, with
    or without a parameter name. *)
Theorem statistics_mix_node_types : forall castReal : jsstring -> Q,
  node_type boxScale = lit "box"
  /\ map (fun r => (r_param_name r, sample_count r, modified_count r))
         (getParameterStatistics castReal (lit "pyrosolver") None otherTypeStore)
     = [(lit "scale", 1, 1)]
  /\ map (fun r => (r_param_name r, sample_count r))
         (getParameterStatistics castReal (lit "pyrosolver")
            (Some (lit "scale")) otherTypeStore)
     = [(lit "scale", 1)].
Proof. intro castReal. repeat split. Qed.

(** The rows a request selects are those whose value looks like a
    number, whatever their node type. *)
Lemma whereClause_ignores_node_type : forall nodeType s,
  whereClause nodeType None s
  = (glob GLOB_DIGIT (param_value s) || glob GLOB_MINUS_DIGIT (param_value s)
     || glob GLOB_DECIMAL (param_value s)).
Proof.
  intros nodeType s. unfold whereClause.
  change (str_eqb (typeofParamValue s) (lit "text")) with true.
  cbn [negb]. rewrite andb_false_r. reflexivity.
Qed.

(** *** C8 *)

(** C8 fails on the code: with r.hip recorded as failed and a.hip
    extracted before it on one connection, the first extraction of the
    scene of r.hip files its snapshot under the id of a.hip (the id the
    upsert returned, 2), so r.hip has none; the second extraction of the
    same scene gives r.hip one snapshot. *)
Theorem reextraction_changes_snapshots :
  forall (foreignKeys : bool) (numberToString : jsnumber -> jsstring)
         (stringifyNumbers : list jsnumber -> jsstring),
  hipFileId (snd (extractHipToKnowledgeBase foreignKeys numberToString
                    stringifyNumbers sceneR fileR (lit "t3")
                    (beforeR foreignKeys numberToString stringifyNumbers)))
  = 2
  /\ snapshotsOfFile (lit "hash-r")
       (afterFirst foreignKeys numberToString stringifyNumbers) = []
  /\ snapshotsOfFile (lit "hash-a")
       (afterFirst foreignKeys numberToString stringifyNumbers)
     = [(lit "/obj/geo1/box1", lit "label", lit "crate", true, None)]
  /\ snapshotsOfFile (lit "hash-r")
       (afterSecond foreignKeys numberToString stringifyNumbers)
     = [(lit "/obj/geo1/box1", lit "label", lit "crate", true, None)].
Proof.
  intros fk nts sn. destruct fk; repeat split.
Qed.

End StoreFacts.

Section FailureRecorded.

Lemma find_map_update : forall (h : jsstring) (data : HipFileData) l r0,
  d_file_hash data = h ->
  find (fun r => str_eqb (file_hash r) h) l = Some r0 ->
  find (fun r => str_eqb (file_hash r) h)
       (map (fun r => if str_eqb (file_hash r) h
                      then rowOfData (hf_id r) data else r) l)
  = Some (rowOfData (hf_id r0) data).
Proof.
  intros h data l r0 Hh. induction l as [|r l IH]; intro H; cbn in *.
  - discriminate.
  - destruct (str_eqb (file_hash r) h) eqn:E.
    + injection H as <-. cbn. rewrite Hh, str_eqb_refl. reflexivity.
    + rewrite E. auto.
Qed.

Lemma find_app_none : forall (T : Type) (p : T -> bool) l x,
  find p l = None -> p x = true -> find p (l ++ [x]) = Some x.
Proof.
  induction l as [|y l IH]; intros x Hn Hx; cbn in *.
  - rewrite Hx. reflexivity.
  - destruct (p y); [discriminate|]. auto.
Qed.

Lemma upsertHipFile_row : forall data db,
  exists id,
    getHipFile (d_file_hash data) (fst (upsertHipFile data db))
    = Some (rowOfData id data).
Proof.
  intros data db. unfold upsertHipFile.
  destruct (getHipFile (d_file_hash data) db) as [r0|] eqn:E; cbn [fst].
  - exists (hf_id r0). unfold getHipFile in *. cbn [hip_files].
    apply find_map_update; [reflexivity|assumption].
  - eexists. unfold getHipFile in *. cbn [hip_files].
    apply find_app_none; [assumption|]. cbn. apply str_eqb_refl.
Qed.

Lemma upsertHipFile_snapshots : forall data db,
  hip_parameter_snapshots (fst (upsertHipFile data db))
  = hip_parameter_snapshots db.
Proof.
  intros data db. unfold upsertHipFile.
  destruct (getHipFile (d_file_hash data) db); reflexivity.
Qed.

Lemma recordFailure_row : forall fileEntry parsedAt message db,
  exists row,
    getHipFile (fileHash fileEntry) (recordFailure fileEntry parsedAt message db)
    = Some row
    /\ parse_status row = lit "error" /\ parse_error row = Some message.
Proof.
  intros fe ts msg db. unfold recordFailure.
  match goal with
  | |- context [upsertHipFile ?d db] =>
      destruct (upsertHipFile_row d db) as [id Hid]
  end.
  cbn [d_file_hash] in Hid. eexists. split; [exact Hid|]. split; reflexivity.
Qed.

Lemma recordFailure_snapshots : forall fileEntry parsedAt message db,
  hip_parameter_snapshots (recordFailure fileEntry parsedAt message db)
  = hip_parameter_snapshots db.
Proof. intros. unfold recordFailure. apply upsertHipFile_snapshots. Qed.

Lemma find_map_other : forall (h h' : jsstring) (data : HipFileData) l,
  d_file_hash data = h -> h' <> h ->
  find (fun r => str_eqb (file_hash r) h')
       (map (fun r => if str_eqb (file_hash r) h
                      then rowOfData (hf_id r) data else r) l)
  = find (fun r => str_eqb (file_hash r) h') l.
Proof.
  intros h h' data l Hd Hne. induction l as [|r l IH]; [reflexivity|].
  cbn [map find]. destruct (str_eqb (file_hash r) h) eqn:E.
  - apply str_eqb_eq in E. cbn [file_hash rowOfData]. rewrite Hd, E.
    rewrite (str_eqb_neq h h') by congruence. exact IH.
  - destruct (str_eqb (file_hash r) h'); [reflexivity|exact IH].
Qed.

Lemma find_app_other : forall (T : Type) (p : T -> bool) l x,
  p x = false -> find p (l ++ [x]) = find p l.
Proof.
  intros T p l x Hx. induction l as [|y l IH]; cbn [app find].
  - rewrite Hx. reflexivity.
  - destruct (p y); [reflexivity|exact IH].
Qed.

Lemma upsertHipFile_other : forall data db h,
  h <> d_file_hash data ->
  getHipFile h (fst (upsertHipFile data db)) = getHipFile h db.
Proof.
  intros data db h Hh. unfold upsertHipFile.
  destruct (getHipFile (d_file_hash data) db) as [old|] eqn:E;
    cbn [fst]; unfold getHipFile; cbn [hip_files].
  - apply find_map_other; [reflexivity|exact Hh].
  - apply find_app_other. cbn. apply str_eqb_neq. congruence.
Qed.

Lemma recordFailure_other : forall fileEntry parsedAt message db h,
  h <> fileHash fileEntry ->
  getHipFile h (recordFailure fileEntry parsedAt message db) = getHipFile h db.
Proof.
  intros fe ts msg db h Hh. unfold recordFailure.
  apply upsertHipFile_other. exact Hh.
Qed.

Section Batch.

Variable foreignKeys : bool.
Variable numberToString : jsnumber -> jsstring.
Variable stringifyNumbers : list jsnumber -> jsstring.
Variable existsSync : jsstring -> bool.
Variable parseHipFile : jsstring -> outcome HipParseResult.

Lemma insertParameterSnapshots_files : forall id snaps db,
  hip_files (fst (insertParameterSnapshots foreignKeys id snaps db))
  = hip_files db.
Proof.
  intros id snaps. induction snaps as [|snap snaps IH]; intro db;
    cbn [insertParameterSnapshots]; [reflexivity|].
  destruct (foreignKeys && _); [reflexivity|]. rewrite IH. reflexivity.
Qed.

(** The records after an extraction are those after its upsert. *)
Lemma extraction_records : forall parsed fileEntry parsedAt db,
  exists data,
    d_file_hash data = fileHash fileEntry
    /\ hip_files (fst (extractHipToKnowledgeBase foreignKeys numberToString
                         stringifyNumbers parsed fileEntry parsedAt db))
       = hip_files (fst (upsertHipFile data db)).
Proof.
  intros parsed fe ts db. unfold extractHipToKnowledgeBase.
  match goal with
  | |- context [upsertHipFile ?d db] => exists d
  end.
  split; [reflexivity|].
  destruct (upsertHipFile _ db) as [db1 hid]. cbn [fst].
  pose proof (insertParameterSnapshots_files hid
                (snapshotsOf numberToString stringifyNumbers parsed)
                (clearSnapshotsForHipFile hid db1)) as H.
  destruct (insertParameterSnapshots _ _ _ _) as [db3 failure].
  cbn [fst] in *. exact H.
Qed.

Lemma extraction_record : forall parsed fileEntry parsedAt db,
  exists row,
    getHipFile (fileHash fileEntry)
      (fst (extractHipToKnowledgeBase foreignKeys numberToString
              stringifyNumbers parsed fileEntry parsedAt db))
    = Some row.
Proof.
  intros parsed fe ts db.
  destruct (extraction_records parsed fe ts db) as (data & Hd & Hf).
  destruct (upsertHipFile_row data db) as [id Hid].
  unfold getHipFile in *. rewrite Hf, <- Hd. eauto.
Qed.

Lemma extraction_other : forall parsed fileEntry parsedAt db h,
  h <> fileHash fileEntry ->
  getHipFile h
    (fst (extractHipToKnowledgeBase foreignKeys numberToString
            stringifyNumbers parsed fileEntry parsedAt db))
  = getHipFile h db.
Proof.
  intros parsed fe ts db h Hh.
  destruct (extraction_records parsed fe ts db) as (data & Hd & Hf).
  rewrite <- (upsertHipFile_other data db h) by congruence.
  unfold getHipFile. rewrite Hf. reflexivity.
Qed.

(** The turn of an archive whose parse throws. *)
Lemma extractTurn_failure : forall kb res entry parsedAt message,
  notParsed (Cache.hash entry) kb ->
  existsSync (Cache.localPath entry) = true ->
  parseHipFile (Cache.localPath entry) = Thrown message ->
  extractTurn foreignKeys numberToString stringifyNumbers existsSync
    parseHipFile (kb, res) (entry, parsedAt)
  = Some (recordFailure (fileEntryOf entry) parsedAt message kb,
          mkBatchResult (extracted res) (b_errors res + 1)
                        (totalParams res) (totalNonDefault res)).
Proof.
  intros kb res entry parsedAt message Hnot Hex Hparse. unfold extractTurn.
  assert (Ha : match getHipFile (Cache.hash entry) kb with
               | Some existing => str_eqb (parse_status existing) (lit "success")
               | None => false
               end = false).
  { destruct (getHipFile (Cache.hash entry) kb) as [row|] eqn:E;
      [apply Hnot; assumption|reflexivity]. }
  rewrite Ha, Hex. cbn [negb]. rewrite Hparse. reflexivity.
Qed.

(** What every turn that returns does: it leaves a record for the
    hash of its entry and the records of the other hashes as they were,
    and counts the entry once. *)
Lemma extractTurn_returned : forall acc item acc',
  extractTurn foreignKeys numberToString stringifyNumbers existsSync
    parseHipFile acc item = Some acc' ->
  (exists row, getHipFile (Cache.hash (fst item)) (fst acc') = Some row)
  /\ (forall h, h <> Cache.hash (fst item) ->
                getHipFile h (fst acc') = getHipFile h (fst acc))
  /\ extracted (snd acc') + b_errors (snd acc')
     = extracted (snd acc) + b_errors (snd acc) + 1
  /\ b_errors (snd acc) <= b_errors (snd acc').
Proof.
  intros [kb res] [entry ts] acc' H. unfold extractTurn in H.
  cbn [fst snd].
  destruct (match getHipFile (Cache.hash entry) kb with
            | Some existing => str_eqb (parse_status existing) (lit "success")
            | None => false
            end) eqn:Ea.
  - injection H as <-.
    cbn [fst snd extracted b_errors].
    split; [|repeat split; lia].
    destruct (getHipFile (Cache.hash entry) kb) as [row|];
      [eauto|discriminate].
  - destruct (if negb (existsSync (Cache.localPath entry))
              then Thrown (lit "File not found: " ++ Cache.localPath entry)
              else parseHipFile (Cache.localPath entry))
      as [parsed|message|]; [| |discriminate].
    + pose proof (extraction_record parsed (fileEntryOf entry) ts kb) as Hr.
      pose proof (extraction_other parsed (fileEntryOf entry) ts kb) as Ho.
      destruct (extractHipToKnowledgeBase foreignKeys numberToString
                  stringifyNumbers parsed (fileEntryOf entry) ts kb)
        as [kb' result].
      cbn [fst fileEntryOf fileHash] in Hr, Ho.
      destruct (x_errors result); injection H as <-;
        cbn [fst snd extracted b_errors];
        (split; [exact Hr|]); (split; [exact Ho|]); split; lia.
    + injection H as <-. cbn [fst snd extracted b_errors].
      split; [|split; [|split; lia]].
      * destruct (recordFailure_row (fileEntryOf entry) ts message kb)
          as (row & Hrow & _).
        exists row. exact Hrow.
      * intros h Hh. apply (recordFailure_other (fileEntryOf entry)).
        exact Hh.
Qed.

Lemma extractTurn_returns : forall acc item,
  parseHipFile (Cache.localPath (fst item)) <> OutOfFuel ->
  exists acc',
    extractTurn foreignKeys numberToString stringifyNumbers existsSync
      parseHipFile acc item = Some acc'.
Proof.
  intros [kb res] [entry ts] H. cbn [fst] in H. unfold extractTurn.
  destruct (match getHipFile (Cache.hash entry) kb with
            | Some existing => str_eqb (parse_status existing) (lit "success")
            | None => false
            end); [eauto|].
  destruct (existsSync (Cache.localPath entry)); cbn [negb]; [|eauto].
  destruct (parseHipFile (Cache.localPath entry)) as [parsed|message|];
    [|eauto|congruence].
  destruct (extractHipToKnowledgeBase _ _ _ _ _ _ _) as [kb' result].
  destruct (x_errors result); eauto.
Qed.

Lemma extractLoop_app : forall a b acc,
  extractLoop foreignKeys numberToString stringifyNumbers existsSync
    parseHipFile (a ++ b) acc
  = match extractLoop foreignKeys numberToString stringifyNumbers existsSync
            parseHipFile a acc with
    | Some acc' =>
        extractLoop foreignKeys numberToString stringifyNumbers existsSync
          parseHipFile b acc'
    | None => None
    end.
Proof.
  induction a as [|item a IH]; intros b acc; cbn [app extractLoop];
    [reflexivity|].
  destruct (extractTurn _ _ _ _ _ acc item) as [acc'|]; [apply IH|reflexivity].
Qed.

Lemma extractLoop_returns : forall items acc,
  parsesAnswer parseHipFile items ->
  exists acc',
    extractLoop foreignKeys numberToString stringifyNumbers existsSync
      parseHipFile items acc = Some acc'.
Proof.
  induction items as [|item items IH]; intros acc H; cbn [extractLoop];
    [eauto|].
  inversion H as [|? ? Hitem Hrest]; subst.
  destruct (extractTurn_returns acc item Hitem) as [acc1 E]. rewrite E.
  apply IH. exact Hrest.
Qed.

(** What a batch that returns did: every entry has a record, the
    records of hashes outside the batch are as they were, and every entry
    was counted once. *)
Lemma extractLoop_returned : forall items acc acc',
  extractLoop foreignKeys numberToString stringifyNumbers existsSync
    parseHipFile items acc = Some acc' ->
  (forall item, In item items ->
     exists row, getHipFile (Cache.hash (fst item)) (fst acc') = Some row)
  /\ (forall h, ~ In h (hashesOf items) ->
                getHipFile h (fst acc') = getHipFile h (fst acc))
  /\ (forall h row, getHipFile h (fst acc) = Some row ->
                    exists row', getHipFile h (fst acc') = Some row')
  /\ extracted (snd acc') + b_errors (snd acc')
     = extracted (snd acc) + b_errors (snd acc) + Z.of_nat (List.length items)
  /\ b_errors (snd acc) <= b_errors (snd acc').
Proof.
  induction items as [|item items IH]; intros acc acc' H; cbn [extractLoop] in H.
  - injection H as <-. cbn [List.length]. repeat split; eauto; try lia.
    intros item [].
  - destruct (extractTurn _ _ _ _ _ acc item) as [acc1|] eqn:E;
      [|discriminate].
    destruct (extractTurn_returned acc item acc1 E) as (Hr & Ho & Hc & He).
    destruct (IH acc1 acc' H) as (IHr & IHo & IHk & IHc & IHe).
    assert (Hkeep : forall h row, getHipFile h (fst acc) = Some row ->
                                  exists row', getHipFile h (fst acc1) = Some row').
    { intros h row Hrow.
      destruct (str_eqb h (Cache.hash (fst item))) eqn:Eh.
      - apply str_eqb_eq in Eh. subst h. exact Hr.
      - rewrite Ho; [eauto|]. intro Heq. subst h.
        rewrite str_eqb_refl in Eh. discriminate. }
    split; [|split; [|split; [|split]]].
    + intros it [<-|Hin]; [|apply IHr; exact Hin].
      destruct Hr as [row Hrow]. apply (IHk _ row). exact Hrow.
    + intros h Hh. unfold hashesOf in Hh. cbn [map] in Hh.
      rewrite IHo by (intro Hin; apply Hh; right; exact Hin).
      apply Ho. intro Heq. apply Hh. left. congruence.
    + intros h row Hrow. destruct (Hkeep h row Hrow) as [row1 Hrow1].
      apply (IHk _ row1). exact Hrow1.
    + cbn [List.length]. lia.
    + lia.
Qed.

(** C9: when parsing an archive of a batch raises an error, the failure
    is recorded and the batch goes on. Let the turns of the batch before
    the archive have returned, the archive be one its turn parses (its
    record is no success at that point and its file exists), and the
    parse throw with a message. Then the turn of the archive returns: it
    upserts the HIP File Record with parse status error and the message,
    leaves every Parameter Snapshot as it was and counts one error and
    no extraction. The batch is not aborted: it goes on with the archives
    that follow, from the store with that record. When the parse of each
    of them returns or throws, the batch returns, every archive of the
    batch has its record in the end, extracted and errors sum to the
    number of archives, and the record of the failed archive still says
    error with the message unless a later archive of the batch has the
    same hash. The single-file function records a failure the same
    way. *)
Theorem parse_failure_recorded :
  forall (before rest : list (Cache.HipFileEntry * jsstring))
         (entry : Cache.HipFileEntry) (parsedAt message : jsstring)
         (stored kb1 : Store) (res1 : BatchResult),
  let items := before ++ (entry, parsedAt) :: rest in
  extractAllHipFiles foreignKeys numberToString stringifyNumbers
    existsSync parseHipFile before stored = Some (kb1, res1) ->
  notParsed (Cache.hash entry) kb1 ->
  existsSync (Cache.localPath entry) = true ->
  parseHipFile (Cache.localPath entry) = Thrown message ->
  (exists kb2 res2,
      extractTurn foreignKeys numberToString stringifyNumbers existsSync
        parseHipFile (kb1, res1) (entry, parsedAt) = Some (kb2, res2)
      /\ failureRecorded (Cache.hash entry) message kb2
      /\ hip_parameter_snapshots kb2 = hip_parameter_snapshots kb1
      /\ b_errors res2 = b_errors res1 + 1
      /\ extracted res2 = extracted res1
      /\ extractAllHipFiles foreignKeys numberToString stringifyNumbers
           existsSync parseHipFile items stored
         = extractLoop foreignKeys numberToString stringifyNumbers
             existsSync parseHipFile rest (kb2, res2)
      /\ (parsesAnswer parseHipFile rest ->
          exists kb res,
            extractAllHipFiles foreignKeys numberToString stringifyNumbers
              existsSync parseHipFile items stored = Some (kb, res)
            /\ (forall item, In item items ->
                  exists row,
                    getHipFile (Cache.hash (fst item)) kb = Some row)
            /\ extracted res + b_errors res = Z.of_nat (List.length items)
            /\ b_errors res1 < b_errors res
            /\ (~ In (Cache.hash entry) (hashesOf rest) ->
                failureRecorded (Cache.hash entry) message kb)))
  /\ (exists single,
        extractHipFileToKnowledgeBase foreignKeys numberToString
          stringifyNumbers parseHipFile (Cache.localPath entry)
          (fileEntryOf entry) parsedAt stored = Some single
        /\ failureRecorded (Cache.hash entry) message (fst single)
        /\ hip_parameter_snapshots (fst single)
           = hip_parameter_snapshots stored
        /\ x_errors (snd single) = [message]).
Proof.
  intros before rest entry parsedAt message stored kb1 res1 items
         E1 Hnot1 Hex Hparse.
  split.
  - unfold extractAllHipFiles in *.
    pose proof (extractTurn_failure kb1 res1 entry parsedAt message
                  Hnot1 Hex Hparse) as E2.
    pose proof (recordFailure_row (fileEntryOf entry) parsedAt message kb1)
      as Hrow2.
    cbn [fileEntryOf fileHash] in Hrow2.
    assert (Hgo : extractLoop foreignKeys numberToString stringifyNumbers
                    existsSync parseHipFile items
                    (openConnection stored, mkBatchResult 0 0 0 0)
                  = extractLoop foreignKeys numberToString stringifyNumbers
                      existsSync parseHipFile rest
                      (recordFailure (fileEntryOf entry) parsedAt message kb1,
                       mkBatchResult (extracted res1) (b_errors res1 + 1)
                         (totalParams res1) (totalNonDefault res1))).
    { unfold items. rewrite extractLoop_app, E1. cbn [extractLoop].
      rewrite E2. reflexivity. }
    exists (recordFailure (fileEntryOf entry) parsedAt message kb1),
      (mkBatchResult (extracted res1) (b_errors res1 + 1) (totalParams res1)
                     (totalNonDefault res1)).
    split; [exact E2|]. split; [exact Hrow2|].
    split; [apply recordFailure_snapshots|].
    split; [reflexivity|]. split; [reflexivity|].
    split; [exact Hgo|].
    intro Hrest.
    destruct (extractLoop_returns rest
                (recordFailure (fileEntryOf entry) parsedAt message kb1,
                 mkBatchResult (extracted res1) (b_errors res1 + 1)
                               (totalParams res1) (totalNonDefault res1))
                Hrest) as [[kb res] E3].
    destruct (extractLoop_returned _ _ _ E3) as (_ & Ho3 & _ & _ & He3).
    cbn [fst snd extracted b_errors] in Ho3, He3.
    assert (Hall : extractLoop foreignKeys numberToString stringifyNumbers
                     existsSync parseHipFile items
                     (openConnection stored, mkBatchResult 0 0 0 0)
                   = Some (kb, res)) by (rewrite Hgo; exact E3).
    destruct (extractLoop_returned _ _ _ Hall) as (Hrall & _ & _ & Hcall & _).
    cbn [fst snd extracted b_errors] in Hrall, Hcall.
    exists kb, res.
    split; [exact Hall|]. split; [exact Hrall|]. split; [lia|].
    split; [lia|].
    intro Hfresh. destruct Hrow2 as (row & Hrow & Hst & Her).
    exists row. rewrite Ho3 by exact Hfresh. auto.
  - unfold extractHipFileToKnowledgeBase. rewrite Hparse.
    eexists. split; [reflexivity|]. cbn [fst snd x_errors].
    split; [|split; [|reflexivity]].
    + pose proof (recordFailure_row (fileEntryOf entry) parsedAt message
                    (openConnection stored)) as H.
      cbn [fileEntryOf fileHash] in H. exact H.
    + rewrite recordFailure_snapshots. reflexivity.
Qed.

End Batch.

Lemma parse_failure_recorded_witness :
  exists kb res,
    extractAllHipFiles true (fun _ => []) (fun _ => []) (fun _ => true)
      failingParser
      [(sceneEntry, lit "t0"); (failingEntry, lit "t1"); (sceneEntry, lit "t2")]
      otherTypeStore
    = Some (kb, res)
    /\ failureRecorded (Cache.hash failingEntry) (noMagicMessage [1; 2; 3]) kb
    /\ (exists row, getHipFile (Cache.hash sceneEntry) kb = Some row)
    /\ extracted res + b_errors res = 3.
Proof.
  destruct (extractAllHipFiles true (fun _ => []) (fun _ => [])
              (fun _ => true) failingParser [(sceneEntry, lit "t0")]
              otherTypeStore) as [[kb1 res1]|] eqn:E1; [|discriminate E1].
  destruct (parse_failure_recorded true (fun _ => []) (fun _ => [])
              (fun _ => true) failingParser [(sceneEntry, lit "t0")]
              [(sceneEntry, lit "t2")]
              failingEntry (lit "t1") (noMagicMessage [1; 2; 3])
              otherTypeStore kb1 res1)
    as ((kb2 & res2 & _ & _ & _ & _ & _ & _ & Hgo) & _).
  - exact E1.
  - injection E1 as <- _. intros row H. vm_compute in H. discriminate H.
  - reflexivity.
  - reflexivity.
  - destruct Hgo as (kb & res & Hall & Hrows & Hcount & _ & Hrec).
    + repeat constructor; discriminate.
    + exists kb, res. split; [exact Hall|]. split; [|split; [|exact Hcount]].
      * apply Hrec. cbn. intros [H|[]]. discriminate H.
      * apply (Hrows (sceneEntry, lit "t2")). right. right. left.
        reflexivity.
Defined.


End FailureRecorded.

Section Idempotence.

Variable foreignKeys : bool.
Variable numberToString : jsnumber -> jsstring.
Variable stringifyNumbers : list jsnumber -> jsstring.

Lemma nextRowid_above : forall (R : Type) (id : R -> Z) rows r,
  In r rows -> id r < nextRowid id rows.
Proof.
  intros R id rows r Hin. unfold nextRowid.
  assert (H : forall l m, m <= fold_left (fun m r => Z.max m (id r)) l m).
  { induction l as [|x l IH]; intro m; cbn; [lia|].
    specialize (IH (Z.max m (id x))). lia. }
  assert (G : forall l m, In r l -> id r <= fold_left (fun m r => Z.max m (id r)) l m).
  { induction l as [|x l IH]; intros m Hl; cbn; [destruct Hl|].
    destruct Hl as [->|Hl]; [|auto].
    specialize (H l (Z.max m (id r))). lia. }
  specialize (G rows 0 Hin). lia.
Qed.

Lemma filter_none : forall (T : Type) (p : T -> bool) l,
  (forall x, In x l -> p x = false) -> filter p l = [].
Proof.
  induction l as [|x l IH]; intro H; cbn; [reflexivity|].
  rewrite (H x (or_introl eq_refl)). apply IH. intros; apply H; right; assumption.
Qed.

Lemma filter_all : forall (T : Type) (p : T -> bool) l,
  (forall x, In x l -> p x = true) -> filter p l = l.
Proof.
  induction l as [|x l IH]; intro H; cbn; [reflexivity|].
  rewrite (H x (or_introl eq_refl)). f_equal. apply IH.
  intros; apply H; right; assumption.
Qed.

(** What [insertParameterSnapshots] adds: rows of the id it is given, and
    all of the snapshots when the statement is not refused. *)
Lemma insertParameterSnapshots_adds : forall hipFileId snapshots db,
  exists added,
    fst (insertParameterSnapshots foreignKeys hipFileId snapshots db)
    = mkStore (hip_files db) (hip_parameter_snapshots db ++ added)
              (last_insert_rowid
                 (fst (insertParameterSnapshots foreignKeys hipFileId
                         snapshots db)))
    /\ (forall s, In s added -> hip_file_id s = hipFileId)
    /\ (existsb (fun r => hf_id r =? hipFileId) (hip_files db) = true ->
        map snapshotFields added = map fieldsOfSnapshot snapshots).
Proof.
  intros hid snapshots. induction snapshots as [|snap rest IH]; intro db.
  - exists []. cbn. rewrite app_nil_r. destruct db. repeat split.
    intros s [].
  - cbn [insertParameterSnapshots].
    destruct (foreignKeys
              && negb (existsb (fun r => hf_id r =? hid) (hip_files db))) eqn:E.
    + exists []. cbn [fst]. rewrite app_nil_r. repeat split.
      * destruct db; reflexivity.
      * intros s [].
      * intro Hex. rewrite Hex, andb_false_r in E. discriminate.
    + match goal with
      | |- context [insertParameterSnapshots _ hid rest ?db'] =>
          destruct (IH db') as (added & Heq & Hall & Hok)
      end.
      cbn [hip_files hip_parameter_snapshots] in Heq, Hok.
      eexists (_ :: added). repeat split.
      * rewrite Heq at 1. rewrite <- app_assoc. reflexivity.
      * intros s [<-|Hs]; [reflexivity|auto].
      * intro Hex. cbn [map]. rewrite (Hok Hex). reflexivity.
Qed.

Lemma find_absent : forall (T : Type) (p : T -> bool) l,
  (forall x, In x l -> p x = false) -> find p l = None.
Proof.
  induction l as [|x l IH]; intro H; cbn; [reflexivity|].
  rewrite (H x (or_introl eq_refl)). apply IH. intros; apply H; right; assumption.
Qed.

Lemma getHipFile_absent : forall h db x,
  getHipFile h db = None -> In x (hip_files db) -> str_eqb (file_hash x) h = false.
Proof.
  intros h db x Hn Hin. unfold getHipFile in Hn.
  destruct (str_eqb (file_hash x) h) eqn:E; [|reflexivity].
  exfalso. eapply find_none in Hn; [|exact Hin]. cbn in Hn. congruence.
Qed.

Lemma snapshotsOfFile_of : forall h files snaps l row,
  find (fun r => str_eqb (file_hash r) h) files = Some row ->
  snapshotsOfFile h (mkStore files snaps l)
  = map snapshotFields (filter (fun s => hip_file_id s =? hf_id row) snaps).
Proof.
  intros h files snaps l row H. unfold snapshotsOfFile, getHipFile.
  cbn [hip_files hip_parameter_snapshots]. rewrite H. reflexivity.
Qed.

(** X28. Where idempotence holds: when the first extraction creates the
    record, extracting the same scene again leaves the snapshots of the
    record as the first extraction made them. *)
Theorem reextraction_of_new_record :
  forall (parsed : HipParseResult) (fileEntry : FileEntry)
         (t1 t2 : jsstring) (db : Store),
  getHipFile (fileHash fileEntry) db = None ->
  referencesHold db ->
  let db1 := fst (extractHipToKnowledgeBase foreignKeys numberToString
                    stringifyNumbers parsed fileEntry t1 db) in
  let db2 := fst (extractHipToKnowledgeBase foreignKeys numberToString
                    stringifyNumbers parsed fileEntry t2 db1) in
  snapshotsOfFile (fileHash fileEntry) db1
  = map fieldsOfSnapshot (snapshotsOf numberToString stringifyNumbers parsed)
  /\ snapshotsOfFile (fileHash fileEntry) db2
     = snapshotsOfFile (fileHash fileEntry) db1.
Proof.
  intros parsed fe t1 t2 db Hnew Href db1 db2.
  set (h := fileHash fe) in *.
  set (snaps := snapshotsOf numberToString stringifyNumbers parsed) in *.
  set (id := nextRowid hf_id (hip_files db)).
  (* the first extraction *)
  assert (Hold : forall s, In s (hip_parameter_snapshots db) ->
                           (hip_file_id s =? id) = false).
  { intros s Hs. destruct (Href s Hs) as (r & Hr & <-).
    apply Z.eqb_neq. pose proof (nextRowid_above _ hf_id _ r Hr). unfold id. lia. }
  assert (H1 : exists row added l,
    db1 = mkStore (hip_files db ++ [row])
                  (hip_parameter_snapshots db ++ added) l
    /\ hf_id row = id /\ file_hash row = h
    /\ (forall s, In s added -> hip_file_id s = id)
    /\ map snapshotFields added = map fieldsOfSnapshot snaps).
  { subst db1. unfold extractHipToKnowledgeBase, upsertHipFile.
    cbn [d_file_hash]. fold h. rewrite Hnew. fold id.
    match goal with
    | |- context [insertParameterSnapshots _ id ?sn ?d] =>
        destruct (insertParameterSnapshots_adds id sn d) as (added & Heq & Hall & Hok);
        destruct (insertParameterSnapshots foreignKeys id sn d) as [d3 failure] eqn:Ei
    end.
    cbn [fst] in *. rewrite Heq.
    cbn [clearSnapshotsForHipFile hip_files hip_parameter_snapshots] in *.
    rewrite filter_all in *
      by (intros s Hs; rewrite (Hold s Hs); reflexivity).
    eexists. exists added. eexists. split; [reflexivity|].
    repeat split; try assumption; try reflexivity.
    apply Hok. rewrite existsb_app. cbn. rewrite Z.eqb_refl.
    rewrite orb_true_r. reflexivity. }
  destruct H1 as (row & added & l1 & E1 & Hid & Hhash & Hadded & Hfields).
  assert (Hfind1 : find (fun r => str_eqb (file_hash r) h) (hip_files db ++ [row])
                   = Some row).
  { apply find_app_none; [exact Hnew|]. rewrite Hhash. apply str_eqb_refl. }
  assert (S1 : snapshotsOfFile h db1 = map fieldsOfSnapshot snaps).
  { rewrite E1, (snapshotsOfFile_of _ _ _ _ _ Hfind1), Hid, filter_app.
    rewrite filter_none by exact Hold.
    rewrite filter_all
      by (intros s Hs; rewrite (Hadded s Hs); apply Z.eqb_refl).
    exact Hfields. }
  split; [exact S1|]. rewrite S1.
  (* the second extraction *)
  subst db2. rewrite E1. unfold extractHipToKnowledgeBase, upsertHipFile.
  cbn [d_file_hash]. fold h. unfold getHipFile at 1. cbn [hip_files].
  rewrite Hfind1. cbn [hip_files hip_parameter_snapshots last_insert_rowid].
  match goal with
  | |- context [map ?f (hip_files db ++ [row])] =>
      set (upd := f);
      assert (Hfind2 : find (fun r => str_eqb (file_hash r) h)
                         (map upd (hip_files db ++ [row]))
                       = Some (upd row))
  end.
  { rewrite map_app. cbn [map]. apply find_app_none.
    - apply find_absent. intros x Hx. apply in_map_iff in Hx.
      destruct Hx as (y & <- & Hy). unfold upd.
      rewrite (getHipFile_absent h db y Hnew Hy).
      apply (getHipFile_absent h db y Hnew Hy).
    - unfold upd. rewrite Hhash, str_eqb_refl. cbn. apply str_eqb_refl. }
  assert (Hupd : hf_id (upd row) = id)
    by (unfold upd; rewrite Hhash, str_eqb_refl; exact Hid).
  match goal with
  | |- context [insertParameterSnapshots _ l1 ?sn ?d] =>
      destruct (insertParameterSnapshots_adds l1 sn d) as (added2 & Heq & Hall & Hok);
      destruct (insertParameterSnapshots foreignKeys l1 sn d) as [d3 failure] eqn:Ei
  end.
  cbn [fst] in *. rewrite Heq.
  cbn [clearSnapshotsForHipFile hip_files hip_parameter_snapshots] in *.
  rewrite (snapshotsOfFile_of _ _ _ _ _ Hfind2), Hupd.
  rewrite !filter_app.
  destruct (Z.eqb_spec l1 id) as [->|Hne].
  - (* the id returned is the record's *)
    rewrite (filter_none _ _ (filter _ (hip_parameter_snapshots db))).
    2: { intros s Hs. apply filter_In in Hs. apply Hold. tauto. }
    rewrite (filter_none _ _ (filter _ added)).
    2: { intros s Hs. apply filter_In in Hs. destruct Hs as [Hs Hn].
         rewrite (Hadded s Hs), Z.eqb_refl in Hn. discriminate. }
    rewrite filter_all
      by (intros s Hs; rewrite (Hall s Hs); apply Z.eqb_refl).
    cbn [app]. apply Hok.
    rewrite map_app, existsb_app. cbn. rewrite Hupd, Z.eqb_refl.
    rewrite orb_true_r. reflexivity.
  - (* the id returned is another one *)
    rewrite (filter_none _ _ (filter _ (hip_parameter_snapshots db))).
    2: { intros s Hs. apply filter_In in Hs. apply Hold. tauto. }
    rewrite (filter_all _ _ (filter _ added)).
    2: { intros s Hs. apply filter_In in Hs. destruct Hs as [Hs _].
         rewrite (Hadded s Hs). apply Z.eqb_refl. }
    rewrite (filter_all _ _ added).
    2: { intros s Hs. rewrite (Hadded s Hs).
         apply negb_true_iff. apply Z.eqb_neq. congruence. }
    rewrite (filter_none _ _ added2).
    2: { intros s Hs. rewrite (Hall s Hs). apply Z.eqb_neq. assumption. }
    cbn [app]. rewrite app_nil_r. exact Hfields.
Qed.

End Idempotence.

Section Scenarios.

(** The two-node pyro scene: one Node, of category DOP, with the
    parameters dissipation 0.05 (default) and cooling_rate 0.3
    (modified, for its parmdef line). *)
Example scenario_pyro_scene :
  nodes (parseHipContent [pyro_sample])
  = [mkNode (lit "/obj/geo1/pyro_solver1/pyro_solver1")
       (lit "pyrosolver::2.0") (lit "DOP") (lit "pyro_solver1")
       [mkParam (lit "dissipation") (PNumber (NumDec false 5 (-2))) true None;
        mkParam (lit "cooling_rate") (PNumber (NumDec false 3 (-1))) false None]
       []]
  /\ connections (parseHipContent [pyro_sample]) = [].
Proof. split; reflexivity. Qed.

(** Numeric coercion: a number, a sequence of numbers, a text. *)
Example scenario_numeric_coercion :
  parseParamValue (lit "3.14") = PNumber (NumDec false 314 (-2))
  /\ parseParamValue (lit "1 2 3")
     = PNumbers [NumDec false 1 0; NumDec false 2 0; NumDec false 3 0]
  /\ parseParamValue (lit "hello world") = PString (lit "hello world").
Proof. repeat split. Qed.

(** A blob that begins with a NUL byte is not text, whatever follows. *)
Lemma nul_blob_not_text : forall (entry : CpioEntry) (rest : buffer),
  data entry = 0 :: rest -> isTextEntry entry = false.
Proof.
  intros entry rest H. unfold isTextEntry.
  assert (Hs : forallb isTextByte
                 (subarray (data entry) (Int 0)
                    (Int (Z.min 512 (blen (data entry))))) = false).
  { rewrite H. unfold subarray.
    pose proof (blen_nonneg rest) as Hr.
    assert (Hl : blen (0 :: rest) = 1 + blen rest)
      by (unfold blen; cbn [List.length]; lia).
    rewrite Hl.
    rewrite (adjustOffset_in (Z.min 512 (1 + blen rest))) by lia.
    change (adjustOffset (Int 0) (1 + blen rest)) with 0.
    destruct (Z.gtb_spec (Z.min 512 (1 + blen rest)) 0) as [Hg|Hg]; [|lia].
    rewrite Z.sub_0_r.
    destruct (Z.to_nat (Z.min 512 (1 + blen rest))) as [|k] eqn:Ek; [lia|].
    reflexivity. }
  destruct (filesize entry) as [|z]; [exact Hs|].
  destruct z; try reflexivity; exact Hs.
Qed.

End Scenarios.

Section ArchiveEdges.

Lemma parseCpioTurn_payload : forall pre m rest,
  blen pre mod 4 = 0 ->
  blen pre + blen (encodeMember m) <= 2 ^ 31 - 4 ->
  0 <= m_mode m < 2 ^ 32 ->
  parseCpioTurn
    (pre ++ encodeHeader m ++ (m_name m ++ [0])
         ++ pad4 (110 + List.length (m_name m) + 1) ++ m_data m ++ rest)
    (blen pre) =
  if str_eqb (toString_utf8 (m_name m)) CPIO_TRAILER then Break
  else Push (entryOf m) (blen pre + blen (encodeMember m)).
Proof.
  intros pre m rest Hpre Hlen Hmode.
  pose proof (blen_nonneg pre) as Hp0.
  pose proof (blen_nonneg rest) as Hq0.
  pose proof (blen_nonneg (m_name m)) as Hn0.
  pose proof (blen_nonneg (m_data m)) as Hd0.
  pose proof (length_member m) as Hm.
  set (p1 := pad4 (110 + List.length (m_name m) + 1)) in *.
  set (p2 := pad4 (List.length (m_data m))) in *.
  assert (Hh : blen (encodeHeader m) = 110)
    by (unfold blen; rewrite length_header; reflexivity).
  remember (pre ++ encodeHeader m ++ (m_name m ++ [0]) ++ p1 ++ m_data m ++ rest)
    as buf eqn:Ebuf.
  assert (Hbuf : blen buf
                 = blen pre + 110 + (blen (m_name m) + 1)
                   + Z.of_nat (List.length p1) + blen (m_data m) + blen rest).
  { subst buf. rewrite !blen_app, Hh. change (blen [0]) with 1.
    unfold blen. lia. }
  unfold parseCpioTurn, CPIO_HEADER_SIZE.
  destruct (Z.gtb_spec (blen pre + 110) (blen buf)) as [Hgt|_]; [lia|].
  rewrite (subarray_at buf pre (encodeHeader m)
             ((m_name m ++ [0]) ++ p1 ++ m_data m ++ rest))
    by (try lia; subst buf; reflexivity).
  rewrite toString_ascii_header, header_magic, str_eqb_refl.
  cbn [negb].
  rewrite header_mode, header_filesize, header_namesize.
  rewrite !parseInt_hex8 by lia.
  cbn [num_add num_sub num_gt].
  assert (Hal1 : align4 (Int (blen pre + 110 + (blen (m_name m) + 1)))
                 = blen pre + 110 + (blen (m_name m) + 1) + Z.of_nat (List.length p1)).
  { replace (blen pre + 110 + (blen (m_name m) + 1))
      with (blen pre + Z.of_nat (110 + List.length (m_name m) + 1))
      by (unfold blen; lia).
    rewrite align4_pad by (unfold blen in *; lia).
    unfold blen, p1. lia. }
  rewrite Hal1.
  destruct (Z.gtb_spec (blen pre + 110 + (blen (m_name m) + 1)
                        + Z.of_nat (List.length p1)) (blen buf)) as [Hgt|_];
    [lia|].
  rewrite (subarray_at buf (pre ++ encodeHeader m) (m_name m)
             ([0] ++ p1 ++ m_data m ++ rest))
    by (try (rewrite blen_app; lia); subst buf;
        rewrite <- !app_assoc; reflexivity).
  destruct (str_eqb (toString_utf8 (m_name m)) CPIO_TRAILER); [reflexivity|].
  assert (Hal2 : align4 (Int (blen pre + 110 + (blen (m_name m) + 1)
                              + Z.of_nat (List.length p1) + blen (m_data m)))
                 = blen pre + blen (encodeMember m)).
  { pose proof (padded_mod4 (110 + List.length (m_name m) + 1)) as Hq.
    fold p1 in Hq.
    replace (blen pre + 110 + (blen (m_name m) + 1)
             + Z.of_nat (List.length p1) + blen (m_data m))
      with ((blen pre + 110 + (blen (m_name m) + 1) + Z.of_nat (List.length p1))
            + Z.of_nat (List.length (m_data m))) by (unfold blen; lia).
    rewrite align4_pad.
    - fold p2. rewrite Hm. unfold blen. lia.
    - lia.
    - replace (Z.of_nat (110 + List.length (m_name m) + 1))
        with (110 + (blen (m_name m) + 1)) in Hq by (unfold blen; lia).
      Z.div_mod_to_equations. lia.
    - unfold blen in *. lia. }
  rewrite Hal2.
  destruct (Z.gtb_spec (blen pre + 110 + (blen (m_name m) + 1)
                        + Z.of_nat (List.length p1) + blen (m_data m))
                       (blen buf)) as [Hgt|_]; [lia|].
  rewrite (subarray_at buf (pre ++ encodeHeader m ++ (m_name m ++ [0]) ++ p1)
             (m_data m) rest).
  - reflexivity.
  - subst buf. rewrite <- !app_assoc. reflexivity.
  - rewrite !blen_app, Hh. change (blen [0]) with 1. unfold blen. lia.
  - rewrite !blen_app, Hh. change (blen [0]) with 1. unfold blen. lia.
Qed.

Lemma encodeMember_split : forall m,
  encodeMember m
  = encodeHeader m ++ (m_name m ++ [0])
    ++ pad4 (110 + List.length (m_name m) + 1) ++ m_data m
    ++ pad4 (List.length (m_data m)).
Proof. reflexivity. Qed.

(** A member cut before the end of its data stops the loop. *)
Lemma parseCpioTurn_cut : forall pre m k,
  blen pre mod 4 = 0 ->
  blen pre + blen (encodeMember m) <= 2 ^ 31 - 4 ->
  0 <= m_mode m < 2 ^ 32 ->
  (k < payloadLength m)%nat ->
  parseCpioTurn (pre ++ firstn k (encodeMember m)) (blen pre) = Break.
Proof.
  intros pre m k Hpre Hlen Hmode Hk.
  pose proof (blen_nonneg pre) as Hp0.
  pose proof (blen_nonneg (m_name m)) as Hn0.
  pose proof (blen_nonneg (m_data m)) as Hd0.
  pose proof (length_member m) as Hm.
  unfold payloadLength in Hk.
  set (p1 := pad4 (110 + List.length (m_name m) + 1)) in *.
  set (p2 := pad4 (List.length (m_data m))) in *.
  assert (Hh : blen (encodeHeader m) = 110)
    by (unfold blen; rewrite length_header; reflexivity).
  assert (Hhn : List.length (encodeHeader m) = 110%nat) by apply length_header.
  assert (Hcut : blen (firstn k (encodeMember m)) = Z.of_nat k).
  { unfold blen. rewrite length_firstn.
    assert (Hl : (k <= List.length (encodeMember m))%nat).
    { unfold blen in Hm. lia. }
    lia. }
  remember (pre ++ firstn k (encodeMember m)) as buf eqn:Ebuf.
  assert (Hbuf : blen buf = blen pre + Z.of_nat k)
    by (subst buf; rewrite blen_app, Hcut; reflexivity).
  unfold parseCpioTurn, CPIO_HEADER_SIZE.
  destruct (Z.gtb_spec (blen pre + 110) (blen buf)) as [Hgt|Hle];
    [reflexivity|].
  assert (Hk1 : (110 <= k)%nat) by lia.
  (* the header is whole *)
  assert (Ecut : firstn k (encodeMember m)
                 = encodeHeader m
                   ++ firstn (k - 110)
                        ((m_name m ++ [0]) ++ p1 ++ m_data m ++ p2)).
  { rewrite encodeMember_split. fold p1 p2.
    rewrite firstn_app, Hhn.
    rewrite firstn_all2 by lia. reflexivity. }
  rewrite Ecut in Ebuf.
  rewrite (subarray_at buf pre (encodeHeader m)
             (firstn (k - 110) ((m_name m ++ [0]) ++ p1 ++ m_data m ++ p2)))
    by (try lia; subst buf; reflexivity).
  rewrite toString_ascii_header, header_magic, str_eqb_refl.
  cbn [negb].
  rewrite header_mode, header_filesize, header_namesize.
  rewrite !parseInt_hex8 by lia.
  cbn [num_add num_sub num_gt].
  assert (Hal1 : align4 (Int (blen pre + 110 + (blen (m_name m) + 1)))
                 = blen pre + 110 + (blen (m_name m) + 1) + Z.of_nat (List.length p1)).
  { replace (blen pre + 110 + (blen (m_name m) + 1))
      with (blen pre + Z.of_nat (110 + List.length (m_name m) + 1))
      by (unfold blen; lia).
    rewrite align4_pad by (unfold blen in *; lia).
    unfold blen, p1. lia. }
  rewrite Hal1.
  destruct (Z.gtb_spec (blen pre + 110 + (blen (m_name m) + 1)
                        + Z.of_nat (List.length p1)) (blen buf)) as [Hgt|Hle2];
    [reflexivity|].
  (* the name and its padding are whole *)
  assert (Ecut2 : firstn (k - 110) ((m_name m ++ [0]) ++ p1 ++ m_data m ++ p2)
                  = (m_name m ++ [0]) ++ p1
                    ++ firstn (k - 110 - (List.length (m_name m) + 1)
                               - List.length p1) (m_data m)).
  { unfold blen in *.
    rewrite firstn_app, firstn_all2
      by (rewrite length_app; simpl; lia).
    f_equal. rewrite length_app. simpl List.length.
    rewrite firstn_app, firstn_all2 by lia.
    f_equal. rewrite firstn_app.
    replace (k - 110 - (List.length (m_name m) + 1) - List.length p1
             - List.length (m_data m))%nat with 0%nat by lia.
    simpl. apply app_nil_r. }
  rewrite Ecut2 in Ebuf.
  rewrite (subarray_at buf (pre ++ encodeHeader m) (m_name m)
             ([0] ++ p1
              ++ firstn (k - 110 - (List.length (m_name m) + 1)
                         - List.length p1) (m_data m)))
    by (try (rewrite blen_app; lia); subst buf;
        rewrite <- !app_assoc; reflexivity).
  destruct (str_eqb (toString_utf8 (m_name m)) CPIO_TRAILER); [reflexivity|].
  destruct (Z.gtb_spec (blen pre + 110 + (blen (m_name m) + 1)
                        + Z.of_nat (List.length p1) + blen (m_data m))
                       (blen buf)) as [Hgt|Hle3]; [reflexivity|].
  unfold blen in *. lia.
Qed.

(** The loop goes through whole members one turn each. *)
Lemma parseCpioLoop_through : forall ms pre post acc fuel,
  blen pre mod 4 = 0 ->
  blen pre + blen (concat (map encodeMember ms)) <= 2 ^ 31 - 4 ->
  Forall wellFormed ms ->
  parseCpioLoop (List.length ms + fuel)
    (pre ++ concat (map encodeMember ms) ++ post) (blen pre) acc
  = parseCpioLoop fuel
      (pre ++ concat (map encodeMember ms) ++ post)
      (blen pre + blen (concat (map encodeMember ms)))
      (acc ++ map entryOf ms).
Proof.
  induction ms as [|m ms IH]; intros pre post acc fuel Hpre Hlen Hwf.
  - cbn [map concat List.length Nat.add app]. change (blen []) with 0.
    rewrite Z.add_0_r, app_nil_r. reflexivity.
  - inversion Hwf as [|? ? [Hmode Hname] Hwf']; subst.
    cbn [map concat List.length Nat.add].
    cbn [parseCpioLoop].
    pose proof (length_member m) as Hm.
    pose proof (blen_nonneg (m_name m)). pose proof (blen_nonneg (m_data m)).
    pose proof (blen_nonneg (concat (map encodeMember ms))).
    pose proof (blen_nonneg post).
    cbn [map concat] in Hlen. rewrite blen_app in Hlen.
    assert (Hlt : (blen pre
                   <? blen (pre ++ (encodeMember m ++ concat (map encodeMember ms))
                                ++ post)) = true).
    { apply Z.ltb_lt. rewrite !blen_app. lia. }
    rewrite Hlt.
    assert (Hturn : parseCpioTurn
                      (pre ++ (encodeMember m ++ concat (map encodeMember ms))
                           ++ post) (blen pre)
                    = Push (entryOf m) (blen pre + blen (encodeMember m))).
    { replace (pre ++ (encodeMember m ++ concat (map encodeMember ms)) ++ post)
        with (pre ++ encodeHeader m ++ (m_name m ++ [0])
                  ++ pad4 (110 + List.length (m_name m) + 1) ++ m_data m
                  ++ (pad4 (List.length (m_data m))
                      ++ concat (map encodeMember ms) ++ post))
        by (rewrite encodeMember_split, <- !app_assoc; reflexivity).
      rewrite (parseCpioTurn_payload pre m) by (assumption || lia).
      rewrite (str_eqb_neq _ _ Hname). reflexivity. }
    rewrite Hturn.
    replace (pre ++ (encodeMember m ++ concat (map encodeMember ms)) ++ post)
      with ((pre ++ encodeMember m) ++ concat (map encodeMember ms) ++ post)
      by (rewrite <- !app_assoc; reflexivity).
    rewrite <- (blen_app pre (encodeMember m)).
    rewrite IH.
    + rewrite !blen_app, Z.add_assoc. cbn [map].
      rewrite <- (app_assoc acc [entryOf m]). reflexivity.
    + rewrite blen_app. pose proof (member_mod4 m).
      Z.div_mod_to_equations. lia.
    + rewrite blen_app. lia.
    + assumption.
Qed.

Lemma concat_mod4 : forall ms, blen (concat (map encodeMember ms)) mod 4 = 0.
Proof.
  induction ms as [|m ms IH].
  - reflexivity.
  - cbn [map concat]. rewrite blen_app.
    pose proof (member_mod4 m). Z.div_mod_to_equations. lia.
Qed.

(** X1: what follows the trailer is not read. An archive of N
    well-formed members and the trailer that is at most 2^31 - 4 bytes
    long, with any bytes after it, is read as the N entries. The bound is
    on the archive, not on what follows it; beyond it [align4] wraps
    around. *)
Theorem bytes_after_trailer_ignored :
  forall (ms : list Member) (tail : buffer) (fuel : nat),
  Forall wellFormed ms ->
  blen (assemble ms) <= 2 ^ 31 - 4 ->
  (List.length ms < fuel)%nat ->
  parseCpioArchive fuel (assemble ms ++ tail) = Some (map entryOf ms).
Proof.
  intros ms tail fuel Hwf Hlen Hfuel. unfold parseCpioArchive, assemble in *.
  rewrite blen_app in Hlen.
  pose proof (blen_nonneg (concat (map encodeMember ms))) as Hc0.
  change (blen (encodeMember trailer)) with 124 in Hlen.
  replace fuel with (List.length ms + S (fuel - List.length ms - 1))%nat by lia.
  rewrite <- app_assoc.
  change (parseCpioLoop ?f ?b 0 []) with (parseCpioLoop f ([] ++ b) (blen []) []).
  rewrite parseCpioLoop_through
    by (try assumption; try reflexivity; change (blen []) with 0; lia).
  cbn [app]. change (blen []) with 0. rewrite Z.add_0_l.
  cbn [parseCpioLoop].
  assert (Hlt : (blen (concat (map encodeMember ms))
                 <? blen (concat (map encodeMember ms)
                          ++ encodeMember trailer ++ tail)) = true).
  { apply Z.ltb_lt. rewrite !blen_app.
    change (blen (encodeMember trailer)) with 124.
    pose proof (blen_nonneg tail). lia. }
  rewrite Hlt.
  replace (concat (map encodeMember ms) ++ encodeMember trailer ++ tail)
    with (concat (map encodeMember ms) ++ encodeHeader trailer
          ++ (m_name trailer ++ [0])
          ++ pad4 (110 + List.length (m_name trailer) + 1) ++ m_data trailer
          ++ (pad4 (List.length (m_data trailer)) ++ tail))
    by (rewrite (encodeMember_split trailer), <- !app_assoc; reflexivity).
  rewrite (parseCpioTurn_payload (concat (map encodeMember ms)) trailer).
  - reflexivity.
  - apply concat_mod4.
  - change (blen (encodeMember trailer)) with 124. lia.
  - cbn. lia.
Qed.

Lemma bytes_after_trailer_ignored_witness :
  parseCpioArchive 3 (assemble sample_members ++ [1; 2; 3])
  = Some (map entryOf sample_members).
Proof.
  apply bytes_after_trailer_ignored.
  - repeat constructor; try (vm_compute; discriminate).
  - vm_compute. discriminate.
  - vm_compute. lia.
Defined.

(** X2: a truncated archive gives the entries that are whole, when its
    members, the last one taken whole, are at most 2^31 - 4 bytes long
    together. After N well-formed members, a member cut before the end
    of its data is dropped, one cut in the padding after its data is
    kept; no error is raised either way. The bound is there because
    [align4] wraps around beyond it. *)
Theorem truncated_archive_read :
  forall (ms : list Member) (m : Member) (k fuel : nat),
  Forall wellFormed ms -> wellFormed m ->
  blen (concat (map encodeMember ms) ++ encodeMember m) <= 2 ^ 31 - 4 ->
  (List.length ms + 1 < fuel)%nat ->
  parseCpioArchive fuel
    (concat (map encodeMember ms) ++ firstn k (encodeMember m))
  = Some (map entryOf ms
          ++ (if (k <? payloadLength m)%nat then [] else [entryOf m])).
Proof.
  intros ms m k fuel Hwf [Hmode Hname] Hlen Hfuel. unfold parseCpioArchive.
  rewrite blen_app in Hlen.
  pose proof (blen_nonneg (concat (map encodeMember ms))) as Hc0.
  pose proof (blen_nonneg (encodeMember m)) as He0.
  pose proof (length_member m) as Hm.
  replace fuel with (List.length ms + S (S (fuel - List.length ms - 2)))%nat
    by lia.
  change (parseCpioLoop ?f ?b 0 []) with (parseCpioLoop f ([] ++ b) (blen []) []).
  rewrite parseCpioLoop_through
    by (try assumption; try reflexivity; change (blen []) with 0; lia).
  cbn [app]. change (blen []) with 0. rewrite Z.add_0_l.
  set (pre := concat (map encodeMember ms)) in *.
  assert (Hpre : blen pre mod 4 = 0) by apply concat_mod4.
  destruct (Nat.ltb_spec k (payloadLength m)) as [Hk|Hk].
  - (* cut before the end of the data *)
    rewrite app_nil_r. cbn [parseCpioLoop].
    destruct (Z.ltb_spec (blen pre) (blen (pre ++ firstn k (encodeMember m))));
      [|reflexivity].
    rewrite parseCpioTurn_cut by assumption. reflexivity.
  - (* cut in the padding of the data *)
    unfold payloadLength in Hk.
    assert (Ecut : firstn k (encodeMember m)
                   = encodeHeader m ++ (m_name m ++ [0])
                     ++ pad4 (110 + List.length (m_name m) + 1) ++ m_data m
                     ++ firstn (k - payloadLength m)
                          (pad4 (List.length (m_data m)))).
    { rewrite encodeMember_split. unfold payloadLength.
      rewrite firstn_app, firstn_all2 by (rewrite length_header; lia).
      f_equal. rewrite length_header.
      rewrite firstn_app, firstn_all2 by (rewrite length_app; simpl; lia).
      f_equal. rewrite length_app. change (List.length [0]) with 1%nat.
      rewrite firstn_app, firstn_all2 by lia.
      f_equal.
      rewrite firstn_app, firstn_all2 by lia.
      f_equal. f_equal. lia. }
    rewrite Ecut.
    cbn [parseCpioLoop].
    assert (Hlt : (blen pre
                   <? blen (pre ++ encodeHeader m ++ (m_name m ++ [0])
                            ++ pad4 (110 + List.length (m_name m) + 1)
                            ++ m_data m
                            ++ firstn (k - payloadLength m)
                                 (pad4 (List.length (m_data m))))) = true).
    { apply Z.ltb_lt. unfold blen. rewrite !length_app, length_header. lia. }
    rewrite Hlt, parseCpioTurn_payload by assumption.
    rewrite (str_eqb_neq _ _ Hname).
    assert (Hend : (blen pre + blen (encodeMember m)
                    <? blen (pre ++ encodeHeader m ++ (m_name m ++ [0])
                             ++ pad4 (110 + List.length (m_name m) + 1)
                             ++ m_data m
                             ++ firstn (k - payloadLength m)
                                  (pad4 (List.length (m_data m))))) = false).
    { apply Z.ltb_ge. rewrite <- Ecut. rewrite blen_app.
      unfold blen. rewrite length_firstn. lia. }
    rewrite Hend. reflexivity.
Qed.

Lemma truncated_archive_read_witness :
  parseCpioArchive 3
    (encodeMember text_member ++ firstn 113 (encodeMember blob_member))
  = Some [entryOf text_member]
  /\ parseCpioArchive 3
       (encodeMember text_member ++ firstn 115 (encodeMember blob_member))
     = Some [entryOf text_member; entryOf blob_member].
Proof.
  assert (Hwf : Forall wellFormed [text_member])
    by (repeat constructor; try (vm_compute; discriminate)).
  assert (Hb : wellFormed blob_member)
    by (repeat constructor; try (vm_compute; discriminate)).
  assert (Hlen : blen (concat (map encodeMember [text_member])
                       ++ encodeMember blob_member) <= 2 ^ 31 - 4)
    by (vm_compute; discriminate).
  assert (Hfuel : (List.length [text_member] + 1 < 3)%nat) by (simpl; lia).
  split.
  - exact (truncated_archive_read [text_member] blob_member 113 3
             Hwf Hb Hlen Hfuel).
  - exact (truncated_archive_read [text_member] blob_member 115 3
             Hwf Hb Hlen Hfuel).
Defined.

Lemma align4_NaN : forall n, align4 (num_add (Int n) NaN) = 0.
Proof. reflexivity. Qed.

(** X3: an entry whose filesize field is no number sends the loop back
    to the start. When the header at offset 0 is read as an entry with a
    NaN size, [parseCpioArchive] never returns: whatever the fuel, the
    loop is still running. *)
Theorem nan_size_never_returns :
  forall (buf : buffer) (e : CpioEntry) (next : Z),
  parseCpioTurn buf 0 = Push e next ->
  filesize e = NaN ->
  forall fuel, parseCpioArchive fuel buf = None.
Proof.
  intros buf e next Hturn Hsize.
  assert (Hnext : next = 0 /\ 0 < blen buf).
  { unfold parseCpioTurn, CPIO_HEADER_SIZE in Hturn.
    destruct (Z.gtb_spec (0 + 110) (blen buf)); [discriminate|].
    destruct (negb _).
    { destruct (_ =? -1); discriminate. }
    destruct (_ >? blen buf); [discriminate|].
    destruct (str_eqb _ CPIO_TRAILER); [discriminate|].
    destruct (num_gt _ _); [discriminate|].
    injection Hturn as <- <-. cbn [filesize] in Hsize.
    rewrite Hsize. split; [reflexivity|lia]. }
  destruct Hnext as [-> Hlen].
  unfold parseCpioArchive. generalize (@nil CpioEntry).
  intros acc fuel. revert acc.
  induction fuel as [|fuel IH]; intro acc; [reflexivity|].
  cbn [parseCpioLoop].
  destruct (Z.ltb_spec 0 (blen buf)); [|lia].
  rewrite Hturn. apply IH.
Qed.

Lemma nan_size_never_returns_witness :
  parseCpioArchive 1000 endless_archive = None.
Proof.
  apply (nan_size_never_returns endless_archive
           (mkEntry (lit "abcd") [] NaN (Int 0)) 0); reflexivity.
Defined.

End ArchiveEdges.

Section ReaderEdges.

Lemma subarray_firstn_skipn : forall (b : buffer) s e,
  0 <= s <= e ->
  subarray b (Int s) (Int e)
  = firstn (Z.to_nat (e - s)) (skipn (Z.to_nat s) b).
Proof.
  intros b s e H. unfold subarray.
  pose proof (blen_nonneg b) as Hb.
  destruct (Z.ltb_spec s (blen b)) as [Hs|Hs].
  - assert (As : adjustOffset (Int s) (blen b) = s).
    { apply adjustOffset_in. lia. }
    rewrite As.
    destruct (Z.ltb_spec e (blen b)) as [He|He].
    + rewrite (adjustOffset_in e) by lia.
      destruct (Z.gtb_spec e s); [reflexivity|].
      replace (e - s) with 0 by lia. reflexivity.
    + assert (Ae : adjustOffset (Int e) (blen b) = blen b).
      { unfold adjustOffset.
        destruct (Z.eqb_spec e 0); [lia|].
        destruct (Z.ltb_spec e 0); [lia|].
        destruct (Z.ltb_spec e (blen b)); [lia|reflexivity]. }
      rewrite Ae.
      destruct (Z.gtb_spec (blen b) s); [|lia].
      rewrite !firstn_all2; try reflexivity;
        rewrite length_skipn; unfold blen in *; lia.
  - assert (As : adjustOffset (Int s) (blen b) = blen b).
    { unfold adjustOffset.
      destruct (Z.eqb_spec s 0); [lia|].
      destruct (Z.ltb_spec s 0); [lia|].
      destruct (Z.ltb_spec s (blen b)); [lia|reflexivity]. }
    rewrite As.
    rewrite !skipn_all2 by (unfold blen in *; lia).
    rewrite !firstn_nil. reflexivity.
Qed.

Lemma isTextEntry_looksLikeText : forall e, isTextEntry e = looksLikeText e.
Proof.
  intro e. unfold isTextEntry, looksLikeText.
  pose proof (blen_nonneg (data e)) as Hb.
  assert (Hs : subarray (data e) (Int 0) (Int (Z.min 512 (blen (data e))))
               = firstn 512 (data e)).
  { rewrite subarray_firstn_skipn by lia. cbn [Z.to_nat skipn].
    rewrite Z.sub_0_r.
    destruct (Z.le_ge_cases 512 (blen (data e))) as [Hl|Hl].
    - rewrite Z.min_l by lia. reflexivity.
    - rewrite Z.min_r by lia.
      rewrite !firstn_all2; try reflexivity; unfold blen in *; lia. }
  rewrite Hs. destruct (filesize e) as [|z]; [reflexivity|].
  destruct z; reflexivity.
Qed.

(** X4: the text filter looks at the filesize field and at the first 512
    bytes only. An entry is kept exactly when its filesize field is not 0
    and each of its first 512 data bytes is a tab, a line feed, a
    carriage return or a printable ASCII byte; bytes after the 512th do
    not count. *)
Theorem filterTextEntries_first512 : forall entries : list CpioEntry,
  filterTextEntries entries = filter looksLikeText entries.
Proof.
  intro items. unfold filterTextEntries.
  apply filter_ext. intro e. apply isTextEntry_looksLikeText.
Qed.

Lemma startsWith_split : forall p s,
  startsWith s p = true -> exists rest, s = p ++ rest.
Proof.
  induction p as [|x p IH]; intros s H.
  - exists s. reflexivity.
  - destruct s as [|y s]; [discriminate|]. cbn in H.
    apply andb_true_iff in H. destruct H as [Hx Hs].
    apply Z.eqb_eq in Hx. subst y.
    destruct (IH s Hs) as [rest ->]. exists rest. reflexivity.
Qed.

Lemma startsWith_magicAt : forall b i,
  startsWith (skipn i b) CPIO_MAGIC = true -> magicAt b i = true.
Proof.
  intros b i H. unfold magicAt.
  destruct (startsWith_split _ _ H) as [rest ->]. reflexivity.
Qed.

Lemma find_sub_first : forall needle b n pos,
  (forall i, (i < n)%nat -> startsWith (skipn i b) needle = false) ->
  startsWith (skipn n b) needle = true ->
  (n <= List.length b)%nat ->
  find_sub needle b pos = pos + Z.of_nat n.
Proof.
  intros needle b n. revert b.
  induction n as [|n IH]; intros b pos Hno Hyes Hlen.
  - cbn [skipn] in Hyes. rewrite Z.add_0_r.
    destruct b as [|x b]; cbn [find_sub]; rewrite Hyes; reflexivity.
  - destruct b as [|x b]; [simpl in Hlen; lia|].
    cbn [find_sub].
    pose proof (Hno 0%nat ltac:(lia)) as H0. cbn [skipn] in H0. rewrite H0.
    cbn [skipn] in Hyes.
    rewrite (IH b (pos + 1)).
    + lia.
    + intros i Hi. apply (Hno (S i)). lia.
    + exact Hyes.
    + simpl in Hlen. lia.
Qed.

Lemma indexOf_prefix : forall junk rest,
  (forall i, (i < List.length junk)%nat ->
             magicAt (junk ++ CPIO_MAGIC ++ rest) i = false) ->
  indexOf (junk ++ CPIO_MAGIC ++ rest) CPIO_MAGIC 0 = blen junk.
Proof.
  intros junk rest Hno. unfold indexOf. cbv zeta.
  change (0 >? 2147483647) with false. cbv iota.
  change (0 <? -2147483648) with false. cbv iota.
  change (0 <? 0) with false. cbv iota.
  assert (Hlen : 0 + Z.of_nat (List.length CPIO_MAGIC)
                 <= blen (junk ++ CPIO_MAGIC ++ rest)).
  { unfold blen. rewrite !length_app. lia. }
  destruct (Z.leb_spec (0 + Z.of_nat (List.length CPIO_MAGIC))
                       (blen (junk ++ CPIO_MAGIC ++ rest))); [|lia].
  change (0 =? -1) with false. cbv iota. cbn [Z.to_nat skipn].
  rewrite (find_sub_first CPIO_MAGIC _ (List.length junk) 0).
  - reflexivity.
  - intros i Hi. specialize (Hno i Hi).
    destruct (startsWith (skipn i (junk ++ CPIO_MAGIC ++ rest)) CPIO_MAGIC) eqn:E;
      [|reflexivity].
    apply startsWith_magicAt in E. congruence.
  - rewrite skipn_app, skipn_all, Nat.sub_diag. reflexivity.
  - rewrite length_app. lia.
Qed.

Lemma subarray_prefix6 : forall b : buffer,
  subarray b (Int 0) (Int 6) = firstn 6 b.
Proof. intro b. rewrite subarray_firstn_skipn by lia. reflexivity. Qed.

Lemma subarray_after4 : forall b : buffer,
  subarray b (Int 4) (Int 10) = firstn 6 (skipn 4 b).
Proof. intro b. rewrite subarray_firstn_skipn by lia. reflexivity. Qed.

(** X5: the archive is found behind a prefix of up to 255 bytes. When
    the magic, read as ASCII, starts nowhere inside the prefix and the
    buffer does not begin like gzip, the reader gives what it gives for
    the archive alone if the prefix is shorter than 256 bytes, and throws
    the no-magic error if it is longer. *)
Theorem archive_behind_prefix :
  forall (gunzipSync : buffer -> jsstring + buffer) (fuel : nat)
         (junk raw : buffer),
  startsWith raw CPIO_MAGIC = true ->
  isGzip (junk ++ raw) = false ->
  (forall i, (i < List.length junk)%nat -> magicAt (junk ++ raw) i = false) ->
  readCpioFromBuffer gunzipSync fuel (junk ++ raw)
  = if blen junk <? 256 then readCpioFromBuffer gunzipSync fuel raw
    else Thrown (noMagicMessage (toString_ascii (firstn 6 (junk ++ raw)))).
Proof.
  intros g fuel junk raw Hraw Hgz Hno.
  destruct (startsWith_split _ _ Hraw) as [rest ->].
  assert (Hm : toString_ascii (firstn 6 (CPIO_MAGIC ++ rest)) = CPIO_MAGIC)
    by reflexivity.
  assert (Hread : readCpioFromBuffer g fuel (CPIO_MAGIC ++ rest)
                  = match parseCpioArchive fuel (CPIO_MAGIC ++ rest) with
                    | Some es => Returned es
                    | None => OutOfFuel
                    end).
  { unfold readCpioFromBuffer.
    rewrite (isGzip_magic _ Hm), (locateCpio_magic _ Hm). reflexivity. }
  destruct junk as [|j0 junk'].
  { reflexivity. }
  set (junk := j0 :: junk') in *.
  unfold readCpioFromBuffer at 1. rewrite Hgz.
  unfold locateCpio. rewrite subarray_prefix6, subarray_after4.
  assert (H0 : str_eqb (toString_ascii (firstn 6 (junk ++ CPIO_MAGIC ++ rest)))
                       CPIO_MAGIC = false).
  { apply (Hno 0%nat). simpl. lia. }
  rewrite H0. cbn [negb].
  destruct (Nat.eq_dec (List.length junk) 4) as [E4|E4].
  - (* the prefix of four bytes *)
    assert (Hs : skipn 4 (junk ++ CPIO_MAGIC ++ rest) = CPIO_MAGIC ++ rest).
    { rewrite <- E4. rewrite skipn_app, skipn_all, Nat.sub_diag. reflexivity. }
    rewrite Hs, Hm, str_eqb_refl.
    assert (Hj : blen junk = 4) by (unfold blen; lia).
    rewrite Hj. change (4 <? 256) with true. cbv iota.
    rewrite <- Hj, subarray_from_at. symmetry. exact Hread.
  - assert (H4 : str_eqb (toString_ascii
                            (firstn 6 (skipn 4 (junk ++ CPIO_MAGIC ++ rest))))
                         CPIO_MAGIC = false).
    { destruct (Nat.lt_ge_cases 4 (List.length junk)) as [Hl|Hl].
      - apply (Hno 4%nat). exact Hl.
      - subst junk.
        destruct junk' as [|j1 [|j2 [|j3 junk']]];
          try reflexivity. simpl in Hl, E4. lia. }
    rewrite H4.
    rewrite indexOf_prefix by exact Hno.
    pose proof (blen_nonneg junk) as Hj0.
    destruct (Z.eqb_spec (blen junk) (-1)); [lia|]. cbn [negb andb].
    destruct (Z.ltb_spec (blen junk) 256).
    + rewrite subarray_from_at. symmetry. exact Hread.
    + reflexivity.
Qed.

Lemma archive_behind_prefix_witness :
  readCpioFromBuffer (fun _ => inl []) 3
    ([1; 2; 3; 4; 5] ++ assemble sample_members)
  = Returned (map entryOf sample_members).
Proof.
  rewrite (archive_behind_prefix (fun _ => inl []) 3 [1; 2; 3; 4; 5]
             (assemble sample_members)).
  - reflexivity.
  - reflexivity.
  - reflexivity.
  - intros i Hi.
    do 5 (destruct i as [|i]; [reflexivity|]). simpl in Hi. lia.
Defined.

End ReaderEdges.

Section RegexInversion.

Context {A : Type}.

Lemma star_inv : forall p s prev (k : option Z -> jsstring -> option A) a,
  star p prev s k = Some a ->
  exists t s' prev', s = t ++ s' /\ forallb p t = true /\ k prev' s' = Some a.
Proof.
  induction s as [|c s IH]; intros prev k a H; cbn [star] in H.
  - exists [], [], prev. auto.
  - destruct (p c) eqn:Hc.
    + destruct (star p (Some c) s k) as [a'|] eqn:E.
      * injection H as ->. apply IH in E.
        destruct E as (t & s' & prev' & -> & Ht & Hk).
        exists (c :: t), s', prev'. cbn [forallb app]. rewrite Hc, Ht. auto.
      * exists [], (c :: s), prev. auto.
    + exists [], (c :: s), prev. auto.
Qed.

Lemma starR_inv : forall p prev s cs (k : option Z -> jsstring -> captures -> option A) a,
  rmatch (Star p) prev s cs k = Some a ->
  exists t s' prev', s = t ++ s' /\ forallb p t = true
                     /\ k prev' s' cs = Some a.
Proof. intros p prev s cs k a H. cbn [rmatch] in H. apply star_inv in H. exact H. Qed.

Lemma plus_inv : forall p prev s cs (k : option Z -> jsstring -> captures -> option A) a,
  rmatch (Plus p) prev s cs k = Some a ->
  exists t s' prev', s = t ++ s' /\ run p t /\ k prev' s' cs = Some a.
Proof.
  intros p prev s cs k a H. cbn [rmatch] in H.
  destruct s as [|x s]; [discriminate|].
  destruct (p x) eqn:Hx; [|discriminate].
  apply star_inv in H. destruct H as (t & s' & prev' & -> & Ht & Hk).
  exists (x :: t), s', prev'. split; [reflexivity|]. split; [|exact Hk].
  split; [discriminate|]. cbn [forallb]. rewrite Hx, Ht. reflexivity.
Qed.

Lemma group_plus_inv : forall n p prev s cs (k : option Z -> jsstring -> captures -> option A) a,
  rmatch (Grp n (Plus p)) prev s cs k = Some a ->
  exists t s' prev', s = t ++ s' /\ run p t
                     /\ k prev' s' ((n, t) :: cs) = Some a.
Proof.
  intros n p prev s cs k a H.
  change (rmatch (Plus p) prev s cs
            (fun prev' s' cs' =>
               k prev' s'
                 ((n, firstn (List.length s - List.length s') s) :: cs'))
          = Some a) in H.
  apply plus_inv in H. destruct H as (t & s' & prev' & -> & Ht & Hk).
  rewrite firstn_matched in Hk. exists t, s', prev'. auto.
Qed.

Lemma stripPrefix_inv : forall l s s',
  stripPrefix l s = Some s' -> s = l ++ s'.
Proof.
  induction l as [|x l IH]; intros s s' H; cbn [stripPrefix] in H.
  - injection H as ->. reflexivity.
  - destruct s as [|y s]; [discriminate|].
    destruct (Z.eqb_spec x y) as [->|]; [|discriminate].
    apply IH in H. subst s. reflexivity.
Qed.

Lemma str_inv : forall l prev s cs (k : option Z -> jsstring -> captures -> option A) a,
  rmatch (Str l) prev s cs k = Some a ->
  exists s' prev', s = l ++ s' /\ k prev' s' cs = Some a.
Proof.
  intros l prev s cs k a H. cbn [rmatch] in H.
  destruct (stripPrefix l s) as [s'|] eqn:E; [|discriminate].
  apply stripPrefix_inv in E. eauto.
Qed.

Lemma chr_inv : forall c prev s cs (k : option Z -> jsstring -> captures -> option A) a,
  rmatch (Chr c) prev s cs k = Some a ->
  exists s', s = c :: s' /\ k (Some c) s' cs = Some a.
Proof.
  intros c prev s cs k a H. cbn [rmatch] in H.
  destruct s as [|x s]; [discriminate|].
  destruct (Z.eqb_spec x c) as [->|]; [|discriminate]. eauto.
Qed.

Lemma opt_chr_inv : forall c prev s cs (k : option Z -> jsstring -> captures -> option A) a,
  rmatch (Opt (Chr c)) prev s cs k = Some a ->
  exists s' prev', (s = c :: s' \/ s = s') /\ k prev' s' cs = Some a.
Proof.
  intros c prev s cs k a H. cbn [rmatch] in H.
  destruct s as [|x s].
  - exists [], prev. auto.
  - destruct (Z.eqb_spec x c) as [->|].
    + destruct (k (Some c) s cs) as [a'|] eqn:E.
      * injection H as ->. exists s, (Some c). auto.
      * exists (c :: s), prev. auto.
    + exists (x :: s), prev. auto.
Qed.

End RegexInversion.

Section AnchoredSearch.

Lemma anchored_later : forall r s c idx,
  searchFrom (Seq (Bol false) r) (Some c) s idx = None.
Proof.
  intros r s. induction s as [|x s IH]; intros c idx; cbn; [reflexivity|].
  apply IH.
Qed.

(** A pattern anchored with ^ matches at the start or not at all. *)
Lemma rexec_anchored : forall r s m,
  rexec (Seq (Bol false) r) s = Some m ->
  rmatch r None s [] (fun p t c => Some (p, t, c))
  = Some (m_prev m, m_rest m, m_caps m).
Proof.
  intros r s m H. unfold rexec in H.
  destruct s as [|x s]; cbn [searchFrom] in H;
    rewrite rmatch_seq, rmatch_bol in H;
    destruct (rmatch r None _ [] (fun p t c => Some (p, t, c)))
      as [[[p t] c]|] eqn:E.
  - injection H as <-. reflexivity.
  - discriminate.
  - injection H as <-. reflexivity.
  - rewrite anchored_later in H. discriminate.
Qed.

Lemma rexec_wire_groups : forall s m,
  rexec RE_WIRE s = Some m ->
  token (group m 1) /\ run isDigit (group m 2)
  /\ token (group m 3) /\ run isDigit (group m 4).
Proof.
  intros s m H. apply rexec_anchored in H. cbn [seq] in H.
  rewrite rmatch_seq in H. apply str_inv in H. destruct H as (s1 & q1 & _ & H).
  rewrite rmatch_seq in H. apply plus_inv in H.
  destruct H as (w1 & s2 & q2 & _ & _ & H).
  rewrite rmatch_seq in H. apply group_plus_inv in H.
  destruct H as (t1 & s3 & q3 & _ & T1 & H).
  rewrite rmatch_seq in H. apply plus_inv in H.
  destruct H as (w2 & s4 & q4 & _ & _ & H).
  rewrite rmatch_seq in H. apply group_plus_inv in H.
  destruct H as (t2 & s5 & q5 & _ & T2 & H).
  rewrite rmatch_seq in H. apply plus_inv in H.
  destruct H as (w3 & s6 & q6 & _ & _ & H).
  rewrite rmatch_seq in H. apply group_plus_inv in H.
  destruct H as (t3 & s7 & q7 & _ & T3 & H).
  rewrite rmatch_seq in H. apply plus_inv in H.
  destruct H as (w4 & s8 & q8 & _ & _ & H).
  apply group_plus_inv in H.
  destruct H as (t4 & s9 & q9 & _ & T4 & H).
  injection H as _ _ Hc. unfold group, token. rewrite <- Hc. cbn. auto.
Qed.

Lemma rexec_input_groups : forall s m,
  rexec RE_INPUT s = Some m ->
  run isDigit (group m 1) /\ token (group m 2) /\ run isDigit (group m 3).
Proof.
  intros s m H. apply rexec_anchored in H. cbn [seq] in H.
  rewrite rmatch_seq in H. apply str_inv in H. destruct H as (s1 & q1 & _ & H).
  rewrite rmatch_seq in H. apply plus_inv in H.
  destruct H as (w1 & s2 & q2 & _ & _ & H).
  rewrite rmatch_seq in H. apply group_plus_inv in H.
  destruct H as (t1 & s3 & q3 & _ & T1 & H).
  rewrite rmatch_seq in H. apply plus_inv in H.
  destruct H as (w2 & s4 & q4 & _ & _ & H).
  rewrite rmatch_seq in H. apply group_plus_inv in H.
  destruct H as (t2 & s5 & q5 & _ & T2 & H).
  rewrite rmatch_seq in H. apply plus_inv in H.
  destruct H as (w3 & s6 & q6 & _ & _ & H).
  apply group_plus_inv in H.
  destruct H as (t3 & s7 & q7 & _ & T3 & H).
  injection H as _ _ Hc. unfold group, token. rewrite <- Hc. cbn. auto.
Qed.

Lemma rexec_type_group : forall s m,
  rexec RE_TYPE s = Some m -> token (group m 1).
Proof.
  intros s m H. apply rexec_anchored in H. cbn [seq] in H.
  rewrite rmatch_seq in H. apply str_inv in H. destruct H as (s1 & q1 & _ & H).
  rewrite rmatch_seq in H. apply starR_inv in H.
  destruct H as (w1 & s2 & q2 & _ & _ & H).
  rewrite rmatch_seq in H. apply chr_inv in H. destruct H as (s3 & _ & H).
  rewrite rmatch_seq in H. apply starR_inv in H.
  destruct H as (w2 & s4 & q4 & _ & _ & H).
  apply group_plus_inv in H.
  destruct H as (t1 & s5 & q5 & _ & T1 & H).
  injection H as _ _ Hc. unfold group, token. rewrite <- Hc. cbn. exact T1.
Qed.

Lemma rexec_name_group : forall s m,
  rexec RE_NAME s = Some m -> token (group m 1).
Proof.
  intros s m H. apply rexec_anchored in H. cbn [seq] in H.
  rewrite rmatch_seq in H. apply str_inv in H. destruct H as (s1 & q1 & _ & H).
  rewrite rmatch_seq in H. apply starR_inv in H.
  destruct H as (w1 & s2 & q2 & _ & _ & H).
  rewrite rmatch_seq in H. apply opt_chr_inv in H.
  destruct H as (s3 & q3 & _ & H).
  rewrite rmatch_seq in H. apply starR_inv in H.
  destruct H as (w2 & s4 & q4 & _ & _ & H).
  apply group_plus_inv in H.
  destruct H as (t1 & s5 & q5 & _ & T1 & H).
  injection H as _ _ Hc. unfold group, token. rewrite <- Hc. cbn. exact T1.
Qed.

End AnchoredSearch.

Section ConnectionInvariants.

Lemma digitsPrefix_digits : forall t,
  forallb isDigit t = true -> digitsPrefix 10 t = map (fun c => c - 48) t.
Proof.
  induction t as [|c t IH]; intro H; [reflexivity|].
  cbn [forallb] in H. apply andb_true_iff in H. destruct H as [Hc Ht].
  cbn [digitsPrefix map]. unfold radixDigit, digitVal.
  unfold isDigit in Hc. rewrite Hc.
  apply andb_true_iff in Hc. destruct Hc as [H1 H2].
  apply Z.leb_le in H1. apply Z.leb_le in H2.
  destruct (Z.ltb_spec (c - 48) 10); [|lia].
  rewrite IH by assumption. reflexivity.
Qed.

Lemma digitsValue_nonneg : forall ds acc,
  0 <= acc -> Forall (fun d => 0 <= d) ds ->
  0 <= fold_left (fun acc d => acc * 10 + d) ds acc.
Proof.
  induction ds as [|d ds IH]; intros acc Ha Hd; cbn [fold_left]; [assumption|].
  inversion Hd; subst. apply IH; [lia|assumption].
Qed.

(** [parseInt] of a run of decimal digits is not NaN and not below
    zero. *)
Lemma parseInt_digits : forall t,
  run isDigit t -> notNegative (parseInt t 10).
Proof.
  intros t [Hne Hall]. destruct t as [|c t]; [congruence|].
  pose proof Hall as Hall'.
  cbn [forallb] in Hall. apply andb_true_iff in Hall. destruct Hall as [Hc Ht].
  pose proof (digit_not_space c Hc) as Hsp.
  unfold parseInt, trimStart. cbn [dropWhile]. rewrite Hsp.
  assert (Hsign : splitSign (c :: t) = (1, c :: t)).
  { unfold isDigit in Hc. apply andb_true_iff in Hc. destruct Hc as [H1 H2].
    apply Z.leb_le in H1. apply Z.leb_le in H2.
    unfold splitSign. destruct c as [|p|p]; try lia.
    do 6 (destruct p as [p|p|]; try reflexivity; try lia). }
  rewrite Hsign. change (10 =? 16) with false. cbv iota.
  rewrite (digitsPrefix_digits (c :: t) Hall'). cbn [map].
  unfold notNegative. cbv iota. rewrite Z.mul_1_l.
  unfold digitsValue. apply digitsValue_nonneg; [lia|].
  change (Forall (fun d => 0 <= d) (map (fun c => c - 48) (c :: t))).
  apply Forall_forall. intros d Hd. apply in_map_iff in Hd.
  destruct Hd as (x & <- & Hx).
  rewrite forallb_forall in Hall'. specialize (Hall' x Hx).
  unfold isDigit in Hall'. apply andb_true_iff in Hall'.
  destruct Hall' as [H1 _]. apply Z.leb_le in H1. lia.
Qed.

Lemma resolvePath_slash : forall basePath relative,
  startsWith basePath (lit "/") = true ->
  startsWith (resolvePath basePath relative) (lit "/") = true.
Proof.
  intros basePath relative Hb. unfold resolvePath.
  destruct (startsWith relative (lit "/")) eqn:E; [exact E|].
  apply startsWith_app; [discriminate|exact Hb].
Qed.

Lemma lineConnections_ok : forall filename line,
  Forall connOk (lineConnections (basePathOf filename) line).
Proof.
  intros filename line. unfold lineConnections.
  pose proof (basePath_slash filename) as Hb.
  destruct (rexec RE_WIRE (trim line)) as [m|] eqn:Ew.
  - destruct (rexec_wire_groups _ _ Ew) as (_ & D2 & _ & D4).
    constructor; [|constructor].
    repeat split; cbn [c_from c_to c_fromOutput c_toInput];
      auto using resolvePath_slash, parseInt_digits.
  - destruct (rexec RE_INPUT (trim line)) as [m|] eqn:Ei; [|constructor].
    destruct (rexec_input_groups _ _ Ei) as (D1 & _ & D3).
    constructor; [|constructor].
    repeat split; cbn [c_from c_to c_fromOutput c_toInput];
      auto using resolvePath_slash, parseInt_digits.
Qed.

Lemma extractConnections_ok : forall filename content,
  Forall connOk (extractConnections filename content).
Proof.
  intros filename content. unfold extractConnections.
  induction (split1 10 content) as [|l ls IH]; cbn [flat_map]; [constructor|].
  apply Forall_app. split; [apply lineConnections_ok|exact IH].
Qed.

Lemma parseNodes_connections_ok : forall es acc,
  Forall connOk (snd acc) -> Forall connOk (snd (parseNodes es acc)).
Proof.
  induction es as [|[k v] es IH]; intros acc Hacc; cbn [parseNodes fold_left].
  - assumption.
  - apply IH. unfold parseNodeEntry.
    destruct (negb (includes v (lit "type"))); [assumption|].
    cbn [snd]. apply Forall_app. split; [assumption|].
    apply extractConnections_ok.
Qed.

(** X6: in the Scene parsed from any list of entries, both ends of every
    Connection are absolute paths, and its output and input indices are
    numbers that are not NaN and not below zero. Of an index this says
    the sign and no more: the value is kept as the digits denote it,
    where the code holds the double nearest to it, which is no integer
    for a run of 309 digits or more but Infinity. *)
Theorem connections_wellformed : forall items : list CpioEntry,
  Forall connOk (connections (parseHipContent items)).
Proof.
  intro items. rewrite parseHipContent_connections.
  apply parseNodes_connections_ok. constructor.
Qed.

End ConnectionInvariants.

Section NodeNaming.

Lemma flushNode_named : forall filename nodes current,
  Forall (nodeNamed filename) nodes ->
  (forall p, current = Some p ->
             nodeNamed filename (finalizeNode p (basePathOf filename))) ->
  Forall (nodeNamed filename) (flushNode nodes current (basePathOf filename)).
Proof.
  intros filename nodes current Hn Hc. unfold flushNode.
  destruct current as [p|]; [|assumption].
  destruct (hasType (Some p)); [|assumption].
  apply Forall_app. split; [assumption|]. constructor; [|constructor]. auto.
Qed.

Ltac branches :=
  repeat match goal with
         | |- context [match rexec ?r ?s with _ => _ end] =>
             destruct (rexec r s) eqn:?
         | |- context [if ?b then _ else _] => destruct b eqn:?
         end.

Ltac named_node Hc :=
  first
    [ exact (Hc _ eq_refl)
    | match goal with
      | H : rexec RE_TYPE _ = Some _ |- _ =>
          split;
          [ exact (rexec_type_group _ _ H)
          | split; [reflexivity | left; split; reflexivity] ]
      end
    | match goal with
      | H : rexec RE_NAME _ = Some _ |- _ =>
          let T := fresh in let C := fresh in
          destruct (Hc _ eq_refl) as (T & C & _);
          split;
          [ exact T
          | split;
            [ exact C
            | right; split; [exact (rexec_name_group _ _ H) | reflexivity] ] ]
      end ].

Lemma extractLine_named : forall filename st line,
  stateNamed filename st ->
  stateNamed filename (extractLine filename (basePathOf filename) st line).
Proof.
  intros filename st line [Hn Hc].
  destruct st as [ns cur inP depth pname pval pexpr pdef].
  cbn [st_nodes currentNode] in Hn, Hc.
  unfold extractLine, stateNamed.
  cbn [st_nodes currentNode inParm parmDepth currentParmName currentParmValue
       currentParmExpr currentParmIsDefault].
  cbv zeta.
  destruct cur as [node|]; branches; cbn [st_nodes currentNode].
  all: split;
    [ first [ assumption | apply flushNode_named; assumption ]
    | first [ intros p Hp; discriminate Hp
            | intros p [= <-]; named_node Hc ] ].
Qed.

Lemma extractNodesFromContent_named : forall filename content,
  Forall (nodeNamed filename) (extractNodesFromContent filename content).
Proof.
  intros filename content. unfold extractNodesFromContent.
  assert (H : stateNamed filename
                (fold_left (extractLine filename (basePathOf filename))
                           (split1 10 content) initialState)).
  { assert (H0 : stateNamed filename initialState)
      by (split; [constructor | intros p Hp; discriminate Hp]).
    revert H0. generalize initialState.
    induction (split1 10 content) as [|l ls IH]; intros st Hst; cbn [fold_left].
    - assumption.
    - apply IH. apply extractLine_named. assumption. }
  destruct H as [Hn Hc]. apply flushNode_named; assumption.
Qed.

Lemma assocSet_in_inv : forall (V : Type) k (v : V) k0 (v0 : V) o,
  In (k, v) (assocSet k0 v0 o) -> (k = k0 /\ v = v0) \/ In (k, v) o.
Proof.
  induction o as [|[k' v'] o IH]; cbn [assocSet]; intro H.
  - destruct H as [[= <- <-]|[]]. left. auto.
  - destruct (str_eqb k' k0) eqn:E.
    + apply str_eqb_eq in E. subst k'.
      destruct H as [[= <- <-]|H]; [left; auto|right; right; exact H].
    + destruct H as [H|H]; [right; left; exact H|].
      destruct (IH H) as [Heq|Hin]; [left; exact Heq|right; right; exact Hin].
Qed.

Lemma separateEntries_from : forall items acc k v,
  In (k, v) (fst (fold_left separateEntry items acc)) ->
  In (k, v) (fst acc)
  \/ exists e, In e items /\ nameOf e = k /\ contentOf e = v
                /\ isHeaderName k = false.
Proof.
  induction items as [|e items IH]; intros acc k v H; cbn [fold_left] in H.
  - left. exact H.
  - destruct (IH _ _ _ H) as [Hacc|(e' & He' & Hrest)].
    + unfold separateEntry in Hacc. fold (nameOf e) (contentOf e) in Hacc.
      destruct (isHeaderName (nameOf e)) eqn:Eh; cbn [fst] in Hacc.
      * left. exact Hacc.
      * destruct (assocSet_in_inv _ _ _ _ _ _ Hacc) as [[-> ->]|Hin].
        -- right. exists e. repeat split; [left; reflexivity|exact Eh].
        -- left. exact Hin.
    + right. exists e'. split; [right; exact He'|exact Hrest].
Qed.

Lemma parseNodes_from : forall es acc n,
  In n (fst (parseNodes es acc)) ->
  In n (fst acc)
  \/ exists k v, In (k, v) es /\ In n (extractNodesFromContent k v).
Proof.
  induction es as [|[k v] es IH]; intros acc n H;
    cbn [parseNodes fold_left] in H.
  - left. exact H.
  - destruct (IH _ _ H) as [Hacc|(k' & v' & Hin & Hn)].
    + unfold parseNodeEntry in Hacc.
      destruct (negb (includes v (lit "type"))); [left; exact Hacc|].
      cbn [fst] in Hacc. apply in_app_or in Hacc.
      destruct Hacc as [Hacc|Hnew]; [left; exact Hacc|].
      right. exists k, v. split; [left; reflexivity|exact Hnew].
    + right. exists k', v'. split; [right; exact Hin|exact Hn].
Qed.

(** X7: how Nodes are named. Every Node of a parsed Scene comes from an
    entry that is no header; its type is a non-empty word without white
    space, its category is the one inferred from that type and the
    entry's name, and either it has no name (the empty string: the
    fallback to the last path segment never applies) and its path is the
    entry's base path, or its name is such a word and its path is the
    base path, a slash and the name. *)
Theorem nodes_named : forall items : list CpioEntry,
  Forall (fun n => exists e, In e items
                             /\ isHeaderName (nameOf e) = false
                             /\ nodeNamed (nameOf e) n)
         (nodes (parseHipContent items)).
Proof.
  intro items. rewrite parseHipContent_nodes. apply Forall_forall.
  intros n Hn. apply parseNodes_from in Hn.
  destruct Hn as [[]|(k & v & Hkv & Hn)].
  unfold separateEntries in Hkv. apply separateEntries_from in Hkv.
  destruct Hkv as [[]|(e & He & <- & <- & Hh)].
  exists e. split; [exact He|]. split; [exact Hh|].
  pose proof (extractNodesFromContent_named (nameOf e) (contentOf e)) as Hall.
  rewrite Forall_forall in Hall. apply Hall. exact Hn.
Qed.

End NodeNaming.

Section SceneHelpers.

Lemma separateEntries_notHeader : forall items acc,
  fst (fold_left separateEntry (filter notHeader items) acc)
  = fst (fold_left separateEntry items acc).
Proof.
  induction items as [|e items IH]; intro acc; [reflexivity|].
  cbn [filter fold_left]. unfold notHeader at 1.
  destruct (isHeaderName (nameOf e)) eqn:Eh; cbn [negb].
  - rewrite IH.
    assert (Hacc : forall a b,
      fst a = fst b ->
      fst (fold_left separateEntry items a) = fst (fold_left separateEntry items b)).
    { clear. induction items as [|x items IH]; intros a b Hab; [exact Hab|].
      cbn [fold_left]. apply IH. unfold separateEntry.
      destruct (isHeaderName _); cbn [fst]; rewrite Hab; reflexivity. }
    apply Hacc. unfold separateEntry. fold (nameOf e). rewrite Eh. reflexivity.
  - cbn [fold_left]. apply IH.
Qed.

(** X8: the scene-level header files give no Node and no Connection.
    The Nodes and Connections of a Scene are those of the entries that
    are no header files: removing the header entries changes neither. *)
Theorem header_entries_hold_no_nodes : forall items : list CpioEntry,
  nodes (parseHipContent items)
  = nodes (parseHipContent (filter notHeader items))
  /\ connections (parseHipContent items)
     = connections (parseHipContent (filter notHeader items)).
Proof.
  intro items.
  rewrite !parseHipContent_nodes, !parseHipContent_connections.
  unfold separateEntries. rewrite separateEntries_notHeader. auto.
Qed.

Lemma modified_fold : forall (n : HipNode) ps acc,
  fold_left
    (fun modified param =>
       if negb (p_isDefault param)
       then modified ++ [mkModified (n_path n) (n_type n) param]
       else modified) ps acc
  = acc ++ map (modifiedOf n) (filter (fun p => negb (p_isDefault p)) ps).
Proof.
  intros n ps. induction ps as [|p ps IH]; intro acc; cbn [fold_left filter].
  - rewrite app_nil_r. reflexivity.
  - rewrite IH. destruct (negb (p_isDefault p)); cbn [map].
    + rewrite <- app_assoc. reflexivity.
    + reflexivity.
Qed.

Lemma modified_nodes_fold : forall ns acc,
  fold_left
    (fun modified node =>
       fold_left
         (fun modified param =>
            if negb (p_isDefault param)
            then modified ++ [mkModified (n_path node) (n_type node) param]
            else modified)
         (n_parameters node) modified)
    ns acc
  = acc ++ flat_map (fun n => map (modifiedOf n)
                                (filter (fun p => negb (p_isDefault p))
                                        (n_parameters n))) ns.
Proof.
  induction ns as [|n ns IH]; intro acc; cbn [fold_left flat_map].
  - rewrite app_nil_r. reflexivity.
  - rewrite modified_fold, IH, <- app_assoc. reflexivity.
Qed.

Lemma getNonDefaultParameters_flat : forall result,
  getNonDefaultParameters result
  = flat_map (fun n => map (modifiedOf n)
                         (filter (fun p => negb (p_isDefault p))
                                 (n_parameters n)))
             (nodes result).
Proof.
  intro result. unfold getNonDefaultParameters.
  rewrite modified_nodes_fold. reflexivity.
Qed.

(** X9: [getNonDefaultParameters] lists, in the order of the nodes and of
    their parameters, exactly the parameters that are not defaults, each
    with the path and the type of its node; and their number is the
    count of non-default parameters that extraction reports. *)
Theorem getNonDefaultParameters_listed : forall result : HipParseResult,
  getNonDefaultParameters result
  = flat_map (fun n => map (modifiedOf n)
                         (filter (fun p => negb (p_isDefault p))
                                 (n_parameters n)))
             (nodes result)
  /\ forall foreignKeys numberToString stringifyNumbers fileEntry parsedAt db,
       nonDefaultParams
         (snd (extractHipToKnowledgeBase foreignKeys numberToString
                 stringifyNumbers result fileEntry parsedAt db))
       = Z.of_nat (List.length (getNonDefaultParameters result)).
Proof.
  intro result. split; [apply getNonDefaultParameters_flat|].
  rewrite getNonDefaultParameters_flat.
  intros fk nts sn fe ts db. unfold extractHipToKnowledgeBase.
  destruct (upsertHipFile _ db) as [db1 hid].
  destruct (insertParameterSnapshots _ _ _ _) as [db3 failure].
  cbn [snd nonDefaultParams]. unfold countIf, allParameters. f_equal.
  induction (nodes result) as [|n ns IH]; [reflexivity|].
  cbn [flat_map]. rewrite filter_app, !length_app, length_map, IH.
  reflexivity.
Qed.

Lemma parseHipContent_nodeOk : forall items n,
  In n (nodes (parseHipContent items)) -> nodeOk n.
Proof.
  intros items n Hn.
  assert (H : Forall nodeOk (nodes (parseHipContent items))).
  { rewrite parseHipContent_nodes. apply parseNodes_nodes_ok. constructor. }
  rewrite Forall_forall in H. auto.
Qed.

(** X10: in a parsed Scene every parameter driven by an expression is
    among the non-default parameters [getNonDefaultParameters] lists. *)
Theorem expressions_are_listed :
  forall (items : list CpioEntry) (n : HipNode) (p : HipParameter),
  In n (nodes (parseHipContent items)) ->
  In p (n_parameters n) ->
  p_expression p <> None ->
  In (modifiedOf n p) (getNonDefaultParameters (parseHipContent items)).
Proof.
  intros items n p Hn Hp He.
  destruct (parseHipContent_nodeOk _ _ Hn) as (_ & _ & Hpar).
  rewrite Forall_forall in Hpar. destruct (Hpar p Hp) as [_ Hd].
  rewrite getNonDefaultParameters_flat. apply in_flat_map.
  exists n. split; [exact Hn|]. apply in_map. apply filter_In.
  split; [exact Hp|]. rewrite (Hd He). reflexivity.
Qed.

Lemma expressions_are_listed_witness :
  In (modifiedOf
        (mkNode (lit "/obj/geo1/g") (lit "geo") (lit "SOP") (lit "g")
           [mkParam (lit "tx") (PNumber (NumDec false 0 0)) false
              (Some (lit "$F"))] [])
        (mkParam (lit "tx") (PNumber (NumDec false 0 0)) false
           (Some (lit "$F"))))
     (getNonDefaultParameters (parseHipContent [expression_sample])).
Proof.
  apply expressions_are_listed.
  - vm_compute. left. reflexivity.
  - left. reflexivity.
  - discriminate.
Defined.

Lemma assocGet_set_same : forall (V : Type) k (v : V) o,
  assocGet k (assocSet k v o) = Some v.
Proof.
  induction o as [|[k' v'] o IH]; cbn [assocSet assocGet].
  - rewrite str_eqb_refl. reflexivity.
  - destruct (str_eqb k' k) eqn:E; cbn [assocGet]; rewrite E; auto.
Qed.

Lemma assocGet_set_other : forall (V : Type) k k2 (v : V) o,
  str_eqb k2 k = false -> assocGet k (assocSet k2 v o) = assocGet k o.
Proof.
  induction o as [|[k' v'] o IH]; intro Hne; cbn [assocSet assocGet].
  - destruct (str_eqb k2 k) eqn:E; [congruence|reflexivity].
  - destruct (str_eqb k' k2) eqn:E; cbn [assocGet].
    + apply str_eqb_eq in E. subst k'. rewrite Hne. reflexivity.
    + destruct (str_eqb k' k); auto.
Qed.

Lemma assocSet_keys : forall (V : Type) k (v : V) o,
  NoDup (map fst o) -> NoDup (map fst (assocSet k v o)).
Proof.
  intros V k v o. 
  assert (Hin : forall o x, In x (map fst (assocSet k v o)) ->
                            x = k \/ In x (map fst o)).
  { clear. induction o as [|[k' v'] o IH]; cbn [assocSet]; intros x Hx.
    - destruct Hx as [<-|[]]. left. reflexivity.
    - destruct (str_eqb k' k) eqn:E; cbn [map fst] in *.
      + right. exact Hx.
      + destruct Hx as [<-|Hx]; [right; left; reflexivity|].
        destruct (IH x Hx) as [->|H]; [left; reflexivity|right; right; exact H]. }
  induction o as [|[k' v'] o IH]; intro Hnd; cbn [assocSet].
  - constructor; [intros []|constructor].
  - cbn [map fst] in Hnd. inversion Hnd as [|? ? Hni Hnd']; subst.
    destruct (str_eqb k' k) eqn:E; cbn [map fst].
    + constructor; assumption.
    + constructor; [|apply IH; exact Hnd'].
      intro Hx. destruct (Hin _ _ Hx) as [->|H]; [|contradiction].
      rewrite str_eqb_refl in E. discriminate.
Qed.

Lemma groups_fold : forall ns groups t,
  assocGet t
    (fold_left
       (fun groups node =>
          let existing := orElse (assocGet (n_type node) groups) [] in
          assocSet (n_type node) (existing ++ [node]) groups) ns groups)
  = match assocGet t groups, filter (hasType_ t) ns with
    | None, [] => None
    | g, l => Some (orElse g [] ++ l)
    end.
Proof.
  induction ns as [|n ns IH]; intros groups t; cbn [fold_left filter].
  - destruct (assocGet t groups); [rewrite app_nil_r|]; reflexivity.
  - rewrite IH. cbv zeta.
    destruct (hasType_ t n) eqn:E; unfold hasType_ in E.
    + apply str_eqb_eq in E. subst t. rewrite assocGet_set_same.
      cbn [orElse]. rewrite <- app_assoc. cbn [app].
      destruct (assocGet (n_type n) groups); reflexivity.
    + rewrite assocGet_set_other by exact E. reflexivity.
Qed.

(** X11: [groupNodesByType] gives, under each type that occurs, the
    nodes of that type in their order in the Scene, under no other key
    anything, and no key twice. *)
Theorem groupNodesByType_lookup :
  forall (result : HipParseResult) (t : jsstring),
  assocGet t (groupNodesByType result)
  = match filter (hasType_ t) (nodes result) with
    | [] => None
    | l => Some l
    end
  /\ NoDup (map fst (groupNodesByType result)).
Proof.
  intros result t. unfold groupNodesByType. split.
  - rewrite groups_fold. cbn [assocGet orElse app].
    destruct (filter (hasType_ t) (nodes result)); reflexivity.
  - assert (H : forall ns groups,
      NoDup (map fst groups) ->
      NoDup (map fst
               (fold_left
                  (fun groups node =>
                     let existing := orElse (assocGet (n_type node) groups) [] in
                     assocSet (n_type node) (existing ++ [node]) groups)
                  ns groups))).
    { induction ns as [|n ns IH]; intros groups Hg; cbn [fold_left];
        [exact Hg|]. apply IH. apply assocSet_keys. exact Hg. }
    apply H. constructor.
Qed.

End SceneHelpers.

Section CacheFacts.

Variable cacheDir : jsstring.
Variable sha256hex : buffer -> jsstring.
Variable decodeURIComponent : jsstring -> option jsstring.
Variable pathJoin : jsstring -> jsstring -> jsstring.
Variable unlinkThrows : jsstring -> bool.

Lemma existsSync_written : forall w path,
  existsSync (writeFileSync w path) path = true.
Proof.
  intros w path. unfold writeFileSync.
  destruct (existsSync w path) eqn:E; [exact E|].
  unfold existsSync. cbn [blobs]. rewrite existsb_app. cbn.
  rewrite str_eqb_refl. rewrite orb_true_r. reflexivity.
Qed.

Lemma assocGet_In : forall (V : Type) k (v : V) o,
  assocGet k o = Some v -> In v (map snd o).
Proof.
  induction o as [|[k' v'] o IH]; cbn [assocGet]; intro H; [discriminate|].
  destruct (str_eqb k' k); [injection H as ->; left; reflexivity|].
  right. auto.
Qed.

(** X12: a download that gives an entry leaves the cache holding it.
    When [downloadHipFile] returns an entry, the file at its local path
    exists, the manifest has the entry under the URL,
    [listCachedHipFiles] lists it, and asking for the same URL again
    returns the same entry from the cache, whatever the server would
    answer, and changes nothing. *)
Theorem downloadHipFile_holds_entry :
  forall (w w' : World) (req : Request) (reply : Reply) (e : HipFileEntry),
  downloadHipFile cacheDir sha256hex decodeURIComponent pathJoin w req reply
  = (w', Some e) ->
  existsSync w' (localPath e) = true
  /\ assocGet (url req) (loadManifest w') = Some e
  /\ In e (listCachedHipFiles w')
  /\ forall reply',
       downloadHipFile cacheDir sha256hex decodeURIComponent pathJoin
         w' req reply'
       = (w', Some e).
Proof.
  intros w w' req reply e H.
  assert (Hkey : existsSync w' (localPath e) = true
                 /\ assocGet (url req) (loadManifest w') = Some e).
  { unfold downloadHipFile in H.
    destruct (assocGet (url req) (loadManifest w)) as [c|] eqn:Ec.
    - destruct (existsSync w (localPath c)) eqn:Ex.
      + injection H as <- <-. auto.
      + destruct (body reply) as [buf|]; [|discriminate].
        destruct (decodeURIComponent _) as [name|]; [|discriminate].
        destruct (written reply); [|discriminate].
        destruct (saved reply); [|discriminate].
        cbn [negb] in H. injection H as <- <-. cbn [localPath]. split.
        * unfold existsSync, saveManifest. cbn [blobs].
          apply existsSync_written.
        * unfold loadManifest, saveManifest. cbn [manifestFile orElse].
          apply assocGet_set_same.
    - destruct (body reply) as [buf|]; [|discriminate].
      destruct (decodeURIComponent _) as [name|]; [|discriminate].
      destruct (written reply); [|discriminate].
      destruct (saved reply); [|discriminate].
      cbn [negb] in H. injection H as <- <-. cbn [localPath]. split.
      + unfold existsSync, saveManifest. cbn [blobs].
        apply existsSync_written.
      + unfold loadManifest, saveManifest. cbn [manifestFile orElse].
        apply assocGet_set_same. }
  destruct Hkey as [Hex Hget]. repeat split; try assumption.
  - unfold listCachedHipFiles. apply filter_In. split; [|exact Hex].
    eapply assocGet_In. exact Hget.
  - intro reply'. unfold downloadHipFile. rewrite Hget, Hex. reflexivity.
Qed.

(** X13: what a download that fails leaves behind. When
    [downloadHipFile] returns no entry, the manifest is as it was. The
    files of the cache are as they were too, unless it is the saving of
    the manifest that failed: then the file that had been written, under
    the name made of the hash of the body and the decoded name, stays,
    and that is the only change. *)
Theorem downloadHipFile_failure_leaves_manifest :
  forall (w w' : World) (req : Request) (reply : Reply),
  downloadHipFile cacheDir sha256hex decodeURIComponent pathJoin w req reply
  = (w', None) ->
  manifestFile w' = manifestFile w
  /\ (w' = w
      \/ exists buf name,
           body reply = Some buf
           /\ decodeURIComponent (last (split1 47 (url req)) []) = Some name
           /\ written reply = true /\ saved reply = false
           /\ w' = writeFileSync w
                     (pathJoin cacheDir
                        (slice (sha256hex buf) 0 12 ++ lit "-"
                         ++ sanitizeFilename name))).
Proof.
  intros w w' req reply H. unfold downloadHipFile in H.
  assert (Hw : forall path, manifestFile (writeFileSync w path)
                            = manifestFile w).
  { intro path. unfold writeFileSync. destruct (existsSync w path); reflexivity. }
  destruct (match assocGet (url req) (loadManifest w) with
            | Some c => if existsSync w (localPath c) then Some c else None
            | None => None
            end) as [c|]; [discriminate|].
  destruct (body reply) as [buf|]; [|injection H as <-; auto].
  destruct (decodeURIComponent _) as [name|]; [|injection H as <-; auto].
  destruct (written reply); cbn [negb] in H; [|injection H as <-; auto].
  destruct (saved reply); cbn [negb] in H; [discriminate|].
  injection H as <-. split; [apply Hw|]. right. exists buf, name. auto.
Qed.

Lemma downloadTurn_counts : forall maxSize acc item,
  let r := snd acc in
  let r' := snd (downloadTurn cacheDir sha256hex decodeURIComponent pathJoin
                   unlinkThrows maxSize acc item) in
  downloaded r' + skipped r' + errors r'
  = downloaded r + skipped r + errors r + 1
  /\ Z.of_nat (List.length (entries r')) - (downloaded r' + skipped r')
     = Z.of_nat (List.length (entries r)) - (downloaded r + skipped r).
Proof.
  intros maxSize [w r] [req reply]. cbv zeta. unfold downloadTurn.
  cbn [snd].
  destruct (match assocGet (url req) (loadManifest w) with
            | Some c => if existsSync w (localPath c) then Some c else None
            | None => None
            end) as [c|].
  - cbn [snd downloaded skipped errors entries].
    rewrite length_app. cbn [List.length]. lia.
  - destruct (enforceCacheLimit unlinkThrows w (loadManifest w) maxSize)
      as [w1 m1].
    destruct (downloadHipFile _ _ _ _ _ _ _) as [w3 [entry|]];
      cbn [snd downloaded skipped errors entries];
      [rewrite length_app; cbn [List.length]|]; lia.
Qed.

(** X14: [downloadHipFiles] accounts for every request once: downloaded,
    skipped and errors sum to the number of requests, and the entries
    returned are as many as the downloaded and the skipped. *)
Theorem downloadHipFiles_counts :
  forall (maxSize : Z) (w : World) (urls : list (Request * Reply)),
  let result := snd (downloadHipFiles cacheDir sha256hex decodeURIComponent
                       pathJoin unlinkThrows maxSize w urls) in
  downloaded result + skipped result + errors result
  = Z.of_nat (List.length urls)
  /\ Z.of_nat (List.length (entries result))
     = downloaded result + skipped result.
Proof.
  intros maxSize w urls. cbv zeta. unfold downloadHipFiles.
  assert (H : forall acc,
    let r := snd acc in
    let r' := snd (fold_left
                     (downloadTurn cacheDir sha256hex decodeURIComponent
                        pathJoin unlinkThrows maxSize) urls acc) in
    downloaded r' + skipped r' + errors r'
    = downloaded r + skipped r + errors r + Z.of_nat (List.length urls)
    /\ Z.of_nat (List.length (entries r')) - (downloaded r' + skipped r')
       = Z.of_nat (List.length (entries r)) - (downloaded r + skipped r)).
  { induction urls as [|item urls IH]; intro acc; cbv zeta; cbn [fold_left].
    - cbn [List.length]. lia.
    - pose proof (IH (downloadTurn cacheDir sha256hex decodeURIComponent
                        pathJoin unlinkThrows maxSize acc item)) as H1.
      pose proof (downloadTurn_counts maxSize acc item) as H2.
      cbv zeta in H1, H2. cbn [List.length]. lia. }
  specialize (H (w, mkDownloadResult 0 0 0 [])). cbv zeta in H.
  cbn [snd downloaded skipped errors entries List.length] in H. lia.
Qed.

End CacheFacts.

Section FileNames.

Lemma in_firstn : forall (T : Type) n (l : list T) x,
  In x (firstn n l) -> In x l.
Proof.
  induction n as [|n IH]; intros l x H; [destruct H|].
  destruct l as [|y l]; [destruct H|].
  destruct H as [H|H]; [left; exact H|right; apply IH; exact H].
Qed.

Lemma isSafeChar_map : forall c,
  isSafeChar (if isSafeChar c then c else 95) = true.
Proof. intro c. destruct (isSafeChar c) eqn:E; [exact E|reflexivity]. Qed.

Lemma sanitize_safe_fixed : forall s,
  forallb isSafeChar s = true ->
  map (fun c => if isSafeChar c then c else 95) s = s.
Proof.
  induction s as [|c s IH]; intro H; [reflexivity|].
  cbn [forallb] in H. apply andb_true_iff in H. destruct H as [Hc Hs].
  cbn [map]. rewrite Hc, IH by exact Hs. reflexivity.
Qed.

(** X15: what [sanitizeFilename] returns is safe as a file name: at most
    100 units, each a letter, a digit, a dot, an underscore or a hyphen,
    so no slash and no backslash; sanitizing it again changes nothing,
    and a name that is already such a name is returned as it is. *)
Theorem sanitizeFilename_safe : forall name : jsstring,
  forallb isSafeChar (sanitizeFilename name) = true
  /\ (List.length (sanitizeFilename name) <= 100)%nat
  /\ forallb (fun c => negb ((c =? 47) || (c =? 92))) (sanitizeFilename name)
     = true
  /\ sanitizeFilename (sanitizeFilename name) = sanitizeFilename name
  /\ (forallb isSafeChar name = true -> (List.length name <= 100)%nat ->
      sanitizeFilename name = name).
Proof.
  intro name. unfold sanitizeFilename.
  assert (Hsafe : forallb isSafeChar
                    (firstn 100 (map (fun c => if isSafeChar c then c else 95)
                                     name)) = true).
  { apply forallb_forall. intros c Hc. apply in_firstn in Hc.
    apply in_map_iff in Hc. destruct Hc as (x & <- & _). apply isSafeChar_map. }
  split; [exact Hsafe|]. split; [apply firstn_le_length|]. split.
  - apply forallb_forall. intros c Hc.
    rewrite forallb_forall in Hsafe. specialize (Hsafe c Hc).
    destruct (Z.eqb_spec c 47) as [->|]; [discriminate|].
    destruct (Z.eqb_spec c 92) as [->|]; [discriminate|]. reflexivity.
  - split.
    + rewrite (sanitize_safe_fixed _ Hsafe). apply firstn_all2.
      rewrite length_firstn. lia.
    + intros Hn Hl. rewrite (sanitize_safe_fixed _ Hn).
      apply firstn_all2. exact Hl.
Qed.

End FileNames.

Section EvictionFacts.

Variable unlinkThrows : jsstring -> bool.

Lemma totalSize_from : forall l a,
  fold_left (fun acc kv => acc + size (snd kv)) l a = a + totalSize l.
Proof.
  unfold totalSize. induction l as [|x l IH]; intro a; cbn [fold_left].
  - lia.
  - rewrite IH, (IH (0 + size (snd x))). lia.
Qed.

Lemma totalSize_cons : forall (x : jsstring * HipFileEntry) l,
  totalSize (x :: l) = size (snd x) + totalSize l.
Proof.
  intros x l. unfold totalSize at 1. cbn [fold_left].
  rewrite totalSize_from. lia.
Qed.

Lemma totalSize_app : forall l1 l2,
  totalSize (l1 ++ l2) = totalSize l1 + totalSize l2.
Proof.
  induction l1 as [|x l1 IH]; intro l2; cbn [app].
  - reflexivity.
  - rewrite !totalSize_cons, IH. lia.
Qed.

Lemma totalSize_perm : forall l1 l2,
  Permutation l1 l2 -> totalSize l1 = totalSize l2.
Proof.
  intros l1 l2 H. induction H.
  - reflexivity.
  - rewrite !totalSize_cons. lia.
  - rewrite !totalSize_cons. lia.
  - congruence.
Qed.

Lemma insertByTime_perm : forall x l, Permutation (x :: l) (insertByTime x l).
Proof.
  intros x l. induction l as [|y l IH]; cbn [insertByTime].
  - apply Permutation_refl.
  - destruct (downloadedAt (snd y) <=? downloadedAt (snd x)).
    + eapply perm_trans; [apply perm_swap|]. apply perm_skip. exact IH.
    + apply Permutation_refl.
Qed.

Lemma sortByTime_perm : forall l, Permutation l (sortByTime l).
Proof.
  intro l. unfold sortByTime.
  assert (H : forall l acc,
    Permutation (acc ++ l) (fold_left (fun acc x => insertByTime x acc) l acc)).
  { clear. induction l as [|x l IH]; intro acc; cbn [fold_left].
    - rewrite app_nil_r. apply Permutation_refl.
    - eapply perm_trans; [|apply IH].
      eapply perm_trans; [apply Permutation_sym, Permutation_middle|].
      change (x :: acc ++ l) with ((x :: acc) ++ l).
      apply Permutation_app_tail. apply insertByTime_perm. }
  apply (H l []).
Qed.

Lemma insertByTime_sorted : forall x l,
  sortedByTime l -> sortedByTime (insertByTime x l).
Proof.
  intros x l. induction l as [|y l IH]; intro Hs; cbn [insertByTime].
  - cbn. auto.
  - destruct Hs as [Hy Hl].
    destruct (Z.leb_spec (downloadedAt (snd y)) (downloadedAt (snd x))).
    + cbn [sortedByTime]. split; [|apply IH; exact Hl].
      apply (Permutation_Forall (insertByTime_perm x l)).
      constructor; assumption.
    + cbn [sortedByTime]. split; [|split; assumption].
      constructor; [lia|].
      eapply Forall_impl; [|exact Hy]. cbn. intros. lia.
Qed.

Lemma sortByTime_sorted : forall l, sortedByTime (sortByTime l).
Proof.
  intro l. unfold sortByTime.
  assert (H : forall l acc,
    sortedByTime acc ->
    sortedByTime (fold_left (fun acc x => insertByTime x acc) l acc)).
  { clear. induction l as [|x l IH]; intros acc Ha; cbn [fold_left];
      [exact Ha|]. apply IH. apply insertByTime_sorted. exact Ha. }
  apply H. exact I.
Qed.

(** Inserting commutes with filtering a sorted list. *)
Lemma filter_insertByTime : forall p x l,
  sortedByTime l ->
  filter p (insertByTime x l)
  = if p x then insertByTime x (filter p l) else filter p l.
Proof.
  intros p x l. induction l as [|y l IH]; intro Hs; cbn [insertByTime filter].
  - destruct (p x); reflexivity.
  - destruct Hs as [Hy Hl].
    destruct (Z.leb_spec (downloadedAt (snd y)) (downloadedAt (snd x))) as [Hle|Hgt].
    + cbn [filter]. rewrite IH by exact Hl.
      destruct (p y) eqn:Ey; [|reflexivity].
      destruct (p x); [|reflexivity].
      cbn [insertByTime].
      destruct (Z.leb_spec (downloadedAt (snd y)) (downloadedAt (snd x)));
        [reflexivity|lia].
    + cbn [filter]. destruct (p x) eqn:Ex; [|reflexivity].
      destruct (p y) eqn:Ey.
      * cbn [insertByTime].
        destruct (Z.leb_spec (downloadedAt (snd y)) (downloadedAt (snd x)));
          [lia|reflexivity].
      * (* every later element is later than x too *)
        assert (Hall : Forall (fun z => downloadedAt (snd x)
                                        < downloadedAt (snd z)) (filter p l)).
        { apply Forall_forall. intros z Hz. apply filter_In in Hz.
          rewrite Forall_forall in Hy. specialize (Hy z (proj1 Hz)). lia. }
        destruct (filter p l) as [|z zs]; [reflexivity|].
        cbn [insertByTime]. inversion Hall; subst.
        destruct (Z.leb_spec (downloadedAt (snd z)) (downloadedAt (snd x)));
          [lia|reflexivity].
Qed.

Lemma sortByTime_filter : forall p l,
  sortByTime (filter p l) = filter p (sortByTime l).
Proof.
  intros p l. unfold sortByTime.
  assert (H : forall l acc,
    sortedByTime acc ->
    fold_left (fun acc x => insertByTime x acc) (filter p l) (filter p acc)
    = filter p (fold_left (fun acc x => insertByTime x acc) l acc)).
  { clear. induction l as [|x l IH]; intros acc Ha; cbn [fold_left filter];
      [reflexivity|].
    rewrite <- IH by (apply insertByTime_sorted; exact Ha).
    rewrite filter_insertByTime by exact Ha.
    destruct (p x); reflexivity. }
  apply (H l []). exact I.
Qed.

Lemma assocDelete_filter : forall (V : Type) k (o : list (jsstring * V)),
  NoDup (map fst o) ->
  assocDelete k o = filter (fun kv => negb (str_eqb (fst kv) k)) o.
Proof.
  intros V k. induction o as [|[k' v'] o IH]; intro Hnd;
    cbn [assocDelete filter fst]; [reflexivity|].
  cbn [map fst] in Hnd. inversion Hnd as [|? ? Hni Hnd']; subst.
  destruct (str_eqb k' k) eqn:E; cbn [negb].
  - apply str_eqb_eq in E. subst k'.
    symmetry. apply filter_all. intros [k2 v2] Hin. cbn [fst].
    destruct (str_eqb k2 k) eqn:E2; [|reflexivity].
    apply str_eqb_eq in E2. subst k2. exfalso. apply Hni.
    apply in_map_iff. exists (k, v2). auto.
  - f_equal. apply IH. exact Hnd'.
Qed.

Lemma existsSync_unlinked : forall w path,
  existsSync (unlinkSync w path) path = false.
Proof.
  intros w path. unfold existsSync, unlinkSync. cbn [blobs].
  induction (blobs w) as [|p ps IH]; cbn [filter existsb]; [reflexivity|].
  destruct (str_eqb path p) eqn:E; cbn [negb existsb]; [exact IH|].
  rewrite E. exact IH.
Qed.

Lemma existsSync_unlink_mono : forall w path p,
  existsSync w p = false -> existsSync (unlinkSync w path) p = false.
Proof.
  intros w path p. unfold existsSync, unlinkSync. cbn [blobs].
  induction (blobs w) as [|q qs IH]; cbn [filter existsb]; [auto|].
  intro H. apply orb_false_iff in H. destruct H as [H1 H2].
  destruct (negb (str_eqb path q)); cbn [existsb]; [rewrite H1|]; auto.
Qed.

(** The loop of [enforceCacheLimit] removes a prefix of the sorted entries
    from the manifest, whatever [unlinkSync] does; when no removal of a
    file throws, the running total is the sum of what is left, the loop
    stops as early as the budget allows, and the files are gone. *)
Lemma evictOldest_split : forall sorted total maxSize w m,
  exists evicted kept w',
    sorted = evicted ++ kept
    /\ evictOldest unlinkThrows sorted total maxSize w m
       = (w', fold_left (fun m kv => assocDelete (fst kv) m) evicted m)
    /\ (forall p, existsSync w p = false -> existsSync w' p = false)
    /\ ((forall kv, In kv sorted ->
                    unlinkThrows (localPath (snd kv)) = false) ->
        (kept = [] \/ total - totalSize evicted <= maxSize)
        /\ (evicted = [] \/ maxSize < total - totalSize (removelast evicted))
        /\ (forall kv, In kv evicted ->
                       existsSync w' (localPath (snd kv)) = false)).
Proof.
  induction sorted as [|[key entry] rest IH]; intros total maxSize w m.
  - exists [], [], w. cbn. repeat split; auto. intros kv [].
  - cbn [evictOldest].
    destruct (Z.gtb_spec total maxSize) as [Hgt|Hle].
    + destruct (existsSync w (localPath entry)
                && unlinkThrows (localPath entry)) eqn:Ecatch.
      * (* unlinkSync throws: the catch only deletes the key *)
        destruct (IH total maxSize w (assocDelete key m))
          as (ev & kept & w' & -> & Heq & Hm' & _).
        exists ((key, entry) :: ev), kept, w'.
        split; [reflexivity|]. split; [exact Heq|]. split; [exact Hm'|].
        intro Hno. exfalso.
        specialize (Hno (key, entry) (or_introl eq_refl)). cbn [snd] in Hno.
        rewrite Hno, andb_false_r in Ecatch. discriminate.
      * set (w1 := if existsSync w (localPath entry)
                   then unlinkSync w (localPath entry) else w).
        assert (Hgone : existsSync w1 (localPath entry) = false).
        { unfold w1. destruct (existsSync w (localPath entry)) eqn:E;
            [apply existsSync_unlinked|exact E]. }
        assert (Hmono : forall p, existsSync w p = false ->
                                  existsSync w1 p = false).
        { intros p Hp. unfold w1. destruct (existsSync w (localPath entry));
            [apply existsSync_unlink_mono|]; exact Hp. }
        destruct (IH (total - size entry) maxSize w1 (assocDelete key m))
          as (ev & kept & w' & -> & Heq & Hm' & Hcond).
        exists ((key, entry) :: ev), kept, w'.
        split; [reflexivity|]. split; [exact Heq|].
        split; [intros p Hp; auto|].
        intro Hno.
        destruct (Hcond (fun kv Hin => Hno kv (or_intror Hin)))
          as (Hkept & Hmin & Hfiles).
        rewrite totalSize_cons. cbn [snd]. split; [|split].
        -- destruct Hkept as [->|H]; [left; reflexivity|right; lia].
        -- right. destruct ev as [|e ev].
           ++ cbn [removelast]. change (totalSize []) with 0. lia.
           ++ destruct Hmin as [Hmin|Hmin]; [discriminate|].
              change (removelast ((key, entry) :: e :: ev))
                with ((key, entry) :: removelast (e :: ev)).
              rewrite totalSize_cons. cbn [snd]. lia.
        -- intros kv [<-|Hin]; [cbn [snd]; apply Hm'; exact Hgone|auto].
    + exists [], ((key, entry) :: rest), w.
      cbn [app fold_left removelast]. change (totalSize []) with 0.
      repeat split; auto; [right; lia|intros kv []].
Qed.

Lemma filter_keys_NoDup : forall (V : Type) p (o : list (jsstring * V)),
  NoDup (map fst o) -> NoDup (map fst (filter p o)).
Proof.
  intros V p. induction o as [|kv o IH]; intro H; cbn [filter map];
    [constructor|].
  cbn [map] in H. inversion H as [|? ? Hni Hnd]; subst.
  destruct (p kv); [|auto]. cbn [map]. constructor; [|auto].
  intro Hin. apply Hni. apply in_map_iff in Hin.
  destruct Hin as (x & Hx & Hf). apply filter_In in Hf.
  apply in_map_iff. exists x. tauto.
Qed.

Lemma deleteKeys_filter : forall evicted (m : CacheManifest),
  NoDup (map fst m) ->
  fold_left (fun m kv => assocDelete (fst kv) m) evicted m
  = filter (notEvicted evicted) m.
Proof.
  induction evicted as [|e ev IH]; intros m Hm; cbn [fold_left].
  - symmetry. apply filter_all. intros; reflexivity.
  - rewrite assocDelete_filter by exact Hm.
    rewrite IH by (apply filter_keys_NoDup; exact Hm).
    clear. induction m as [|kv m IHm]; cbn [filter]; [reflexivity|].
    unfold notEvicted at 2. cbn [existsb].
    destruct (str_eqb (fst kv) (fst e)); cbn [negb orb filter].
    + exact IHm.
    + fold (notEvicted ev kv). destruct (notEvicted ev kv);
        [f_equal|]; exact IHm.
Qed.

Lemma notEvicted_split : forall evicted kept,
  NoDup (map fst (evicted ++ kept)) ->
  filter (notEvicted evicted) (evicted ++ kept) = kept.
Proof.
  intros evicted kept Hnd. rewrite filter_app.
  rewrite (filter_none _ (notEvicted evicted) evicted).
  - cbn [app]. apply filter_all. intros kv Hkv. unfold notEvicted.
    apply negb_true_iff. destruct (existsb _ evicted) eqn:E; [|reflexivity].
    apply existsb_exists in E. destruct E as (e & He & Heq).
    apply str_eqb_eq in Heq. exfalso.
    rewrite map_app in Hnd. apply NoDup_app_remove_l in Hnd as Hk.
    revert Hnd. clear Hk. intro Hnd.
    assert (Hin1 : In (fst kv) (map fst evicted))
      by (rewrite Heq; apply in_map; exact He).
    assert (Hin2 : In (fst kv) (map fst kept)) by (apply in_map; exact Hkv).
    clear - Hnd Hin1 Hin2.
    induction (map fst evicted) as [|k ks IH]; [destruct Hin1|].
    cbn [app] in Hnd. inversion Hnd as [|? ? Hni Hnd']; subst.
    destruct Hin1 as [->|Hin1].
    + apply Hni. apply in_or_app. right. exact Hin2.
    + apply IH; assumption.
  - intros kv Hkv. unfold notEvicted. apply negb_false_iff.
    apply existsb_exists. exists kv. split; [exact Hkv|apply str_eqb_refl].
Qed.

(** X16: eviction removes the oldest entries and, when no [unlinkSync]
    throws, as few as the budget asks for. With keys that are distinct
    and a budget that is not negative, the entries that
    [enforceCacheLimit] removes are a prefix of the manifest sorted by
    ascending [downloadedAt], and the rest is what is left, in its order:
    this holds also when the removal of a file throws, where the catch
    deletes the key all the same. When no removal of a file of the
    manifest throws, moreover, the sizes of the manifest sum to the
    budget at most afterwards, one entry less would not have been enough,
    and the files of the removed entries do not exist. *)
Theorem enforceCacheLimit_evicts_oldest :
  forall (w : World) (manifest : CacheManifest) (maxSize : Z),
  NoDup (map fst manifest) -> 0 <= maxSize ->
  let after := enforceCacheLimit unlinkThrows w manifest maxSize in
  exists evicted,
    sortByTime manifest = evicted ++ sortByTime (snd after)
    /\ snd after = filter (notEvicted evicted) manifest
    /\ ((forall kv, In kv manifest ->
                    unlinkThrows (localPath (snd kv)) = false) ->
        totalSize (snd after) <= maxSize
        /\ (evicted = []
            \/ maxSize < totalSize manifest - totalSize (removelast evicted))
        /\ forall kv, In kv evicted ->
                      existsSync (fst after) (localPath (snd kv)) = false).
Proof.
  intros w m maxSize Hnd Hmax after. unfold after, enforceCacheLimit.
  destruct (evictOldest_split (sortByTime m) (totalSize (sortByTime m))
              maxSize w m)
    as (ev & kept & w' & Hsplit & Heq & _ & Hcond).
  rewrite Heq. cbn [fst snd].
  rewrite deleteKeys_filter by exact Hnd.
  assert (Hperm : Permutation m (sortByTime m)) by apply sortByTime_perm.
  assert (Hnd' : NoDup (map fst (ev ++ kept))).
  { rewrite <- Hsplit.
    apply (Permutation_NoDup (Permutation_map fst Hperm)). exact Hnd. }
  assert (Hleft : sortByTime (filter (notEvicted ev) m) = kept).
  { rewrite sortByTime_filter, Hsplit. apply notEvicted_split. exact Hnd'. }
  assert (Htot : totalSize (sortByTime m) = totalSize m)
    by (symmetry; apply totalSize_perm; exact Hperm).
  exists ev. rewrite Hleft. split; [exact Hsplit|]. split; [reflexivity|].
  intro Hno.
  destruct Hcond as (Hkept & Hmin & Hfiles).
  { intros kv Hin. apply Hno.
    apply (Permutation_in kv (Permutation_sym Hperm)). exact Hin. }
  split; [|split].
  - rewrite (totalSize_perm _ _ (sortByTime_perm (filter (notEvicted ev) m))).
    rewrite Hleft.
    rewrite Hsplit, totalSize_app in Hkept.
    destruct Hkept as [->|H]; [change (totalSize []) with 0; lia|lia].
  - rewrite <- Htot. exact Hmin.
  - exact Hfiles.
Qed.

End EvictionFacts.

Section EvictionSample.

Lemma enforceCacheLimit_evicts_oldest_witness :
  exists evicted,
    sortByTime three_entries
    = evicted ++ sortByTime (snd (enforceCacheLimit unlinkWorks emptyCache
                                    three_entries 1000))
    /\ snd (enforceCacheLimit unlinkWorks emptyCache three_entries 1000)
       = filter (notEvicted evicted) three_entries
    /\ totalSize (snd (enforceCacheLimit unlinkWorks emptyCache
                         three_entries 1000)) <= 1000
    /\ (evicted = []
        \/ 1000 < totalSize three_entries - totalSize (removelast evicted))
    /\ forall kv, In kv evicted ->
                  existsSync (fst (enforceCacheLimit unlinkWorks emptyCache
                                     three_entries 1000))
                    (localPath (snd kv)) = false.
Proof.
  destruct (enforceCacheLimit_evicts_oldest unlinkWorks emptyCache
              three_entries 1000) as (ev & H1 & H2 & H3).
  - repeat constructor; cbn; intuition discriminate.
  - lia.
  - exists ev. split; [exact H1|]. split; [exact H2|].
    apply H3. intros kv Hin. reflexivity.
Defined.

End EvictionSample.

Section StoreRoundTrip.

Lemma map_hash_update : forall (h : jsstring) (data : HipFileData) l,
  d_file_hash data = h ->
  map file_hash
      (map (fun r => if str_eqb (file_hash r) h
                     then rowOfData (hf_id r) data else r) l)
  = map file_hash l.
Proof.
  intros h data l Hd. induction l as [|r l IH]; [reflexivity|].
  cbn [map]. rewrite IH. f_equal.
  destruct (str_eqb (file_hash r) h) eqn:E; [|reflexivity].
  apply str_eqb_eq in E. cbn [file_hash rowOfData]. congruence.
Qed.

(** X17: what [upsertHipFile] leaves in the store. The record of the
    hash then holds the data given, under the id it had, or for a new
    hash under a new id above all others, which is the number returned;
    the records of other hashes and all snapshots are as they were, and
    hashes that were distinct stay distinct. *)
Theorem upsertHipFile_recorded : forall (data : HipFileData) (db : Store),
  let after := upsertHipFile data db in
  (exists id,
      getHipFile (d_file_hash data) (fst after) = Some (rowOfData id data)
      /\ match getHipFile (d_file_hash data) db with
         | Some old => id = hf_id old
         | None => id = snd after
                   /\ forall r, In r (hip_files db) -> hf_id r < id
         end)
  /\ (forall h, h <> d_file_hash data ->
                getHipFile h (fst after) = getHipFile h db)
  /\ hip_parameter_snapshots (fst after) = hip_parameter_snapshots db
  /\ (NoDup (map file_hash (hip_files db)) ->
      NoDup (map file_hash (hip_files (fst after)))).
Proof.
  intros data db after. unfold after, upsertHipFile.
  destruct (getHipFile (d_file_hash data) db) as [old|] eqn:E;
    cbn [fst snd hip_files hip_parameter_snapshots]; unfold getHipFile in *;
    cbn [hip_files].
  - split; [|split; [|split]].
    + exists (hf_id old). split; [|reflexivity].
      apply find_map_update; [reflexivity|exact E].
    + intros h Hh. apply find_map_other; [reflexivity|exact Hh].
    + reflexivity.
    + rewrite map_hash_update by reflexivity. auto.
  - split; [|split; [|split]].
    + eexists. split.
      * apply find_app_none; [exact E|]. cbn. apply str_eqb_refl.
      * split; [reflexivity|]. intros r Hr. apply nextRowid_above. exact Hr.
    + intros h Hh. apply find_app_other. cbn.
      apply str_eqb_neq. congruence.
    + reflexivity.
    + intro Hnd. rewrite map_app. cbn [map file_hash rowOfData].
      apply NoDup_app; [exact Hnd|constructor; [intros []|constructor]|].
      intros h Hin [<-|[]]. apply in_map_iff in Hin.
      destruct Hin as (r & Hh & Hr).
      eapply find_none in E; [|exact Hr]. cbn in E.
      rewrite Hh, str_eqb_refl in E. discriminate.
Qed.

End StoreRoundTrip.

Section ExtractionCounts.

Variable foreignKeys : bool.
Variable numberToString : jsnumber -> jsstring.
Variable stringifyNumbers : list jsnumber -> jsstring.

Lemma filter_count_le : forall (T : Type) (p q : T -> bool) l,
  (forall x, In x l -> p x = true -> q x = true) ->
  (List.length (filter p l) <= List.length (filter q l))%nat.
Proof.
  intros T p q. induction l as [|x l IH]; intro H; cbn [filter]; [lia|].
  assert (IH' : (List.length (filter p l) <= List.length (filter q l))%nat)
    by (apply IH; intros; apply H; [right|]; assumption).
  destruct (p x) eqn:Ep.
  - rewrite (H x (or_introl eq_refl) Ep). cbn [List.length]. lia.
  - destruct (q x); cbn [List.length]; lia.
Qed.

Lemma filter_count_all : forall (T : Type) (p : T -> bool) l,
  (List.length (filter p l) <= List.length l)%nat.
Proof.
  intros T p. induction l as [|x l IH]; cbn [filter]; [lia|].
  destruct (p x); cbn [List.length]; lia.
Qed.

Lemma snapshots_count : forall parsed,
  List.length (allParameters parsed)
  = List.length (snapshotsOf numberToString stringifyNumbers parsed).
Proof.
  intro parsed. unfold allParameters, snapshotsOf.
  induction (nodes parsed) as [|n ns IH]; [reflexivity|].
  cbn [flat_map]. rewrite !length_app, length_map, IH. reflexivity.
Qed.

Lemma extraction_result : forall parsed fileEntry parsedAt db,
  exists id failure,
    snd (extractHipToKnowledgeBase foreignKeys numberToString stringifyNumbers
           parsed fileEntry parsedAt db)
    = mkExtractionResult id
        (Z.of_nat (List.length (nodes parsed)))
        (Z.of_nat (List.length (allParameters parsed)))
        (countIf (fun p => negb (p_isDefault p)) (allParameters parsed))
        (countIf (fun p => match p_expression p with
                           | Some (_ :: _) => true
                           | _ => false
                           end) (allParameters parsed))
        failure.
Proof.
  intros parsed fe ts db. unfold extractHipToKnowledgeBase.
  destruct (upsertHipFile _ db) as [db1 hid].
  destruct (insertParameterSnapshots _ _ _ _) as [db3 failure].
  eexists. eexists. reflexivity.
Qed.

(** X18: what extraction counts, for a parsed Scene. The numbers
    reported for the Scene of any list of entries are ordered:
    expressions found are at most the non-default parameters, these at
    most the parameters extracted; the parameters extracted are as many
    as the snapshots made, the nodes as many as the Scene has. *)
Theorem extraction_counts :
  forall (items : list CpioEntry) (fileEntry : FileEntry)
         (parsedAt : jsstring) (db : Store),
  let parsed := parseHipContent items in
  let result := snd (extractHipToKnowledgeBase foreignKeys numberToString
                       stringifyNumbers parsed fileEntry parsedAt db) in
  0 <= expressionsFound result <= nonDefaultParams result
  /\ nonDefaultParams result <= parametersExtracted result
  /\ parametersExtracted result
     = Z.of_nat (List.length (snapshotsOf numberToString stringifyNumbers
                                parsed))
  /\ nodesExtracted result = Z.of_nat (List.length (nodes parsed)).
Proof.
  intros items fe ts db parsed result.
  destruct (extraction_result parsed fe ts db) as (id & failure & Hr).
  unfold result. rewrite Hr.
  cbn [expressionsFound nonDefaultParams parametersExtracted nodesExtracted].
  unfold countIf.
  assert (Hed : (List.length
                   (filter (fun p => match p_expression p with
                                     | Some (_ :: _) => true
                                     | _ => false
                                     end) (allParameters parsed))
                 <= List.length
                      (filter (fun p => negb (p_isDefault p))
                              (allParameters parsed)))%nat).
  { apply filter_count_le. intros p Hp He.
    unfold allParameters in Hp. apply in_flat_map in Hp.
    destruct Hp as (n & Hn & Hp).
    destruct (parseHipContent_nodeOk _ _ Hn) as (_ & _ & Hpar).
    rewrite Forall_forall in Hpar. destruct (Hpar p Hp) as [_ Hd].
    rewrite Hd; [reflexivity|].
    destruct (p_expression p); discriminate. }
  pose proof (filter_count_all _ (fun p => negb (p_isDefault p))
                (allParameters parsed)) as Hdp.
  rewrite <- (snapshots_count parsed). repeat split; lia.
Qed.

End ExtractionCounts.

Section BatchFacts.

Variable foreignKeys : bool.
Variable numberToString : jsnumber -> jsstring.
Variable stringifyNumbers : list jsnumber -> jsstring.
Variable existsSync : jsstring -> bool.
Variable parseHipFile : jsstring -> outcome HipParseResult.

Lemma extractTurn_counts : forall acc item acc',
  extractTurn foreignKeys numberToString stringifyNumbers existsSync
    parseHipFile acc item = Some acc' ->
  extracted (snd acc') + b_errors (snd acc')
  = extracted (snd acc) + b_errors (snd acc) + 1
  /\ (0 <= totalNonDefault (snd acc) <= totalParams (snd acc) ->
      0 <= totalNonDefault (snd acc') <= totalParams (snd acc')).
Proof.
  intros [kb res] [entry ts] acc' H. unfold extractTurn in H. cbn [snd].
  destruct (match getHipFile (Cache.hash entry) kb with
            | Some existing => str_eqb (parse_status existing) (lit "success")
            | None => false
            end).
  { injection H as <-.
    cbn [snd extracted b_errors totalParams totalNonDefault]. lia. }
  destruct (if negb (existsSync (Cache.localPath entry))
            then Thrown (lit "File not found: " ++ Cache.localPath entry)
            else parseHipFile (Cache.localPath entry))
    as [parsed|message|]; [| |discriminate].
  2:{ injection H as <-.
      cbn [snd extracted b_errors totalParams totalNonDefault]. lia. }
  destruct (extraction_result foreignKeys numberToString stringifyNumbers
              parsed (fileEntryOf entry) ts kb) as (id & failure & Hr).
  destruct (extractHipToKnowledgeBase _ _ _ parsed _ ts kb) as [kb' result].
  cbn [snd] in Hr. subst result. cbn [x_errors] in H.
  destruct failure as [|message failure]; injection H as <-;
    cbn [snd extracted b_errors totalParams totalNonDefault
         parametersExtracted nonDefaultParams]; [|lia].
  split; [lia|]. unfold countIf.
  pose proof (filter_count_all _ (fun p => negb (p_isDefault p))
                (allParameters parsed)). lia.
Qed.

Lemma extractLoop_counts : forall items acc acc',
  extractLoop foreignKeys numberToString stringifyNumbers existsSync
    parseHipFile items acc = Some acc' ->
  extracted (snd acc') + b_errors (snd acc')
  = extracted (snd acc) + b_errors (snd acc) + Z.of_nat (List.length items)
  /\ (0 <= totalNonDefault (snd acc) <= totalParams (snd acc) ->
      0 <= totalNonDefault (snd acc') <= totalParams (snd acc')).
Proof.
  induction items as [|item items IH]; intros acc acc' H;
    cbn [extractLoop] in H.
  - injection H as <-. cbn [List.length]. split; [lia|auto].
  - destruct (extractTurn _ _ _ _ _ acc item) as [acc1|] eqn:E;
      [|discriminate].
    destruct (extractTurn_counts acc item acc1 E) as [H1 H1'].
    destruct (IH acc1 acc' H) as [H2 H2'].
    cbn [List.length]. split; [lia|auto].
Qed.

Lemma extractLoop_answers : forall items acc,
  Forall (fun item =>
            parseHipFile (Cache.localPath (fst item)) <> OutOfFuel) items ->
  exists acc',
    extractLoop foreignKeys numberToString stringifyNumbers existsSync
      parseHipFile items acc = Some acc'.
Proof.
  induction items as [|[entry ts] items IH]; intros [kb res] H;
    cbn [extractLoop]; [eauto|].
  inversion H as [|? ? Hitem Hrest]; subst. cbn [fst] in Hitem.
  assert (Hturn : exists acc1,
            extractTurn foreignKeys numberToString stringifyNumbers existsSync
              parseHipFile (kb, res) (entry, ts) = Some acc1).
  { unfold extractTurn.
    destruct (match getHipFile (Cache.hash entry) kb with
              | Some existing =>
                  str_eqb (parse_status existing) (lit "success")
              | None => false
              end); [eauto|].
    destruct (existsSync (Cache.localPath entry)); cbn [negb]; [|eauto].
    destruct (parseHipFile (Cache.localPath entry)) as [parsed|message|];
      [|eauto|congruence].
    destruct (extractHipToKnowledgeBase _ _ _ _ _ _ _) as [kb' result].
    destruct (x_errors result); eauto. }
  destruct Hturn as [acc1 E]. rewrite E. apply IH. exact Hrest.
Qed.

(** X19: [extractAllHipFiles] accounts for every entry once, when it
    returns. A batch in which every parse returns or throws does return;
    and whenever the batch returns, extracted and errors sum to the
    number of entries, and the non-default parameters it totals are at
    most the parameters it totals. Of a batch in which a parse never
    returns nothing is said: the code returns no counts then. *)
Theorem extractAllHipFiles_counts :
  forall (items : list (Cache.HipFileEntry * jsstring)) (stored : Store),
  (parsesAnswer parseHipFile items ->
   exists after,
     extractAllHipFiles foreignKeys numberToString stringifyNumbers
       existsSync parseHipFile items stored = Some after)
  /\ (forall after,
        extractAllHipFiles foreignKeys numberToString stringifyNumbers
          existsSync parseHipFile items stored = Some after ->
        extracted (snd after) + b_errors (snd after)
        = Z.of_nat (List.length items)
        /\ 0 <= totalNonDefault (snd after) <= totalParams (snd after)).
Proof.
  intros items stored. unfold extractAllHipFiles. split.
  - intro H. apply extractLoop_answers. exact H.
  - intros after H. apply extractLoop_counts in H.
    cbn [snd extracted b_errors totalParams totalNonDefault] in H.
    destruct H as [H H']. split; [lia|apply H'; lia].
Qed.

(** X20: a batch over files that are all recorded as parsed changes
    nothing. When every entry has a record of status success, the batch
    parses none of them, whatever is on disk: it returns, the records
    and the snapshots are as they were, every entry counts as extracted
    and no error is counted. *)
Theorem parsed_files_are_skipped :
  forall (items : list (Cache.HipFileEntry * jsstring)) (stored : Store),
  Forall (fun item => parsedAlready stored (fst item)) items ->
  exists after,
    extractAllHipFiles foreignKeys numberToString stringifyNumbers
      existsSync parseHipFile items stored = Some after
    /\ hip_files (fst after) = hip_files stored
    /\ hip_parameter_snapshots (fst after) = hip_parameter_snapshots stored
    /\ snd after = mkBatchResult (Z.of_nat (List.length items)) 0 0 0.
Proof.
  intros items stored Hall. unfold extractAllHipFiles.
  assert (H : forall n,
    extractLoop foreignKeys numberToString stringifyNumbers
      existsSync parseHipFile items
      (openConnection stored, mkBatchResult n 0 0 0)
    = Some (openConnection stored,
            mkBatchResult (n + Z.of_nat (List.length items)) 0 0 0)).
  { induction Hall as [|[entry ts] items (row & Hrow & Hst) Hall IH]; intro n;
      cbn [extractLoop List.length].
    - rewrite Z.add_0_r. reflexivity.
    - unfold extractTurn.
      change (getHipFile (Cache.hash entry) (openConnection stored))
        with (getHipFile (Cache.hash entry) stored).
      cbn [fst] in Hrow. rewrite Hrow, Hst, str_eqb_refl.
      cbn [extracted b_errors totalParams totalNonDefault].
      rewrite IH. f_equal. f_equal. f_equal. lia. }
  rewrite (H 0). eexists. split; [reflexivity|]. cbn [fst snd]. repeat split.
Qed.

End BatchFacts.

Section NumericTest.

Lemma glob_star_any : forall s, glob [GStar] s = true.
Proof.
  induction s as [|c s IH]; [reflexivity|].
  cbn [glob] in *. cbn. first [exact IH | rewrite IH; reflexivity].
Qed.

Lemma glob_decimal_digit : forall v,
  glob GLOB_DECIMAL v = true -> glob GLOB_DIGIT v = true.
Proof.
  intros [|d rest] H; [discriminate|].
  unfold GLOB_DECIMAL, GLOB_DIGIT in *. cbn [glob] in H |- *.
  apply andb_true_iff in H. destruct H as [Hd _]. rewrite Hd.
  apply (glob_star_any rest).
Qed.

(** X21: which values the statistics take for numbers. The three GLOB
    patterns of [getParameterStatistics] together accept exactly the
    values that begin with a digit, or with a minus sign and a digit;
    the pattern with the decimal point adds nothing to the first. *)
Theorem numeric_patterns : forall v : jsstring,
  (glob GLOB_DIGIT v || glob GLOB_MINUS_DIGIT v || glob GLOB_DECIMAL v)
  = looksNumeric v
  /\ (glob GLOB_DECIMAL v = true -> glob GLOB_DIGIT v = true).
Proof.
  intro v. split; [|apply glob_decimal_digit].
  destruct (glob GLOB_DECIMAL v) eqn:Ed.
  - apply glob_decimal_digit in Ed. rewrite Ed.
    destruct v as [|d rest]; [discriminate|].
    unfold GLOB_DIGIT in Ed. cbn [glob] in Ed.
    apply andb_true_iff in Ed. destruct Ed as [Hd _].
    unfold looksNumeric, isDigit. rewrite Hd. reflexivity.
  - rewrite orb_false_r. destruct v as [|d rest]; [reflexivity|].
    unfold GLOB_DIGIT, GLOB_MINUS_DIGIT, looksNumeric, isDigit.
    cbn [glob].
    pose proof (glob_star_any rest) as Hs. cbn [glob] in Hs. rewrite Hs.
    rewrite andb_true_r. f_equal.
    destruct rest as [|d2 rest2]; [reflexivity|].
    pose proof (glob_star_any rest2) as Hs2. cbn [glob] in Hs2. rewrite Hs2.
    rewrite andb_true_r. reflexivity.
Qed.

End NumericTest.

Section ReExtraction.

Lemma reextraction_of_new_record_witness :
  snapshotsOfFile (lit "hash-r")
    (fst (extractHipToKnowledgeBase true (fun _ => []) (fun _ => [])
            sceneR fileR (lit "t1") emptyStore))
  = [(lit "/obj/geo1/box1", lit "label", lit "crate", true, None)]
  /\ snapshotsOfFile (lit "hash-r")
       (fst (extractHipToKnowledgeBase true (fun _ => []) (fun _ => [])
               sceneR fileR (lit "t2")
               (fst (extractHipToKnowledgeBase true (fun _ => [])
                       (fun _ => []) sceneR fileR (lit "t1") emptyStore))))
     = snapshotsOfFile (lit "hash-r")
         (fst (extractHipToKnowledgeBase true (fun _ => []) (fun _ => [])
                 sceneR fileR (lit "t1") emptyStore)).
Proof.
  apply (reextraction_of_new_record true (fun _ => []) (fun _ => [])
           sceneR fileR (lit "t1") (lit "t2") emptyStore).
  - reflexivity.
  - intros s [].
Defined.

End ReExtraction.

Section LineShapes.

Lemma dropWhile_head : forall (p : Z -> bool) s,
  match s with c :: _ => p c = false | [] => True end -> dropWhile p s = s.
Proof. intros p [|c s] H; [reflexivity|]. cbn [dropWhile]. rewrite H. reflexivity. Qed.

Lemma trim_edges : forall s,
  match s with c :: _ => isSpace c = false | [] => False end ->
  match rev s with c :: _ => isSpace c = false | [] => False end ->
  trim s = s.
Proof.
  intros s H1 H2. unfold trim, trimStart, trimEnd.
  rewrite (dropWhile_head isSpace s) by (destruct s; [exact I|exact H1]).
  rewrite (dropWhile_head isSpace (rev s))
    by (destruct (rev s); [exact I|exact H2]).
  apply rev_involutive.
Qed.

Lemma rev_head_app : forall (a b : jsstring),
  b <> [] ->
  match rev b with c :: _ => isSpace c = false | [] => False end ->
  match rev (a ++ b) with c :: _ => isSpace c = false | [] => False end.
Proof.
  intros a b Hb H. rewrite rev_app_distr.
  destruct (rev b) as [|c r]; [destruct H|exact H].
Qed.

Lemma token_edges : forall s, token s ->
  match s with c :: _ => isSpace c = false | [] => False end
  /\ match rev s with c :: _ => isSpace c = false | [] => False end.
Proof.
  intros s [Hne Hall]. split.
  - destruct s as [|c s]; [congruence|]. cbn [forallb] in Hall.
    apply andb_true_iff in Hall. apply notSpace_not_space. tauto.
  - destruct (rev s) as [|c r] eqn:E.
    + apply (f_equal (@rev Z)) in E. rewrite rev_involutive in E. cbn in E. congruence.
    + apply notSpace_not_space. rewrite forallb_forall in Hall. apply Hall.
      apply in_rev. rewrite E. left. reflexivity.
Qed.

(** A keyword and a text after it, as a trimmed line. *)
Lemma trim_keyword : forall (kw s : jsstring),
  match kw with c :: _ => isSpace c = false | [] => False end ->
  s <> [] ->
  match rev s with c :: _ => isSpace c = false | [] => False end ->
  trim (kw ++ s) = kw ++ s.
Proof.
  intros kw s Hk Hs Hr. apply trim_edges.
  - destruct kw as [|c kw]; [destruct Hk|exact Hk].
  - apply rev_head_app; assumption.
Qed.

Lemma lineText_nonempty : forall s, lineText s -> s <> [].
Proof. intros [|c s] (_ & H & _); [destruct H|discriminate]. Qed.

Lemma lineText_dot : forall s, lineText s -> run dot s.
Proof.
  intros s H. split; [apply lineText_nonempty; exact H|].
  destruct H as (Hall & _). apply forallb_forall. intros c Hc.
  rewrite forallb_forall in Hall. specialize (Hall c Hc).
  apply andb_true_iff in Hall. tauto.
Qed.

Lemma braceDepth_none : forall s d,
  forallb (fun c => negb (isBrace c)) s = true -> braceDepth d s = d.
Proof.
  unfold braceDepth. induction s as [|c s IH]; intros d H; [reflexivity|].
  cbn [forallb] in H. apply andb_true_iff in H. destruct H as [Hc Hs].
  cbn [fold_left]. unfold isBrace in Hc. apply negb_true_iff in Hc.
  apply orb_false_iff in Hc. destruct Hc as [H1 H2]. rewrite H1, H2.
  apply IH. exact Hs.
Qed.

Lemma lineText_braces : forall s,
  lineText s -> forallb (fun c => negb (isBrace c)) s = true.
Proof.
  intros s (Hall & _). apply forallb_forall. intros c Hc.
  rewrite forallb_forall in Hall. specialize (Hall c Hc).
  apply andb_true_iff in Hall. tauto.
Qed.

End LineShapes.

Section PatternSteps.

Context {A : Type}.
Variable P : A -> Prop.

Lemma starR_ok : forall p xs rest prev cs
    (k : option Z -> jsstring -> captures -> option A),
  forallb p xs = true -> headNot p rest ->
  (forall prev', succeeds (k prev' rest cs) P) ->
  succeeds (rmatch (Star p) prev (xs ++ rest) cs k) P.
Proof. intros. cbn [rmatch]. apply star_ok; auto. Qed.

Lemma chr_ok : forall c rest prev cs
    (k : option Z -> jsstring -> captures -> option A),
  succeeds (k (Some c) rest cs) P ->
  succeeds (rmatch (Chr c) prev (c :: rest) cs k) P.
Proof. intros. cbn [rmatch]. rewrite Z.eqb_refl. assumption. Qed.

Lemma opt_ok : forall r prev s cs
    (k : option Z -> jsstring -> captures -> option A),
  succeeds (rmatch r prev s cs k) P ->
  succeeds (rmatch (Opt r) prev s cs k) P.
Proof.
  intros r prev s cs k [a [Ha HP]]. cbn [rmatch]. rewrite Ha. exists a. auto.
Qed.

Lemma opt_str_skip : forall l prev s cs
    (k : option Z -> jsstring -> captures -> option A),
  stripPrefix l s = None -> rmatch (Opt (Str l)) prev s cs k = k prev s cs.
Proof. intros l prev s cs k H. cbn [rmatch]. rewrite H. reflexivity. Qed.

Lemma star_head : forall p prev s (k : option Z -> jsstring -> option A),
  headNot p s -> star p prev s k = k prev s.
Proof. intros p prev [|c s] k H; cbn [star]; [|cbn in H; rewrite H]; reflexivity. Qed.

Lemma starR_head : forall p prev s cs
    (k : option Z -> jsstring -> captures -> option A),
  headNot p s -> rmatch (Star p) prev s cs k = k prev s cs.
Proof. intros. cbn [rmatch]. apply star_head. assumption. Qed.

End PatternSteps.

Section LinePatterns.

Lemma rexec_start : forall r s (Q : option Z * jsstring * captures -> Prop),
  succeeds (rmatch r None s [] (fun p t c => Some (p, t, c))) Q ->
  exists m, rexec r s = Some m /\ Q (m_prev m, m_rest m, m_caps m).
Proof.
  intros r s Q [[[prev' s'] cs] [Hm Hc]].
  unfold rexec. erewrite searchFrom_hit by exact Hm.
  eexists. split; [reflexivity|]. exact Hc.
Qed.

(** A pattern that starts with ^ and a word finds nothing in a line that
    starts otherwise. *)
Lemma anchored_word_none : forall l r s,
  stripPrefix l s = None -> rexec (Seq (Bol false) (Seq (Str l) r)) s = None.
Proof.
  intros l r s H. unfold rexec.
  destruct s as [|x s]; cbn [searchFrom];
    rewrite rmatch_seq, rmatch_bol, rmatch_seq; cbn [rmatch]; rewrite H.
  - reflexivity.
  - apply anchored_later.
Qed.

Lemma parm_value_none : forall s,
  stripPrefix (lit "default") s = None -> headNot isSpace s ->
  stripPrefix (lit "value") s = None ->
  rexec RE_PARM_VALUE s = None.
Proof.
  intros s H1 H2 H3. unfold rexec, RE_PARM_VALUE, seq.
  assert (E : rmatch
     (Seq (Bol false)
        (Seq (Opt (Str (lit "default")))
           (Seq (Star isSpace)
              (Seq (Str (lit "value"))
                 (Seq (Plus isSpace) (Grp 1 (Plus dot)))))))
     None s [] (fun p t c => Some (p, t, c)) = None).
  { rewrite rmatch_seq, rmatch_bol, rmatch_seq, opt_str_skip by exact H1.
    rewrite rmatch_seq. cbn [rmatch]. rewrite star_head by exact H2.
    rewrite H3. reflexivity. }
  destruct s as [|x s]; cbn [searchFrom]; rewrite E; [reflexivity|].
  apply anchored_later.
Qed.

Lemma flags_later : forall s c idx,
  isLineTerminator c = false -> forallb dot s = true ->
  searchFrom RE_FLAGS (Some c) s idx = None.
Proof.
  induction s as [|x s IH]; intros c idx Hc Hs.
  - cbn [searchFrom]. unfold RE_FLAGS, seq. rewrite rmatch_seq.
    cbn [rmatch atLineStart andb]. rewrite Hc. reflexivity.
  - cbn [forallb] in Hs. apply andb_true_iff in Hs. destruct Hs as [Hx Hs].
    cbn [searchFrom]. unfold RE_FLAGS at 1, seq. rewrite rmatch_seq.
    cbn [rmatch atLineStart andb]. rewrite Hc. apply IH; [|exact Hs].
    unfold dot in Hx. apply negb_true_iff in Hx. exact Hx.
Qed.

(** The flags pattern has the m flag, but a line holds no line
    terminator, so it too matches at the start or not at all. *)
Lemma flags_none : forall s,
  forallb dot s = true -> headNot isSpace s ->
  stripPrefix (lit "flags") s = None ->
  rexec RE_FLAGS s = None.
Proof.
  intros s Hs H1 H2. unfold rexec.
  assert (E : rmatch RE_FLAGS None s [] (fun p t c => Some (p, t, c)) = None).
  { unfold RE_FLAGS, seq. rewrite rmatch_seq, rmatch_bol, rmatch_seq.
    cbn [rmatch]. rewrite star_head by exact H1. rewrite H2. reflexivity. }
  destruct s as [|x s]; cbn [searchFrom]; rewrite E; [reflexivity|].
  cbn [forallb] in Hs. apply andb_true_iff in Hs. destruct Hs as [Hx Hs].
  apply flags_later; [|exact Hs].
  unfold dot in Hx. apply negb_true_iff in Hx. exact Hx.
Qed.

Lemma headNot_token : forall s rest, token s -> headNot isSpace (s ++ rest).
Proof.
  intros s rest H. eapply headNot_run; [exact H|apply notSpace_not_space].
Qed.

Lemma headNot_lineText : forall s rest, lineText s -> headNot isSpace (s ++ rest).
Proof.
  intros [|c s] rest (_ & H & _); [destruct H|exact H].
Qed.

Lemma rexec_type_line : forall t, token t ->
  exists m, rexec RE_TYPE (lit "type = " ++ t) = Some m /\ group m 1 = t.
Proof.
  intros t Ht.
  apply (rexec_start RE_TYPE _ (fun r => capture (snd r) 1 = t)).
  change (lit "type = " ++ t)
    with (lit "type" ++ [32] ++ 61 :: [32] ++ t).
  replace t with (t ++ []) at 1 by apply app_nil_r.
  unfold RE_TYPE, seq. rewrite rmatch_seq, rmatch_bol.
  rewrite rmatch_seq. apply str_ok. intro.
  rewrite rmatch_seq. apply starR_ok; [reflexivity|reflexivity|]. intro.
  rewrite rmatch_seq. apply chr_ok.
  rewrite rmatch_seq. apply starR_ok;
    [reflexivity|apply headNot_token; exact Ht|]. intro.
  apply group_plus_ok; [exact Ht|exact I|].
  intro. eexists. split; [reflexivity|]. reflexivity.
Qed.

Lemma rexec_name_line : forall n, token n ->
  exists m, rexec RE_NAME (lit "name = " ++ n) = Some m /\ group m 1 = n.
Proof.
  intros n Hn.
  apply (rexec_start RE_NAME _ (fun r => capture (snd r) 1 = n)).
  change (lit "name = " ++ n)
    with (lit "name" ++ [32] ++ 61 :: [32] ++ n).
  replace n with (n ++ []) at 1 by apply app_nil_r.
  unfold RE_NAME, seq. rewrite rmatch_seq, rmatch_bol.
  rewrite rmatch_seq. apply str_ok. intro.
  rewrite rmatch_seq. apply starR_ok; [reflexivity|reflexivity|]. intro.
  rewrite rmatch_seq. apply opt_ok. apply chr_ok.
  rewrite rmatch_seq. apply starR_ok;
    [reflexivity|apply headNot_token; exact Hn|]. intro.
  apply group_plus_ok; [exact Hn|exact I|].
  intro. eexists. split; [reflexivity|]. reflexivity.
Qed.

Lemma rexec_parm_name_line : forall n, token n ->
  exists m, rexec RE_PARM_NAME (lit "name " ++ n) = Some m /\ group m 1 = n.
Proof.
  intros n Hn.
  apply (rexec_start RE_PARM_NAME _ (fun r => capture (snd r) 1 = n)).
  change (lit "name " ++ n) with (lit "name" ++ [32] ++ n).
  replace n with (n ++ []) at 1 by apply app_nil_r.
  unfold RE_PARM_NAME, seq. rewrite rmatch_seq, rmatch_bol.
  rewrite rmatch_seq. apply str_ok. intro.
  rewrite rmatch_seq. apply plus_ok;
    [split; [discriminate|reflexivity]|apply headNot_token; exact Hn|]. intro.
  apply group_plus_ok; [exact Hn|exact I|].
  intro. eexists. split; [reflexivity|]. reflexivity.
Qed.

Lemma rexec_parm_value_line : forall v, lineText v ->
  exists m, rexec RE_PARM_VALUE (lit "value " ++ v) = Some m /\ group m 1 = v.
Proof.
  intros v Hv.
  apply (rexec_start RE_PARM_VALUE _ (fun r => capture (snd r) 1 = v)).
  unfold RE_PARM_VALUE, seq. rewrite rmatch_seq, rmatch_bol.
  rewrite rmatch_seq, opt_str_skip by reflexivity.
  rewrite rmatch_seq, starR_head by reflexivity.
  change (lit "value " ++ v) with (lit "value" ++ [32] ++ v).
  replace v with (v ++ []) at 1 by apply app_nil_r.
  rewrite rmatch_seq. apply str_ok. intro.
  rewrite rmatch_seq. apply plus_ok;
    [split; [discriminate|reflexivity]|apply headNot_lineText; exact Hv|]. intro.
  apply group_plus_ok; [apply lineText_dot; exact Hv|exact I|].
  intro. eexists. split; [reflexivity|]. reflexivity.
Qed.

Lemma rexec_expression_line : forall e, lineText e ->
  exists m, rexec RE_EXPRESSION (lit "expression " ++ e) = Some m
            /\ group m 1 = e.
Proof.
  intros e He.
  apply (rexec_start RE_EXPRESSION _ (fun r => capture (snd r) 1 = e)).
  change (lit "expression " ++ e) with (lit "expression" ++ [32] ++ e).
  replace e with (e ++ []) at 1 by apply app_nil_r.
  unfold RE_EXPRESSION, seq. rewrite rmatch_seq, rmatch_bol.
  rewrite rmatch_seq. apply str_ok. intro.
  rewrite rmatch_seq. apply plus_ok;
    [split; [discriminate|reflexivity]|apply headNot_lineText; exact He|]. intro.
  apply group_plus_ok; [apply lineText_dot; exact He|exact I|].
  intro. eexists. split; [reflexivity|]. reflexivity.
Qed.

End LinePatterns.

Section StanzaLines.

Variables (entryName basePath : jsstring).

Lemma token_dot : forall s, token s -> forallb dot s = true.
Proof.
  intros s [_ H]. apply forallb_forall. intros c Hc.
  rewrite forallb_forall in H. specialize (H c Hc).
  apply notSpace_not_space in H. unfold isSpace in H.
  apply orb_false_iff in H. unfold dot. destruct H as [_ ->]. reflexivity.
Qed.

Lemma token_nonempty : forall s, token s -> s <> [].
Proof. intros s [H _]. exact H. Qed.

(** A line inside a parameter block that is no flags line, does not
    open a block and holds no brace. *)
Lemma inside_parm : forall ns cur pn pv pe pd line,
  trim line = line -> rexec RE_FLAGS line = None ->
  str_eqb line (lit "parm {") = false ->
  startsWith line [112; 97; 114; 109; 9; 123] = false ->
  forallb (fun c => negb (isBrace c)) line = true ->
  extractLine entryName basePath (mkState ns cur true 1 pn pv pe pd) line =
  match rexec RE_PARM_NAME line with
  | Some m => mkState ns cur true 1 (group m 1) pv pe pd
  | None =>
      match rexec RE_PARM_VALUE line with
      | Some m => mkState ns cur true 1 pn (trim (group m 1)) pe pd
      | None =>
          match rexec RE_EXPRESSION line with
          | Some m => mkState ns cur true 1 pn pv (trim (group m 1)) false
          | None =>
              mkState ns cur true 1 pn pv pe
                (if includes line (lit "parmdef")
                    || includes line (lit "default {")
                 then false else pd)
          end
      end
  end.
Proof.
  intros ns cur pn pv pe pd line Ht Hf H1 H2 Hb.
  unfold extractLine. cbv zeta. rewrite Ht, Hf, H1, H2.
  cbn [inParm currentNode parmDepth st_nodes currentParmName
       currentParmValue currentParmExpr currentParmIsDefault orb].
  rewrite (braceDepth_none line 1 Hb).
  destruct (rexec RE_TYPE line); destruct (rexec RE_NAME line);
    destruct cur; reflexivity.
Qed.

(** Only the trimmed line is looked at. *)
Lemma step_indent : forall st line,
  extractLine entryName basePath st (indent line)
  = extractLine entryName basePath st line.
Proof.
  intros. unfold extractLine. cbv zeta.
  change (trim (indent line)) with (trim line). reflexivity.
Qed.

Lemma step_type : forall ns cur d pn pv pe pd t, token t ->
  extractLine entryName basePath (mkState ns cur false d pn pv pe pd)
    (lit "type = " ++ t)
  = mkState (flushNode ns cur basePath)
      (Some (mkPartial (Some basePath) (Some t)
                       (Some (inferCategory t entryName))
                       (Some []) (Some []) (Some [])))
      false d pn pv pe pd.
Proof.
  intros ns cur d pn pv pe pd t Ht.
  destruct (token_edges t Ht) as [_ He].
  destruct (rexec_type_line t Ht) as (m & Hm & G).
  unfold extractLine. cbv zeta.
  rewrite (trim_keyword (lit "type = ") t)
    by first [reflexivity | apply token_nonempty; exact Ht | exact He].
  rewrite Hm. cbn [inParm]. rewrite G. reflexivity.
Qed.

Lemma step_name : forall ns node d pn pv pe pd n, token n ->
  extractLine entryName basePath (mkState ns (Some node) false d pn pv pe pd)
    (lit "name = " ++ n)
  = mkState ns
      (Some (mkPartial (Some (basePath ++ lit "/" ++ n)) (pn_type node)
                       (pn_category node) (Some n) (pn_parameters node)
                       (pn_flags node)))
      false d pn pv pe pd.
Proof.
  intros ns node d pn pv pe pd n Hn.
  destruct (token_edges n Hn) as [_ He].
  destruct (rexec_name_line n Hn) as (m & Hm & G).
  unfold extractLine. cbv zeta.
  rewrite (trim_keyword (lit "name = ") n)
    by first [reflexivity | apply token_nonempty; exact Hn | exact He].
  unfold RE_TYPE, seq. rewrite anchored_word_none by reflexivity.
  rewrite Hm. cbn [inParm currentNode]. rewrite G. reflexivity.
Qed.

Lemma step_open : forall ns cur d pn pv pe pd,
  extractLine entryName basePath (mkState ns cur false d pn pv pe pd)
    (lit "parm {")
  = mkState ns cur true 1 [] [] [] true.
Proof.
  intros. unfold extractLine. cbv zeta.
  change (trim (lit "parm {")) with (lit "parm {").
  replace (rexec RE_TYPE (lit "parm {")) with (@None rmatch_result)
    by (vm_compute; reflexivity).
  replace (rexec RE_NAME (lit "parm {")) with (@None rmatch_result)
    by (vm_compute; reflexivity).
  replace (rexec RE_FLAGS (lit "parm {")) with (@None rmatch_result)
    by (vm_compute; reflexivity).
  reflexivity.
Qed.

Lemma step_blank : forall ns cur d pn pv pe pd,
  extractLine entryName basePath (mkState ns cur false d pn pv pe pd) []
  = mkState ns cur false d pn pv pe pd.
Proof.
  intros. unfold extractLine. cbv zeta.
  change (trim []) with (@nil Z).
  replace (rexec RE_TYPE []) with (@None rmatch_result)
    by (vm_compute; reflexivity).
  replace (rexec RE_NAME []) with (@None rmatch_result)
    by (vm_compute; reflexivity).
  replace (rexec RE_FLAGS []) with (@None rmatch_result)
    by (vm_compute; reflexivity).
  reflexivity.
Qed.

Lemma step_parm_name : forall ns cur pn pv pe pd n,
  token n -> forallb (fun c => negb (isBrace c)) n = true ->
  extractLine entryName basePath (mkState ns cur true 1 pn pv pe pd)
    (lit "name " ++ n)
  = mkState ns cur true 1 n pv pe pd.
Proof.
  intros ns cur pn pv pe pd n Hn Hb.
  destruct (token_edges n Hn) as [_ He].
  destruct (rexec_parm_name_line n Hn) as (m & Hm & G).
  rewrite inside_parm.
  - rewrite Hm, G. reflexivity.
  - apply trim_keyword;
      first [reflexivity | apply token_nonempty; exact Hn | exact He].
  - apply flags_none; [|reflexivity|reflexivity].
    rewrite forallb_app, (token_dot n Hn). reflexivity.
  - reflexivity.
  - reflexivity.
  - rewrite forallb_app, Hb. reflexivity.
Qed.

Lemma step_parm_value : forall ns cur pn pv pe pd v, lineText v ->
  extractLine entryName basePath (mkState ns cur true 1 pn pv pe pd)
    (lit "value " ++ v)
  = mkState ns cur true 1 pn v pe pd.
Proof.
  intros ns cur pn pv pe pd v Hv.
  destruct (rexec_parm_value_line v Hv) as (m & Hm & G).
  pose proof (lineText_nonempty v Hv) as Hne.
  pose proof (lineText_dot v Hv) as [_ Hd].
  pose proof (lineText_braces v Hv) as Hb.
  destruct Hv as (_ & Hs & He).
  rewrite inside_parm.
  - unfold RE_PARM_NAME, seq. rewrite anchored_word_none by reflexivity.
    rewrite Hm, G. rewrite trim_edges by assumption. reflexivity.
  - apply trim_keyword; first [reflexivity | assumption].
  - apply flags_none; [|reflexivity|reflexivity].
    rewrite forallb_app, Hd. reflexivity.
  - reflexivity.
  - reflexivity.
  - rewrite forallb_app, Hb. reflexivity.
Qed.

Lemma step_parmdef : forall ns cur pn pv pe pd,
  extractLine entryName basePath (mkState ns cur true 1 pn pv pe pd)
    (lit "parmdef")
  = mkState ns cur true 1 pn pv pe false.
Proof.
  intros. rewrite inside_parm by (vm_compute; reflexivity).
  replace (rexec RE_PARM_NAME (lit "parmdef")) with (@None rmatch_result)
    by (vm_compute; reflexivity).
  replace (rexec RE_PARM_VALUE (lit "parmdef")) with (@None rmatch_result)
    by (vm_compute; reflexivity).
  replace (rexec RE_EXPRESSION (lit "parmdef")) with (@None rmatch_result)
    by (vm_compute; reflexivity).
  reflexivity.
Qed.

Lemma step_expression : forall ns cur pn pv pe pd e, lineText e ->
  extractLine entryName basePath (mkState ns cur true 1 pn pv pe pd)
    (lit "expression " ++ e)
  = mkState ns cur true 1 pn pv e false.
Proof.
  intros ns cur pn pv pe pd e Hv.
  destruct (rexec_expression_line e Hv) as (m & Hm & G).
  pose proof (lineText_nonempty e Hv) as Hne.
  pose proof (lineText_dot e Hv) as [_ Hd].
  pose proof (lineText_braces e Hv) as Hb.
  pose proof (headNot_lineText e [] Hv) as Hh.
  destruct Hv as (_ & Hs & He).
  rewrite inside_parm.
  - unfold RE_PARM_NAME, seq. rewrite anchored_word_none by reflexivity.
    rewrite parm_value_none by reflexivity.
    rewrite Hm, G. rewrite trim_edges by assumption. reflexivity.
  - apply trim_keyword; first [reflexivity | assumption].
  - apply flags_none; [|reflexivity|reflexivity].
    rewrite forallb_app, Hd. reflexivity.
  - reflexivity.
  - reflexivity.
  - rewrite forallb_app, Hb. reflexivity.
Qed.

Lemma step_close : forall ns node pn pv pe pd,
  pn <> [] ->
  extractLine entryName basePath (mkState ns (Some node) true 1 pn pv pe pd)
    (lit "}")
  = mkState ns
      (Some (pushParameter node
               (mkParam pn (parseParamValue pv) pd
                        (if nonEmpty pe then Some pe else None))))
      false 0 pn pv pe pd.
Proof.
  intros ns node pn pv pe pd Hpn. unfold extractLine. cbv zeta.
  change (trim (lit "}")) with (lit "}").
  replace (rexec RE_FLAGS (lit "}")) with (@None rmatch_result)
    by (vm_compute; reflexivity).
  cbn [inParm currentNode parmDepth st_nodes currentParmName
       currentParmValue currentParmExpr currentParmIsDefault].
  destruct (rexec RE_TYPE (lit "}")); destruct (rexec RE_NAME (lit "}"));
    destruct pn; try congruence; reflexivity.
Qed.

End StanzaLines.

Section StanzaBlocks.

Variables (entryName basePath : jsstring).

Lemma parm_block : forall ns node d pn pv pe pd p,
  parmWritten p ->
  exists d' pn' pv' pe' pd',
    fold_left (extractLine entryName basePath) (parmLines p)
      (mkState ns (Some node) false d pn pv pe pd)
    = mkState ns (Some (pushParameter node (paramOfText p))) false
        d' pn' pv' pe' pd'.
Proof.
  intros ns node d pn pv pe pd [n v def e] (Hn & Hb & Hv & He).
  cbn [pt_name pt_value pt_expression] in *.
  unfold parmLines, paramOfText.
  cbn [pt_name pt_value pt_parmdef pt_expression].
  pose proof (token_nonempty n Hn) as Hne.
  destruct def; destruct e as [e|]; cbn [app fold_left];
    rewrite step_open, !step_indent, step_parm_name, step_parm_value
      by assumption;
    rewrite ?step_parmdef; rewrite ?step_expression by assumption;
    rewrite step_close by assumption;
    try (pose proof (lineText_nonempty e He);
         destruct e as [|c e]; [congruence|]);
    do 5 eexists; reflexivity.
Qed.

Lemma parms_block : forall ps ns node d pn pv pe pd,
  Forall parmWritten ps ->
  exists d' pn' pv' pe' pd',
    fold_left (extractLine entryName basePath) (flat_map parmLines ps)
      (mkState ns (Some node) false d pn pv pe pd)
    = mkState ns (Some (fold_left pushParameter (map paramOfText ps) node))
        false d' pn' pv' pe' pd'.
Proof.
  induction ps as [|p ps IH]; intros ns node d pn pv pe pd H.
  - do 5 eexists. reflexivity.
  - inversion H as [|? ? Hp Hps]; subst.
    cbn [flat_map map fold_left]. rewrite fold_left_app.
    destruct (parm_block ns node d pn pv pe pd p Hp)
      as (d1 & pn1 & pv1 & pe1 & pd1 & E).
    rewrite E. apply IH. exact Hps.
Qed.

Lemma pushed_parameters : forall ps pa ty ca na l fl,
  fold_left pushParameter ps (mkPartial pa ty ca na (Some l) fl)
  = mkPartial pa ty ca na (Some (l ++ ps)) fl.
Proof.
  induction ps as [|p ps IH]; intros pa ty ca na l fl; cbn [fold_left].
  - rewrite app_nil_r. reflexivity.
  - change (pushParameter (mkPartial pa ty ca na (Some l) fl) p)
      with (mkPartial pa ty ca na (Some (l ++ [p])) fl).
    rewrite IH, <- app_assoc. reflexivity.
Qed.

Lemma node_block : forall n ns cur d pn pv pe pd,
  nodeWritten n ->
  exists d' pn' pv' pe' pd',
    fold_left (extractLine entryName basePath) (nodeLines n)
      (mkState ns cur false d pn pv pe pd)
    = mkState (flushNode ns cur basePath)
        (Some (mkPartial (Some (basePath ++ lit "/" ++ nt_name n))
                         (Some (nt_type n))
                         (Some (inferCategory (nt_type n) entryName))
                         (Some (nt_name n))
                         (Some (map paramOfText (nt_parms n)))
                         (Some [])))
        false d' pn' pv' pe' pd'.
Proof.
  intros [t name ps] ns cur d pn pv pe pd (Ht & Hn & Hps).
  cbn [nt_type nt_name nt_parms] in *.
  unfold nodeLines. cbn [nt_type nt_name nt_parms app fold_left].
  rewrite step_type, step_name by assumption.
  cbn [pn_type pn_category pn_parameters pn_flags].
  destruct (parms_block ps (flushNode ns cur basePath)
              (mkPartial (Some (basePath ++ lit "/" ++ name)) (Some t)
                 (Some (inferCategory t entryName)) (Some name) (Some [])
                 (Some []))
              d pn pv pe pd Hps) as (d1 & pn1 & pv1 & pe1 & pd1 & E).
  rewrite E, pushed_parameters. do 5 eexists. reflexivity.
Qed.

End StanzaBlocks.

Section StanzaRoundTrip.

Variable entryName : jsstring.

Lemma nodes_block : forall texts ns cur d pn pv pe pd,
  Forall nodeWritten texts ->
  exists ns' cur' d' pn' pv' pe' pd',
    fold_left (extractLine entryName (basePathOf entryName))
      (flat_map nodeLines texts) (mkState ns cur false d pn pv pe pd)
    = mkState ns' cur' false d' pn' pv' pe' pd'
    /\ flushNode ns' cur' (basePathOf entryName)
       = flushNode ns cur (basePathOf entryName)
         ++ map (nodeOfText entryName) texts.
Proof.
  induction texts as [|n texts IH]; intros ns cur d pn pv pe pd H.
  - do 7 eexists. split; [reflexivity|]. cbn [map]. rewrite app_nil_r.
    reflexivity.
  - inversion H as [|? ? Hn Hts]; subst.
    cbn [flat_map]. rewrite fold_left_app.
    destruct (node_block entryName (basePathOf entryName) n ns cur d pn pv pe pd
                Hn) as (d1 & pn1 & pv1 & pe1 & pd1 & E).
    rewrite E.
    destruct (IH (flushNode ns cur (basePathOf entryName))
                (Some (mkPartial
                         (Some (basePathOf entryName ++ lit "/" ++ nt_name n))
                         (Some (nt_type n))
                         (Some (inferCategory (nt_type n) entryName))
                         (Some (nt_name n))
                         (Some (map paramOfText (nt_parms n))) (Some [])))
                d1 pn1 pv1 pe1 pd1 Hts)
      as (ns' & cur' & d' & pn' & pv' & pe' & pd' & E' & F).
    exists ns', cur', d', pn', pv', pe', pd'. split; [exact E'|].
    rewrite F. cbn [map].
    change (nodeOfText entryName n :: map (nodeOfText entryName) texts)
      with ([nodeOfText entryName n] ++ map (nodeOfText entryName) texts).
    rewrite (app_assoc (flushNode ns cur (basePathOf entryName))
               [nodeOfText entryName n]).
    f_equal.
    destruct Hn as (Ht & _). apply token_nonempty in Ht.
    unfold flushNode at 1, hasType, finalizeNode, nodeOfText.
    cbn [pn_type].
    destruct (nt_type n) as [|c t]; [congruence|]. reflexivity.
Qed.

Lemma split1_line : forall l rest,
  forallb dot l = true ->
  split1 10 (l ++ 10 :: rest) = l :: split1 10 rest.
Proof.
  induction l as [|c l IH]; intros rest H.
  - reflexivity.
  - cbn [forallb] in H. apply andb_true_iff in H. destruct H as [Hc Hl].
    cbn [app split1].
    assert (E : (c =? 10) = false).
    { unfold dot, isLineTerminator in Hc. apply negb_true_iff in Hc.
      repeat (apply orb_false_iff in Hc; destruct Hc as [Hc _]). exact Hc. }
    rewrite E, IH by exact Hl. reflexivity.
Qed.

Lemma split1_lines : forall ls,
  Forall (fun l => forallb dot l = true) ls ->
  split1 10 (linesText ls) = ls ++ [[]].
Proof.
  unfold linesText. induction ls as [|l ls IH]; intro H.
  - reflexivity.
  - inversion H as [|? ? Hl Hls]; subst. cbn [flat_map app].
    rewrite <- app_assoc. cbn [app]. rewrite split1_line by exact Hl.
    rewrite IH by exact Hls. reflexivity.
Qed.

Lemma parmLines_dot : forall p,
  parmWritten p -> Forall (fun l => forallb dot l = true) (parmLines p).
Proof.
  intros [n v def e] (Hn & _ & Hv & He).
  cbn [pt_name pt_value pt_expression] in *.
  apply token_dot in Hn. apply lineText_dot in Hv. destruct Hv as [_ Hv].
  unfold parmLines. cbn [pt_name pt_value pt_parmdef pt_expression].
  destruct def; destruct e as [e|]; cbn [app];
    try (apply lineText_dot in He; destruct He as [_ He]);
    repeat constructor; unfold indent; rewrite ?forallb_app;
    rewrite ?Hn, ?Hv, ?He; reflexivity.
Qed.

Lemma nodeLines_dot : forall n,
  nodeWritten n -> Forall (fun l => forallb dot l = true) (nodeLines n).
Proof.
  intros [t name ps] (Ht & Hn & Hps). cbn [nt_type nt_name nt_parms] in *.
  apply token_dot in Ht. apply token_dot in Hn.
  unfold nodeLines. cbn [nt_type nt_name nt_parms app].
  constructor; [rewrite forallb_app, Ht; reflexivity|].
  constructor; [rewrite forallb_app, Hn; reflexivity|].
  induction Hps as [|p ps Hp Hps IH]; cbn [flat_map]; [constructor|].
  apply Forall_app. split; [apply parmLines_dot; exact Hp|exact IH].
Qed.

Lemma stanza_lines_dot : forall texts,
  Forall nodeWritten texts ->
  Forall (fun l => forallb dot l = true) (flat_map nodeLines texts).
Proof.
  intros texts H.
  induction H as [|n texts Hn Hts IH]; cbn [flat_map]; [constructor|].
  apply Forall_app. split; [apply nodeLines_dot; exact Hn|exact IH].
Qed.

(** The loop over the lines of a text of stanzas. *)
Lemma stanza_fold : forall texts,
  Forall nodeWritten texts ->
  exists st,
    fold_left (extractLine entryName (basePathOf entryName))
      (split1 10 (linesText (flat_map nodeLines texts))) initialState = st
    /\ flushNode (st_nodes st) (currentNode st) (basePathOf entryName)
       = map (nodeOfText entryName) texts.
Proof.
  intros texts H. eexists. split; [reflexivity|].
  rewrite split1_lines by (apply stanza_lines_dot; exact H).
  rewrite fold_left_app. unfold initialState.
  destruct (nodes_block texts [] None 0 [] [] [] true H)
    as (ns' & cur' & d' & pn' & pv' & pe' & pd' & E & F).
  unfold jsstring in *. rewrite E. cbn [fold_left]. rewrite step_blank.
  cbn [st_nodes currentNode]. exact F.
Qed.

(** X22. Stanzas written out in the form the parser documents are read
    back as they were written: a Node per stanza, in order, with the
    written type and name, the path under the entry, a Parameter per block
    with the parsed value, not a default as soon as a parmdef or an
    expression line stands in the block, and no flags. *)
Theorem stanzas_read_back : forall texts,
  Forall nodeWritten texts ->
  extractNodesFromContent entryName (linesText (flat_map nodeLines texts))
  = map (nodeOfText entryName) texts.
Proof.
  intros texts H. unfold extractNodesFromContent. cbv zeta.
  destruct (stanza_fold texts H) as (st & <- & F). exact F.
Qed.

End StanzaRoundTrip.

Section StanzaSample.

Lemma stanzas_read_back_witness :
  extractNodesFromContent (lit "obj/geo1")
    (linesText (flat_map nodeLines stanza_sample))
  = map (nodeOfText (lit "obj/geo1")) stanza_sample.
Proof.
  apply stanzas_read_back.
  unfold stanza_sample, nodeWritten, parmWritten, lineText, token, run.
  repeat constructor; cbn; try discriminate; try reflexivity.
Defined.

End StanzaSample.

Section CacheSamples.

Lemma downloadHipFile_holds_entry_witness :
  existsSync after_first (localPath first_entry) = true
  /\ assocGet (url request_a) (loadManifest after_first) = Some first_entry
  /\ In first_entry (listCachedHipFiles after_first)
  /\ downloadHipFile (lit "/cache") (fun _ => lit "00") decodePlain joinPlain
       after_first request_a (mkReply None 5000 true true)
     = (after_first, Some first_entry).
Proof.
  assert (H : downloadHipFile (lit "/cache") (fun _ => lit "00") decodePlain
                joinPlain emptyCache request_a first_reply
              = (after_first, Some first_entry)) by reflexivity.
  destruct (downloadHipFile_holds_entry _ _ _ _ _ _ _ _ _ H)
    as (H1 & H2 & H3 & H4).
  split; [exact H1|]. split; [exact H2|]. split; [exact H3|apply H4].
Defined.

Lemma downloadHipFile_failure_leaves_manifest_witness :
  manifestFile (mkWorld [lit "/cache/00-a.hip"; lit "/cache/00-b.hip"]
                        (manifestFile after_first))
  = manifestFile after_first
  /\ (mkWorld [lit "/cache/00-a.hip"; lit "/cache/00-b.hip"]
              (manifestFile after_first) = after_first
      \/ exists buf name,
           body unsaved_reply = Some buf
           /\ decodePlain (last (split1 47 (url request_b)) []) = Some name
           /\ written unsaved_reply = true /\ saved unsaved_reply = false
           /\ mkWorld [lit "/cache/00-a.hip"; lit "/cache/00-b.hip"]
                      (manifestFile after_first)
              = writeFileSync after_first
                  (joinPlain (lit "/cache")
                     (slice (lit "00") 0 12 ++ lit "-"
                      ++ sanitizeFilename name))).
Proof.
  apply (downloadHipFile_failure_leaves_manifest (lit "/cache")
           (fun _ => lit "00") decodePlain joinPlain after_first _ request_b
           unsaved_reply).
  reflexivity.
Defined.

Lemma extractAllHipFiles_counts_witness :
  exists after,
    extractAllHipFiles true (fun _ => []) (fun _ => []) (fun _ => true)
      failingParser [(failingEntry, lit "t1"); (sceneEntry, lit "t2")]
      otherTypeStore = Some after
    /\ extracted (snd after) + b_errors (snd after) = 2
    /\ 0 <= totalNonDefault (snd after) <= totalParams (snd after).
Proof.
  destruct (extractAllHipFiles_counts true (fun _ => []) (fun _ => [])
              (fun _ => true) failingParser
              [(failingEntry, lit "t1"); (sceneEntry, lit "t2")]
              otherTypeStore) as [Hreturns Hcounts].
  destruct Hreturns as [after Hafter].
  { repeat constructor; unfold failingParser; cbn [fst];
      destruct (str_eqb _ _); discriminate. }
  exists after. split; [exact Hafter|]. apply Hcounts. exact Hafter.
Defined.

Lemma parsed_files_are_skipped_witness :
  exists after,
    extractAllHipFiles true (fun _ => []) (fun _ => []) (fun _ => false)
      (fun _ => OutOfFuel) [(recorded_entry, lit "t1")] otherTypeStore
    = Some after
    /\ hip_files (fst after) = hip_files otherTypeStore
    /\ hip_parameter_snapshots (fst after)
       = hip_parameter_snapshots otherTypeStore
    /\ snd after = mkBatchResult 1 0 0 0.
Proof.
  apply (parsed_files_are_skipped true (fun _ => []) (fun _ => [])
           (fun _ => false) (fun _ => OutOfFuel)
           [(recorded_entry, lit "t1")] otherTypeStore).
  constructor; [|constructor].
  eexists. split; reflexivity.
Defined.

End CacheSamples.

Section WrittenFile.

Lemma utf8_text : forall b, forallb isTextByte b = true -> toString_utf8 b = b.
Proof.
  unfold toString_utf8. induction b as [|x b IH]; intro H; [reflexivity|].
  cbn [forallb] in H. apply andb_true_iff in H. destruct H as [Hx Hb].
  cbn [u8_go u8_init u8_needed]. cbn [Z.eqb].
  assert (E : u8_lead x = ([x], u8_init)).
  { unfold u8_lead. replace (x <=? 127) with true; [reflexivity|].
    symmetry. apply Z.leb_le. unfold isTextByte in Hx.
    repeat (apply orb_true_iff in Hx; destruct Hx as [Hx|Hx]);
      try (apply Z.eqb_eq in Hx; lia).
    apply andb_true_iff in Hx. destruct Hx as [_ Hx].
    apply Z.leb_le in Hx. lia. }
  rewrite E. cbn [app]. f_equal. apply IH. exact Hb.
Qed.

Lemma lineConnections_none : forall basePath line,
  stripPrefix (lit "wire") (trim line) = None ->
  stripPrefix (lit "input") (trim line) = None ->
  lineConnections basePath line = [].
Proof.
  intros basePath line H1 H2. unfold lineConnections. cbv zeta.
  unfold RE_WIRE, RE_INPUT, seq.
  rewrite !anchored_word_none by assumption. reflexivity.
Qed.

Lemma keyword_line_unwired : forall basePath (kw s : jsstring),
  match kw with c :: _ => isSpace c = false | [] => False end ->
  s <> [] ->
  match rev s with c :: _ => isSpace c = false | [] => False end ->
  stripPrefix (lit "wire") (kw ++ s) = None ->
  stripPrefix (lit "input") (kw ++ s) = None ->
  lineConnections basePath (kw ++ s) = []
  /\ lineConnections basePath (indent (kw ++ s)) = [].
Proof.
  intros basePath kw s Hk Hs Hr H1 H2.
  split; apply lineConnections_none;
    try change (trim (indent (kw ++ s))) with (trim (kw ++ s));
    rewrite trim_keyword; assumption.
Qed.

Lemma parmLines_unwired : forall basePath p,
  parmWritten p ->
  Forall (fun l => lineConnections basePath l = []) (parmLines p).
Proof.
  intros basePath [n v def e] (Hn & _ & Hv & He).
  cbn [pt_name pt_value pt_expression] in *.
  pose proof (token_nonempty n Hn) as Hn0.
  destruct (token_edges n Hn) as [_ Hn1].
  pose proof (lineText_nonempty v Hv) as Hv0.
  destruct Hv as (_ & _ & Hv1).
  assert (Hname : lineConnections basePath (indent (lit "name " ++ n)) = []).
  { apply keyword_line_unwired; first [reflexivity | assumption]. }
  assert (Hvalue : lineConnections basePath (indent (lit "value " ++ v)) = []).
  { apply keyword_line_unwired; first [reflexivity | assumption]. }
  unfold parmLines. cbn [pt_name pt_value pt_parmdef pt_expression].
  destruct def; destruct e as [e|]; cbn [app];
    repeat (constructor; try assumption); try reflexivity;
    pose proof (lineText_nonempty e He) as He0;
    destruct He as (_ & _ & He1);
    apply keyword_line_unwired; first [reflexivity | assumption].
Qed.

Lemma nodeLines_unwired : forall basePath n,
  nodeWritten n ->
  Forall (fun l => lineConnections basePath l = []) (nodeLines n).
Proof.
  intros basePath [t name ps] (Ht & Hn & Hps).
  cbn [nt_type nt_name nt_parms] in *.
  unfold nodeLines. cbn [nt_type nt_name nt_parms app].
  constructor.
  { apply keyword_line_unwired;
      first [reflexivity | apply token_nonempty; assumption
            | apply token_edges; assumption]. }
  constructor.
  { apply keyword_line_unwired;
      first [reflexivity | apply token_nonempty; assumption
            | apply token_edges; assumption]. }
  induction Hps as [|p ps Hp Hps IH]; cbn [flat_map]; [constructor|].
  apply Forall_app. split; [apply parmLines_unwired; exact Hp|exact IH].
Qed.

Lemma flat_map_none : forall (X Y : Type) (f : X -> list Y) l,
  Forall (fun x => f x = []) l -> flat_map f l = [].
Proof.
  intros X Y f l H. induction H as [|x l Hx Hl IH]; [reflexivity|].
  cbn [flat_map]. rewrite Hx, IH. reflexivity.
Qed.

Lemma extractConnections_stanzas : forall entryName texts,
  Forall nodeWritten texts ->
  extractConnections entryName (linesText (flat_map nodeLines texts)) = [].
Proof.
  intros entryName texts H. unfold extractConnections. cbv zeta.
  rewrite split1_lines by (apply stanza_lines_dot; exact H).
  apply flat_map_none. apply Forall_app. split.
  - induction H as [|n texts Hn Hts IH]; cbn [flat_map]; [constructor|].
    apply Forall_app. split; [apply nodeLines_unwired; exact Hn|exact IH].
  - constructor; [|constructor]. vm_compute. reflexivity.
Qed.

Lemma stanzas_hold_type : forall texts,
  texts <> [] ->
  includes (linesText (flat_map nodeLines texts)) (lit "type") = true.
Proof.
  intros [|n texts] H; [congruence|]. reflexivity.
Qed.

Lemma stanzas_nonempty : forall texts,
  texts <> [] -> linesText (flat_map nodeLines texts) <> [].
Proof. intros [|n texts] H; [congruence|]. discriminate. Qed.

Lemma readCpio_one_member : forall gunzipSync fuel m,
  wellFormed m -> blen (assemble [m]) <= 2 ^ 31 - 4 -> (1 < fuel)%nat ->
  readCpioFromBuffer gunzipSync fuel (assemble [m]) = Returned [entryOf m].
Proof.
  intros gunzipSync fuel m Hm Hlen Hfuel.
  assert (Hmagic : toString_ascii (firstn 6 (assemble [m])) = CPIO_MAGIC)
    by reflexivity.
  unfold readCpioFromBuffer.
  rewrite (isGzip_magic _ Hmagic), (locateCpio_magic _ Hmagic).
  unfold parseCpioArchive.
  change (parseCpioLoop fuel (assemble [m]) 0 [])
    with (parseCpioLoop fuel ([] ++ assemble [m]) (blen []) []).
  rewrite parseCpioLoop_members; try reflexivity; try assumption.
  repeat constructor; apply Hm.
Qed.

(** X23. A scene written out as an archive is read back. An archive of
    one member that is at most 2^31 - 4 bytes long, under a name that is
    no header file's, whose data are stanzas in text bytes, is parsed by
    [parseHipBuffer] to the Scene with those Nodes, under the base path
    of the member's name, and no Connection. The bound is there because
    [align4] wraps around beyond it. *)
Theorem written_file_read_back :
  forall (gunzipSync : buffer -> jsstring + buffer) (fuel : nat)
         (m : Member) (texts : list NodeText),
  wellFormed m -> blen (assemble [m]) <= 2 ^ 31 - 4 -> (1 < fuel)%nat ->
  isHeaderName (nameOf (entryOf m)) = false ->
  texts <> [] -> Forall nodeWritten texts ->
  m_data m = linesText (flat_map nodeLines texts) ->
  forallb isTextByte (m_data m) = true ->
  exists scene,
    parseHipBuffer gunzipSync fuel (assemble [m]) = Returned scene
    /\ nodes scene = map (nodeOfText (nameOf (entryOf m))) texts
    /\ connections scene = [].
Proof.
  intros gunzipSync fuel m texts Hm Hlen Hfuel Hname Hne Hw Hdata Htext.
  unfold parseHipBuffer. rewrite readCpio_one_member by assumption.
  eexists. split; [reflexivity|].
  assert (Hkeep : filterTextEntries [entryOf m] = [entryOf m]).
  { unfold filterTextEntries. cbn [filter].
    rewrite isTextEntry_looksLikeText. unfold looksLikeText, entryOf.
    cbn [filesize data].
    assert (H0 : blen (m_data m) <> 0).
    { rewrite Hdata. pose proof (stanzas_nonempty texts Hne) as H.
      destruct (linesText (flat_map nodeLines texts)); [congruence|].
      unfold blen. cbn [List.length]. lia. }
    destruct (blen (m_data m)) eqn:Eb; try congruence; cbn [negb andb];
      (replace (forallb isTextByte (firstn 512 (m_data m))) with true;
       [reflexivity|]);
      symmetry; apply forallb_forall; intros x Hx;
      rewrite forallb_forall in Htext; apply Htext;
      apply (in_firstn _ _ _ _ Hx). }
  rewrite Hkeep, parseHipContent_nodes, parseHipContent_connections.
  unfold separateEntries. cbn [fold_left]. unfold separateEntry.
  fold (nameOf (entryOf m)). rewrite Hname. cbn [fst assocSet].
  change (data (entryOf m)) with (m_data m).
  rewrite utf8_text by exact Htext. rewrite Hdata.
  unfold parseNodes. cbn [fold_left]. unfold parseNodeEntry.
  rewrite stanzas_hold_type by exact Hne. cbn [negb fst snd app].
  split.
  - destruct (stanza_fold (nameOf (entryOf m)) texts Hw) as (st & <- & F).
    exact F.
  - apply extractConnections_stanzas. exact Hw.
Qed.

Lemma written_file_read_back_witness :
  exists scene,
    parseHipBuffer (fun _ => inl []) 2 (assemble [stanza_member])
    = Returned scene
    /\ nodes scene
       = map (nodeOfText (nameOf (entryOf stanza_member))) stanza_sample
    /\ connections scene = [].
Proof.
  apply (written_file_read_back (fun _ => inl []) 2 stanza_member stanza_sample).
  - split; [vm_compute; split; [discriminate|reflexivity]
           |vm_compute; discriminate].
  - vm_compute. discriminate.
  - lia.
  - vm_compute. reflexivity.
  - discriminate.
  - unfold stanza_sample, nodeWritten, parmWritten, lineText, token, run.
    repeat constructor; cbn; try discriminate; try reflexivity.
  - reflexivity.
  - vm_compute. reflexivity.
Defined.

End WrittenFile.

Section HeaderInversion.

Context {A : Type}.

Lemma alt_inv : forall r1 r2 prev s cs
    (k : option Z -> jsstring -> captures -> option A) a,
  rmatch (Alt r1 r2) prev s cs k = Some a ->
  rmatch r1 prev s cs k = Some a \/ rmatch r2 prev s cs k = Some a.
Proof.
  intros r1 r2 prev s cs k a H. cbn [rmatch] in H.
  destruct (rmatch r1 prev s cs k) as [a'|]; [left|right]; exact H.
Qed.

Lemma opt_inv : forall r prev s cs
    (k : option Z -> jsstring -> captures -> option A) a,
  rmatch (Opt r) prev s cs k = Some a ->
  rmatch r prev s cs k = Some a \/ k prev s cs = Some a.
Proof.
  intros r prev s cs k a H. cbn [rmatch] in H.
  destruct (rmatch r prev s cs k) as [a'|]; [left|right]; exact H.
Qed.

Lemma cls_inv : forall p prev s cs
    (k : option Z -> jsstring -> captures -> option A) a,
  rmatch (Cls p) prev s cs k = Some a ->
  exists x s', s = x :: s' /\ p x = true /\ k (Some x) s' cs = Some a.
Proof.
  intros p prev s cs k a H. cbn [rmatch] in H.
  destruct s as [|x s]; [discriminate|].
  destruct (p x) eqn:E; [|discriminate]. eauto.
Qed.

(** What the optional separators of the header patterns leave to the
    group that follows them. *)
Lemma separators_inv : forall prev s cs
    (k : option Z -> jsstring -> captures -> option A) a,
  rmatch (Seq (Star isSpace)
            (Seq (Opt (Chr 61)) (Seq (Star isSpace) (Opt (Cls quote)))))
    prev s cs k = Some a ->
  exists prev' s', k prev' s' cs = Some a.
Proof.
  intros prev s cs k a H.
  rewrite rmatch_seq in H. apply starR_inv in H.
  destruct H as (w1 & s1 & q1 & _ & _ & H).
  rewrite rmatch_seq in H. apply opt_chr_inv in H.
  destruct H as (s2 & q2 & _ & H).
  rewrite rmatch_seq in H. apply starR_inv in H.
  destruct H as (w2 & s3 & q3 & _ & _ & H).
  apply opt_inv in H. destruct H as [H|H].
  - apply cls_inv in H. destruct H as (x & s4 & _ & _ & H). eauto.
  - eauto.
Qed.

End HeaderInversion.

Section HeaderFacts.

Lemma searchFrom_inv : forall r s prev idx m,
  searchFrom r prev s idx = Some m ->
  exists prev0 s0,
    rmatch r prev0 s0 [] (fun p t c => Some (p, t, c))
    = Some (m_prev m, m_rest m, m_caps m).
Proof.
  induction s as [|x s IH]; intros prev idx m H; cbn [searchFrom] in H;
    destruct (rmatch r prev _ [] (fun p t c => Some (p, t, c)))
      as [[[p t] c]|] eqn:E.
  - injection H as <-. eauto.
  - discriminate.
  - injection H as <-. eauto.
  - eapply IH. exact H.
Qed.

Lemma seq_assoc4 : forall (A : Type) r1 r2 r3 r4 r5 prev s cs
    (k : option Z -> jsstring -> captures -> option A),
  rmatch (Seq r1 (Seq r2 (Seq r3 (Seq r4 r5)))) prev s cs k
  = rmatch (Seq r1 (Seq r2 (Seq r3 r4))) prev s cs
      (fun prev' s' cs' => rmatch r5 prev' s' cs' k).
Proof. reflexivity. Qed.

Lemma version_group : forall c m,
  rexec RE_VERSION c = Some m -> versionText (group m 1).
Proof.
  intros c m H. unfold rexec in H. apply searchFrom_inv in H.
  destruct H as (prev0 & s0 & H). unfold RE_VERSION in H. cbn [seq] in H.
  rewrite rmatch_seq in H.
  assert (H' : exists prev1 s1,
    rmatch (Seq (Star isSpace)
              (Seq (Opt (Chr 61))
                 (Seq (Star isSpace)
                    (Seq (Opt (Cls quote))
                       (Grp 1
                          (Seq (Plus isDigit)
                             (Seq (Chr 46)
                                (Seq (Plus isDigit)
                                   (Opt (Seq (Chr 46) (Plus isDigit))))))))))) 
      prev1 s1 [] (fun p t c => Some (p, t, c))
    = Some (m_prev m, m_rest m, m_caps m)).
  { apply alt_inv in H. destruct H as [H|H]; apply str_inv in H;
      destruct H as (s1 & q1 & _ & H); eauto. }
  clear H. destruct H' as (prev1 & s1 & H).
  rewrite seq_assoc4 in H. apply separators_inv in H.
  destruct H as (prev2 & s2 & H).
  cbn [rmatch] in H. fold (@rmatch (option Z * jsstring * captures)) in H.
  change (rmatch (Plus isDigit) prev2 s2 []
            (fun prev' s' cs' =>
               rmatch (Seq (Chr 46)
                         (Seq (Plus isDigit)
                            (Opt (Seq (Chr 46) (Plus isDigit)))))
                 prev' s' cs'
                 (fun p t c =>
                    Some (p, t,
                          (1%nat, firstn (List.length s2 - List.length t) s2)
                          :: c)))
          = Some (m_prev m, m_rest m, m_caps m)) in H.
  apply plus_inv in H. destruct H as (a & s3 & q3 & -> & Ha & H).
  rewrite rmatch_seq in H. apply chr_inv in H. destruct H as (s4 & -> & H).
  rewrite rmatch_seq in H. apply plus_inv in H.
  destruct H as (b & s5 & q5 & -> & Hb & H).
  exists a, b. split; [exact Ha|]. split; [exact Hb|].
  apply opt_inv in H. destruct H as [H|H].
  - rewrite rmatch_seq in H. apply chr_inv in H. destruct H as (s6 & -> & H).
    apply plus_inv in H. destruct H as (d & s7 & q7 & -> & Hd & H).
    injection H as _ _ Hc. right. exists d. split; [exact Hd|].
    unfold group. rewrite <- Hc. cbn [capture Nat.eqb].
    replace (a ++ 46 :: b ++ 46 :: d ++ s7)
      with ((a ++ [46] ++ b ++ [46] ++ d) ++ s7)
      by (repeat (rewrite <- app_assoc; cbn [app]); reflexivity).
    apply firstn_matched.
  - injection H as _ _ Hc. left.
    unfold group. rewrite <- Hc. cbn [capture Nat.eqb].
    replace (a ++ 46 :: b ++ s5) with ((a ++ [46] ++ b) ++ s5)
      by (repeat (rewrite <- app_assoc; cbn [app]); reflexivity).
    apply firstn_matched.
Qed.

Lemma forallb_dropWhile : forall (p q : Z -> bool) s,
  forallb p s = true -> forallb p (dropWhile q s) = true.
Proof.
  induction s as [|x s IH]; intro H; [reflexivity|].
  cbn [dropWhile]. destruct (q x); [|exact H].
  cbn [forallb] in H. apply andb_true_iff in H. apply IH. tauto.
Qed.

Lemma forallb_rev : forall (p : Z -> bool) s,
  forallb p s = true -> forallb p (rev s) = true.
Proof.
  intros p s H. apply forallb_forall. intros x Hx.
  rewrite forallb_forall in H. apply H. apply in_rev. exact Hx.
Qed.

Lemma forallb_trim : forall (p : Z -> bool) s,
  forallb p s = true -> forallb p (trim s) = true.
Proof.
  intros p s H. unfold trim, trimEnd, trimStart.
  apply forallb_rev, forallb_dropWhile, forallb_rev, forallb_dropWhile, H.
Qed.

Lemma save_time_group : forall c m,
  rexec RE_SAVE_TIME c = Some m -> forallb notQuoteNl (group m 1) = true.
Proof.
  intros c m H. unfold rexec in H. apply searchFrom_inv in H.
  destruct H as (prev0 & s0 & H). unfold RE_SAVE_TIME in H. cbn [seq] in H.
  rewrite rmatch_seq in H.
  assert (H' : exists prev1 s1,
    rmatch (Seq (Star isSpace)
              (Seq (Opt (Chr 61))
                 (Seq (Star isSpace)
                    (Seq (Opt (Cls quote)) (Grp 1 (Plus notQuoteNl))))))
      prev1 s1 [] (fun p t c => Some (p, t, c))
    = Some (m_prev m, m_rest m, m_caps m)).
  { apply alt_inv in H. destruct H as [H|H]; apply str_inv in H;
      destruct H as (s1 & q1 & _ & H); eauto. }
  clear H. destruct H' as (prev1 & s1 & H).
  rewrite seq_assoc4 in H. apply separators_inv in H.
  destruct H as (prev2 & s2 & H).
  apply group_plus_inv in H. destruct H as (t & s3 & q3 & _ & [_ Ht] & H).
  injection H as _ _ Hc. unfold group. rewrite <- Hc. exact Ht.
Qed.

Lemma var_groups : forall s prev idx m,
  searchFrom RE_VAR prev s idx = Some m ->
  run isWord (group m 1) /\ forallb notQuoteNl (group m 2) = true.
Proof.
  intros s prev idx m H. apply searchFrom_inv in H.
  destruct H as (prev0 & s0 & H). unfold RE_VAR in H. cbn [seq] in H.
  rewrite rmatch_seq in H. apply group_plus_inv in H.
  destruct H as (w & s1 & q1 & _ & Hw & H).
  rewrite rmatch_seq in H. apply starR_inv in H.
  destruct H as (w1 & s2 & q2 & _ & _ & H).
  rewrite rmatch_seq in H. apply chr_inv in H. destruct H as (s3 & _ & H).
  rewrite rmatch_seq in H. apply starR_inv in H.
  destruct H as (w2 & s4 & q4 & _ & _ & H).
  rewrite rmatch_seq in H.
  assert (H' : exists prev5 s5,
    rmatch (Seq (Grp 2 (Plus notQuoteNl)) (Opt (Cls quote))) prev5 s5
      [(1%nat, w)] (fun p t c => Some (p, t, c))
    = Some (m_prev m, m_rest m, m_caps m)).
  { apply opt_inv in H. destruct H as [H|H].
    - apply cls_inv in H. destruct H as (x & s5 & _ & _ & H). eauto.
    - eauto. }
  clear H. destruct H' as (prev5 & s5 & H).
  rewrite rmatch_seq in H. apply group_plus_inv in H.
  destruct H as (v & s6 & q6 & _ & [_ Hv] & H).
  assert (Hc : m_caps m = [(2%nat, v); (1%nat, w)]).
  { apply opt_inv in H. destruct H as [H|H].
    - apply cls_inv in H. destruct H as (x & s7 & _ & _ & H).
      injection H as _ _ Hc. auto.
    - injection H as _ _ Hc. auto. }
  unfold group. rewrite Hc. cbn [capture Nat.eqb]. auto.
Qed.

Lemma execAllFrom_groups : forall fuel prev s,
  Forall (fun m => run isWord (group m 1)
                   /\ forallb notQuoteNl (group m 2) = true)
         (execAllFrom fuel RE_VAR prev s).
Proof.
  induction fuel as [|fuel IH]; intros prev s; cbn [execAllFrom];
    [constructor|].
  destruct (searchFrom RE_VAR prev s 0) as [m|] eqn:E; [|constructor].
  constructor; [eapply var_groups; exact E|apply IH].
Qed.

Lemma objSet_keys : forall (V : Type) k (v : V) o,
  NoDup (map fst o) -> NoDup (map fst (objSet k v o)).
Proof.
  intros V k v o H. unfold objSet.
  destruct (str_eqb k (lit "__proto__")); [exact H|].
  apply assocSet_keys. exact H.
Qed.

Lemma objSet_in_inv : forall (V : Type) k (v : V) k0 (v0 : V) o,
  In (k, v) (objSet k0 v0 o) -> (k = k0 /\ v = v0) \/ In (k, v) o.
Proof.
  intros V k v k0 v0 o H. unfold objSet in H.
  destruct (str_eqb k0 (lit "__proto__")); [right; exact H|].
  apply assocSet_in_inv. exact H.
Qed.

Lemma metadata_fold : forall ms o,
  Forall (fun m => run isWord (group m 1)
                   /\ forallb notQuoteNl (group m 2) = true) ms ->
  Forall (fun kv => run isWord (fst kv)
                    /\ forallb notQuoteNl (snd kv) = true) o ->
  NoDup (map fst o) ->
  let o' := fold_left (fun o m => objSet (group m 1) (trim (group m 2)) o)
                      ms o in
  Forall (fun kv => run isWord (fst kv)
                    /\ forallb notQuoteNl (snd kv) = true) o'
  /\ NoDup (map fst o').
Proof.
  induction ms as [|m ms IH]; intros o Hms Ho Hnd; cbv zeta; cbn [fold_left].
  - auto.
  - inversion Hms as [|? ? [Hk Hv] Hms']; subst.
    apply IH; [exact Hms'| |apply objSet_keys; exact Hnd].
    apply Forall_forall. intros [k v] Hin.
    apply objSet_in_inv in Hin. destruct Hin as [[-> ->]|Hin].
    + cbn [fst snd]. split; [exact Hk|apply forallb_trim; exact Hv].
    + rewrite Forall_forall in Ho. apply (Ho _ Hin).
Qed.

Lemma firstMatch_from : forall r contents m,
  firstMatch r contents = Some m -> exists c, rexec r c = Some m.
Proof.
  intros r contents m. unfold firstMatch.
  assert (G : forall found,
    fold_left (fun found content =>
                 match found with
                 | Some m => Some m
                 | None => rexec r content
                 end) contents found = Some m ->
    found = Some m \/ exists c, rexec r c = Some m).
  { induction contents as [|c contents IH]; intros found H; cbn [fold_left] in H.
    - left. exact H.
    - destruct (IH _ H) as [E|E]; [|right; exact E].
      destruct found as [m'|]; [left; exact E|right; eauto]. }
  intro H. destruct (G None H) as [E|E]; [discriminate|exact E].
Qed.

Lemma parseHipContent_header : forall items,
  let h := parseHeader (snd (separateEntries items)) in
  saveTime (parseHipContent items) = snd (fst h)
  /\ metadata (parseHipContent items) = snd h
  /\ hipVersion (parseHipContent items)
     = if nonEmpty (fst (fst h)) then fst (fst h)
       else match firstMatch RE_VERSION
                    (map (fun e => toString_utf8 (data e)) items) with
            | Some m => group m 1
            | None => []
            end.
Proof.
  intro items. cbv zeta. unfold parseHipContent.
  destruct (separateEntries items) as [ne hc]. cbn [snd].
  destruct (parseHeader hc) as [[v t] m]. cbn [fst snd].
  destruct (parseNodes ne ([], [])) as [ns cs]. auto.
Qed.

(** X24. What the header fields of a Scene look like, for any list of
    entries: the version is empty or two or three runs of digits with
    dots between them; the save time holds no quote and no line feed;
    every key of the metadata is a non-empty word of letters, digits and
    underscores, no key occurs twice, and no value holds a quote or a
    line feed. *)
Theorem header_fields_wellformed : forall items : list CpioEntry,
  let scene := parseHipContent items in
  (hipVersion scene = [] \/ versionText (hipVersion scene))
  /\ forallb notQuoteNl (saveTime scene) = true
  /\ Forall (fun kv => run isWord (fst kv)
                       /\ forallb notQuoteNl (snd kv) = true)
            (metadata scene)
  /\ NoDup (map fst (metadata scene)).
Proof.
  intro items. cbv zeta.
  destruct (parseHipContent_header items) as (Ht & Hm & Hv).
  rewrite Ht, Hm, Hv. clear Ht Hm Hv.
  set (hc := snd (separateEntries items)).
  unfold parseHeader. destruct hc as [|x hc].
  - cbn [fst snd nonEmpty]. split; [|repeat split; constructor].
    destruct (firstMatch RE_VERSION _) as [m|] eqn:E; [|left; reflexivity].
    right. apply firstMatch_from in E. destruct E as (c & E).
    eapply version_group. exact E.
  - cbn [fst snd]. split; [|split].
    + destruct (rexec RE_VERSION (x :: hc)) as [m|] eqn:E.
      * pose proof (version_group _ _ E) as Hv.
        destruct (nonEmpty (group m 1)); [right; exact Hv|].
        destruct (firstMatch RE_VERSION _) as [m'|] eqn:E';
          [|left; reflexivity].
        right. apply firstMatch_from in E'. destruct E' as (c & E').
        eapply version_group. exact E'.
      * cbn [nonEmpty].
        destruct (firstMatch RE_VERSION _) as [m'|] eqn:E';
          [|left; reflexivity].
        right. apply firstMatch_from in E'. destruct E' as (c & E').
        eapply version_group. exact E'.
    + destruct (rexec RE_SAVE_TIME (x :: hc)) as [m|] eqn:E; [|reflexivity].
      apply forallb_trim. eapply save_time_group. exact E.
    + apply (metadata_fold (execAll RE_VAR (x :: hc)) []).
      * apply execAllFrom_groups.
      * constructor.
      * constructor.
Qed.

Lemma separateEntries_header : forall items acc,
  snd (fold_left separateEntry (filter isHeader items) acc)
  = snd (fold_left separateEntry items acc).
Proof.
  induction items as [|e items IH]; intro acc; [reflexivity|].
  cbn [filter fold_left]. unfold isHeader at 1.
  assert (Hacc : forall l a b,
    snd a = snd b ->
    snd (fold_left separateEntry l a) = snd (fold_left separateEntry l b)).
  { clear. induction l as [|x l IH]; intros a b Hab; [exact Hab|].
    cbn [fold_left]. apply IH. unfold separateEntry.
    destruct (isHeaderName _); cbn [snd]; rewrite Hab; reflexivity. }
  destruct (isHeaderName (nameOf e)) eqn:Eh.
  - cbn [fold_left]. apply IH.
  - rewrite IH. apply Hacc. unfold separateEntry. fold (nameOf e).
    rewrite Eh. reflexivity.
Qed.

Lemma no_header_no_fields : forall items : list CpioEntry,
  filter isHeader items = [] ->
  saveTime (parseHipContent items) = []
  /\ metadata (parseHipContent items) = [].
Proof.
  intros items H.
  destruct (parseHipContent_header items) as (Ht & Hm & _).
  assert (E : snd (separateEntries (filter isHeader items))
              = snd (separateEntries items))
    by apply separateEntries_header.
  rewrite Ht, Hm, <- E, H. split; reflexivity.
Qed.

(** X25. The save time and the metadata of a Scene come from the
    scene-level header files alone: the other entries change neither,
    and without a header file the save time is empty and there is no
    metadata. *)
Theorem header_from_header_files : forall items : list CpioEntry,
  saveTime (parseHipContent items)
  = saveTime (parseHipContent (filter isHeader items))
  /\ metadata (parseHipContent items)
     = metadata (parseHipContent (filter isHeader items))
  /\ (filter isHeader items = [] ->
      saveTime (parseHipContent items) = []
      /\ metadata (parseHipContent items) = []).
Proof.
  intro items.
  destruct (parseHipContent_header items) as (Ht & Hm & _).
  destruct (parseHipContent_header (filter isHeader items)) as (Ht' & Hm' & _).
  assert (E : snd (separateEntries (filter isHeader items))
              = snd (separateEntries items))
    by apply separateEntries_header.
  split; [rewrite Ht, Ht', E; reflexivity|].
  split; [rewrite Hm, Hm', E; reflexivity|].
  apply no_header_no_fields.
Qed.

(** X26. An entry named .hip or .OPfallbacks is not taken for a header
    file, though the parser lists both names: normalizing the name drops
    the leading dot first. Such entries give neither save time nor
    metadata. *)
Theorem dot_named_entries_are_no_headers : forall items : list CpioEntry,
  Forall (fun e => filename e = lit ".hip" \/ filename e = lit ".OPfallbacks")
         items ->
  Forall (fun e => isHeaderName (nameOf e) = false
                   /\ nameOf e = skipn 1 (filename e)) items
  /\ saveTime (parseHipContent items) = []
  /\ metadata (parseHipContent items) = [].
Proof.
  intros items H.
  assert (Hno : Forall (fun e => isHeaderName (nameOf e) = false
                                 /\ nameOf e = skipn 1 (filename e)) items).
  { induction H as [|e items He Hitems IH]; constructor; [|exact IH].
    unfold nameOf. destruct He as [-> | ->]; split; reflexivity. }
  split; [exact Hno|]. apply no_header_no_fields.
  induction Hno as [|e items [He _] Hitems IH]; [reflexivity|].
  cbn [filter]. unfold isHeader at 1. rewrite He. apply IH.
  inversion H. assumption.
Qed.

End HeaderFacts.

Section HeaderSample.

Lemma dot_named_entries_are_no_headers_witness :
  nameOf header_sample = lit "hip"
  /\ saveTime (parseHipContent [header_sample]) = []
  /\ metadata (parseHipContent [header_sample]) = [].
Proof.
  destruct (dot_named_entries_are_no_headers [header_sample]) as (H1 & H2 & H3).
  - constructor; [left; reflexivity|constructor].
  - split; [reflexivity|]. split; assumption.
Defined.

End HeaderSample.

Section PipelineFacts.

Import Pipeline.

Lemma existsb_hash : forall (all : list Cache.HipFileEntry) entry,
  existsb (fun e => str_eqb (Cache.hash e) (Cache.hash entry)) all = true
  <-> In (Cache.hash entry) (map Cache.hash all).
Proof.
  intros all entry. rewrite existsb_exists, in_map_iff. split.
  - intros (e & He & Heq). apply str_eqb_eq in Heq. eauto.
  - intros (e & Heq & He). exists e. split; [exact He|].
    apply str_eqb_eq. exact Heq.
Qed.

(** X27. Adding the cached files to the entries of a run keeps the
    entries gathered so far in front, adds cached entries only, leaves no
    cached hash out, and adds no hash that is already there: when the
    entries gathered had distinct hashes, so have the entries handed to
    extraction. *)
Theorem cached_entries_added :
  forall (allEntries cached : list Cache.HipFileEntry),
  let merged := addCachedEntries allEntries cached in
  (exists added, merged = allEntries ++ added
                 /\ (forall e, In e added -> In e cached)
                 /\ (forall e, In e added ->
                               ~ In (Cache.hash e) (map Cache.hash allEntries))
                 /\ NoDup (map Cache.hash added))
  /\ (forall e, In e cached -> In (Cache.hash e) (map Cache.hash merged))
  /\ (NoDup (map Cache.hash allEntries) -> NoDup (map Cache.hash merged)).
Proof.
  intros allEntries cached. cbv zeta. unfold addCachedEntries.
  revert allEntries.
  induction cached as [|c cached IH]; intro allEntries; cbn [fold_left].
  - split; [|split].
    + exists []. rewrite app_nil_r. repeat split; try constructor;
        intros e [].
    + intros e [].
    + auto.
  - destruct (existsb (fun e => str_eqb (Cache.hash e) (Cache.hash c))
                allEntries) eqn:E; cbn [negb].
    + destruct (IH allEntries) as ((added & Hm & Hin & Hnew & Hnd) & Hall & Hk).
      apply existsb_hash in E. split; [|split].
      * exists added. repeat split; auto.
        intros e He. right. apply Hin. exact He.
      * intros e [<-|He]; [|apply Hall; exact He].
        rewrite Hm, map_app. apply in_or_app. left. exact E.
      * exact Hk.
    + destruct (IH (allEntries ++ [c]))
        as ((added & Hm & Hin & Hnew & Hnd) & Hall & Hk).
      assert (Hc : ~ In (Cache.hash c) (map Cache.hash allEntries)).
      { intro H. apply existsb_hash in H. congruence. }
      split; [|split].
      * exists (c :: added). split; [|split; [|split]].
        -- rewrite Hm, <- app_assoc. reflexivity.
        -- intros e [<-|He]; [left; reflexivity|right; apply Hin; exact He].
        -- intros e [<-|He]; [exact Hc|].
           intro H. apply (Hnew e He). rewrite map_app. apply in_or_app.
           left. exact H.
        -- cbn [map]. constructor; [|exact Hnd].
           intro H. apply in_map_iff in H. destruct H as (e & Heq & He).
           apply (Hnew e He). rewrite Heq, map_app. apply in_or_app. right.
           left. reflexivity.
      * intros e [<-|He]; [|apply Hall; exact He].
        rewrite Hm, !map_app. apply in_or_app. left. apply in_or_app. right.
        left. reflexivity.
      * intro Hnd0. apply Hk. rewrite map_app. 
        apply NoDup_app; [exact Hnd0|repeat constructor; intros []|].
        intros h Hh [<-|[]]. exact (Hc Hh).
Qed.

End PipelineFacts.
